(* ===== verification/_CoqProject ===== *)
-Q . S2P
Prelude.v
Lru.v
LogFilter.v
Dynamic.v
Metafilter.v
LoggingService.v
LoggingCluster.v
Chrono.v
Profile.v
Splitter.v
Channel.v
Protocols.v
NodeConfig.v
Machine.v
MachineFacts.v
MachineBehaviour.v
Engine.v
EngineMachine.v
EngineFacts.v
EngineTheorems.v
App.v
NodeService.v
Isometrics.v
External.v
ProcessIsolate.v
ProcessSpawn.v
Http.v
Docker.v
VicodynPeer.v
VicodynProxy.v
VicodynGateway.v
VicodynApi.v
Zookeeper.v
UnicornActions.v
UnicornLock.v
UnicornMutex.v
UnicornServer.v
UnicornAuth.v
UnicornCluster.v
UnicornService.v
UnicornApi.v
Unicat.v
UnicatBackends.v
Metrics.v
Ipvs.v
Isolates.v
Uniresis.v
NodeInfo.v
Graphite.v
Postgres.v
PostgresPool.v
MetricsSender.v
Elliptics.v
UrlFetch.v
Elasticsearch.v
Mongo.v
Eblob.v
