(* ===== verification/Prelude.v ===== *)
(** * A verification library for cocaine-plugins

    The repository holds the plugins of the Cocaine application cloud: services that
    are loaded into one server process and share its event loops, its context (the
    list of published services) and its storages.  The library follows the sources
    under [src/] function by function: a mutable object is a record, a member function
    that mutates it and may throw is a function in the state and exception monad [ST]
    of this file, an enumeration or a class hierarchy is an inductive type, and every
    loop is a recursion that is proved to end.

    ** The parts of the program and the files that model them

    - The cache service ([cache/]): [Lru.v].  [impl] is the class template
      [lru_cache] with its linked list of addressed nodes and its hash map of
      iterators, [service] is [cache_t], [spec] is the recency list they implement.
    - The logging service ([logging/]): [LogFilter.v] is the filter language
      ([filter.cpp]: conversions, comparisons, the filter classes, the factories, the
      printer), [Metafilter.v] the set of filters of one logger ([metafilter.cpp]),
      [LoggingService.v] the service ([logging_v2.cpp]), with a heap of metafilters
      because pointers to them are kept by the context's logger after a name is
      erased.  The radix tree of names is a class with the one law the service relies
      on and a concrete instance.  [LoggingCluster.v] is the subscription of that service
      to the filters of the cluster, with its retry timer, and the named loggers.
      [Dynamic.v] holds the accessors of [dynamic_t] that every configuration is read with.
    - The timer service ([chrono/]): [Chrono.v].
    - The node service ([node/]) runs applications in pools of worker processes:
      - [Profile.v]: the limits of an application ([profile.cpp]) and their checks;
      - [Splitter.v]: the output of a worker, cut into lines ([util/splitter.hpp],
        [machine_t::output] and [dump]);
      - [Channel.v]: the two streams of one request ([slave/channel.cpp],
        [dispatch/client.cpp], [dispatch/worker.cpp]);
      - [Machine.v]: one worker ([slave/machine.cpp], the seven states of
        [slave/state/], [slave/control.cpp], [slave/spawn_handle.cpp], [slave.cpp]);
        [MachineFacts.v] holds its invariant and safety, [MachineBehaviour.v] what its
        operations do and the races the code has;
      - [Engine.v]: the pool and the queue ([engine.cpp], [overseer.cpp]), written
        against the class [Slave] that states what the engine expects of a worker;
        [EngineMachine.v] shows that the state machine of [Machine.v] is such a worker;
        [EngineFacts.v] and [EngineTheorems.v] hold the theorems;
      - [App.v]: applications ([app.cpp]) and the table of them ([node.cpp]);
      - [NodeService.v]: the service in front of the table ([node.cpp]): the authorization
        with its audit, the control streams, and who keeps which overseer alive;
      - [NodeConfig.v]: manifests and what else is read from a storage through a cache
        ([manifest.cpp], [cached.hpp]), the messages of the error codes ([error.cpp]), the
        metrics of an application by name ([stats.cpp]);
      - [Isometrics.v]: the sampler of the metrics of the workers ([isometrics.cpp]);
      - [NodeInfo.v]: the report of an application, its engine and its slaves ([info/],
        [engine_t::info], the states of [app.cpp]);
      - [External.v]: the isolate that asks a daemon to spool and spawn workers
        ([isolate/external.cpp]);
      - [ProcessIsolate.v] and [ProcessSpawn.v]: the isolate that forks them
        ([isolate/process.cpp]): the end of a worker and the reading of its output
        ([isolate/fetcher.cpp]) in the first, the unpacking of its archive, the fork and
        the control groups in the second ([process/archive.cpp], [process/cgroup.cpp]).
    - The isolate of containers ([docker/]): [Http.v] is the client of HTTP ([http.cpp]
      and the first half of [docker_client.cpp]: headers, endpoints, connecting, the
      callbacks of curl), [Docker.v] the requests of the daemon and the isolate
      ([docker_client.cpp], [isolate.cpp]), which uses the fetcher of
      [ProcessIsolate.v].  [Isolates.v] states what an application needs of an isolate and
      runs applications over both.
    - The gateway of applications ([vicodyn/]) forwards the requests of a client to one
      of the nodes that run the application: [VicodynPeer.v] is the connection to a node
      and the tables of nodes ([peer.cpp]), [VicodynProxy.v] one request with its
      buffering and retries ([proxy.cpp], [request_context.cpp]), [VicodynGateway.v] the
      gateway and the choice of a node ([gateway/vicodyn.cpp], [balancer/simple.cpp]),
      [VicodynApi.v] what the gateway tells of itself.
    - The coordination service ([unicorn/]) over ZooKeeper: [Zookeeper.v] is the
      connection with its watches ([zookeeper/connection.cpp], [zookeeper.cpp]),
      [UnicornActions.v] the actions of the backend as callback machines
      ([unicorn/zookeeper.cpp]), [UnicornServer.v] runs them against any server
      with the documented behaviour, of which a tree of nodes is an instance, [UnicornLock.v] and [UnicornMutex.v] are about locks, [UnicornAuth.v] about
      access ([authorization/unicorn.cpp]), [UnicornCluster.v] about the announcement and
      the discovery of nodes ([cluster/unicorn.cpp]), [UnicornService.v] about one
      request ([service/unicorn.cpp]), [UnicornApi.v] about the table of requests with the
      types of their answers, the configuration and the log of the client library
      ([repository/zookeeper.cpp]).
    - The access control service ([unicat/]): [Unicat.v], and [UnicatBackends.v] for the
      two places where the records are ([backend/]).  The records it changes are those
      [UnicornAuth.v] reads.
    - The metrics service ([metrics/]): [Metrics.v], queries and the two formats of the
      answer.
    - The gateway over the virtual servers of the kernel ([ipvs/gateway.cpp]): [Ipvs.v].
    - The service of resources ([uniresis/]): [Uniresis.v].
    - The Graphite service ([graphite/]): [Graphite.v].
    - The pool of connections and the index of a storage ([postgres/]): [Postgres.v], where
      the pool has no threads, and [PostgresPool.v], where it has them and refines the
      first; the sender of metrics over that pool ([metrics/src/sender/]): [MetricsSender.v].
    - The storages and fetchers: [Elliptics.v] ([elliptics/]: the storage and its service),
      [Mongo.v] ([mongo/]), [Eblob.v] ([eblob/]), [UrlFetch.v] ([urlfetch/]), [Elasticsearch.v]
      ([elasticsearch/], over the fetcher of [UrlFetch.v]).
    - The protocols: [Protocols.v] has the headers under [idl/] as data, with the messages
      that every dispatch of the repository serves (the echo service is one of them).

    [App] owns an [Engine], which owns the slaves; a slave calls back into the engine
    when it dies (the cleanup handler) and when a channel closes (a posted rebalance).

    ** How time, concurrency and the outside are modelled

    A handler runs atomically, as under its locks; handlers posted to an event loop
    are kept in a list and may run in any order, and expired timers, answers of other
    services, failing writes and the destruction of unreferenced objects are events
    with their results as arguments.  The theorems quantify over all sequences of
    events.  Clock readings, random numbers, uuids and what an external service
    answers are arguments.  Integers keep the width they have in the source ([u64],
    [i64], [i32], [u32] of this file); doubles are the Standard Library's binary64.
    A crash (a null or dangling pointer, a failed assertion, a division by zero) is an
    outcome of its own, never a default value.  A callback that a handler calls inside a
    [try] may throw: what it throws is an argument, and the second call that this leads to
    is part of the model ([UnicornActions.v], [UnicornAuth.v], [Postgres.v], [App.v]).
    Where C++ leaves the order of evaluation open ([Ipvs.v], [Metrics.v]), the order is an
    argument too.

    ** What the theorems show

    - Cache: every sequence of requests gets the replies of the recency list.
    - Filters: printing and parsing are inverse but for severities that no [int] has, a
      filter never throws and decides by
      its boolean meaning, the metafilter is the disjunction of its live filters, the
      service routes by the longest prefix, keeps its invariant under every sequence
      of requests and callbacks, and cleans up expired filters only.
    - Timers: live timers have distinct open streams, nothing follows a close.
    - Channels: the owner is notified exactly when both sides are closed, callbacks are
      made once.
    - Slaves: no handler of a fair run meets a null or destroyed object; the cleanup
      handler is called at most once and never after [terminate]; what [shutdown],
      [inject] and the end of sealing do on each branch.
    - Engine: loads, pool, queue and backoff stay within their bounds in every
      reachable state; the queue is served in order by a least loaded slave; requests
      are refused exactly when the queue is full; what the direct and the automatic
      policy do to the pool.
    - The node service: a control stream always has its overseer, and an overseer that is
      not an application's has a control stream; requests without permission change nothing
      but the audit.
    - Protocols: which channels can be ended, which messages nobody serves; the dispatches
      of a request follow the stream of their protocol, and the answers of the unicorn have
      the types of theirs.
    - Applications: publication follows the number of workers with hysteresis; a start
      request is answered once per answer of the isolate, and again only when its callback
      threw; the table of applications.
    - Isolates: no worker of a process or a container is ever measured; a request to the external isolate waits in one place or is settled once,
      in every run; the uptime of an application grows as the uptimes of its workers do, from
      what the hub of metrics has kept of them;
      a forked worker gets its own pipe and no other descriptor, and is waited for until
      it is collected; an archive is unpacked entry by entry into its directory.
    - Reports: what is said of the pool, the queue and the state of an application is so
      in every reachable state of the engine.
    - Containers: a worker costs the daemon three requests in a fixed order, of which the
      first that is refused is the last; headers are
      found under any spelling and a response is read back as it was written; the first
      address that answers is connected to; an application is answered once over an isolate
      that keeps its promise, and never over containers without a registry.
    - Vicodyn: the gateway refines a directory of who runs what; a stream is ended once in
      each direction, a retry replays what the client has sent, retries are bounded; a
      peer never stops trying to connect.
    - Unicorn: a watch is called once; an action answers once, or twice when its callback
      throws, and stays silent after its end; a lock is held by at most one client and released when its scope goes; an
      increment adds atomically and a put compares and sets, against any interleaving of
      other clients; [create] ends with all parents made, or with the error of the server; access is granted exactly when
      the nearest record grants it; the locator knows exactly the nodes that answered.
    - Unicat: every request is answered once, when all entities are completed; a record is
      written only after its checks; it is read back as it was written, and the
      authorization of the unicorn, which reads it, lets in and refuses whom it should.
    - Logging cluster: one chain of questions keeps the filters of the cluster coming.
    - Storages: a request of elliptics stays in its namespace and groups and a bulk read
      gives every key its own result; what Mongo finds can be read as long as nothing
      fails; what eblob has put can be got by the same process; the fetcher answers everything before it is gone.
    - Metrics: the compiler accepts exactly the printed queries and computes their
      meaning; the two formats carry the same readings.
    - IPVS: no destination is forgotten, the destructor removes them all.
    - Uniresis: the resources of a machine stay announced.
    - Graphite: no metric is lost before it is handed to the socket or sent twice, under any
      interleaving of threads; the buffer can always be sent; a batch is read back as its metrics.
    - Postgres: every request is answered once, or twice when its callback throws at a
      success, the index speaks of stored data only, the
      pool holds one request more than its limit; the threads of the pool refine it, and its
      destructor ends if and only if no request is without its slot when it begins; the
      sender goes on until it is refused or has no data.

    Some theorems are about behaviour the code does not mean to have: [>] on strings,
    filters lost on ["default"], a zero grow threshold or pool limit, the seal timeout
    and token races, the codeless death of a slave, [pause_app] releasing a neighbour,
    the loop of vicodyn's [cleanup] over an erased iterator, a peer that sticks, nodes
    that [on_node] does not forget, access to write that is never checked and a success
    for an unknown scheme in unicat, nested names of metrics, a missing virtual service,
    increments counted twice, a null session behind a refused request, the cancellation
    of a forked worker, containers that outlive their handles, a spool that is never
    answered, a tag that is not sent, short writes to Graphite, a sender that stops when
    it is refused once, an application that is paused under a control stream, metrics lost
    with a restart, a subscription that is given up, a named logger that misses new
    filters, blobs and tags that stay in Mongo, an Elasticsearch that never answers, a pool that
    locks itself in, a sender whose filter is malformed, callbacks that are called again
    with their own exceptions.

    ** Fuel and bounds

    [rebalance_loop] runs with the length of the queue as fuel: each turn that goes on
    removes a request.  [spawn_loop] runs with the number of missing slaves, and
    [seal_loop] with the number of surplus ones, as in [while (active-- > target)].
    The splitter recurs on the length of the unparsed text.  The dialogue of an action
    with the server ([converse]) has a bound of two commands per component of the path,
    which is enough to make all parents; the numbers of sequence nodes stay below 2^31,
    as ZooKeeper prints them in ten digits.  Engine theorems assume
    [sane]: a constructed profile, uuids that do not repeat, and a capacity
    ([pool_limit * concurrency]) below 2^31, as the pressure is summed in an [int].
    The ceiling in [wanted] is exact for queues shorter than 2^53.  The pool is a hash
    map whose order is unspecified: the model has one fixed order, and the theorems
    on the choice of a slave state only that it is a least loaded one.

    ** What is not modelled

    Log messages, except for what chooses their level; the encoding of messages and values
    by msgpack, a parameter where a result depends on it; the server itself (sessions,
    event loops, streams), which is not in the repository: where a theorem needs it, its
    documented behaviour is a class ([Streams], [RadixTree], the server of
    [UnicornServer.v], that of [Mongo.v]).  System calls, curl, JSON, the archive and
    control group libraries, the daemon of containers, the SQL server, the client
    libraries of elliptics, of eblob and of the fetcher are arguments or classes.
    [python/] is left out, because no build option reaches it and it consists of calls of
    the interpreter; and so is the vendored [libipvs], which is not part of the program. *)

From Stdlib Require Export ZArith Lia.
From stdpp Require Export base tactics numbers strings gmap fin_maps sets list.

#[export] Set Warnings "-clear-no-such-hyp".

(** ** Outcomes of C++ calls

    A call either returns, or throws; [Throw] carries a value of the error
    type of the component. *)

Inductive outcome (E A : Type) : Type :=
| Ret (a : A)
| Throw (e : E).
Arguments Ret {E A} a.
Arguments Throw {E A} e.

Definition outcome_bind {E A B} (m : outcome E A) (k : A -> outcome E B) : outcome E B :=
  match m with Ret a => k a | Throw e => Throw e end.

Definition returns {E A} (m : outcome E A) : bool :=
  match m with Ret _ => true | Throw _ => false end.

(** ** The state and exception monad

    C++ member functions that mutate an object and may throw: the state
    survives a [Throw] with the writes made before it, as it does in C++. *)

Definition ST (S E A : Type) : Type := S -> outcome E A * S.

Definition st_ret {S E A} (a : A) : ST S E A := fun s => (Ret a, s).
Definition st_throw {S E A} (e : E) : ST S E A := fun s => (Throw e, s).
Definition st_bind {S E A B} (m : ST S E A) (k : A -> ST S E B) : ST S E B :=
  fun s => match m s with
           | (Ret a, s') => k a s'
           | (Throw e, s') => (Throw e, s')
           end.
Definition st_get {S E} : ST S E S := fun s => (Ret s, s).
Definition st_gets {S E A} (f : S -> A) : ST S E A := fun s => (Ret (f s), s).
Definition st_modify {S E} (f : S -> S) : ST S E unit := fun s => (Ret tt, f s).
(** [try { m } catch (e) { h e }] *)
Definition st_catch {S E A} (m : ST S E A) (h : E -> ST S E A) : ST S E A :=
  fun s => match m s with
           | (Throw e, s') => h e s'
           | r => r
           end.
Definition st_when {S E} (b : bool) (m : ST S E unit) : ST S E unit :=
  if b then m else st_ret tt.

(** Running a sequence: the first call is known. *)
Lemma st_bind_Ret {S E A B} (m : ST S E A) (k : A -> ST S E B) s a s' :
  m s = (Ret a, s') -> st_bind m k s = k a s'.
Proof. unfold st_bind. by intros ->. Qed.
Lemma st_bind_Throw {S E A B} (m : ST S E A) (k : A -> ST S E B) s e s' :
  m s = (Throw e, s') -> st_bind m k s = (Throw e, s').
Proof. unfold st_bind. by intros ->. Qed.

Declare Scope cpp_scope.
Delimit Scope cpp_scope with cpp.
Notation "'let!' x := m 'in' k" := (st_bind m (fun x => k))
  (at level 10, x binder, m at level 100, k at level 200) : cpp_scope.
Notation "m ';;;' k" := (st_bind m (fun _ => k))
  (at level 199, right associativity) : cpp_scope.

(** ** Preservation of an invariant by a monadic call

    [keeps I m] says that [m] leaves every state of [I] in [I], whether it
    returns or throws.  The lemmas follow the combinators, so that a handler's
    preservation proof is a walk over its text. *)

Definition keeps {S E A} (I : S -> Prop) (m : ST S E A) : Prop :=
  forall s, I s -> I (snd (m s)).

Lemma keeps_ret {S E A} (I : S -> Prop) (a : A) : keeps I (@st_ret S E A a).
Proof. intros s Hs; exact Hs. Qed.

Lemma keeps_throw {S E A} (I : S -> Prop) (e : E) : keeps I (@st_throw S E A e).
Proof. intros s Hs; exact Hs. Qed.

Lemma keeps_gets {S E A} (I : S -> Prop) (f : S -> A) : keeps I (@st_gets S E A f).
Proof. intros s Hs; exact Hs. Qed.

Lemma keeps_get {S E} (I : S -> Prop) : keeps I (@st_get S E).
Proof. intros s Hs; exact Hs. Qed.

Lemma keeps_bind {S E A B} (I : S -> Prop) (m : ST S E A) (k : A -> ST S E B) :
  keeps I m -> (forall a, keeps I (k a)) -> keeps I (st_bind m k).
Proof.
  intros Hm Hk s Hs. unfold st_bind. specialize (Hm s Hs).
  destruct (m s) as [[a|e] s']; simpl in *; [by apply Hk | done].
Qed.

Lemma keeps_ret_bind {S E A B} (I : S -> Prop) (a : A) (k : A -> ST S E B) :
  keeps I (k a) -> keeps I (st_bind (st_ret a) k).
Proof. done. Qed.

Lemma keeps_catch {S E A} (I : S -> Prop) (m : ST S E A) (h : E -> ST S E A) :
  keeps I m -> (forall e, keeps I (h e)) -> keeps I (st_catch m h).
Proof.
  intros Hm Hh s Hs. unfold st_catch. specialize (Hm s Hs).
  destruct (m s) as [[a|e] s']; simpl in *; [done | by apply Hh].
Qed.

Lemma keeps_modify {S E} (I : S -> Prop) (f : S -> S) :
  (forall s, I s -> I (f s)) -> keeps I (@st_modify S E f).
Proof. intros Hf s Hs; by apply Hf. Qed.

Lemma keeps_when {S E} (I : S -> Prop) (b : bool) (m : ST S E unit) :
  keeps I m -> keeps I (st_when b m).
Proof. intros Hm. destruct b; [done | apply keeps_ret]. Qed.

(** [keeps_walk] takes a [keeps] goal apart along the combinators and leaves the
    primitive writes. *)
Create HintDb keeps.
#[export] Hint Resolve keeps_ret keeps_throw keeps_gets keeps_get : keeps.
Ltac keeps_step :=
  match goal with
  | |- keeps _ (st_bind _ _) => apply keeps_bind; [| intros ?]
  | |- keeps _ (st_catch _ _) => apply keeps_catch; [| intros ?]
  | |- keeps _ (st_when _ _) => apply keeps_when
  | |- keeps _ (match ?x with _ => _ end) => destruct x eqn:?
  | |- keeps _ _ => solve [eauto with keeps]
  end.
Ltac keeps_walk := repeat keeps_step.

(** ** Machine integers *)

Definition u64_modulus : Z := 2 ^ 64.
Definition u64 (z : Z) : Z := z mod u64_modulus.
(** Two's complement truncation to [w] bits. *)
Definition signed_wrap (w z : Z) : Z := (z + 2 ^ (w - 1)) mod 2 ^ w - 2 ^ (w - 1).
Definition i32 (z : Z) : Z := signed_wrap 32 z.
Definition i64 (z : Z) : Z := signed_wrap 64 z.
Definition u32 (z : Z) : Z := z mod 2 ^ 32.
Definition int64_max : Z := 2 ^ 63 - 1.

Lemma u64_small (z : Z) : (0 <= z < u64_modulus)%Z -> u64 z = z.
Proof. intros. by apply Z.mod_small. Qed.

Lemma u64_range (z : Z) : (0 <= u64 z < u64_modulus)%Z.
Proof. apply Z.mod_pos_bound. done. Qed.

Lemma u64_add_l a b : u64 (u64 a + b) = u64 (a + b).
Proof. unfold u64. apply Zplus_mod_idemp_l. Qed.
Lemma u64_add_r a b : u64 (a + u64 b) = u64 (a + b).
Proof. unfold u64. apply Zplus_mod_idemp_r. Qed.

Lemma i32_range (z : Z) : (- 2 ^ 31 <= i32 z < 2 ^ 31)%Z.
Proof.
  unfold i32, signed_wrap. pose proof (Z.mod_pos_bound (z + 2 ^ (32 - 1)) (2 ^ 32) eq_refl) as H.
  change (2 ^ (32 - 1))%Z with (2 ^ 31)%Z in *. change (2 ^ 32)%Z with (2 * 2 ^ 31)%Z in *. lia.
Qed.

Lemma i32_small (z : Z) : (- 2 ^ 31 <= z < 2 ^ 31)%Z -> i32 z = z.
Proof.
  intros Hz. unfold i32, signed_wrap.
  change (2 ^ (32 - 1))%Z with (2 ^ 31)%Z.
  rewrite Z.mod_small; lia.
Qed.

Lemma i64_small (z : Z) : (- 2 ^ 63 <= z < 2 ^ 63)%Z -> i64 z = z.
Proof.
  intros Hz. unfold i64, signed_wrap.
  change (2 ^ (64 - 1))%Z with (2 ^ 63)%Z.
  rewrite Z.mod_small; lia.
Qed.

(** ** Generic lemmas on lists and maps *)

Lemma filter_true_id {A} (P : A -> Prop) `{!forall x, Decision (P x)} (l : list A) :
  Forall P l -> filter P l = l.
Proof.
  induction 1 as [|x l Hx Hl IH]; [done|].
  rewrite filter_cons_True by done. by rewrite IH.
Qed.

Lemma Forall_filter_sub {A} (Q P : A -> Prop) `{!forall x, Decision (P x)} (l : list A) :
  Forall Q l -> Forall Q (filter P l).
Proof. rewrite !Forall_forall. intros HQ x Hx. apply list_elem_of_filter in Hx. naive_solver. Qed.

(** ** Sums of integers over lists and maps *)

Definition zsum {A} (f : A -> Z) (l : list A) : Z := foldr (fun a s => f a + s)%Z 0%Z l.

Lemma zsum_app {A} (f : A -> Z) l l' : zsum f (l ++ l') = (zsum f l + zsum f l')%Z.
Proof. induction l as [|a l IH]; [done|]. simpl. rewrite IH. lia. Qed.

Lemma zsum_perm {A} (f : A -> Z) l l' : l ≡ₚ l' -> zsum f l = zsum f l'.
Proof. induction 1; simpl; lia. Qed.

Lemma zsum_zero {A} (f : A -> Z) l : (forall a, a ∈ l -> f a = 0%Z) -> zsum f l = 0%Z.
Proof. induction l as [|a l IH]; intros H; [done|]. simpl. rewrite H, IH; [done| |by left]. intros b Hb. apply H. by right. Qed.

Lemma zsum_filter {A} (f : A -> Z) (P : A -> Prop) `{!forall a, Decision (P a)} l :
  zsum f l = (zsum f (filter P l) + zsum f (filter (fun a => ~ P a) l))%Z.
Proof.
  induction l as [|a l IH]; [done|]. rewrite !filter_cons. simpl. destruct (decide (P a)); [rewrite decide_False by tauto|rewrite decide_True by tauto];
    simpl; lia.
Qed.

(** The sum over the entries of a map *)
Definition msum {K V} `{Countable K} (f : K -> V -> Z) (m : gmap K V) : Z := zsum (fun x => f x.1 x.2) (map_to_list m).

Lemma msum_insert {K V} `{Countable K} (f : K -> V -> Z) (m : gmap K V) k v :
  msum f (<[k := v]> m) = (msum f m + f k v - from_option (f k) 0 (m !! k))%Z.
Proof.
  unfold msum. destruct (m !! k) as [w|] eqn:E; simpl.
  - rewrite <- (insert_delete_id m k w E) at 2. rewrite <- (insert_delete_eq m k v).
    rewrite !(zsum_perm _ _ _ (map_to_list_insert (delete k m) k _ (lookup_delete_eq m k))). simpl. lia.
  - rewrite (zsum_perm _ _ _ (map_to_list_insert m k v E)). simpl. lia.
Qed.

Lemma msum_delete {K V} `{Countable K} (f : K -> V -> Z) (m : gmap K V) k v :
  m !! k = Some v -> msum f (delete k m) = (msum f m - f k v)%Z.
Proof.
  intros E. pose proof (msum_insert f (delete k m) k v) as Hi. rewrite insert_delete_id, lookup_delete_eq in Hi by done. simpl in Hi. lia.
Qed.

Lemma msum_ext {K V} `{Countable K} (f g : K -> V -> Z) (m : gmap K V) :
  (forall k v, m !! k = Some v -> f k v = g k v) -> msum f m = msum g m.
Proof.
  intros Hfg. unfold msum. assert (forall x, x ∈ map_to_list m -> f x.1 x.2 = g x.1 x.2) as Hx.
  { intros [k v] Hin%elem_of_map_to_list. by apply Hfg. }
  revert Hx. generalize (map_to_list m). intros l. induction l as [|x l IH]; intros Hx; [done|]. simpl.
  rewrite Hx by (by left). rewrite IH; [done|]. intros y Hy. apply Hx. by right.
Qed.

(** [break_match] splits on the innermost scrutinee of a [match]. *)
Ltac break_match :=
  match goal with
  | |- context [match ?x with _ => _ end] =>
      lazymatch x with context [match _ with _ => _ end] => fail | _ => destruct x eqn:? end
  | H : context [match ?x with _ => _ end] |- _ =>
      lazymatch x with context [match _ with _ => _ end] => fail | _ => destruct x eqn:? end
  end.

(** [string_simpl] computes concatenations, which [simpl] leaves alone. *)
Ltac string_simpl :=
  repeat match goal with
  | |- context [String.append (String ?c ?a) ?b] =>
      change (String.append (String c a) b) with (String c (String.append a b))
  | |- context [String.append EmptyString ?b] => change (String.append EmptyString b) with b
  end.

Lemma string_app_assoc (a b c : string) : ((a ++ b) ++ c)%string = (a ++ (b ++ c))%string.
Proof. induction a as [|x a IH]; string_simpl; [done|]. by rewrite IH. Qed.
