(* ===== verification/Lru.v ===== *)
(** * The cache service: [cache/include/cocaine/lru_cache.hpp] and [cache/src/cache.cpp]

    [Module impl] is the class template [cache::lru_cache] as it is written: a
    doubly linked list of key/value nodes and a hash map from keys to list
    iterators.  An iterator is the identity of a node, so nodes carry an
    address and [splice], [erase] and [begin] act on addresses.
    [Module spec] is what the cache promises: the live entries in recency
    order, cut at the capacity.  [Module service] is [cache_t].  The theorems
    show the refinement over every sequence of calls. *)

From S2P Require Import Prelude.

Local Open Scope Z_scope.

(** ** The abstract cache *)

Module spec.
Section spec.
Context {K V : Type} {Keq : EqDecision K}.

(** The state is the list of entries, most recently used first. *)

Definition without (k : K) (c : list (K * V)) : list (K * V) := filter (fun e => e.1 <> k) c.

Fixpoint find (k : K) (c : list (K * V)) : option V :=
match c with
| [] => None
| (k', v) :: c' => if decide (k' = k) then Some v else find k c'
end.

Definition put (max : nat) (k : K) (v : V) (c : list (K * V)) : list (K * V) :=
take max ((k, v) :: without k c).

Definition get (k : K) (c : list (K * V)) : option V * list (K * V) :=
match find k c with
| None => (None, c)
| Some v => (Some v, (k, v) :: without k c)
end.
End spec.
End spec.

(** ** The class template *)

Module impl.
Section impl.
Context {K V : Type} {Keq : EqDecision K} {Kcount : Countable K}.

(** [std::range_error] thrown by [get]. *)
Inductive error := range_error.

(** One node of [std::list<key_value_pair_t>]; [addr] is what an iterator denotes. *)
Record node := mk_node { addr : nat; key : K; value : V }.

Record lru_cache := mk_lru {
_cache_items_list : list node;
_cache_items_map : gmap K nat;
_max_size : nat;
(** the allocator: the next node address *)
_next : nat
}.

Definition construct (max_size : nat) : lru_cache := mk_lru [] ∅ max_size 0.

(** [_cache_items_list.erase(it)] *)
Definition list_erase (it : nat) (l : list node) : list node :=
filter (fun n => addr n <> it) l.

(** The node an iterator denotes. *)
Definition deref (it : nat) (l : list node) : option node :=
head (filter (fun n => addr n = it) l).

(** [_cache_items_list.splice(begin(), _cache_items_list, it)] *)
Definition list_splice_front (it : nat) (l : list node) : list node :=
match deref it l with
| Some n => n :: list_erase it l
| None => l
end.

(** The eviction at the end of [put]: [last = end(); last--; ...]. *)
Definition evict (c : lru_cache) : lru_cache :=
match last (_cache_items_list c) with
| Some n => mk_lru (take (length (_cache_items_list c) - 1) (_cache_items_list c))
                   (delete (key n) (_cache_items_map c)) (_max_size c) (_next c)
| None => c
end.

Definition drop_old (k : K) (c : lru_cache) : lru_cache :=
match _cache_items_map c !! k with
| Some it => mk_lru (list_erase it (_cache_items_list c))
                    (delete k (_cache_items_map c)) (_max_size c) (_next c)
| None => c
end.

Definition push_front (k : K) (v : V) (c : lru_cache) : lru_cache :=
mk_lru (mk_node (_next c) k v :: _cache_items_list c)
       (<[k := _next c]> (_cache_items_map c)) (_max_size c) (S (_next c)).

Definition put (k : K) (v : V) (c : lru_cache) : lru_cache :=
let c := push_front k v (drop_old k c) in
if bool_decide (_max_size c < size (_cache_items_map c))%nat then evict c else c.

Definition get (k : K) (c : lru_cache) : outcome error V * lru_cache :=
match _cache_items_map c !! k with
| None => (Throw range_error, c)
| Some it =>
    let l := list_splice_front it (_cache_items_list c) in
    let c' := mk_lru l (_cache_items_map c) (_max_size c) (_next c) in
    match deref it l with
    | Some n => (Ret (value n), c')
    | None => (Throw range_error, c')   (* a dangling iterator: excluded by [wf] *)
    end
end.

Definition exists_ (k : K) (c : lru_cache) : bool :=
match _cache_items_map c !! k with Some _ => true | None => false end.

Definition size_ (c : lru_cache) : nat := size (_cache_items_map c).

(** *** The representation invariant *)

Definition entry (n : node) : K * V := (key n, value n).
Definition abs (c : lru_cache) : list (K * V) := entry <$> _cache_items_list c.

(** The map holds exactly the addresses of the list's nodes under their keys. *)
Record rep (c : lru_cache) : Prop := {
rep_keys : NoDup (key <$> _cache_items_list c);
rep_addrs : NoDup (addr <$> _cache_items_list c);
rep_fresh : Forall (fun n => addr n < _next c)%nat (_cache_items_list c);
rep_map : forall k it, _cache_items_map c !! k = Some it
          <-> exists n, n ∈ _cache_items_list c /\ key n = k /\ addr n = it
}.

Definition wf (c : lru_cache) : Prop :=
rep c /\ (length (_cache_items_list c) <= _max_size c)%nat.
End impl.
Arguments lru_cache : clear implicits.
Arguments lru_cache K V {_ _}.
Arguments node : clear implicits.
End impl.

(** ** The service [cache_t] *)

Module service.
Import impl.

Abbreviation cache_t := (lru_cache string string).

(** The constructor reads ["max-size"], 1000000 by default. *)
Definition cache_t_construct (max_size : option nat) : cache_t :=
construct (match max_size with Some n => n | None => Z.to_nat 1000000 end).

Definition put (k v : string) (c : cache_t) : cache_t := impl.put k v c.

(** [exists] and [get] run under one lock; the result is the pair of the
  protocol.  [get] cannot throw after [exists], which [service_get_total]
  proves. *)
Definition get (k : string) (c : cache_t) : outcome error (bool * string) * cache_t :=
if exists_ k c
then match impl.get k c with
     | (Ret v, c') => (Ret (true, v), c')
     | (Throw e, c') => (Throw e, c')
     end
else (Ret (false, ""%string), c).

(** A session's requests and the replies it observes. *)
Inductive request := Put (k v : string) | Get (k : string).

Fixpoint run (rs : list request) (c : cache_t) : list (outcome error (bool * string)) * cache_t :=
match rs with
| [] => ([], c)
| Put k v :: rs => run rs (put k v c)
| Get k :: rs => let '(r, c') := get k c in
                 let '(os, c'') := run rs c' in (r :: os, c'')
end.

(** What the protocol promises, on the abstract cache. *)
Fixpoint run_spec (max : nat) (rs : list request) (c : list (string * string))
: list (outcome error (bool * string)) * list (string * string) :=
match rs with
| [] => ([], c)
| Put k v :: rs => run_spec max rs (spec.put max k v c)
| Get k :: rs =>
    let '(r, c') := spec.get k c in
    let reply := Ret match r with Some v => (true, v) | None => (false, ""%string) end in
    let '(os, c'') := run_spec max rs c' in (reply :: os, c'')
end.
End service.

(** ** Facts *)

Module facts.
Import impl.
Section facts.
Context {K V : Type} {Keq : EqDecision K} {Kcount : Countable K}.
Implicit Types (c : lru_cache K V) (n : node K V) (l : list (node K V)).

Lemma NoDup_fmap_inj {A B} (f : A -> B) (l : list A) (x y : A) :
NoDup (f <$> l) -> x ∈ l -> y ∈ l -> f x = f y -> x = y.
Proof.
induction l as [|z l IH]; [set_solver|].
rewrite fmap_cons, NoDup_cons. intros [Hz Hnd] Hx Hy Heq.
apply elem_of_cons in Hx as [->|Hx]; apply elem_of_cons in Hy as [->|Hy]; auto.
- destruct Hz. rewrite Heq. by apply list_elem_of_fmap_2.
- destruct Hz. rewrite <- Heq. by apply list_elem_of_fmap_2.
Qed.

Lemma NoDup_fmap_filter {A B} (f : A -> B) (P : A -> Prop) `{!forall x, Decision (P x)} (l : list A) :
NoDup (f <$> l) -> NoDup (f <$> filter P l).
Proof. intros Hnd. eapply sublist_NoDup; [exact Hnd|]. apply fmap_sublist, sublist_filter. Qed.

Lemma deref_in l n : NoDup (addr <$> l) -> n ∈ l -> deref (addr n) l = Some n.
Proof.
intros Hnd Hin. unfold deref.
destruct (filter (fun m => addr m = addr n) l) as [|m ms] eqn:Hf; simpl.
- assert (n ∈ filter (fun m => addr m = addr n) l) as H
    by (by apply list_elem_of_filter). rewrite Hf in H. set_solver.
- assert (m ∈ filter (fun m => addr m = addr n) l) as H by (rewrite Hf; set_solver).
  apply list_elem_of_filter in H as [Ha Hm]. f_equal.
  by eapply NoDup_fmap_inj.
Qed.

Lemma find_abs l n : NoDup (key <$> l) -> n ∈ l -> spec.find (key n) (entry <$> l) = Some (value n).
Proof.
induction l as [|m l IH]; [set_solver|].
intros Hnd Hin. rewrite fmap_cons. simpl. case_decide as Hk.
- f_equal. f_equal. eapply (NoDup_fmap_inj key (m :: l)); eauto; set_solver.
- rewrite fmap_cons, NoDup_cons in Hnd. apply IH; [tauto|set_solver].
Qed.

Lemma find_abs_None k l : (forall n, n ∈ l -> key n <> k) -> spec.find k (entry <$> l) = None.
Proof.
induction l as [|m l IH]; [done|]. intros H. rewrite fmap_cons; simpl.
case_decide; [exfalso; eapply (H m); set_solver|]. apply IH; set_solver.
Qed.

(** Erasing by address is removing by key. *)
Lemma erase_abs l n :
NoDup (key <$> l) -> NoDup (addr <$> l) -> n ∈ l ->
entry <$> list_erase (addr n) l = spec.without (key n) (entry <$> l).
Proof.
intros Hk Ha Hin. unfold list_erase, spec.without.
assert (forall m, m ∈ l -> (addr m = addr n <-> key m = key n)) as Heq.
{ intros m Hm; split; intros E; f_equal.
  - by apply (NoDup_fmap_inj addr l). - by apply (NoDup_fmap_inj key l). }
clear Hk Ha Hin. induction l as [|m l IH]; [done|].
assert (addr m = addr n <-> key m = key n) as Hm by (apply Heq; set_solver).
rewrite fmap_cons. destruct (decide (key m = key n)) as [Hk|Hk].
- do 2 rewrite filter_cons_False by (simpl; tauto). apply IH. set_solver.
- do 2 rewrite filter_cons_True by (simpl; tauto). rewrite fmap_cons. f_equal.
  apply IH. set_solver.
Qed.

Lemma without_absent k l : (forall n, n ∈ l -> key n <> k) ->
spec.without k (entry <$> l) = entry <$> l.
Proof.
intros H. apply filter_true_id. apply Forall_fmap, Forall_forall. intros n Hn. by apply H.
Qed.

Lemma rep_lookup_None c k : rep c -> _cache_items_map c !! k = None ->
forall n, n ∈ _cache_items_list c -> key n <> k.
Proof.
intros Hr Hn n Hin <-.
assert (_cache_items_map c !! key n = Some (addr n)) by (apply (rep_map c Hr); eauto).
congruence.
Qed.

Lemma rep_map_eq c : rep c ->
_cache_items_map c = list_to_map ((fun n => (key n, addr n)) <$> _cache_items_list c).
Proof.
intros Hr. apply map_eq. intros k.
apply option_eq. intros it. rewrite (rep_map c Hr).
rewrite <- elem_of_list_to_map.
- rewrite list_elem_of_fmap. naive_solver.
- rewrite <- list_fmap_compose. exact (rep_keys c Hr).
Qed.

Lemma rep_size c : rep c -> size (_cache_items_map c) = length (_cache_items_list c).
Proof.
intros Hr. rewrite rep_map_eq by done.
rewrite map_size_list_to_map by (rewrite <- list_fmap_compose; exact (rep_keys c Hr)).
by rewrite length_fmap.
Qed.

Lemma drop_old_rep c k : rep c ->
rep (drop_old k c) /\ abs (drop_old k c) = spec.without k (abs c) /\
_cache_items_map (drop_old k c) !! k = None /\
_max_size (drop_old k c) = _max_size c.
Proof.
intros Hr. unfold drop_old, abs. destruct (_cache_items_map c !! k) as [it|] eqn:Hk; simpl.
2: { rewrite without_absent; [done|]. by apply rep_lookup_None. }
pose proof Hk as Hk'. apply (rep_map c Hr) in Hk' as (n & Hin & <- & <-).
destruct Hr as [Hkeys Haddrs Hfresh Hmap]. split_and!; try done.
- constructor; simpl.
  + by apply NoDup_fmap_filter.
  + by apply NoDup_fmap_filter.
  + by apply Forall_filter_sub.
  + intros k it. rewrite lookup_delete_Some, Hmap. unfold list_erase.
    setoid_rewrite list_elem_of_filter. split.
    * intros (Hne & m & Hm & <- & <-). exists m. split_and!; try done.
      intros Ha. apply Hne. f_equal. by apply (NoDup_fmap_inj addr (_cache_items_list c)).
    * intros (m & (Ha & Hm) & <- & <-). split; [|by eauto].
      intros E. apply Ha. f_equal. by apply (NoDup_fmap_inj key (_cache_items_list c)).
- by apply erase_abs.
- apply lookup_delete_eq.
Qed.

Lemma push_front_rep c k v : rep c -> _cache_items_map c !! k = None ->
rep (push_front k v c) /\ abs (push_front k v c) = (k, v) :: abs c.
Proof.
intros Hr Hk. pose proof (rep_lookup_None c k Hr Hk) as Hne.
destruct Hr as [Hkeys Haddrs Hfresh Hmap]. rewrite Forall_forall in Hfresh.
split; [|done]. constructor; simpl.
- rewrite NoDup_cons, list_elem_of_fmap. split; [naive_solver|done].
- rewrite NoDup_cons, list_elem_of_fmap. split; [|done].
  intros (n & Ha & Hn). apply Hfresh in Hn. lia.
- constructor; simpl; [lia|]. apply Forall_forall. intros n Hn. apply Hfresh in Hn. lia.
- intros k' it. rewrite lookup_insert_Some, Hmap. setoid_rewrite elem_of_cons. split.
  + intros [[-> <-]|(Hk' & n & Hn & <- & <-)]; [eexists; split_and!; [by left|done|done]|eauto 6].
  + intros (n & [->|Hn] & <- & <-); [by left|right]. split; [|eauto].
    intros E. by apply (Hne n).
Qed.

Lemma evict_rep c : rep c ->
rep (evict c) /\ abs (evict c) = take (length (abs c) - 1) (abs c) /\
length (_cache_items_list (evict c)) = (length (_cache_items_list c) - 1)%nat /\
_max_size (evict c) = _max_size c.
Proof.
intros Hr. unfold evict, abs. destruct (last (_cache_items_list c)) as [n|] eqn:Hl.
2: { apply last_None in Hl. by rewrite Hl. }
apply last_Some in Hl as [l Hl].
destruct Hr as [Hkeys Haddrs Hfresh Hmap]. simpl. rewrite Hl in *.
rewrite length_app, length_fmap, length_app; simpl.
replace (length l + 1 - 1)%nat with (length l) by lia. rewrite take_app_length.
rewrite !fmap_app in *. apply NoDup_app in Hkeys as (Hkeys & Hkd & _).
apply NoDup_app in Haddrs as (Haddrs & Had & _). apply Forall_app in Hfresh as [Hfresh _].
split_and!; try done; [|by rewrite <- (length_fmap entry l), take_app_length].
constructor; simpl; try done. intros k it. rewrite lookup_delete_Some, Hmap. split.
- intros (Hne & m & Hm & <- & <-). apply elem_of_app in Hm as [Hm|Hm]; [by eauto|].
  apply list_elem_of_singleton in Hm as ->. done.
- intros (m & Hm & <- & <-). split.
  + intros E. apply (Hkd (key m)); [by apply list_elem_of_fmap_2|]. rewrite <- E. set_solver.
  + exists m. set_solver.
Qed.

Lemma without_length k (l : list (K * V)) : (length (spec.without k l) <= length l)%nat.
Proof. apply length_filter. Qed.

Lemma put_refines c k v : wf c ->
wf (put k v c) /\ abs (put k v c) = spec.put (_max_size c) k v (abs c) /\
_max_size (put k v c) = _max_size c.
Proof.
intros [Hr Hlen]. unfold put.
destruct (drop_old_rep c k Hr) as (Hr1 & Habs1 & Hk1 & Hm1).
destruct (push_front_rep (drop_old k c) k v Hr1 Hk1) as (Hr2 & Habs2).
set (c2 := push_front k v (drop_old k c)) in *.
assert (_max_size c2 = _max_size c) as Hm2 by done.
assert (abs c2 = (k, v) :: spec.without k (abs c)) as Habs by (rewrite Habs2; by f_equal).
assert (length (abs c2) = length (_cache_items_list c2)) as Hl2 by apply length_fmap.
assert (length (abs c2) <= S (_max_size c))%nat as Hle.
{ rewrite Habs. simpl. pose proof (without_length k (abs c)). unfold abs in *.
  rewrite length_fmap in *. lia. }
rewrite (rep_size c2 Hr2), Hm2. unfold spec.put. rewrite <- Habs. case_bool_decide.
- destruct (evict_rep c2 Hr2) as (Hr3 & Habs3 & Hl3 & Hm3). unfold wf.
  rewrite Hl3, Hm3, Hm2. split_and!; try done; [lia|].
  rewrite Habs3. f_equal. lia.
- split_and!; try done; [split; [done|lia]|]. rewrite take_ge by lia. done.
Qed.

(** Moving a node to the front permutes the list. *)
Lemma splice_perm l n : NoDup (addr <$> l) -> n ∈ l -> n :: list_erase (addr n) l ≡ₚ l.
Proof.
induction l as [|m l IH]; [set_solver|].
rewrite fmap_cons, NoDup_cons. intros [Hm Hnd] Hin. unfold list_erase in *.
destruct (decide (addr m = addr n)) as [Ha|Ha].
- rewrite filter_cons_False by (simpl; tauto).
  assert (n = m) as ->.
  { apply elem_of_cons in Hin as [->|Hin]; [done|]. destruct Hm. rewrite Ha.
    by apply list_elem_of_fmap_2. }
  f_equiv. rewrite filter_true_id; [done|]. apply Forall_forall. intros x Hx E.
  apply Hm. rewrite <- E. by apply list_elem_of_fmap_2.
- rewrite filter_cons_True by done.
  apply elem_of_cons in Hin as [->|Hin]; [done|].
  rewrite <- (IH Hnd Hin) at 2. apply Permutation_swap.
Qed.

Lemma get_refines c k : wf c ->
(get k c).1 = match (spec.get k (abs c)).1 with Some v => Ret v | None => Throw range_error end /\
wf (get k c).2 /\ abs (get k c).2 = (spec.get k (abs c)).2 /\
_max_size (get k c).2 = _max_size c.
Proof.
intros [Hr Hlen]. unfold get, spec.get. destruct (_cache_items_map c !! k) as [it|] eqn:Hk.
2: { unfold abs. rewrite find_abs_None; [done|]. by apply rep_lookup_None. }
apply (rep_map c Hr) in Hk as (n & Hin & <- & <-).
pose proof (find_abs _ n (rep_keys c Hr) Hin) as Hf. fold (abs c) in Hf. rewrite Hf.
unfold list_splice_front. rewrite (deref_in _ n (rep_addrs c Hr) Hin).
assert (deref (addr n) (n :: list_erase (addr n) (_cache_items_list c)) = Some n) as ->.
{ unfold deref. by rewrite filter_cons_True. }
destruct Hr as [Hkeys Haddrs Hfresh Hmap]. simpl.
pose proof (splice_perm _ n Haddrs Hin) as Hperm.
unfold wf, abs; cbn. split_and!; try done.
- constructor; cbn [_cache_items_list _cache_items_map _next]; try by rewrite Hperm.
  intros k it. rewrite Hmap. by setoid_rewrite Hperm.
- apply Permutation_length in Hperm. simpl in Hperm. lia.
- rewrite erase_abs; done.
Qed.

Lemma exists_refines c k : wf c ->
exists_ k c = match (spec.get k (abs c)).1 with Some _ => true | None => false end.
Proof.
intros [Hr _]. unfold exists_, spec.get.
destruct (_cache_items_map c !! k) as [it|] eqn:Hk.
- apply (rep_map c Hr) in Hk as (n & Hin & <- & <-).
  unfold abs. by rewrite (find_abs _ n (rep_keys c Hr) Hin).
- unfold abs. rewrite find_abs_None; [done|]. by apply rep_lookup_None.
Qed.

Lemma lru_construct_wf (max : nat) : wf (construct (K := K) (V := V) max).
Proof.
split; [|simpl; lia]. constructor; simpl; try constructor.
- by rewrite lookup_empty.
- intros (n & Hn & _). set_solver.
Qed.
End facts.
End facts.

(** ** Theorems *)

Module theorems.
Import impl service facts.

(** C5: refinement of the cache service.  Every sequence of [put] and [get]
  requests, started from a well formed cache, gives the replies of the
  recency list of at most [max-size] entries, and leaves the cache well formed
  and related to that list. *)
Theorem service_refines_recency_list (rs : list request) (c : cache_t) :
wf c ->
(run rs c).1 = (run_spec (_max_size c) rs (abs c)).1 /\
wf (run rs c).2 /\
abs (run rs c).2 = (run_spec (_max_size c) rs (abs c)).2.
Proof.
revert c. induction rs as [|[k v|k] rs IH]; intros c Hwf; [done| |]; simpl.
- unfold service.put. destruct (put_refines c k v Hwf) as (Hwf' & Habs & Hm).
  rewrite <- Habs, <- Hm. by apply IH.
- unfold service.get. rewrite (exists_refines c k Hwf).
  destruct (get_refines c k Hwf) as (Hr & Hwf' & Habs & Hm).
  destruct (spec.get k (abs c)) as [[v|] c'] eqn:Hg, (impl.get k c) as [r c'']; simpl in *; subst r.
  + destruct (IH c'' Hwf') as (Ho & Hw & Ha). rewrite Hm, Habs in *.
    destruct (run rs c''), (run_spec (_max_size c) rs c'); simpl in *. by subst.
  + assert (c' = abs c) as Hc by (unfold spec.get in Hg; destruct spec.find; congruence).
    rewrite Hc in *. destruct (IH c Hwf) as (Ho & Hw & Ha).
    destruct (run rs c), (run_spec (_max_size c) rs (abs c)); simpl in *. by subst.
Qed.

Lemma service_refines_witness :
(run [Put "a" "1"; Put "b" "2"; Get "a"; Put "c" "3"; Get "b"; Get "a"]
     (cache_t_construct (Some 2%nat))).1
= [Ret (true, "1"); Ret (false, ""); Ret (true, "1")]%string.
Proof.
destruct (service_refines_recency_list
            [Put "a" "1"; Put "b" "2"; Get "a"; Put "c" "3"; Get "b"; Get "a"]%string
            (cache_t_construct (Some 2%nat)) (lru_construct_wf 2)) as (H & _).
etransitivity; [exact H | vm_compute; reflexivity].
Defined.
End theorems.
