(* ===== verification/LogFilter.v ===== *)
(** * The filter language of the logging service: [logging/src/logging/filter.cpp]

    A filter is built from a [dynamic_t] (the prefix arrays clients send),
    decides on a severity and an attribute pack, and prints itself back as a
    [dynamic_t].  The file models the attribute conversions ([to<T>],
    [convert]), the comparison operators on strings, every filter class, the
    three factories, the constructor from a representation, and
    [filter_info_t].  Doubles are IEEE binary64 values of the Standard
    Library's [SpecFloat]; integers keep their 64-bit wrap-around. *)

From Stdlib Require Import SpecFloat.
From S2P Require Import Prelude.

Set Warnings "-register-all".

Local Open Scope Z_scope.

(** ** Doubles *)

Module double.
Abbreviation t := spec_float.
Definition of_Z (z : Z) : t := binary_normalize 53 1024 z 0 false.
Definition zero : t := S754_zero false.
(** Truncation toward zero, [None] where the C++ cast is undefined. *)
Definition trunc (f : t) : option Z :=
  match f with
  | S754_zero _ => Some 0
  | S754_finite s m e =>
      let a := if 0 <=? e then Z.shiftl (Zpos m) e else Z.shiftr (Zpos m) (- e) in
      let z := if s then - a else a in
      if (- 2 ^ 63 <=? z) && (z <? 2 ^ 63) then Some z else None
  | _ => None
  end.
Definition eqb (a b : t) : bool := SFeqb a b.
Definition ltb (a b : t) : bool := SFltb a b.
Definition leb (a b : t) : bool := SFleb a b.
End double.

(** ** Data *)

(** [dynamic_t]: the alternatives the code visits or tests. *)
Inductive dynamic_t :=
| DNull
| DBool (b : bool)
| DInt (z : Z)
| DUint (z : Z)
| DDouble (f : double.t)
| DString (s : string)
| DArray (l : list dynamic_t)
| DObject (m : list (string * dynamic_t)).

(** [blackhole::attribute::view_t]: one constructor per visitor overload. *)
Inductive value_t :=
| VNull
| VBool (b : bool)
| VSint64 (z : Z)
| VUint64 (z : Z)
| VDouble (f : double.t)
| VString (s : string)
| VFunction.

Abbreviation attribute_view_t := (string * value_t)%type.
Abbreviation attribute_pack := (list (list attribute_view_t)).

Inductive filter_result_t := accept | reject.
#[export] Instance filter_result_eq_dec : EqDecision filter_result_t.
Proof. solve_decision. Defined.

Inductive error_t :=
| not_an_array | no_elements | operator_not_string | unknown_single
| wrong_arity | invalid_unary | operand1_not_string | operands_not_arrays
| invalid_operator          (* std::logic_error *)
| function_not_supported | operation_not_supported
| bad_access                (* a dynamic_t accessor of another alternative *)
| invalid_filter_info.
#[export] Instance error_eq_dec : EqDecision error_t.
Proof. solve_decision. Defined.

(** What a filter reads from its surroundings: [trace_t::current().verbose()], and
    the value the machine leaves for an out-of-range double to integer cast. *)
Record env := mk_env { trace_verbose : bool; undefined_cast : double.t -> Z }.

(** The template argument [T] of a comparison filter with its value. *)
Inductive operand :=
| OBool (b : bool)
| OUint (z : Z)
| OInt (z : Z)
| ODouble (f : double.t)
| OString (s : string).

(** [filter_t::inner_t] and its subclasses. *)
Inductive filter_t :=
| null_filter
| empty_filter
| severity_filter (ref_severity : Z)
| exists_filter (attribute_name : string)
| not_exists_filter (attribute_name : string)
| equals_filter (attribute_name : string) (attribute_value : operand)
| not_equals_filter (attribute_name : string) (attribute_value : operand)
| greater_filter (attribute_name : string) (attribute_value : operand)
| less_filter (attribute_name : string) (attribute_value : operand)
| greater_or_equal_filter (attribute_name : string) (attribute_value : operand)
| less_or_equal_filter (attribute_name : string) (attribute_value : operand)
| or_filter (filter1 filter2 : filter_t)
| and_filter (filter1 filter2 : filter_t)
| xor_filter (filter1 filter2 : filter_t)
| traced_filter.

(** ** Comparison of strings *)

(** [char] is signed on the supported targets. *)
Definition char_val (c : Ascii.ascii) : Z :=
  let n := Z.of_N (Ascii.N_of_ascii c) in if n <? 128 then n else n - 256.

Definition chars (s : string) : list Z := char_val <$> String.list_ascii_of_string s.

(** [std::lexicographical_compare] with a comparator. *)
Fixpoint lexicographical_compare (comp : Z -> Z -> bool) (l r : list Z) : bool :=
  match l, r with
  | _, [] => false
  | [], _ :: _ => true
  | a :: l, b :: r => if comp a b then true
                      else if comp b a then false
                      else lexicographical_compare comp l r
  end.

Definition string_lt (lhs rhs : string) : bool :=
  lexicographical_compare Z.ltb (chars lhs) (chars rhs).
Definition string_gt (lhs rhs : string) : bool :=
  lexicographical_compare Z.gtb (chars lhs) (chars rhs).
Definition string_le (lhs rhs : string) : bool := negb (string_gt lhs rhs).
Definition string_ge (lhs rhs : string) : bool := negb (string_lt lhs rhs).

(** ** Attribute conversions *)

(** [to<int64_t>]: [None] is [failed]. *)
Definition to_int64 (e : env) (v : value_t) : option Z :=
  match v with
  | VNull => Some 0
  | VBool b => Some (if b then 1 else 0)
  | VSint64 z => Some z
  | VUint64 z => if int64_max <? z then None else Some z
  | VDouble f => Some (match double.trunc f with Some z => z | None => undefined_cast e f end)
  | VString _ => None
  | VFunction => None
  end.

Definition to_string_view (v : value_t) : option string :=
  match v with
  | VNull => Some ""%string
  | VString s => Some s
  | _ => None
  end.

Definition to_double (v : value_t) : option double.t :=
  match v with
  | VNull => Some double.zero
  | VBool b => Some (double.of_Z (if b then 1 else 0))
  | VSint64 z => Some (double.of_Z z)
  | VUint64 z => Some (double.of_Z z)
  | VDouble f => Some f
  | VString _ => None
  | VFunction => None
  end.

(** [convert] for integral [T]: the int64 result is cast to [T]. *)
Definition convert_integral {T} (cast : Z -> T) (e : env) (v : value_t) : option T :=
  cast <$> to_int64 e v.
Definition convert_bool : env -> value_t -> option bool := convert_integral (fun z => negb (z =? 0)).
Definition convert_uint : env -> value_t -> option Z := convert_integral u64.
Definition convert_int : env -> value_t -> option Z := convert_integral id.
Definition convert_floating (v : value_t) : option double.t := to_double v.
Definition convert_string (v : value_t) : option string := to_string_view v.

Fixpoint find_in (attributes : list attribute_view_t) (name : string) : option attribute_view_t :=
  match attributes with
  | [] => None
  | a :: rest => if String.eqb a.1 name then Some a else find_in rest name
  end.

Fixpoint find_attribute (pack : attribute_pack) (name : string) : option attribute_view_t :=
  match pack with
  | [] => None
  | attributes :: rest => match find_in attributes name with
                          | Some a => Some a
                          | None => find_attribute rest name
                          end
  end.

(** ** Applying filters *)

(** The built-in comparisons of each [T]. *)
Record comparison := mk_cmp {
  cmp_bool : bool -> bool -> bool;
  cmp_Z : Z -> Z -> bool;
  cmp_double : double.t -> double.t -> bool;
  cmp_string : string -> string -> bool
}.
Definition b2z (b : bool) : Z := if b then 1 else 0.
Definition eq_ops := mk_cmp Bool.eqb Z.eqb double.eqb String.eqb.
Definition lt_ops := mk_cmp (fun a b => b2z a <? b2z b) Z.ltb double.ltb string_lt.
Definition gt_ops := mk_cmp (fun a b => b2z a >? b2z b) Z.gtb (fun a b => double.ltb b a) string_gt.
Definition ge_ops := mk_cmp (fun a b => b2z a >=? b2z b) Z.geb (fun a b => double.leb b a) string_ge.
Definition le_ops := mk_cmp (fun a b => b2z a <=? b2z b) Z.leb double.leb string_le.

(** [convertible && result OP this->attribute_value] *)
Definition compare_with (ops : comparison) (e : env) (v : value_t) (o : operand) : bool :=
  match o with
  | OBool b => match convert_bool e v with Some r => cmp_bool ops r b | None => false end
  | OUint z => match convert_uint e v with Some r => cmp_Z ops r z | None => false end
  | OInt z => match convert_int e v with Some r => cmp_Z ops r z | None => false end
  | ODouble f => match convert_floating v with Some r => cmp_double ops r f | None => false end
  | OString s => match convert_string v with Some r => cmp_string ops r s | None => false end
  end.

Definition verdict (b : bool) : filter_result_t := if b then accept else reject.

Definition equals_apply (e : env) (name : string) (o : operand) (p : attribute_pack) : filter_result_t :=
  match find_attribute p name with
  | None => reject
  | Some val => if compare_with eq_ops e val.2 o then accept else reject
  end.

Definition not_equals_apply (e : env) (name : string) (o : operand) (p : attribute_pack) : filter_result_t :=
  match find_attribute p name with
  | None => accept
  | Some val => if compare_with eq_ops e val.2 o then reject else accept
  end.

Definition greater_apply (e : env) (name : string) (o : operand) (p : attribute_pack) : filter_result_t :=
  match find_attribute p name with
  | None => reject
  | Some val => if compare_with gt_ops e val.2 o then accept else reject
  end.

Definition less_apply (e : env) (name : string) (o : operand) (p : attribute_pack) : filter_result_t :=
  match find_attribute p name with
  | None => reject
  | Some val => if compare_with lt_ops e val.2 o then accept else reject
  end.

Definition greater_or_equal_apply (e : env) (name : string) (o : operand) (p : attribute_pack) : filter_result_t :=
  match find_attribute p name with
  | None => reject
  | Some val => if compare_with ge_ops e val.2 o then accept else reject
  end.

Definition less_or_equal_apply (e : env) (name : string) (o : operand) (p : attribute_pack) : filter_result_t :=
  match find_attribute p name with
  | None => reject
  | Some val => if compare_with le_ops e val.2 o then accept else reject
  end.

Definition exists_apply (name : string) (p : attribute_pack) : filter_result_t :=
  match find_attribute p name with Some _ => accept | None => reject end.
Definition not_exists_apply (name : string) (p : attribute_pack) : filter_result_t :=
  match find_attribute p name with Some _ => reject | None => accept end.
Definition severity_apply (ref_severity severity : Z) : filter_result_t :=
  if severity >=? ref_severity then accept else reject.
Definition traced_apply (e : env) : filter_result_t :=
  if trace_verbose e then accept else reject.

(** The connectives: [||] and [&&] do not apply the second filter when the first
    decides, so an exception of the second one is not raised then. *)
Definition or_apply (r1 : outcome error_t filter_result_t) (r2 : outcome error_t filter_result_t) :=
  outcome_bind r1 (fun a => match a with
                            | accept => Ret accept
                            | reject => outcome_bind r2 (fun b => Ret b)
                            end).
Definition and_apply (r1 : outcome error_t filter_result_t) (r2 : outcome error_t filter_result_t) :=
  outcome_bind r1 (fun a => match a with
                            | reject => Ret reject
                            | accept => outcome_bind r2 (fun b => Ret b)
                            end).
Definition xor_apply (r1 : outcome error_t filter_result_t) (r2 : outcome error_t filter_result_t) :=
  outcome_bind r1 (fun a => outcome_bind r2 (fun b =>
    Ret (if bool_decide (a <> b) then accept else reject))).

Fixpoint apply (e : env) (f : filter_t) (severity : Z) (p : attribute_pack)
  : outcome error_t filter_result_t :=
  match f with
  | null_filter => Throw operation_not_supported
  | empty_filter => Ret accept
  | severity_filter s => Ret (severity_apply s severity)
  | exists_filter n => Ret (exists_apply n p)
  | not_exists_filter n => Ret (not_exists_apply n p)
  | equals_filter n o => Ret (equals_apply e n o p)
  | not_equals_filter n o => Ret (not_equals_apply e n o p)
  | greater_filter n o => Ret (greater_apply e n o p)
  | less_filter n o => Ret (less_apply e n o p)
  | greater_or_equal_filter n o => Ret (greater_or_equal_apply e n o p)
  | less_or_equal_filter n o => Ret (less_or_equal_apply e n o p)
  | or_filter a b => or_apply (apply e a severity p) (apply e b severity p)
  | and_filter a b => and_apply (apply e a severity p) (apply e b severity p)
  | xor_filter a b => xor_apply (apply e a severity p) (apply e b severity p)
  | traced_filter => Ret (traced_apply e)
  end.

(** ** Building filters from their representation *)

(** [filter_creation_visitor_t]: the alternative of the operand picks [T]. *)
Definition filter_creation_visitor (mk : operand -> filter_t) (operand2 : dynamic_t)
  : outcome error_t filter_t :=
  match operand2 with
  | DBool b => Ret (mk (OBool b))
  | DUint z => Ret (mk (OUint z))
  | DInt z => Ret (mk (OInt z))
  | DDouble f => Ret (mk (ODouble f))
  | DString s => Ret (mk (OString s))
  | DNull | DArray _ | DObject _ => Throw function_not_supported
  end.

(** [blackhole::severity_t] holds an [int]: the 64-bit operand is narrowed. *)
Definition unary_operator_factory (filter_operator : string) (o : dynamic_t)
  : outcome error_t filter_t :=
  match o with
  | DString s =>
      if String.eqb filter_operator "e" then Ret (exists_filter s)
      else if String.eqb filter_operator "!e" then Ret (not_exists_filter s)
      else Throw invalid_unary
  | DUint z => if String.eqb filter_operator "severity" then Ret (severity_filter (i32 z))
               else Throw invalid_unary
  | _ => Throw invalid_unary
  end.

Definition string_operand_factory (filter_operator : string) (operand1 operand2 : dynamic_t)
  : outcome error_t filter_t :=
  match operand1 with
  | DString n =>
      if String.eqb filter_operator "==" then filter_creation_visitor (equals_filter n) operand2
      else if String.eqb filter_operator "!=" then filter_creation_visitor (not_equals_filter n) operand2
      else if String.eqb filter_operator ">" then filter_creation_visitor (greater_filter n) operand2
      else if String.eqb filter_operator "<" then filter_creation_visitor (less_filter n) operand2
      else if String.eqb filter_operator ">=" then filter_creation_visitor (greater_or_equal_filter n) operand2
      else if String.eqb filter_operator "<=" then filter_creation_visitor (less_or_equal_filter n) operand2
      else Throw invalid_operator
  | _ => Throw operand1_not_string
  end.

Definition is_array (d : dynamic_t) : bool := match d with DArray _ => true | _ => false end.

(** [filter_t(operand1)] and [filter_t(operand2)] are the recursive constructor calls. *)
Definition filter_operand_factory (construct : dynamic_t -> outcome error_t filter_t)
    (filter_operator : string) (operand1 operand2 : dynamic_t) : outcome error_t filter_t :=
  if negb (is_array operand1) || negb (is_array operand2) then Throw operands_not_arrays
  else
    let both (mk : filter_t -> filter_t -> filter_t) :=
      outcome_bind (construct operand1) (fun f1 =>
      outcome_bind (construct operand2) (fun f2 => Ret (mk f1 f2))) in
    if String.eqb filter_operator "||" then both or_filter
    else if String.eqb filter_operator "&&" then both and_filter
    else if String.eqb filter_operator "xor" then both xor_filter
    else Throw invalid_operator.

Definition string_ops : list string := ["=="; "!="; ">"; "<"; ">="; "<="; "e"; "!e"]%string.

Definition binary_operator_factory (construct : dynamic_t -> outcome error_t filter_t)
    (filter_operator : string) (operand1 operand2 : dynamic_t) : outcome error_t filter_t :=
  if existsb (String.eqb filter_operator) string_ops
  then string_operand_factory filter_operator operand1 operand2
  else filter_operand_factory construct filter_operator operand1 operand2.

(** [filter_t::filter_t(const dynamic_t&)] *)
Fixpoint construct (source : dynamic_t) : outcome error_t filter_t :=
  match source with
  | DArray [] => Throw no_elements
  | DArray [DString op] =>
      if String.eqb op "empty" then Ret empty_filter
      else if String.eqb op "traced" then Ret traced_filter
      else Throw unknown_single
  | DArray [DString op; operand1] => unary_operator_factory op operand1
  | DArray [DString op; operand1; operand2] => binary_operator_factory construct op operand1 operand2
  | DArray (DString op :: _) => Throw wrong_arity
  | DArray (_ :: _) => Throw operator_not_string
  | _ => Throw not_an_array
  end.

(** ** Printing filters *)

Definition operand_dynamic (o : operand) : dynamic_t :=
  match o with
  | OBool b => DBool b
  | OUint z => DUint z
  | OInt z => DInt z
  | ODouble f => DDouble f
  | OString s => DString s
  end.

Section representation.
(** The conversion of a C++ [int] to [dynamic_t], library code. *)
Variable dynamic_of_int : Z -> dynamic_t.

Definition tuple (op : string) (rest : list dynamic_t) : dynamic_t := DArray (DString op :: rest).

Fixpoint representation (f : filter_t) : outcome error_t dynamic_t :=
  match f with
  | null_filter => Throw operation_not_supported
  | empty_filter => Ret (tuple "empty" [])
  | severity_filter s => Ret (tuple "severity" [dynamic_of_int s])
  | exists_filter n => Ret (tuple "e" [DString n])
  | not_exists_filter n => Ret (tuple "!e" [DString n])
  | equals_filter n o => Ret (tuple "==" [DString n; operand_dynamic o])
  | not_equals_filter n o => Ret (tuple "!=" [DString n; operand_dynamic o])
  | greater_filter n o => Ret (tuple ">" [DString n; operand_dynamic o])
  | less_filter n o => Ret (tuple "<" [DString n; operand_dynamic o])
  | greater_or_equal_filter n o => Ret (tuple ">=" [DString n; operand_dynamic o])
  | less_or_equal_filter n o => Ret (tuple "<=" [DString n; operand_dynamic o])
  | or_filter a b => outcome_bind (representation a) (fun da =>
                     outcome_bind (representation b) (fun db => Ret (tuple "||" [da; db])))
  | and_filter a b => outcome_bind (representation a) (fun da =>
                      outcome_bind (representation b) (fun db => Ret (tuple "&&" [da; db])))
  | xor_filter a b => outcome_bind (representation a) (fun da =>
                      outcome_bind (representation b) (fun db => Ret (tuple "xor" [da; db])))
  | traced_filter => Ret (tuple "traced" [])
  end.
End representation.

(** ** [filter_info_t] *)

Inductive disposition_t := local | cluster.
#[export] Instance disposition_eq_dec : EqDecision disposition_t.
Proof. solve_decision. Defined.

Record filter_info_t := mk_info {
  info_filter : filter_t;
  deadline : Z;
  filter_id : Z;
  disposition : disposition_t;
  logger_name : string
}.

Fixpoint object_at (m : list (string * dynamic_t)) (k : string) : option dynamic_t :=
  match m with
  | [] => None
  | (k', v) :: m' => if String.eqb k' k then Some v else object_at m' k
  end.

Definition as_uint (d : dynamic_t) : outcome error_t Z :=
  match d with DUint z => Ret z | _ => Throw bad_access end.
Definition as_string (d : dynamic_t) : outcome error_t string :=
  match d with DString s => Ret s | _ => Throw bad_access end.

Definition required_keys : list string :=
  ["filter"; "deadline"; "id"; "logger_name"; "disposition"]%string.

Definition field (m : list (string * dynamic_t)) (k : string) : outcome error_t dynamic_t :=
  match object_at m k with Some d => Ret d | None => Throw bad_access end.

(** The cast to the enum narrows the 64-bit value to its underlying [int]. *)
Definition filter_info_construct (value : dynamic_t) : outcome error_t filter_info_t :=
  match value with
  | DObject obj =>
      if forallb (fun k => match object_at obj k with Some _ => true | None => false end) required_keys
      then
        outcome_bind (field obj "filter") (fun df =>
        outcome_bind (construct df) (fun f =>
        outcome_bind (outcome_bind (field obj "deadline") as_uint) (fun dl =>
        outcome_bind (outcome_bind (field obj "id") as_uint) (fun i =>
        outcome_bind (outcome_bind (field obj "disposition") as_uint) (fun d =>
        outcome_bind (match i32 d with 0 => Ret local | 1 => Ret cluster
                      | _ => Throw invalid_filter_info end) (fun disp =>
        outcome_bind (outcome_bind (field obj "logger_name") as_string) (fun n =>
        Ret (mk_info f dl i disp n))))))))
      else Throw invalid_filter_info
  | _ => Throw invalid_filter_info
  end.

Definition disposition_uint (d : disposition_t) : Z := match d with local => 0 | cluster => 1 end.

Definition filter_info_representation (dynamic_of_int : Z -> dynamic_t) (i : filter_info_t)
  : outcome error_t dynamic_t :=
  outcome_bind (representation dynamic_of_int (info_filter i)) (fun df =>
  Ret (DObject [("filter", df); ("deadline", DUint (deadline i)); ("id", DUint (filter_id i));
                ("logger_name", DString (logger_name i));
                ("disposition", DUint (disposition_uint (disposition i)))]%string)).

(** ** Facts *)

(** A filter that prints and reads back: everything but the null filter, with
    severities a non-negative [int] can hold. *)
Fixpoint printable (f : filter_t) : Prop :=
  match f with
  | null_filter => False
  | severity_filter s => 0 <= s < 2 ^ 31
  | or_filter a b | and_filter a b | xor_filter a b => printable a /\ printable b
  | _ => True
  end.

Fixpoint no_null (f : filter_t) : Prop :=
  match f with
  | null_filter => False
  | or_filter a b | and_filter a b | xor_filter a b => no_null a /\ no_null b
  | _ => True
  end.

(** The boolean meaning of a filter: the specification [apply] is measured against. *)
Section denote.
Context (e : env) (severity : Z) (p : attribute_pack).

(** The attribute is there and, converted, compares. *)
Definition holds (ops : comparison) (n : string) (o : operand) : bool :=
  match find_attribute p n with Some v => compare_with ops e v.2 o | None => false end.
Definition present (n : string) : bool :=
  match find_attribute p n with Some _ => true | None => false end.

Fixpoint denote (f : filter_t) : bool :=
  match f with
  | null_filter => false
  | empty_filter => true
  | severity_filter s => s <=? severity
  | exists_filter n => present n
  | not_exists_filter n => negb (present n)
  | equals_filter n o => holds eq_ops n o
  | not_equals_filter n o => negb (holds eq_ops n o)
  | greater_filter n o => holds gt_ops n o
  | less_filter n o => holds lt_ops n o
  | greater_or_equal_filter n o => holds ge_ops n o
  | less_or_equal_filter n o => holds le_ops n o
  | or_filter a b => denote a || denote b
  | and_filter a b => denote a && denote b
  | xor_filter a b => xorb (denote a) (denote b)
  | traced_filter => trace_verbose e
  end.
End denote.

Lemma apply_denote e f severity p :
  no_null f -> apply e f severity p = Ret (verdict (denote e severity p f)).
Proof.
  induction f; simpl; intros Hn; try done; f_equal;
    unfold severity_apply, exists_apply, not_exists_apply, traced_apply, equals_apply,
      not_equals_apply, greater_apply, less_apply, greater_or_equal_apply, less_or_equal_apply,
      holds, present; try (rewrite Z.geb_leb; by case_match); try by repeat case_match.
  all: destruct Hn as [H1 H2]; rewrite IHf1, IHf2 by done; by destruct (denote _ _ _ f1), (denote _ _ _ f2).
Qed.

Lemma creation_visitor_no_null (mk : operand -> filter_t) d f :
  (forall o, no_null (mk o)) -> filter_creation_visitor mk d = Ret f -> no_null f.
Proof. intros Hmk. destruct d; simpl; intros; simplify_eq; auto. Qed.

Lemma string_operand_no_null op d1 d2 f : string_operand_factory op d1 d2 = Ret f -> no_null f.
Proof.
  destruct d1; simpl; try done.
  repeat case_match; try done; apply creation_visitor_no_null; done.
Qed.

Lemma unary_no_null op d f : unary_operator_factory op d = Ret f -> no_null f.
Proof. destruct d; simpl; try done; repeat case_match; intros; by simplify_eq. Qed.

Lemma filter_operand_no_null c op d1 d2 f :
  (forall f, c d1 = Ret f -> no_null f) -> (forall f, c d2 = Ret f -> no_null f) ->
  filter_operand_factory c op d1 d2 = Ret f -> no_null f.
Proof.
  intros H1 H2. unfold filter_operand_factory, outcome_bind.
  repeat case_match; intros; simplify_eq; simpl; auto.
Qed.

Lemma construct_no_null d f : construct d = Ret f -> no_null f.
Proof.
  revert d f. fix IH 1. intros d f.
  destruct d as [| | | | | |[|[| | | | |op| |] [|d1 [|d2 [|]]]]|]; simpl; try done.
  - repeat case_match; intros; by simplify_eq.
  - apply unary_no_null.
  - unfold binary_operator_factory. case_match; [apply string_operand_no_null|].
    apply filter_operand_no_null; apply IH.
Qed.

(** The severities of a filter *)
Fixpoint severities (f : filter_t) : list Z :=
  match f with
  | severity_filter s => [s]
  | or_filter a b | and_filter a b | xor_filter a b => severities a ++ severities b
  | _ => []
  end.

(** What the constructor gives: everything but the null filter, with severities an [int]
    can hold. *)
Definition built (f : filter_t) : Prop := no_null f /\ Forall (fun s => - 2 ^ 31 <= s < 2 ^ 31) (severities f).

Lemma string_operand_severities op d1 d2 f : string_operand_factory op d1 d2 = Ret f -> severities f = [].
Proof.
  assert (forall mk, (forall o, severities (mk o) = []) -> filter_creation_visitor mk d2 = Ret f -> severities f = []) as H.
  { intros mk Hmk. destruct d2; simpl; intros; simplify_eq; auto. }
  destruct d1; simpl; try done. repeat case_match; try done; apply H; done.
Qed.

Lemma construct_severities d f : construct d = Ret f -> Forall (fun s => - 2 ^ 31 <= s < 2 ^ 31) (severities f).
Proof.
  revert d f. fix IH 1. intros d f.
  destruct d as [| | | | | |[|[| | | | |op| |] [|d1 [|d2 [|]]]]|]; simpl; try done.
  - repeat case_match; intros; by simplify_eq; constructor.
  - destruct d1; simpl; try done; repeat case_match; intros; simplify_eq; repeat constructor; apply i32_range.
  - unfold binary_operator_factory. case_match; [intros ->%string_operand_severities; constructor|].
    unfold filter_operand_factory, outcome_bind. pose proof (IH d1). pose proof (IH d2).
    repeat case_match; intros; simplify_eq; simpl; apply Forall_app; auto.
Qed.

Lemma construct_built d f : construct d = Ret f -> built f.
Proof. intros Hc. split; [by eapply construct_no_null|by eapply construct_severities]. Qed.

Section roundtrip.
Variable dynamic_of_int : Z -> dynamic_t.
(** A non-negative [int] becomes the unsigned alternative. *)
Hypothesis dynamic_of_int_unsigned : forall z, 0 <= z -> dynamic_of_int z = DUint z.

Lemma creation_visitor_operand mk o :
  filter_creation_visitor mk (operand_dynamic o) = Ret (mk o).
Proof. by destruct o. Qed.

Lemma representation_array f d :
  representation dynamic_of_int f = Ret d -> exists l, d = DArray l.
Proof.
  destruct f; simpl; unfold outcome_bind; repeat case_match; intros; simplify_eq; eauto.
Qed.

Lemma construct_connective op mk l1 l2 f1 f2 :
  (op, mk) ∈ [("||"%string, or_filter); ("&&"%string, and_filter); ("xor"%string, xor_filter)] ->
  construct (DArray l1) = Ret f1 -> construct (DArray l2) = Ret f2 ->
  construct (tuple op [DArray l1; DArray l2]) = Ret (mk f1 f2).
Proof.
  intros Hop C1 C2. unfold tuple.
  change (binary_operator_factory construct op (DArray l1) (DArray l2) = Ret (mk f1 f2)).
  unfold binary_operator_factory, filter_operand_factory. cbn [is_array negb orb].
  rewrite C1, C2. rewrite !elem_of_cons in Hop.
  destruct Hop as [?|[?|[?|?%elem_of_nil]]]; [by simplify_eq..|done].
Qed.

Lemma roundtrip_connective op mk f1 f2 :
  (op, mk) ∈ [("||"%string, or_filter); ("&&"%string, and_filter); ("xor"%string, xor_filter)] ->
  (exists d, representation dynamic_of_int f1 = Ret d /\ construct d = Ret f1) ->
  (exists d, representation dynamic_of_int f2 = Ret d /\ construct d = Ret f2) ->
  exists d, outcome_bind (representation dynamic_of_int f1) (fun da =>
            outcome_bind (representation dynamic_of_int f2) (fun db =>
            Ret (tuple op [da; db]))) = Ret d /\ construct d = Ret (mk f1 f2).
Proof.
  intros Hop (d1 & R1 & C1) (d2 & R2 & C2).
  destruct (representation_array _ _ R1) as [l1 ->], (representation_array _ _ R2) as [l2 ->].
  rewrite R1, R2. eexists; split; [reflexivity|]. by apply construct_connective.
Qed.

Lemma roundtrip_aux f : printable f ->
  exists d, representation dynamic_of_int f = Ret d /\ construct d = Ret f.
Proof.
  induction f; cbn [printable]; intros Hv; try done; cbn [representation];
    try (apply roundtrip_connective; [set_solver|tauto|tauto]);
    (eexists; split; [reflexivity|]); try done; try by destruct attribute_value.
  simpl in *. rewrite dynamic_of_int_unsigned by lia. simpl. by rewrite i32_small by lia.
Qed.

Lemma printable_iff f : built f -> printable f <-> Forall (fun s => 0 <= s) (severities f).
Proof.
  unfold built. induction f; simpl; rewrite ?Forall_nil, ?Forall_app, ?Forall_singleton; try tauto; try lia;
    intros [[] []]; rewrite IHf1, IHf2 by done; done.
Qed.

(** A negative [int] does not become the unsigned alternative. *)
Hypothesis dynamic_of_int_signed : forall z n, z < 0 -> dynamic_of_int z <> DUint n.

(** Nothing else prints to what the constructor takes. *)
Lemma unprintable f : built f -> ~ printable f ->
  exists d e, representation dynamic_of_int f = Ret d /\ construct d = Throw e.
Proof.
  revert f. assert (forall op mk f1 f2,
    (op, mk) ∈ [("||"%string, or_filter); ("&&"%string, and_filter); ("xor"%string, xor_filter)] ->
    (built f1 -> ~ printable f1 -> exists d e, representation dynamic_of_int f1 = Ret d /\ construct d = Throw e) ->
    (built f2 -> ~ printable f2 -> exists d e, representation dynamic_of_int f2 = Ret d /\ construct d = Throw e) ->
    built f1 -> built f2 -> ~ (printable f1 /\ printable f2) ->
    exists d e, outcome_bind (representation dynamic_of_int f1) (fun da =>
                outcome_bind (representation dynamic_of_int f2) (fun db => Ret (tuple op [da; db]))) = Ret d /\
                construct d = Throw e) as Hop.
  { intros op mk f1 f2 Hop IH1 IH2 B1 B2 Hn.
    assert (forall f, (built f -> ~ printable f -> exists d e, representation dynamic_of_int f = Ret d /\ construct d = Throw e) ->
              built f -> exists l, representation dynamic_of_int f = Ret (DArray l) /\
                ((printable f /\ construct (DArray l) = Ret f) \/ exists e, construct (DArray l) = Throw e)) as Hsub.
    { intros f IH B. destruct (decide (Forall (fun s => 0 <= s) (severities f))) as [Hp|Hp].
      - apply printable_iff in Hp; [|done]. destruct (roundtrip_aux f Hp) as (d & R & C).
        destruct (representation_array _ _ R) as [l ->]. eauto.
      - rewrite <- printable_iff in Hp by done. destruct (IH B Hp) as (d & e & R & C).
        destruct (representation_array _ _ R) as [l ->]. eauto. }
    destruct (Hsub f1 IH1 B1) as (l1 & R1 & C1), (Hsub f2 IH2 B2) as (l2 & R2 & C2). rewrite R1, R2.
    exists (tuple op [DArray l1; DArray l2]).
    assert (exists e, outcome_bind (construct (DArray l1)) (fun f1 =>
              outcome_bind (construct (DArray l2)) (fun f2 => Ret (mk f1 f2))) = Throw e) as [e He].
    { destruct C1 as [[P1 C1]|[e1 C1]]; rewrite C1; [|by eexists]. destruct C2 as [[P2 C2]|[e2 C2]]; [tauto|].
      rewrite C2. by eexists. }
    exists e. split; [done|]. unfold tuple.
    change (binary_operator_factory construct op (DArray l1) (DArray l2) = Throw e).
    unfold binary_operator_factory, filter_operand_factory. cbn [is_array negb orb].
    rewrite !elem_of_cons in Hop. destruct Hop as [?|[?|[?|?%elem_of_nil]]]; by simplify_eq. }
  intros f. induction f; simpl; intros [B S] Hn; simpl in B, S; try tauto;
    try (rewrite Forall_app in S; destruct B, S).
  2: by apply (Hop _ or_filter); [set_solver|..].
  2: by apply (Hop _ and_filter); [set_solver|..].
  2: by apply (Hop _ xor_filter); [set_solver|..].
  rewrite Forall_singleton in S. eexists _, invalid_unary. split; [reflexivity|]. simpl. unfold unary_operator_factory.
  assert (forall n, dynamic_of_int ref_severity <> DUint n) as Hd by (intros n; apply dynamic_of_int_signed; lia).
  destruct (dynamic_of_int ref_severity) as [| | |n| | | |]; try done; by destruct (Hd n).
Qed.
End roundtrip.

(** *** Orders on strings *)

Lemma prefix_cons_iff {A} (x y : A) (l r : list A) :
  x :: l `prefix_of` y :: r <-> x = y /\ l `prefix_of` r.
Proof.
  split.
  - intros H. split; [by eapply prefix_cons_inv_1 | by eapply prefix_cons_inv_2].
  - intros [-> H]. by apply prefix_cons.
Qed.

(** Off the prefix order, the descending comparison is the converse of the
    ascending one. *)
Lemma compare_gt_converse (l r : list Z) :
  ~ l `prefix_of` r -> ~ r `prefix_of` l ->
  lexicographical_compare Z.gtb l r = lexicographical_compare Z.ltb r l.
Proof.
  revert r. induction l as [|a l IH]; intros [|b r] H1 H2; try (destruct H1; apply prefix_nil);
    try (destruct H2; apply prefix_nil).
  simpl. rewrite prefix_cons_iff in H1, H2. rewrite !Z.gtb_ltb.
  destruct (Z.ltb_spec b a), (Z.ltb_spec a b); try done.
  assert (a = b) as -> by lia. apply IH; naive_solver.
Qed.

(** On a proper prefix both comparisons answer the same way. *)
Lemma compare_prefix (comp : Z -> Z -> bool) (l : list Z) (x : Z) (r : list Z) :
  (forall z, comp z z = false) ->
  lexicographical_compare comp l (l ++ x :: r) = true /\
  lexicographical_compare comp (l ++ x :: r) l = false.
Proof. intros Hc. induction l as [|a l [IH1 IH2]]; simpl; [done|]. by rewrite Hc. Qed.

Lemma compare_refl (comp : Z -> Z -> bool) (l : list Z) :
  (forall z, comp z z = false) -> lexicographical_compare comp l l = false.
Proof. intros Hc. induction l as [|a l IH]; simpl; [done|]. by rewrite Hc. Qed.

(** ** Theorems *)


Definition example_filter : filter_t :=
  or_filter (and_filter (severity_filter 2) (equals_filter "uuid" (OString "a")))
            (xor_filter (greater_filter "n" (OUint 5)) (not_exists_filter "host")).

Definition signed_int (z : Z) : dynamic_t := if 0 <=? z then DUint z else DInt z.
Lemma signed_int_unsigned z : 0 <= z -> signed_int z = DUint z.
Proof. intros Hz. unfold signed_int. by rewrite (proj2 (Z.leb_le 0 z) Hz). Qed.
Lemma signed_int_signed z n : z < 0 -> signed_int z <> DUint n.
Proof. intros Hz. unfold signed_int. by rewrite (proj2 (Z.leb_gt 0 z) Hz). Qed.


(** A filter built from any representation never throws when it is applied,
    and its decision is its boolean meaning: comparisons need the attribute and
    a convertible value, [!=] and [!e] are the complements of [==] and [e], and
    the connectives are the boolean ones. *)
Theorem constructed_filter_decides (e : env) (d : dynamic_t) (f : filter_t) (severity : Z)
    (p : attribute_pack) :
  construct d = Ret f ->
  apply e f severity p = Ret (verdict (denote e severity p f)).
Proof. intros H. by apply apply_denote, (construct_no_null d). Qed.

Lemma constructed_filter_witness :
  apply (mk_env false (fun _ => 0)) (or_filter (severity_filter 3) (equals_filter "k" (OInt (-1)))) 1
        [[("a"%string, VNull)]; [("k"%string, VSint64 (-1))]] = Ret accept.
Proof.
  etransitivity.
  - apply (constructed_filter_decides (mk_env false (fun _ => 0))
      (DArray [DString "||"; DArray [DString "severity"; DUint 3];
               DArray [DString "=="; DString "k"; DInt (-1)]])).
    reflexivity.
  - reflexivity.
Defined.

(** Round trip of [filter_info_t].  The record written to the cluster storage
    is read back unchanged. *)
Theorem filter_info_roundtrip (dynamic_of_int : Z -> dynamic_t)
    (dynamic_of_int_unsigned : forall z, 0 <= z -> dynamic_of_int z = DUint z) (i : filter_info_t) :
  printable (info_filter i) ->
  outcome_bind (filter_info_representation dynamic_of_int i) filter_info_construct = Ret i.
Proof.
  intros Hp.
  destruct (roundtrip_aux dynamic_of_int dynamic_of_int_unsigned _ Hp) as (d & R & C).
  unfold filter_info_representation. rewrite R. simpl. rewrite C.
  by destruct i as [f dl fid [|] n].
Qed.

Lemma filter_info_roundtrip_witness :
  outcome_bind (filter_info_representation DUint
                  (mk_info example_filter 1700000000 17 cluster "app/x")) filter_info_construct
  = Ret (mk_info example_filter 1700000000 17 cluster "app/x").
Proof.
  apply (filter_info_roundtrip DUint (fun z _ => eq_refl)
           (mk_info example_filter 1700000000 17 cluster "app/x")).
  simpl; lia.
Defined.

(** The string comparisons of the filters.  When neither string is a prefix
    of the other, [>] is the converse of [<]; but a string that is a proper
    prefix of another is both less and greater than it, while the longer one is
    neither, because [>] reuses [lexicographical_compare] with the comparator
    reversed. *)
Theorem string_greater_spec (a b : string) :
  (~ chars a `prefix_of` chars b -> ~ chars b `prefix_of` chars a ->
     string_gt a b = string_lt b a) /\
  (chars a `prefix_of` chars b -> chars a <> chars b ->
     string_lt a b = true /\ string_gt a b = true /\
     string_lt b a = false /\ string_gt b a = false) /\
  (chars a = chars b -> string_lt a b = false /\ string_gt a b = false).
Proof.
  assert (forall z, (z <? z) = false) as Hlt by apply Z.ltb_irrefl.
  assert (forall z, (z >? z) = false) as Hgt by (intros; by rewrite Z.gtb_ltb).
  unfold string_gt, string_lt. split_and!.
  - apply compare_gt_converse.
  - intros [[|x r] Hp] Hne; [by rewrite app_nil_r in Hp|]. rewrite Hp.
    destruct (compare_prefix Z.ltb (chars a) x r Hlt), (compare_prefix Z.gtb (chars a) x r Hgt). done.
  - intros ->. split; by apply compare_refl.
Qed.

Lemma string_greater_witness :
  string_gt "a" "ab" = true /\ string_gt "ab" "a" = false /\ string_gt "b" "a" = string_lt "a" "b".
Proof.
  destruct (string_greater_spec "a" "ab") as (_ & H2 & _).
  destruct (string_greater_spec "b" "a") as (H1 & _).
  destruct H2 as (_ & ? & _ & ?); [by exists [98] | done |]. split_and!; [done|done|].
  apply H1; intros [k Hk]; by destruct k.
Defined.

(** Integer comparisons.  A filter whose operand is signed compares a signed
    attribute, or an unsigned one up to [INT64_MAX], exactly; with an unsigned
    operand a negative attribute is compared after wrapping modulo 2^64; and an
    unsigned attribute above [INT64_MAX] matches no integer filter at all. *)
Theorem integer_comparison_spec (ops : comparison) (e : env) (z n : Z) :
  (compare_with ops e (VSint64 z) (OInt n) = cmp_Z ops z n) /\
  (compare_with ops e (VSint64 z) (OUint n) = cmp_Z ops (u64 z) n) /\
  (z <= int64_max -> compare_with ops e (VUint64 z) (OInt n) = cmp_Z ops z n) /\
  (0 <= z <= int64_max -> compare_with ops e (VUint64 z) (OUint n) = cmp_Z ops z n) /\
  (int64_max < z -> compare_with ops e (VUint64 z) (OInt n) = false /\
                    compare_with ops e (VUint64 z) (OUint n) = false).
Proof.
  unfold compare_with, convert_uint, convert_int, convert_integral; simpl.
  destruct (Z.ltb_spec int64_max z); simpl; split_and!; try done; try lia.
  intros Hz. rewrite u64_small; [done|]. unfold u64_modulus, int64_max in *. lia.
Qed.

Lemma integer_comparison_witness :
  let e := mk_env false (fun _ => 0) in
  compare_with lt_ops e (VSint64 (-1)) (OUint 5) = false /\
  compare_with eq_ops e (VUint64 (2 ^ 63)) (OUint (2 ^ 63)) = false.
Proof.
  intros e. destruct (integer_comparison_spec lt_ops e (-1) 5) as (_ & H1 & _).
  destruct (integer_comparison_spec eq_ops e (2 ^ 63) (2 ^ 63)) as (_ & _ & _ & _ & H2).
  split; [exact H1 | apply H2; done].
Defined.
