(* ===== verification/Dynamic.v ===== *)
(** * Reading a configuration

    The accessors of [dynamic_t] that the constructors of the plugins use on their
    arguments: [None] is the exception of an accessor of another alternative, or of [at]
    for a missing field.  The type itself is in [LogFilter.v]. *)

From S2P Require Import Prelude LogFilter.

Definition as_object (d : dynamic_t) : option (list (string * dynamic_t)) :=
  match d with DObject m => Some m | _ => None end.
Definition as_array (d : dynamic_t) : option (list dynamic_t) :=
  match d with DArray l => Some l | _ => None end.
Definition as_string (d : dynamic_t) : option string :=
  match d with DString s => Some s | _ => None end.
Definition as_bool (d : dynamic_t) : option bool :=
  match d with DBool b => Some b | _ => None end.
Definition as_uint (d : dynamic_t) : option Z :=
  match d with DUint z => Some z | _ => None end.

Fixpoint find_field (k : string) (m : list (string * dynamic_t)) : option dynamic_t :=
  match m with
  | [] => None
  | (x, v) :: m => if String.eqb x k then Some v else find_field k m
  end.
(** [at(k, d)] *)
Definition field (k : string) (d : dynamic_t) (m : list (string * dynamic_t)) : dynamic_t := default d (find_field k m).

(** An accessor whose exception is [e] *)
Definition access {E A} (e : E) (o : option A) : outcome E A :=
  match o with Some a => Ret a | None => Throw e end.

Lemma access_Ret {E A} (e : E) (o : option A) (a : A) : access e o = Ret a <-> o = Some a.
Proof. destruct o; simpl; split; congruence. Qed.

(** The elements of an array, or the fields of an object, read in their order: the first
    that is of another alternative ends it. *)
Fixpoint all_of {A B} (f : A -> option B) (l : list A) : option (list B) :=
  match l with
  | [] => Some []
  | x :: l => f x ≫= fun y => all_of f l ≫= fun ys => Some (y :: ys)
  end.

Lemma all_of_Some {A B} (f : A -> option B) l ys : all_of f l = Some ys <-> Forall2 (fun x y => f x = Some y) l ys.
Proof.
  revert ys. induction l as [|x l IH]; intros ys; simpl.
  - split; [intros [= <-]; constructor|by inversion 1].
  - destruct (f x) as [y|] eqn:Ef; simpl.
    + destruct (all_of f l) as [zs|] eqn:El; simpl.
      * split; [intros [= <-]; constructor; [done|by apply IH]|]. inversion 1 as [|? y' ? ys' Hy Hys]; subst. apply IH in Hys. congruence.
      * split; [done|]. inversion 1 as [|? y' ? ys' Hy Hys]; subst. apply IH in Hys. congruence.
    + split; [done|]. inversion 1; congruence.
Qed.
