(* ===== verification/Metafilter.v ===== *)
(** * Metafilters: [logging/src/logging/metafilter.cpp]

    A metafilter is the disjunction of the filters set on one logger, with
    deadlines and accept/reject counters.  The clock readings
    ([std::time(nullptr)]) are arguments: [apply] reads the clock once for
    itself and once more inside the [cleanup] it may trigger. *)

From S2P Require Import Prelude LogFilter.

Local Open Scope Z_scope.

(** [processed_t]; the metric [overall_count] is registered under
    ["logging.{}.sum.count"] for both types, so the two instances share one
    counter, which the metafilter record holds. *)
Record processed_t := mk_processed { count : Z; count_since_change : Z }.

Record metafilter_t := mk_metafilter {
  name : string;
  accepted : processed_t;
  rejected : processed_t;
  overall_count : Z;
  filters : list filter_info_t
}.

Definition metafilter_construct (n : string) : metafilter_t :=
  mk_metafilter n (mk_processed 0 0) (mk_processed 0 0) 0 [].

Definition increment (p : processed_t) : processed_t :=
  mk_processed (u64 (count p + 1)) (u64 (count_since_change p + 1)).
Definition on_changed (p : processed_t) : processed_t := mk_processed (count p) 0.

(** Replacing the filter vector resets both [count_since_change] counters. *)
Definition changed (fs : list filter_info_t) (m : metafilter_t) : metafilter_t :=
  mk_metafilter (name m) (on_changed (accepted m)) (on_changed (rejected m)) (overall_count m) fs.

Definition has_id (fid : Z) (i : filter_info_t) : bool := filter_id i =? fid.

Definition add_filter (i : filter_info_t) (m : metafilter_t) : metafilter_t :=
  if existsb (has_id (filter_id i)) (filters m) then m
  else changed (filters m ++ [i]) m.

(** [filters.erase(find_if(...))] *)
Fixpoint erase_first (fid : Z) (l : list filter_info_t) : option (list filter_info_t) :=
  match l with
  | [] => None
  | i :: l => if has_id fid i then Some l
              else match erase_first fid l with Some l' => Some (i :: l') | None => None end
  end.

Definition remove_filter (fid : Z) (m : metafilter_t) : bool * metafilter_t :=
  match erase_first fid (filters m) with
  | None => (false, m)
  | Some fs => (true, changed fs m)
  end.

Definition empty_ (m : metafilter_t) : bool := match filters m with [] => true | _ => false end.

Definition each {A} (fn : filter_info_t -> A) (m : metafilter_t) : list A := fn <$> filters m.

Definition expired (now : Z) (i : filter_info_t) : bool := deadline i <? now.

(** The loop of [cleanup]: [kept] is the part before the iterator. *)
Fixpoint cleanup_loop (now : Z) (kept rest : list filter_info_t) (m : metafilter_t) : metafilter_t :=
  match rest with
  | [] => m
  | i :: rest => if expired now i then cleanup_loop now kept rest (changed (kept ++ rest) m)
                 else cleanup_loop now (kept ++ [i]) rest m
  end.

Definition cleanup (now : Z) (m : metafilter_t) : metafilter_t :=
  cleanup_loop now [] (filters m) m.

(** The loop of [apply] over the filters: the running result and [need_cleanup]. *)
Fixpoint scan (e : env) (severity : Z) (p : attribute_pack) (now : Z)
    (result : filter_result_t) (need_cleanup : bool) (l : list filter_info_t)
  : outcome error_t (filter_result_t * bool) :=
  match l with
  | [] => Ret (result, need_cleanup)
  | i :: l =>
      if expired now i then scan e severity p now result true l
      else match result with
           | accept => scan e severity p now result need_cleanup l
           | reject => outcome_bind (apply e (info_filter i) severity p) (fun r =>
                         scan e severity p now r need_cleanup l)
           end
  end.

Definition metafilter_apply (e : env) (severity : Z) (p : attribute_pack) (now now_cleanup : Z)
    (m : metafilter_t) : outcome error_t filter_result_t * metafilter_t :=
  match scan e severity p now reject false (filters m) with
  | Throw err => (Throw err, m)
  | Ret (result, need_cleanup) =>
      let m := if need_cleanup then cleanup now_cleanup m else m in
      let overall := u64 (overall_count m + 1) in
      match result with
      | reject => (Ret reject, mk_metafilter (name m) (accepted m) (increment (rejected m)) overall (filters m))
      | accept => (Ret accept, mk_metafilter (name m) (increment (accepted m)) (rejected m) overall (filters m))
      end
  end.

(** ** Facts *)

Definition live (now : Z) (l : list filter_info_t) : list filter_info_t :=
  filter (fun i => expired now i = false) l.

(** The invariant: filter ids are unique, the shared counter is the sum of the
    two others, and every filter is a constructed one. *)
Record metafilter_wf (m : metafilter_t) : Prop := {
  wf_ids : NoDup (filter_id <$> filters m);
  wf_sum : overall_count m = u64 (count (accepted m) + count (rejected m));
  wf_filters : Forall (fun i => no_null (info_filter i)) (filters m)
}.

Lemma changed_wf fs m :
  metafilter_wf m -> NoDup (filter_id <$> fs) -> Forall (fun i => no_null (info_filter i)) fs ->
  metafilter_wf (changed fs m).
Proof. intros [H1 H2 H3] ??. by constructor. Qed.

Lemma existsb_has_id fid l : existsb (has_id fid) l = false <-> fid ∉ (filter_id <$> l).
Proof.
  rewrite <- not_true_iff_false, existsb_exists. unfold has_id.
  setoid_rewrite Z.eqb_eq. setoid_rewrite <- list_elem_of_In. rewrite list_elem_of_fmap.
  naive_solver.
Qed.

Lemma add_filter_wf i m :
  metafilter_wf m -> no_null (info_filter i) -> metafilter_wf (add_filter i m).
Proof.
  intros Hm Hi. unfold add_filter. destruct existsb eqn:He; [done|].
  apply existsb_has_id in He. apply changed_wf; [done| |].
  - rewrite fmap_app, NoDup_app; simpl. split_and!; [apply Hm| |apply NoDup_singleton].
    intros x Hx Hx'. apply list_elem_of_singleton in Hx' as ->. done.
  - apply Forall_app; split; [apply Hm|by repeat constructor].
Qed.

Lemma erase_first_spec fid l l' :
  erase_first fid l = Some l' -> exists l1 i l2, l = l1 ++ i :: l2 /\ l' = l1 ++ l2 /\ filter_id i = fid.
Proof.
  revert l'. induction l as [|i l IH]; simpl; [done|]. intros l'. destruct has_id eqn:Hid.
  - intros [= <-]. apply Z.eqb_eq in Hid. by exists [], i, l.
  - destruct (erase_first fid l) as [r|] eqn:Hr; [|done]. intros [= <-].
    destruct (IH r eq_refl) as (l1 & j & l2 & -> & -> & Hj). by exists (i :: l1), j, l2.
Qed.

Lemma erase_first_None fid l : erase_first fid l = None <-> fid ∉ (filter_id <$> l).
Proof.
  induction l as [|i l IH]; simpl; [set_solver|]. unfold has_id. rewrite not_elem_of_cons.
  destruct (Z.eqb_spec (filter_id i) fid); [naive_solver|].
  destruct (erase_first fid l); naive_solver.
Qed.

Lemma remove_filter_wf fid m : metafilter_wf m -> metafilter_wf (remove_filter fid m).2.
Proof.
  intros Hm. unfold remove_filter. destruct erase_first eqn:He; [|done].
  apply erase_first_spec in He as (l1 & i & l2 & Hf & -> & _). destruct Hm as [Hn Hs Ha].
  rewrite Hf in *. rewrite fmap_app, fmap_cons in Hn. apply changed_wf; [by constructor; rewrite ?Hf, ?fmap_app, ?fmap_cons| |].
  - rewrite fmap_app. rewrite <- Permutation_middle in Hn. by inversion Hn.
  - apply Forall_app in Ha as [? [_ ?]%Forall_cons]. by apply Forall_app.
Qed.

Lemma cleanup_loop_filters now kept rest m :
  filters m = kept ++ rest -> filters (cleanup_loop now kept rest m) = kept ++ live now rest.
Proof.
  revert kept m. induction rest as [|i rest IH]; intros kept m Hm; simpl; [done|].
  unfold live. destruct (expired now i) eqn:He.
  - rewrite filter_cons_False by (by rewrite He). by rewrite (IH kept).
  - rewrite filter_cons_True by done. rewrite (IH (kept ++ [i])); [by rewrite <- app_assoc|].
    by rewrite <- app_assoc.
Qed.

Lemma cleanup_filters now m : filters (cleanup now m) = live now (filters m).
Proof. by apply (cleanup_loop_filters now []). Qed.

Lemma cleanup_loop_counts now kept rest m :
  let m' := cleanup_loop now kept rest m in
  count (accepted m') = count (accepted m) /\ count (rejected m') = count (rejected m) /\
  overall_count m' = overall_count m.
Proof.
  revert kept m. induction rest as [|i rest IH]; intros kept m; simpl; [done|].
  destruct expired; [|apply IH]. destruct (IH kept (changed (kept ++ rest) m)) as (-> & -> & ->). done.
Qed.

Lemma cleanup_wf now m : metafilter_wf m -> metafilter_wf (cleanup now m).
Proof.
  intros [H1 H2 H3]. destruct (cleanup_loop_counts now [] (filters m) m) as (Ha & Hr & Ho).
  constructor; fold (cleanup now m) in *.
  - rewrite cleanup_filters. eapply sublist_NoDup; [exact H1|]. apply fmap_sublist, sublist_filter.
  - congruence.
  - rewrite cleanup_filters. by apply Forall_filter_sub.
Qed.

Lemma scan_spec e severity p now l : forall result need,
  Forall (fun i => no_null (info_filter i)) l ->
  scan e severity p now result need l =
  Ret (match result with
       | accept => accept
       | reject => verdict (existsb (fun i => denote e severity p (info_filter i)) (live now l))
       end, need || existsb (expired now) l).
Proof.
  induction l as [|i l IH]; intros result need Hl; simpl.
  { by destruct result; rewrite orb_false_r. }
  apply Forall_cons in Hl as [Hi Hl]. unfold live. destruct (expired now i) eqn:He.
  - rewrite filter_cons_False by (by rewrite He). rewrite IH by done. by destruct need, result.
  - rewrite filter_cons_True by done. destruct result; [by rewrite IH|].
    rewrite apply_denote by done. simpl. destruct (denote _ _ _ _); by rewrite IH.
Qed.

Lemma metafilter_apply_wf e severity p now now' m :
  metafilter_wf m -> metafilter_wf (metafilter_apply e severity p now now' m).2.
Proof.
  intros Hm. unfold metafilter_apply. destruct scan as [[result need]|]; [|done].
  assert (metafilter_wf (if need then cleanup now' m else m)) as [H1 H2 H3]
    by (destruct need; [by apply cleanup_wf|done]).
  destruct result; constructor; simpl; try done.
  - rewrite H2, u64_add_l, u64_add_l. f_equal. lia.
  - rewrite H2, u64_add_l, u64_add_r. f_equal. lia.
Qed.

(** ** Theorems *)

(** A metafilter accepts exactly the records some unexpired filter of it
    accepts; it never throws, drops the filters expired at the cleanup when it
    met an expired one, and counts the decision once. *)
Theorem metafilter_apply_spec (e : env) (severity : Z) (p : attribute_pack) (now now' : Z)
    (m : metafilter_t) :
  metafilter_wf m ->
  let hit := existsb (fun i => denote e severity p (info_filter i)) (live now (filters m)) in
  let m' := (metafilter_apply e severity p now now' m).2 in
  (metafilter_apply e severity p now now' m).1 = Ret (verdict hit) /\
  filters m' = (if existsb (expired now) (filters m) then live now' (filters m) else filters m) /\
  count (accepted m') = (if hit then u64 (count (accepted m) + 1) else count (accepted m)) /\
  count (rejected m') = (if hit then count (rejected m) else u64 (count (rejected m) + 1)).
Proof.
  intros [_ _ Hf] hit m'. subst m'. unfold metafilter_apply.
  rewrite scan_spec by done. fold hit. simpl orb.
  set (need := existsb (expired now) (filters m)).
  set (mc := if need then cleanup now' m else m).
  assert (filters mc = if need then live now' (filters m) else filters m) as Hfs
    by (unfold mc; destruct need; [apply cleanup_filters|done]).
  assert (count (accepted mc) = count (accepted m) /\ count (rejected mc) = count (rejected m)) as [Ha Hr].
  { unfold mc; destruct need; [|done].
    destruct (cleanup_loop_counts now' [] (filters m) m) as (? & ? & _). done. }
  destruct hit; simpl; rewrite ?Ha, ?Hr, ?Hfs; done.
Qed.

Definition example_metafilter : metafilter_t :=
  add_filter (mk_info empty_filter 10 1 local "x")
    (add_filter (mk_info (severity_filter 3) 50 2 local "x") (metafilter_construct "x")).

Lemma example_metafilter_wf : metafilter_wf example_metafilter.
Proof. repeat apply add_filter_wf; simpl; auto. constructor; simpl; [constructor|done|done]. Qed.

Lemma metafilter_apply_witness :
  (metafilter_apply (mk_env false (fun _ => 0)) 2 [] 20 21 example_metafilter).1 = Ret reject /\
  filter_id <$> filters (metafilter_apply (mk_env false (fun _ => 0)) 2 [] 20 21 example_metafilter).2 = [2].
Proof.
  destruct (metafilter_apply_spec (mk_env false (fun _ => 0)) 2 [] 20 21 example_metafilter
              example_metafilter_wf) as (H1 & H2 & _).
  split; [exact H1 | rewrite H2; reflexivity].
Defined.

(** The calls a metafilter serves. *)
Inductive mf_call :=
| AddFilter (i : filter_info_t)
| RemoveFilter (fid : Z)
| Cleanup (now : Z)
| Apply (e : env) (severity : Z) (p : attribute_pack) (now now' : Z).

Definition serve (c : mf_call) (m : metafilter_t) : metafilter_t :=
  match c with
  | AddFilter i => add_filter i m
  | RemoveFilter fid => (remove_filter fid m).2
  | Cleanup now => cleanup now m
  | Apply e s p now now' => (metafilter_apply e s p now now' m).2
  end.

Definition admissible (c : mf_call) : Prop :=
  match c with AddFilter i => no_null (info_filter i) | _ => True end.

(** The metafilter invariant.  From a new metafilter, every sequence of calls
    keeps filter ids unique, the shared counter equal to the sum of accepted and
    rejected records modulo 2^64, and holds no null filter. *)
Theorem metafilter_invariant (n : string) (cs : list mf_call) :
  Forall admissible cs ->
  metafilter_wf (foldl (fun m c => serve c m) (metafilter_construct n) cs).
Proof.
  assert (metafilter_wf (metafilter_construct n)) as H0.
  { constructor; simpl; [constructor|done|done]. }
  revert H0. generalize (metafilter_construct n) as m.
  induction cs as [|c cs IH]; intros m Hm Hcs; simpl; [done|].
  apply Forall_cons in Hcs as [Hc Hcs]. apply IH; [|done].
  destruct c; simpl in *; auto using add_filter_wf, remove_filter_wf, cleanup_wf, metafilter_apply_wf.
Qed.

Lemma metafilter_invariant_witness :
  overall_count (foldl (fun m c => serve c m) (metafilter_construct "x")
    [AddFilter (mk_info empty_filter 10 1 local "x");
     Apply (mk_env false (fun _ => 0)) 0 [] 5 5; Apply (mk_env false (fun _ => 0)) 0 [] 11 11]) = 2.
Proof.
  assert (Forall admissible
    [AddFilter (mk_info empty_filter 10 1 local "x");
     Apply (mk_env false (fun _ => 0)) 0 [] 5 5; Apply (mk_env false (fun _ => 0)) 0 [] 11 11]) as H
    by (repeat constructor).
  pose proof (wf_sum _ (metafilter_invariant "x" _ H)) as Hs.
  etransitivity; [exact Hs | vm_compute; reflexivity].
Defined.
