(* ===== verification/LoggingService.v ===== *)
(** * The logging service: [logging/src/logging_v2.cpp]

    [impl_t] keeps one metafilter per logger name in a radix tree of shared
    pointers; two of them, ["default"] and ["core"], are also captured by the
    filter installed in the context's logger.  The state therefore has a heap of
    metafilters and maps from names to addresses, so that a pointer kept after
    its name was erased still reaches the same object.  Requests to the Unicorn
    service (the cluster storage) are recorded in [calls]; its answers are
    arguments of the callbacks. *)

From Stdlib Require Import Ascii.
From stdpp Require Import pretty.
From S2P Require Import Prelude LogFilter Metafilter.

Local Open Scope Z_scope.

(** The radix tree is a third-party container: what the service relies on is that
    [longest_match] finds the longest stored key that is a prefix of its argument. *)
Class RadixTree := {
  longest_match : gmap string nat -> string -> option (string * nat);
  longest_match_some m k k' p :
    longest_match m k = Some (k', p) ->
    m !! k' = Some p /\ String.prefix k' k = true /\
    (forall k'', is_Some (m !! k'') -> String.prefix k'' k = true ->
                 (String.length k'' <= String.length k')%nat);
  longest_match_none m k :
    longest_match m k = None -> forall k', is_Some (m !! k') -> String.prefix k' k = false
}.

Inductive unicorn_call :=
| UCreate (path : string) (value : outcome error_t dynamic_t)
| UDel (path : string)
| USubscribe (path : string).

(** The answer a Unicorn future carries: a value or an error code. *)
Inductive unicorn_error := no_node | node_exists | other_error.

Record impl_t := mk_impl {
  heap : gmap nat metafilter_t;
  metafilters : gmap string nat;
  next : nat;
  default_mf : nat;
  core_mf : nat;
  scopes : gset Z;
  scope_counter : Z;
  filter_unicorn_path : string;
  calls : list unicorn_call
}.

Definition default_key : string := "default".
Definition core_key : string := "core".

(** ** Writes to the state *)

Definition set_heap (h : gmap nat metafilter_t) (s : impl_t) : impl_t :=
  mk_impl h (metafilters s) (next s) (default_mf s) (core_mf s) (scopes s) (scope_counter s)
          (filter_unicorn_path s) (calls s).
Definition on_mf (p : nat) (f : metafilter_t -> metafilter_t) (s : impl_t) : impl_t :=
  set_heap (alter f p (heap s)) s.
Definition call (c : unicorn_call) (s : impl_t) : impl_t :=
  mk_impl (heap s) (metafilters s) (next s) (default_mf s) (core_mf s) (scopes s) (scope_counter s)
          (filter_unicorn_path s) (calls s ++ [c]).
Definition set_scopes (sc : gset Z) (n : Z) (s : impl_t) : impl_t :=
  mk_impl (heap s) (metafilters s) (next s) (default_mf s) (core_mf s) sc n
          (filter_unicorn_path s) (calls s).

(** The metafilter a shared pointer denotes; addresses in use are never freed. *)
Definition mf_at (s : impl_t) (p : nat) : metafilter_t :=
  match heap s !! p with Some m => m | None => metafilter_construct "" end.

Definition filter_path (s : impl_t) (fid : Z) : string :=
  (filter_unicorn_path s +:+ "/" +:+ pretty fid)%string.

(** ** Metafilters by name *)

Definition get_metafilter (n : string) (s : impl_t) : nat * impl_t :=
  match metafilters s !! n with
  | Some p => (p, s)
  | None =>
      (next s, mk_impl (<[next s := metafilter_construct n]> (heap s)) (<[n := next s]> (metafilters s))
                       (S (next s)) (default_mf s) (core_mf s) (scopes s) (scope_counter s)
                       (filter_unicorn_path s) (calls s))
  end.

Definition get_default_metafilter : impl_t -> nat * impl_t := get_metafilter default_key.
Definition get_core_metafilter : impl_t -> nat * impl_t := get_metafilter core_key.

Section tree.
Context `{RadixTree}.

Definition find_metafilter (n : string) (s : impl_t) : nat * impl_t :=
  match longest_match (metafilters s) n with
  | Some (_, p) => if empty_ (mf_at s p) then get_default_metafilter s else (p, s)
  | None => get_default_metafilter s
  end.
End tree.

(** The constructor: the default metafilter is filled from the configuration with
    filters that never expire, and both special pointers are captured. *)
Definition default_info (conf : dynamic_t) (fid : Z) : outcome error_t filter_info_t :=
  filter_info_construct (DObject
    [("deadline", DUint int64_max); ("logger_name", DString default_key);
     ("disposition", DUint 0); ("id", DUint fid); ("filter", conf)]%string).

Fixpoint fill_default (confs : list (dynamic_t * Z)) (p : nat) (s : impl_t)
  : outcome error_t impl_t :=
  match confs with
  | [] => Ret s
  | (conf, fid) :: confs =>
      outcome_bind (default_info conf fid) (fun i => fill_default confs p (on_mf p (add_filter i) s))
  end.

Definition empty_impl (path : string) (counter : Z) : impl_t :=
  mk_impl ∅ ∅ 0 0 0 ∅ counter path [].

(** [scope_counter] is not initialised by the constructor: its first value is an
    argument, as are the generated ids. *)
Definition impl_construct (path : string) (counter : Z) (confs : list (dynamic_t * Z))
  : outcome error_t impl_t :=
  let '(d, s) := get_default_metafilter (empty_impl path counter) in
  outcome_bind (fill_default confs d s) (fun s =>
  let '(c, s) := get_core_metafilter s in
  Ret (mk_impl (heap s) (metafilters s) (next s) d c (scopes s) (scope_counter s)
               (filter_unicorn_path s) (calls s))).

(** ** Periodic cleanup *)

(** One turn of the loop over the tree; [clock] is the reading for each name. *)
Definition cleanup_turn (clock : string -> Z) (acc : gmap nat metafilter_t * list string)
    (kp : string * nat) : gmap nat metafilter_t * list string :=
  let '(h, dead) := acc in
  let '(k, p) := kp in
  let h' := alter (cleanup (clock k)) p h in
  match h' !! p with
  | Some m => if empty_ m && negb (String.eqb k core_key) then (h', dead ++ [k]) else (h', dead)
  | None => (h', dead)
  end.

Definition service_cleanup (clock : string -> Z) (s : impl_t) : impl_t :=
  let '(h, dead) := foldl (cleanup_turn clock) (heap s, []) (map_to_list (metafilters s)) in
  mk_impl h (foldl (fun t k => delete k t) (metafilters s) dead) (next s) (default_mf s) (core_mf s)
          (scopes s) (scope_counter s) (filter_unicorn_path s) (calls s).

(** ** Records *)

(** The attribute pack of a record: its attributes and the source. *)
Definition record_pack (backend : string) (attributes : list attribute_view_t) : attribute_pack :=
  [attributes ++ [("source"%string, VString backend)]].

Definition emit_ack (e : env) (p : nat) (backend : string) (severity : Z)
    (attributes : list attribute_view_t) (now now' : Z) (s : impl_t) : outcome error_t bool * impl_t :=
  let '(r, m) := metafilter_apply e severity (record_pack backend attributes) now now' (mf_at s p) in
  let s := on_mf p (fun _ => m) s in
  match r with
  | Throw err => (Throw err, s)
  | Ret reject => (Ret false, s)
  | Ret accept => (Ret true, s)
  end.

(** The filter installed in the context's own logger. *)
Definition core_filter (e : env) (severity : Z) (pack : attribute_pack) (now now' : Z) (s : impl_t)
  : outcome error_t bool * impl_t :=
  let p := if empty_ (mf_at s (core_mf s)) then default_mf s else core_mf s in
  let '(r, m) := metafilter_apply e severity pack now now' (mf_at s p) in
  (outcome_bind r (fun r => Ret (bool_decide (r = accept))), on_mf p (fun _ => m) s).

(** ** Management requests *)

Definition list_loggers (s : impl_t) : list string := (map_to_list (metafilters s)).*1.

Definition list_filters (s : impl_t) : list filter_info_t :=
  concat ((fun kp => each (fun i => i) (mf_at s kp.2)) <$> map_to_list (metafilters s)).

Fixpoint remove_local_loop (fid : Z) (l : list (string * nat)) (s : impl_t) : bool * impl_t :=
  match l with
  | [] => (false, s)
  | (_, p) :: l =>
      let '(ok, m) := remove_filter fid (mf_at s p) in
      let s := on_mf p (fun _ => m) s in
      if ok then (true, s) else remove_local_loop fid l s
  end.

Definition remove_local_filter (fid : Z) (s : impl_t) : bool * impl_t :=
  remove_local_loop fid (map_to_list (metafilters s)) s.

(** [set_filter]: a local filter is installed and its id returned at once; a
    cluster filter is written to Unicorn and the reply waits for the answer. *)
Definition set_filter (dynamic_of_int : Z -> dynamic_t) (n : string) (f : filter_t) (ttl : Z)
    (d : disposition_t) (now generated : Z) (s : impl_t) : option Z * impl_t :=
  let i := mk_info f (u64 (now + ttl)) generated d n in
  match d with
  | local => let '(p, s) := get_metafilter n s in (Some generated, on_mf p (add_filter i) s)
  | cluster =>
      let scope_id := scope_counter s in
      let s := set_scopes ({[scope_id]} ∪ scopes s) (u64 (scope_id + 1)) s in
      (None, call (UCreate (filter_path s generated) (filter_info_representation dynamic_of_int i)) s)
  end.

(** The completion of the [create] sent by [set_filter]: the reply and the freed scope. *)
Definition on_set_created (scope_id generated : Z) (answer : outcome unicorn_error bool) (s : impl_t)
  : outcome unicorn_error Z * impl_t :=
  (outcome_bind answer (fun _ => Ret generated),
   set_scopes (scopes s ∖ {[scope_id]}) (scope_counter s) s).

Definition request_remove (fid : Z) (s : impl_t) : impl_t := call (UDel (filter_path s fid)) s.

(** The completion of the [del] sent by [remove_filter]. *)
Definition on_removed (fid : Z) (answer : outcome unicorn_error unit) (s : impl_t)
  : outcome unicorn_error bool * impl_t :=
  match answer with
  | Ret _ => let '(_, s) := remove_local_filter fid s in (Ret true, s)
  | Throw no_node => let '(ok, s) := remove_local_filter fid s in (Ret ok, s)
  | Throw err => (Throw err, s)
  end.

(** ** Cluster filters: the subscription callbacks of [load_filters] *)

Definition drop_subscription (fid : Z) (s : impl_t) : impl_t :=
  let '(_, s) := remove_local_filter fid s in
  set_scopes (scopes s ∖ {[fid]}) (scope_counter s) s.

(** [on_filter]: [None] is a node that does not exist. *)
Definition on_filter (fid : Z) (now : Z) (value : outcome unicorn_error (option dynamic_t)) (s : impl_t)
  : impl_t :=
  match value with
  | Throw _ => drop_subscription fid s
  | Ret None => drop_subscription fid s
  | Ret (Some d) =>
      match filter_info_construct d with
      | Throw _ => call (UDel (filter_path s fid)) s
      | Ret i =>
          if deadline i <? now then call (UDel (filter_path s fid)) s
          else let '(p, s) := get_metafilter (logger_name i) s in on_mf p (add_filter i) s
      end
  end.

(** [std::stoull]: blanks, an optional sign, then digits up to the first other
    character; [None] is the exception (no digit, or out of range). *)
Definition digit (c : Ascii.ascii) : option Z :=
  let n := Z.of_N (Ascii.N_of_ascii c) in
  if (48 <=? n) && (n <=? 57) then Some (n - 48) else None.
Definition blank (c : Ascii.ascii) : bool :=
  let n := Z.of_N (Ascii.N_of_ascii c) in (n =? 32) || ((9 <=? n) && (n <=? 13)).
Fixpoint digits (acc : option Z) (s : string) : option Z :=
  match s with
  | EmptyString => acc
  | String c s' => match digit c with
                   | Some d => digits (Some (10 * default 0 acc + d)) s'
                   | None => acc
                   end
  end.
Fixpoint skip_blanks (s : string) : string :=
  match s with String c s' => if blank c then skip_blanks s' else s | _ => s end.
Definition stoull (s : string) : option Z :=
  let s := skip_blanks s in
  let '(neg, s) := match s with
                   | String "-"%char s' => (true, s')
                   | String "+"%char s' => (false, s')
                   | _ => (false, s)
                   end in
  match digits None s with
  | Some z => if z <? u64_modulus then Some (if neg : bool then u64 (- z) else z) else None
  | None => None
  end.

(** [on_filter_list]: a fresh id is subscribed to, an ill-formed key is deleted. *)
Fixpoint on_filter_list (ids : list string) (s : impl_t) : impl_t :=
  match ids with
  | [] => s
  | key :: ids =>
      let s := match stoull key with
               | None => call (UDel (filter_unicorn_path s +:+ "/" +:+ key)%string) s
               | Some fid => if bool_decide (fid ∈ scopes s) then s
                             else call (USubscribe (filter_path s fid))
                                       (set_scopes ({[fid]} ∪ scopes s) (scope_counter s) s)
               end in
      on_filter_list ids s
  end.

(** ** The requests of a service, as a transition function *)

Inductive request :=
| EmitAck (e : env) (backend : string) (severity : Z) (attributes : list attribute_view_t) (now now' : Z)
| CoreRecord (e : env) (severity : Z) (pack : attribute_pack) (now now' : Z)
| SetFilter (dynamic_of_int : Z -> dynamic_t) (n : string) (f : filter_t) (ttl : Z)
            (d : disposition_t) (now generated : Z)
| SetCreated (scope_id generated : Z) (answer : outcome unicorn_error bool)
| RemoveFilterRequest (fid : Z)
| Removed (fid : Z) (answer : outcome unicorn_error unit)
| FilterUpdate (fid now : Z) (value : outcome unicorn_error (option dynamic_t))
| FilterList (ids : list string)
| CleanupTick (clock : string -> Z).

Definition handle `{RadixTree} (r : request) (s : impl_t) : impl_t :=
  match r with
  | EmitAck e b sev a now now' =>
      let '(p, s) := find_metafilter b s in (emit_ack e p b sev a now now' s).2
  | CoreRecord e sev pack now now' => (core_filter e sev pack now now' s).2
  | SetFilter di n f ttl d now g => (set_filter di n f ttl d now g s).2
  | SetCreated sc g a => (on_set_created sc g a s).2
  | RemoveFilterRequest fid => request_remove fid s
  | Removed fid a => (on_removed fid a s).2
  | FilterUpdate fid now v => on_filter fid now v s
  | FilterList ids => on_filter_list ids s
  | CleanupTick clock => service_cleanup clock s
  end.

(** A filter that came over the wire was built by the constructor. *)
Definition from_wire (r : request) : Prop :=
  match r with SetFilter _ _ f _ _ _ _ => no_null f | _ => True end.

(** ** Facts *)

(** The invariant: names denote allocated, distinct, well formed metafilters, and
    the name ["core"] denotes the one captured by the context's filter. *)
Record service_wf (s : impl_t) : Prop := {
  ptr_valid : forall k p, metafilters s !! k = Some p -> is_Some (heap s !! p);
  ptr_inj : forall k k' p, metafilters s !! k = Some p -> metafilters s !! k' = Some p -> k = k';
  ptr_fresh : forall p, is_Some (heap s !! p) -> (p < next s)%nat;
  heap_wf : forall p m, heap s !! p = Some m -> metafilter_wf m;
  core_captured : metafilters s !! core_key = Some (core_mf s)
}.

Lemma new_metafilter_wf n : metafilter_wf (metafilter_construct n).
Proof. constructor; simpl; [constructor|done|done]. Qed.

Lemma mf_at_wf s p : service_wf s -> metafilter_wf (mf_at s p).
Proof.
  intros Hs. unfold mf_at. destruct (heap s !! p) eqn:Hp; [by eapply heap_wf|].
  apply new_metafilter_wf.
Qed.

Create HintDb logging.
#[export] Hint Resolve new_metafilter_wf mf_at_wf add_filter_wf remove_filter_wf cleanup_wf
  metafilter_apply_wf : logging.

Lemma on_mf_wf p f s :
  (forall m, metafilter_wf m -> metafilter_wf (f m)) -> service_wf s -> service_wf (on_mf p f s).
Proof.
  intros Hf [H1 H2 H3 H4 H5]. constructor; simpl; try done.
  - intros k q Hk. rewrite lookup_alter_is_Some. eauto.
  - intros q. rewrite lookup_alter_is_Some. auto.
  - intros q m. rewrite lookup_alter_Some. intros [(<- & m' & Hm & ->)|[_ Hm]]; eauto.
Qed.

Lemma get_metafilter_wf n s : service_wf s -> service_wf (get_metafilter n s).2.
Proof.
  intros Hs. unfold get_metafilter. destruct (metafilters s !! n) as [p|] eqn:Hn; [done|].
  destruct Hs as [H1 H2 H3 H4 H5].
  assert (forall k, metafilters s !! k <> Some (next s)) as Hnew.
  { intros k Hk. apply H1, H3 in Hk. lia. }
  constructor; cbn [heap metafilters next core_mf snd].
  - intros k p. rewrite lookup_insert_Some, lookup_insert_is_Some.
    intros [[<- <-]|[_ Hk]]; [by left|right]. split; [|by eauto]. intros <-. by apply (Hnew k).
  - intros k k' p. rewrite !lookup_insert_Some. naive_solver.
  - intros p. rewrite lookup_insert_is_Some. intros [<-|[_ Hp]]; [lia|]. apply H3 in Hp. lia.
  - intros p m. rewrite lookup_insert_Some. intros [[<- <-]|[_ Hp]]; eauto with logging.
  - rewrite lookup_insert_ne; [done|]. intros ->. congruence.
Qed.

Lemma get_metafilter_core s p s' :
  get_metafilter core_key s = (p, s') -> service_wf s -> p = core_mf s /\ s' = s.
Proof. intros Hg Hs. unfold get_metafilter in Hg. rewrite (core_captured s Hs) in Hg. by simplify_eq. Qed.

Lemma remove_local_wf fid l s : service_wf s -> service_wf (remove_local_loop fid l s).2.
Proof.
  revert s. induction l as [|[k p] l IH]; intros s Hs; simpl; [done|].
  destruct (remove_filter fid (mf_at s p)) as [ok m] eqn:Hr.
  assert (service_wf (on_mf p (fun _ => m) s)).
  { apply on_mf_wf; [|done]. intros _ _. replace m with (remove_filter fid (mf_at s p)).2 by (by rewrite Hr).
    auto with logging. }
  destruct ok; [done|by apply IH].
Qed.

(** A state that differs only in scopes and calls is as well formed. *)
Lemma same_tree_wf s s' :
  heap s' = heap s -> metafilters s' = metafilters s -> next s' = next s -> core_mf s' = core_mf s ->
  service_wf s -> service_wf s'.
Proof. intros E1 E2 E3 E4 [H1 H2 H3 H4 H5]. constructor; rewrite ?E1, ?E2, ?E3, ?E4; auto. Qed.

(** The loop of [cleanup]: every named metafilter is cleaned, the emptied names
    other than ["core"] are collected. *)
Lemma cleanup_loop_spec clock l : forall h dead,
  NoDup l.*2 -> (forall k p, (k, p) ∈ l -> is_Some (h !! p)) ->
  let '(h', dead') := foldl (cleanup_turn clock) (h, dead) l in
  (forall p, p ∉ l.*2 -> h' !! p = h !! p) /\
  (forall k p, (k, p) ∈ l -> h' !! p = cleanup (clock k) <$> (h !! p)) /\
  (forall k, k ∈ dead' <-> k ∈ dead \/
     exists p m, (k, p) ∈ l /\ h' !! p = Some m /\ empty_ m = true /\ k <> core_key).
Proof.
  induction l as [|[k p] l IH]; intros h dead Hnd Hval; simpl.
  { split_and!; [done|set_solver|set_solver]. }
  apply NoDup_cons in Hnd as [Hp Hnd].
  destruct (Hval k p) as [m Hm]; [set_solver|].
  assert (alter (cleanup (clock k)) p h !! p = Some (cleanup (clock k) m)) as Ha
    by (by rewrite lookup_alter_eq, Hm).
  rewrite Ha.
  set (h1 := alter (cleanup (clock k)) p h) in *.
  set (dead1 := if empty_ (cleanup (clock k) m) && negb (String.eqb k core_key) then dead ++ [k] else dead).
  replace (if empty_ (cleanup (clock k) m) && negb (String.eqb k core_key)
           then (h1, dead ++ [k]) else (h1, dead)) with (h1, dead1) by (unfold dead1; by case_match).
  specialize (IH h1 dead1 Hnd).
  destruct (foldl _ (h1, dead1) l) as [h' dead'].
  destruct IH as (IH1 & IH2 & IH3).
  { intros k' p' Hin. unfold h1. rewrite lookup_alter_is_Some. apply (Hval k'). set_solver. }
  assert (forall k' p', (k', p') ∈ l -> p' <> p) as Hne.
  { intros k' p' Hin ->. apply Hp. apply list_elem_of_fmap. by exists (k', p). }
  assert (h' !! p = Some (cleanup (clock k) m)) as Hp' by (rewrite IH1; done).
  split_and!.
  - intros q Hq. rewrite IH1 by set_solver. apply lookup_alter_ne. set_solver.
  - intros k' p' [E|Hin]%elem_of_cons.
    + simplify_eq. by rewrite Hp', Hm.
    + rewrite (IH2 k' p' Hin). f_equal. apply lookup_alter_ne. by apply not_eq_sym, (Hne k').
  - intros k'. rewrite IH3. unfold dead1. split.
    + intros [Hd|(p' & m' & Hin & ?)]; [|right; exists p', m'; set_solver].
      destruct (empty_ (cleanup (clock k) m)) eqn:He; [|by left].
      destruct (String.eqb_spec k core_key) as [->|Hck]; simpl in Hd; [by left|].
      apply elem_of_app in Hd as [?| ->%list_elem_of_singleton]; [by left|right].
      exists p, (cleanup (clock k) m). set_solver.
    + intros [Hd|(p' & m' & [E|Hin]%elem_of_cons & Hm' & He & Hck)]; [left; case_match; set_solver| |right; eauto 6].
      simplify_eq. left. rewrite He.
      destruct (String.eqb_spec k core_key); [done|]. set_solver.
Qed.

Lemma delete_all_lookup {V} (t : gmap string V) (dead : list string) k :
  foldl (fun t k => delete k t) t dead !! k = if decide (k ∈ dead) then None else t !! k.
Proof.
  revert t. induction dead as [|d dead IH]; intros t; simpl; [done|]. rewrite IH.
  destruct (decide (k = d)) as [->|Hne].
  - rewrite lookup_delete_eq. repeat case_decide; set_solver.
  - rewrite lookup_delete_ne by done. repeat case_decide; set_solver.
Qed.

Lemma values_NoDup s : service_wf s -> NoDup (map_to_list (metafilters s)).*2.
Proof.
  intros Hs. apply NoDup_fmap_2_strong; [|apply NoDup_map_to_list].
  intros [k p] [k' p'] Hk Hk' E; simpl in *; subst p'.
  apply elem_of_map_to_list in Hk, Hk'. f_equal. by eapply ptr_inj.
Qed.

Lemma service_cleanup_spec clock s :
  service_wf s ->
  let s' := service_cleanup clock s in
  (forall k p, metafilters s !! k = Some p ->
     heap s' !! p = cleanup (clock k) <$> (heap s !! p)) /\
  (forall p, (forall k, metafilters s !! k <> Some p) -> heap s' !! p = heap s !! p) /\
  (forall k, metafilters s' !! k =
     match metafilters s !! k with
     | Some p => if empty_ (mf_at s' p) && negb (String.eqb k core_key) then None else Some p
     | None => None
     end).
Proof.
  intros Hs. unfold service_cleanup.
  pose proof (cleanup_loop_spec clock (map_to_list (metafilters s)) (heap s) [] (values_NoDup s Hs)) as H.
  destruct (foldl _ _ _) as [h dead]; cbn [heap metafilters].
  destruct H as (H1 & H2 & H3).
  { intros k p Hk%elem_of_map_to_list. by eapply ptr_valid. }
  split_and!.
  - intros k p Hk. by apply (H2 k), elem_of_map_to_list.
  - intros p Hp. apply H1. rewrite list_elem_of_fmap. intros ([k q] & -> & Hk%elem_of_map_to_list).
    by apply (Hp k).
  - intros k. rewrite delete_all_lookup. destruct (metafilters s !! k) as [p|] eqn:Hk; [|by case_decide].
    destruct (ptr_valid s Hs k p Hk) as [m Hm].
    assert (h !! p = Some (cleanup (clock k) m)) as Hh.
    { rewrite (H2 k p), Hm; [done|by apply elem_of_map_to_list]. }
    unfold mf_at; simpl. rewrite Hh. case_decide as Hd.
    + apply H3 in Hd as [Hd|(q & m' & Hq%elem_of_map_to_list & Hm' & He & Hck)]; [set_solver|].
      assert (q = p) as -> by congruence. assert (m' = cleanup (clock k) m) as -> by congruence.
      rewrite He. destruct (String.eqb_spec k core_key); done.
    + destruct (empty_ (cleanup (clock k) m)) eqn:He; [|done].
      destruct (String.eqb_spec k core_key); [done|]. destruct Hd. apply H3. right.
      exists p, (cleanup (clock k) m). split_and!; try done. by apply elem_of_map_to_list.
Qed.

Lemma service_cleanup_wf clock s : service_wf s -> service_wf (service_cleanup clock s).
Proof.
  intros Hs. destruct (service_cleanup_spec clock s Hs) as (H1 & H2 & H3).
  assert (next (service_cleanup clock s) = next s /\ core_mf (service_cleanup clock s) = core_mf s)
    as [Hn Hc] by (unfold service_cleanup; by destruct (foldl _ _ _)).
  set (s' := service_cleanup clock s) in *.
  assert (forall k p, metafilters s' !! k = Some p -> metafilters s !! k = Some p) as Hsub.
  { intros k p. rewrite H3. destruct (metafilters s !! k); [|done]. case_match; naive_solver. }
  assert (forall p, (exists k, metafilters s !! k = Some p) \/ heap s' !! p = heap s !! p) as Hcase.
  { intros p. destruct (decide (p ∈ (map_to_list (metafilters s)).*2)) as [Hin|Hin].
    - apply list_elem_of_fmap in Hin as ([k q] & -> & Hk%elem_of_map_to_list). left. by exists k.
    - right. apply H2. intros k Hk. apply Hin. apply list_elem_of_fmap.
      exists (k, p). by rewrite elem_of_map_to_list. }
  destruct Hs as [V1 V2 V3 V4 V5]. constructor; rewrite ?Hn, ?Hc.
  - intros k p Hk. apply Hsub in Hk. rewrite (H1 k p Hk). by apply fmap_is_Some, (V1 k).
  - intros k k' p Hk Hk'. apply Hsub in Hk, Hk'. by eapply V2.
  - intros p Hp. apply V3. destruct (Hcase p) as [[k Hk]|E]; [by eapply V1|by rewrite <- E].
  - intros p m Hp. destruct (Hcase p) as [[k Hk]|E]; [|rewrite E in Hp; eauto].
    rewrite (H1 k p Hk) in Hp. apply fmap_Some in Hp as (m' & Hm' & ->). eauto with logging.
  - rewrite H3, V5. by rewrite (proj2 (String.eqb_eq _ _) eq_refl), andb_false_r.
Qed.

Lemma find_metafilter_wf `{RadixTree} n s : service_wf s -> service_wf (find_metafilter n s).2.
Proof.
  intros Hs. unfold find_metafilter. destruct (longest_match _ n) as [[k p]|];
    [case_match; [|done]|]; by apply get_metafilter_wf.
Qed.

Lemma emit_ack_wf e p b sev a now now' s : service_wf s -> service_wf (emit_ack e p b sev a now now' s).2.
Proof.
  intros Hs. unfold emit_ack.
  pose proof (metafilter_apply_wf e sev (record_pack b a) now now' (mf_at s p) (mf_at_wf s p Hs)) as Hm.
  destruct (metafilter_apply _ _ _ _ _ _) as [r m]; simpl in Hm.
  assert (service_wf (on_mf p (fun _ => m) s)) by (by apply on_mf_wf).
  by destruct r as [[]|].
Qed.

Lemma on_filter_list_wf ids s : service_wf s -> service_wf (on_filter_list ids s).
Proof.
  revert s. induction ids as [|k ids IH]; intros s Hs; simpl; [done|]. apply IH.
  repeat case_match; try done; by apply (same_tree_wf s).
Qed.

Lemma constructed_info_no_null d i : filter_info_construct d = Ret i -> no_null (info_filter i).
Proof.
  unfold filter_info_construct, outcome_bind. repeat case_match; intros; simplify_eq; simpl;
    eauto using construct_no_null.
Qed.

Lemma handle_wf `{RadixTree} r s : service_wf s -> from_wire r -> service_wf (handle r s).
Proof.
  intros Hs Hr. destruct r; simpl in *.
  - pose proof (find_metafilter_wf backend s Hs). destruct (find_metafilter backend s).
    by apply emit_ack_wf.
  - unfold core_filter. set (p := if empty_ (mf_at s (core_mf s)) then default_mf s else core_mf s).
    pose proof (metafilter_apply_wf e severity pack now now' (mf_at s p) (mf_at_wf s p Hs)) as Hm.
    destruct (metafilter_apply _ _ _ _ _ _) as [res m]; simpl in *. by apply on_mf_wf.
  - unfold set_filter. destruct d; [|by apply (same_tree_wf s)].
    pose proof (get_metafilter_wf n s Hs). destruct (get_metafilter n s) as [p s']; simpl in *.
    apply on_mf_wf; [|done]. auto with logging.
  - by apply (same_tree_wf s).
  - by apply (same_tree_wf s).
  - unfold on_removed, remove_local_filter.
    pose proof (remove_local_wf fid (map_to_list (metafilters s)) s Hs).
    destruct (remove_local_loop _ _ _); simpl in *. by repeat case_match.
  - assert (service_wf (drop_subscription fid s)).
    { unfold drop_subscription, remove_local_filter.
      pose proof (remove_local_wf fid (map_to_list (metafilters s)) s Hs) as Hw.
      destruct (remove_local_loop _ _ _) as [ok s']; simpl in *. by apply (same_tree_wf s'). }
    unfold on_filter. destruct value as [[d|]|]; try done.
    destruct (filter_info_construct d) as [i|] eqn:Hi; [|by apply (same_tree_wf s)].
    case_match; [by apply (same_tree_wf s)|].
    pose proof (get_metafilter_wf (logger_name i) s Hs).
    destruct (get_metafilter (logger_name i) s); simpl in *.
    apply on_mf_wf; [|done]. eauto using add_filter_wf, constructed_info_no_null.
  - by apply on_filter_list_wf.
  - by apply service_cleanup_wf.
Qed.

Lemma run_wf `{RadixTree} rs s :
  service_wf s -> Forall from_wire rs -> service_wf (foldl (fun s r => handle r s) s rs).
Proof.
  revert s. induction rs as [|r rs IH]; intros s Hs Hrs; simpl; [done|].
  apply Forall_cons in Hrs as [Hr Hrs]. apply IH; [by apply handle_wf|done].
Qed.

(** *** The constructor establishes the invariant *)

Lemma fill_default_shape confs p : forall s s' m,
  fill_default confs p s = Ret s' -> heap s = {[p := m]} -> metafilter_wf m ->
  exists m', metafilter_wf m' /\ s' = set_heap {[p := m']} s.
Proof.
  induction confs as [|[conf fid] confs IH]; intros s s' m Hf Hh Hm; simpl in Hf.
  { simplify_eq. exists m. split; [done|]. destruct s'; simpl in *. by subst. }
  unfold default_info, outcome_bind in Hf. destruct (filter_info_construct _) as [i|] eqn:Hi; [|done].
  destruct (IH _ _ (add_filter i m) Hf) as (m' & Hm' & ->).
  - simpl. rewrite Hh. by rewrite alter_singleton_eq.
  - eauto using add_filter_wf, constructed_info_no_null.
  - by exists m'.
Qed.

Lemma impl_construct_wf path counter confs s : impl_construct path counter confs = Ret s -> service_wf s.
Proof.
  unfold impl_construct, get_default_metafilter, get_metafilter at 1. simpl.
  rewrite lookup_empty. intros Hc.
  destruct (fill_default confs 0 _) as [s1|] eqn:Hf; [|done]. simpl in Hc.
  eapply fill_default_shape in Hf as (m & Hm & ->);
    [| by rewrite insert_empty | apply new_metafilter_wf].
  unfold get_core_metafilter, get_metafilter in Hc. simpl in Hc. rewrite insert_empty in Hc.
  rewrite lookup_singleton_ne in Hc by done. simplify_eq.
  constructor; cbn [heap metafilters next core_mf].
  - intros k p. rewrite lookup_insert_Some. intros [[<- <-]|[_ Hk]]; [by rewrite lookup_insert_eq|].
    apply lookup_singleton_Some in Hk as [<- <-]. rewrite lookup_insert_ne by done.
    by rewrite lookup_singleton_eq.
  - intros k k' p. rewrite !lookup_insert_Some, !lookup_singleton_Some. naive_solver.
  - intros p. rewrite lookup_insert_is_Some, lookup_singleton_is_Some. intros [<-|[_ <-]]; lia.
  - intros p m'. rewrite lookup_insert_Some, lookup_singleton_Some.
    intros [[<- <-]|[_ [<- <-]]]; auto with logging.
  - by rewrite lookup_insert_eq.
Qed.

Lemma prefix_same_length n k k' :
  String.prefix k n = true -> String.prefix k' n = true -> String.length k = String.length k' -> k = k'.
Proof. intros H%String.prefix_correct H'%String.prefix_correct E. congruence. Qed.

(** *** A radix tree *)

Module radix.
Fixpoint match_from (m : gmap string nat) (k : string) (n : nat) : option (string * nat) :=
  match m !! String.substring 0 n k with
  | Some p => Some (String.substring 0 n k, p)
  | None => match n with O => None | S n' => match_from m k n' end
  end.

Lemma length_substring n k : (n <= String.length k)%nat -> String.length (String.substring 0 n k) = n.
Proof. revert n. induction k as [|c k IH]; intros [|n] Hn; simpl in *; try lia. rewrite IH; lia. Qed.

Lemma prefix_substring k' k :
  String.prefix k' k = true -> exists n, (n <= String.length k)%nat /\ k' = String.substring 0 n k.
Proof.
  intros Hp. exists (String.length k'). split; [|by apply String.prefix_correct in Hp].
  revert k Hp. induction k' as [|c k' IH]; intros [|d k]; simpl; try lia; try done.
  destruct (ascii_dec c d); [|done]. intros Hp. apply IH in Hp. lia.
Qed.

Lemma substring_prefix n k : (n <= String.length k)%nat -> String.prefix (String.substring 0 n k) k = true.
Proof. intros Hn. apply String.prefix_correct. by rewrite length_substring. Qed.

Lemma match_from_spec m k n : (n <= String.length k)%nat ->
  match match_from m k n with
  | Some (k', p) => exists j, (j <= n)%nat /\ k' = String.substring 0 j k /\ m !! k' = Some p /\
      (forall i, (j < i <= n)%nat -> m !! String.substring 0 i k = None)
  | None => forall i, (i <= n)%nat -> m !! String.substring 0 i k = None
  end.
Proof.
  intros Hn. induction n as [|n IH]; simpl.
  - destruct (m !! _) eqn:Hm; [exists 0%nat; split_and!; try done; lia|].
    intros i Hi. by replace i with 0%nat by lia.
  - destruct (m !! String.substring 0 (S n) k) as [p|] eqn:Hm.
    + exists (S n). split_and!; try done; lia.
    + specialize (IH ltac:(lia)). destruct (match_from m k n) as [[k' p]|].
      * destruct IH as (j & Hj & -> & Hp & Hmax). exists j. split_and!; try done; [lia|].
        intros i Hi. destruct (decide (i = S n)) as [->|]; [done|]. apply Hmax. lia.
      * intros i Hi. destruct (decide (i = S n)) as [->|]; [done|]. apply IH. lia.
Qed.
End radix.

#[export] Instance radix_tree : RadixTree.
Proof.
  refine {| longest_match m k := radix.match_from m k (String.length k) |}.
  - intros m k k' p Hm. pose proof (radix.match_from_spec m k _ (Nat.le_refl _)) as H.
    rewrite Hm in H. destruct H as (j & Hj & -> & Hp & Hmax). split_and!; [done|by apply radix.substring_prefix|].
    intros k'' [q Hq] (i & Hi & ->)%radix.prefix_substring. rewrite !radix.length_substring by done.
    destruct (decide (i <= j)%nat); [done|]. rewrite Hmax in Hq; [done|lia].
  - intros m k Hm k' [q Hq]. pose proof (radix.match_from_spec m k _ (Nat.le_refl _)) as H.
    rewrite Hm in H. apply not_true_is_false. intros (i & Hi & ->)%radix.prefix_substring.
    rewrite H in Hq; done.
Defined.

(** ** Theorems *)

(** C8: the invariant of the logging service.  After the constructor and any
    sequence of requests, callbacks and cleanup ticks, every logger name denotes
    its own well formed metafilter and ["core"] denotes the metafilter the
    context's logger consults. *)
Theorem service_invariant `{RadixTree} (path : string) (counter : Z) (confs : list (dynamic_t * Z))
    (s0 : impl_t) (rs : list request) :
  impl_construct path counter confs = Ret s0 -> Forall from_wire rs ->
  service_wf (foldl (fun s r => handle r s) s0 rs).
Proof. intros H0 Hrs. apply run_wf; [by eapply impl_construct_wf|done]. Qed.

Definition example_impl : impl_t :=
  match impl_construct "/filters" 0 [(DArray [DString "severity"; DUint 2], 77)] with
  | Ret s => s
  | Throw _ => empty_impl "" 0
  end.

Definition example_requests : list request :=
  [SetFilter DUint "app" empty_filter 60 local 1000 5; CleanupTick (fun _ => 1001);
   FilterList ["12"; "junk"]%string; CleanupTick (fun _ => 2000)].

Lemma service_invariant_witness :
  metafilters (foldl (fun s r => handle r s) example_impl example_requests) !! core_key = Some 1%nat /\
  list_loggers (foldl (fun s r => handle r s) example_impl example_requests) ≡ₚ [default_key; core_key].
Proof.
  split; [|vm_compute; apply Permutation_swap].
  apply (core_captured _ (service_invariant "/filters" 0 [(DArray [DString "severity"; DUint 2], 77)]
           example_impl example_requests eq_refl ltac:(repeat constructor))).
Defined.

(** Routing of a record.  The metafilter of the longest logger name that is a
    prefix of the backend decides when it has filters; otherwise the one named
    ["default"] decides, even if a shorter prefix has filters. *)
Theorem find_metafilter_routes `{RadixTree} (n : string) (s : impl_t) :
  let '(p, s') := find_metafilter n s in
  (exists k, s' = s /\ metafilters s !! k = Some p /\ String.prefix k n = true /\
     empty_ (mf_at s p) = false /\
     forall k'', is_Some (metafilters s !! k'') -> String.prefix k'' n = true ->
                 (String.length k'' <= String.length k)%nat)
  \/ (metafilters s' !! default_key = Some p /\
      forall k q, metafilters s !! k = Some q -> String.prefix k n = true ->
        (forall k'', is_Some (metafilters s !! k'') -> String.prefix k'' n = true ->
                     (String.length k'' <= String.length k)%nat) ->
        empty_ (mf_at s q) = true).
Proof.
  assert (forall p s', get_default_metafilter s = (p, s') -> metafilters s' !! default_key = Some p) as Hd.
  { intros p s'. unfold get_default_metafilter, get_metafilter.
    destruct (metafilters s !! default_key) eqn:Hk; intros; simplify_eq; simpl; [done|].
    apply lookup_insert_eq. }
  unfold find_metafilter. destruct (longest_match (metafilters s) n) as [[k p]|] eqn:Hl.
  - apply longest_match_some in Hl as (Hk & Hp & Hmax).
    destruct (empty_ (mf_at s p)) eqn:He; [|left; by exists k].
    destruct (get_default_metafilter s) as [q s'] eqn:Hg. right. split; [by apply Hd|].
    intros k' q' Hk' Hp' Hmax'. assert (k' = k) as ->; [|by simplify_eq].
    apply (prefix_same_length n); [done|done|].
    apply Nat.le_antisymm; [apply Hmax|apply Hmax']; eauto.
  - destruct (get_default_metafilter s) as [q s'] eqn:Hg. right. split; [by apply Hd|].
    intros k' q' Hk' Hp'. rewrite (longest_match_none _ _ Hl k') in Hp'; [done|eauto].
Qed.

(** A cleanup tick removes the expired filters and nothing else, and then
    erases the names left without filters, except ["core"]. *)
Theorem cleanup_spec (clock : string -> Z) (s : impl_t) :
  service_wf s ->
  forall k p, metafilters s !! k = Some p ->
    filters (mf_at (service_cleanup clock s) p) = live (clock k) (filters (mf_at s p)) /\
    (metafilters (service_cleanup clock s) !! k = Some p <->
       live (clock k) (filters (mf_at s p)) <> [] \/ k = core_key).
Proof.
  intros Hs k p Hk. destruct (service_cleanup_spec clock s Hs) as (H1 & _ & H3).
  destruct (ptr_valid s Hs k p Hk) as [m Hm].
  assert (filters (mf_at (service_cleanup clock s) p) = live (clock k) (filters (mf_at s p))) as Hf.
  { unfold mf_at. rewrite (H1 k p Hk), Hm. apply cleanup_filters. }
  split; [done|]. rewrite H3, Hk. unfold empty_. rewrite Hf.
  destruct (live _ _); destruct (String.eqb_spec k core_key); simpl; naive_solver.
Qed.

Lemma cleanup_witness :
  filters (mf_at (service_cleanup (fun _ => 2000)
     (handle (SetFilter DUint "app" empty_filter 60 local 1000 5) example_impl)) 2) = [].
Proof.
  assert (service_wf (handle (SetFilter DUint "app" empty_filter 60 local 1000 5) example_impl)) as Hs.
  { apply handle_wf; [|done]. by eapply (impl_construct_wf "/filters" 0 [(DArray [DString "severity"; DUint 2], 77)]). }
  destruct (cleanup_spec (fun _ => 2000) _ Hs "app" 2%nat eq_refl) as [H _].
  rewrite H. reflexivity.
Defined.

(** Filters set on ["core"] take effect.  In every reachable state a filter
    with a fresh id set on ["core"] makes the context's logger accept each record
    it matches until its deadline. *)
Theorem core_filter_takes_effect (di : Z -> dynamic_t) (s : impl_t) (f : filter_t) (ttl now0 fid : Z)
    (e : env) (severity : Z) (pack : attribute_pack) (now now' : Z) :
  service_wf s -> no_null f ->
  fid ∉ (filter_id <$> filters (mf_at s (core_mf s))) ->
  now <= u64 (now0 + ttl) -> denote e severity pack f = true ->
  (core_filter e severity pack now now' (set_filter di core_key f ttl local now0 fid s).2).1 = Ret true.
Proof.
  intros Hs Hf Hid Hnow Hden. unfold set_filter.
  destruct (get_metafilter core_key s) as [p s1] eqn:Hg.
  apply get_metafilter_core in Hg as [-> ->]; [|done]. simpl.
  set (i := mk_info f (u64 (now0 + ttl)) fid local core_key).
  destruct (ptr_valid s Hs _ _ (core_captured s Hs)) as [m Hm].
  assert (mf_at (on_mf (core_mf s) (add_filter i) s) (core_mf s) = add_filter i m) as Hat.
  { unfold mf_at; simpl. by rewrite lookup_alter_eq, Hm. }
  assert (filters (add_filter i m) = filters m ++ [i]) as Hfs.
  { unfold add_filter. rewrite (proj2 (existsb_has_id _ _)); [done|].
    unfold mf_at in Hid. by rewrite Hm in Hid. }
  assert (metafilter_wf (add_filter i m)) as Hwf by eauto using add_filter_wf, heap_wf.
  unfold core_filter. change (core_mf (on_mf (core_mf s) (add_filter i) s)) with (core_mf s).
  rewrite Hat. unfold empty_. rewrite Hfs. destruct (filters m ++ [i]) eqn:Hne; [by destruct (filters m)|].
  rewrite <- Hne in Hfs. rewrite Hat.
  destruct (metafilter_apply_spec e severity pack now now' (add_filter i m) Hwf) as (Hr & _).
  destruct (metafilter_apply _ _ _ _ _ _) as [r m']; simpl in *. subst r.
  rewrite Hfs. unfold live. rewrite filter_app. rewrite existsb_app.
  rewrite (filter_cons_True _ i) by (unfold expired; simpl; destruct (Z.ltb_spec (u64 (now0 + ttl)) now); [lia|done]).
  simpl. rewrite Hden. by rewrite orb_true_r.
Qed.

Lemma core_filter_witness :
  (core_filter (mk_env false (fun _ => 0)) 0 [] 1010 1010
     (set_filter DUint core_key empty_filter 60 local 1000 5 example_impl).2).1 = Ret true.
Proof.
  apply core_filter_takes_effect.
  - by eapply (impl_construct_wf "/filters" 0 [(DArray [DString "severity"; DUint 2], 77)]).
  - exact I.
  - vm_compute. intros H. inversion H.
  - vm_compute. discriminate.
  - reflexivity.
Defined.

(** Filters set on ["default"] may be lost.  When the configuration gives the
    default metafilter no filter, the first cleanup tick erases its name, so a
    filter set on ["default"] later lands in a new metafilter: it is listed, but
    the context's logger still consults the captured empty one and rejects every
    record. *)
Theorem default_filter_is_lost (di : Z -> dynamic_t) (path : string) (counter : Z) (clock : string -> Z)
    (f : filter_t) (ttl now0 fid : Z) (e : env) (severity : Z) (pack : attribute_pack) (now now' : Z)
    (s0 : impl_t) :
  impl_construct path counter [] = Ret s0 ->
  let s := (set_filter di default_key f ttl local now0 fid (service_cleanup clock s0)).2 in
  list_filters s = [mk_info f (u64 (now0 + ttl)) fid local default_key] /\
  (core_filter e severity pack now now' s).1 = Ret false.
Proof. intros H. vm_compute in H. simplify_eq. split; reflexivity. Qed.

Lemma default_filter_witness :
  let s := (set_filter DUint default_key empty_filter 60 local 1000 5
              (service_cleanup (fun _ => 900) (match impl_construct "/f" 0 [] with Ret s => s | Throw _ => empty_impl "" 0 end))).2 in
  (core_filter (mk_env false (fun _ => 0)) 9 [] 1001 1001 s).1 = Ret false.
Proof.
  destruct (default_filter_is_lost DUint "/f" 0 (fun _ => 900) empty_filter 60 1000 5
     (mk_env false (fun _ => 0)) 9 [] 1001 1001 _ eq_refl) as [_ H].
  exact H.
Defined.
