(* ===== verification/LoggingCluster.v ===== *)
(** * The logging service in the cluster, and its named loggers

    [load_filters] of [logging/src/logging_v2.cpp] creates the folder of the cluster's
    filters, subscribes to its list and, when one of the two fails, asks a timer to be called
    again in five seconds.  [LoggingService.v] has what the callbacks do with the filters;
    here are their order, the timer and the event loop, and the streams of
    [named_logging_t], which keep the metafilter that they were opened with. *)

From S2P Require Import Prelude LogFilter Metafilter LoggingService.

(** ** State *)

(** The two handlers that are given to the timer: that of a failed list takes any error
    code, that of a failed creation only success. *)
Inductive retry := AfterList | AfterCreate.
#[export] Instance retry_eq_dec : EqDecision retry.
Proof. solve_decision. Defined.

(** What the unicorn still has to answer: creations of the folder, subscriptions to its
    list; the waits of the timer, and the handlers in the event loop, with whether they were
    aborted.  [loads] counts the calls of [load_filters]. *)
Record cluster_t := mk_cluster {
  svc : impl_t;
  creates : nat;
  lists : nat;
  waits : list retry;
  posted : list (retry * bool);
  loads : nat
}.

Definition set_svc s c := mk_cluster s (creates c) (lists c) (waits c) (posted c) (loads c).

(** [load_filters], without what its callbacks do later: the scopes are forgotten, and the
    folder is created with an empty value. *)
Definition load_filters (c : cluster_t) : cluster_t :=
  let s := call (UCreate (filter_unicorn_path (svc c)) (Ret DNull)) (set_scopes ∅ (scope_counter (svc c)) (svc c)) in
  mk_cluster s (S (creates c)) (lists c) (waits c) (posted c) (S (loads c)).

Definition cluster_construct (s : impl_t) : cluster_t := load_filters (mk_cluster s 0 0 [] [] 0).

(** ** The timer *)

Definition async_wait (k : retry) (c : cluster_t) : cluster_t :=
  mk_cluster (svc c) (creates c) (lists c) (waits c ++ [k]) (posted c) (loads c).
(** The time has come for all that wait. *)
Definition fire (c : cluster_t) : cluster_t :=
  mk_cluster (svc c) (creates c) (lists c) [] (posted c ++ ((fun k => (k, false)) <$> waits c)) (loads c).
(** A new time cancels the waits: their handlers are posted with [operation_aborted]. *)
Definition expires_from_now (c : cluster_t) : cluster_t :=
  mk_cluster (svc c) (creates c) (lists c) [] (posted c ++ ((fun k => (k, true)) <$> waits c)) (loads c).

(** The wait comes before the time is set.  [early] is whether the time that the timer had
    before is over, and the loop notices that in between. *)
Definition arm (k : retry) (early : bool) (c : cluster_t) : cluster_t :=
  let c := async_wait k c in
  expires_from_now (if early then fire c else c).

#[local] Arguments arm : simpl never.

(** ** The callbacks *)

Definition subscribe_list (c : cluster_t) : cluster_t :=
  mk_cluster (svc c) (creates c) (S (lists c)) (waits c) (posted c) (loads c).

(** [on_create] *)
Definition on_create (result : outcome unicorn_error bool) (early : bool) (c : cluster_t) : cluster_t :=
  match result with
  | Ret _ | Throw node_exists => subscribe_list c
  | Throw _ => arm AfterCreate early c
  end.

(** [on_filter_list]; an error ends the subscription. *)
Definition on_list (result : option (list string)) (early : bool) (c : cluster_t) : cluster_t :=
  match result with
  | Some ids => set_svc (on_filter_list ids (svc c)) c
  | None => arm AfterList early (mk_cluster (svc c) (creates c) (pred (lists c)) (waits c) (posted c) (loads c))
  end.

Definition on_timer (k : retry) (aborted : bool) (c : cluster_t) : cluster_t :=
  match k with
  | AfterList => load_filters c
  | AfterCreate => if aborted then c else load_filters c
  end.

(** [remove_from_unicorn]; its callback only logs. *)
Definition remove_from_unicorn (path : string) (s : impl_t) : impl_t := call (UDel path) s.

(** ** Events *)

Section cluster.
Context `{RadixTree}.

Inductive event :=
| Created (result : outcome unicorn_error bool) (early : bool)
| Listed (result : option (list string)) (early : bool)
| TimerFires
| RunHandler
| Request (r : request).

(** [None] where an event cannot happen: an answer without its question *)
Definition step (e : event) (c : cluster_t) : option cluster_t :=
  match e with
  | Created result early =>
      match creates c with
      | O => None
      | S n => Some (on_create result early (mk_cluster (svc c) n (lists c) (waits c) (posted c) (loads c)))
      end
  | Listed result early => match lists c with O => None | S _ => Some (on_list result early c) end
  | TimerFires => Some (fire c)
  | RunHandler =>
      match posted c with
      | [] => None
      | (k, aborted) :: l => Some (on_timer k aborted (mk_cluster (svc c) (creates c) (lists c) (waits c) l (loads c)))
      end
  | Request r => Some (set_svc (handle r (svc c)) c)
  end.

Fixpoint run (es : list event) (c : cluster_t) : option cluster_t :=
  match es with
  | [] => Some c
  | e :: es => match step e c with Some c => run es c | None => None end
  end.

(** The creation of the folder fails, and the wait for another attempt is cancelled. *)
Definition gives_up (e : event) : bool :=
  match e with Created (Throw node_exists) _ => false | Created (Throw _) false => true | _ => false end.

(** ** Facts *)

(** What keeps the subscription going: a question to the unicorn, or a handler that will ask *)
Definition live_handler (x : retry * bool) : bool := match x with (AfterCreate, true) => false | _ => true end.
Definition tokens (c : cluster_t) : nat := creates c + lists c + length (waits c) + length (List.filter live_handler (posted c)).

Lemma arm_spec k early c :
  waits c = [] -> arm k early c = mk_cluster (svc c) (creates c) (lists c) [] (posted c ++ [(k, negb early)]) (loads c).
Proof. intros W. unfold arm, async_wait, fire, expires_from_now. destruct early; simpl; rewrite W; simpl; [by rewrite app_nil_r|done]. Qed.

Lemma arm_tokens k early c :
  waits c = [] -> waits (arm k early c) = [] /\ tokens (arm k early c) = tokens c + (if live_handler (k, negb early) then 1 else 0).
Proof.
  intros W. rewrite arm_spec by done. split; [done|]. unfold tokens. cbn [creates lists waits posted].
  rewrite W, List.filter_app, length_app. cbn [List.filter].
  destruct (live_handler (k, negb early)); simpl; lia.
Qed.

Lemma step_tokens e c c' :
  step e c = Some c' -> waits c = [] ->
  waits c' = [] /\ tokens c = tokens c' + (if gives_up e then 1 else 0).
Proof.
  intros E W. destruct e as [result early|result early| | |r]; simpl in E.
  - destruct (creates c) as [|n] eqn:En; [done|]. injection E as <-.
    assert (tokens c = S (tokens (mk_cluster (svc c) n (lists c) (waits c) (posted c) (loads c)))) as ->
      by (unfold tokens; simpl; rewrite En; lia).
    destruct result as [b|[]]; simpl;
      try (split; [done|]; unfold tokens; simpl; lia);
      match goal with |- context [tokens (arm ?k ?e ?c)] => destruct (arm_tokens k e c) as [A1 A2]; [done|] end;
      (split; [exact A1|rewrite A2; destruct early; simpl; lia]).
  - destruct (lists c) as [|n] eqn:En; [done|]. injection E as <-. destruct result as [ids|].
    + split; [done|]. unfold tokens. simpl. lia.
    + simpl. match goal with |- context [tokens (arm ?k ?e ?c)] => destruct (arm_tokens k e c) as [A1 A2]; [done|] end.
      split; [exact A1|]. rewrite A2. unfold tokens. simpl. rewrite En. simpl. lia.
  - injection E as <-. split; [done|]. unfold tokens. simpl. rewrite W. simpl. rewrite app_nil_r. lia.
  - destruct (posted c) as [|[k aborted] l] eqn:El; [done|]. injection E as <-.
    unfold tokens. rewrite El. destruct k, aborted; simpl; (split; [done|lia]).
  - injection E as <-. split; [done|]. unfold tokens. simpl. lia.
Qed.

Lemma run_tokens es : forall c c',
  run es c = Some c' -> waits c = [] ->
  waits c' = [] /\ (tokens c = tokens c' + length (List.filter gives_up es)).
Proof.
  induction es as [|e es IH]; simpl; intros c c' E W; [injection E as <-; split; [done|simpl; lia]|].
  destruct (step e c) as [c1|] eqn:E1; [|done].
  destruct (step_tokens e c c1 E1 W) as [W1 T1]. destruct (IH c1 c' E W1) as [? T].
  split; [done|]. destruct (gives_up e); simpl in *; lia.
Qed.

(** C39: One thread of questions.  The service asks for the cluster's filters by one chain of
    calls: at every moment there is exactly one among the creations of the folder that are
    not answered, the subscriptions to its list, and the handlers in the loop that will ask
    again; the timer never waits, so that a failure is followed by the next attempt at once
    and not after five seconds.  The chain breaks at most once, when the folder could not be
    created: then nothing is asked any more. *)
Theorem one_subscription (s : impl_t) (es : list event) (c : cluster_t) :
  run es (cluster_construct s) = Some c ->
  waits c = [] /\
  tokens c = (if existsb gives_up es then 0 else 1) /\
  (length (List.filter gives_up es) <= 1).
Proof.
  intros E. destruct (run_tokens es _ _ E eq_refl) as [W T].
  assert (tokens (cluster_construct s) = 1%nat) as T1 by done. rewrite T1 in T.
  split; [done|]. assert (existsb gives_up es = negb (Nat.eqb (length (List.filter gives_up es)) 0)) as ->.
  { clear. induction es as [|e es IH]; simpl; [done|]. by destruct (gives_up e). }
  destruct (length (List.filter gives_up es)) as [|[|n]]; simpl; lia.
Qed.

(** After that the filters of the cluster are not asked for, whatever happens. *)
Lemma silent_step e c c' :
  step e c = Some c' -> waits c = [] -> tokens c = 0%nat -> loads c' = loads c.
Proof.
  intros E W T. unfold tokens in T. destruct e as [result early|result early| | |r]; simpl in E.
  - destruct (creates c); [done|lia].
  - destruct (lists c); [done|lia].
  - by injection E as <-.
  - destruct (posted c) as [|[[] []] l] eqn:El; simpl in T; try lia; [done|]. by injection E as <-.
  - by injection E as <-.
Qed.

Theorem subscription_lost (s : impl_t) (es es' : list event) (c c' : cluster_t) :
  run es (cluster_construct s) = Some c -> existsb gives_up es = true ->
  run es' c = Some c' ->
  loads c' = loads c /\ creates c' = 0%nat /\ lists c' = 0%nat.
Proof.
  intros E G E'. destruct (run_tokens es _ _ E eq_refl) as [W T].
  assert (tokens c = 0%nat) as T0.
  { assert (0 < length (List.filter gives_up es)) as L.
    { apply existsb_exists in G as (e & He & Ge). destruct (List.filter gives_up es) eqn:F; [|simpl; lia].
      exfalso. eapply (in_nil (a := e)). rewrite <- F. by apply List.filter_In. }
    assert (tokens (cluster_construct s) = 1%nat) as T1 by done. lia. }
  clear E G T. revert c W T0 E'. induction es' as [|e es' IH]; simpl; intros c W T0 E'.
  - injection E' as <-. unfold tokens in T0. split; [done|]. lia.
  - destruct (step e c) as [c1|] eqn:E1; [|done].
    destruct (step_tokens e c c1 E1 W) as [W1 T1].
    destruct (IH c1 W1) as (-> & ? & ?); [lia|done|]. split; [by eapply silent_step|done].
Qed.

(** The metafilters stay well formed (LoggingService.v) whatever the subscription does. *)
Lemma load_filters_svc_wf c : service_wf (svc c) -> service_wf (svc (load_filters c)).
Proof. intros W. by eapply same_tree_wf; [..|exact W]. Qed.
End cluster.

(** The folder is refused once: the loop then has a handler that does nothing. *)
Lemma subscription_lost_witness :
  exists c, run [Created (Throw other_error) false; RunHandler; TimerFires] (cluster_construct example_impl) = Some c
    /\ loads c = 1%nat /\ lists c = 0%nat.
Proof.
  eexists. split; [reflexivity|].
  destruct (subscription_lost example_impl [Created (Throw other_error) false] [RunHandler; TimerFires]
    _ _ eq_refl eq_refl eq_refl) as (-> & _ & ->). split; reflexivity.
Defined.

Lemma one_subscription_witness :
  match run [Created (Throw node_exists) false; Listed None false; RunHandler; Created (Ret true) false;
             Listed (Some ["5"%string]) false] (cluster_construct example_impl) with
  | Some c => tokens c = 1 /\ loads c = 2
  | None => False
  end.
Proof.
  pose proof (one_subscription example_impl
    [Created (Throw node_exists) false; Listed None false; RunHandler; Created (Ret true) false;
     Listed (Some ["5"%string]) false]) as T.
  assert (option_map loads (run [Created (Throw node_exists) false; Listed None false; RunHandler; Created (Ret true) false;
             Listed (Some ["5"%string]) false] (cluster_construct example_impl)) = Some 2) as L by (vm_compute; reflexivity).
  destruct (run _ _) as [c|]; [|discriminate L]. injection L as L.
  destruct (T c eq_refl) as (_ & -> & _). by split.
Defined.

(** ** [named_logging_t] *)

(** The stream of a named logger: its name, and the metafilter found when it was opened *)
Record named_t := mk_named { n_backend : string; n_filter : nat }.

Section named.
Context `{RadixTree}.

(** The slot of [get] *)
Definition open_named (n : string) (s : impl_t) : named_t * impl_t :=
  let '(p, s) := find_metafilter n s in (mk_named n p, s).

(** [emit_ack] sends the result as a chunk, [emit] sends nothing. *)
Definition named_emit_ack (e : env) (l : named_t) (severity : Z) (attributes : list attribute_view_t) (now now' : Z)
    (s : impl_t) : outcome error_t bool * impl_t :=
  emit_ack e (n_filter l) (n_backend l) severity attributes now now' s.
Definition named_emit (e : env) (l : named_t) (severity : Z) (attributes : list attribute_view_t) (now now' : Z)
    (s : impl_t) : outcome error_t unit * impl_t :=
  let '(r, s) := named_emit_ack e l severity attributes now now' s in (outcome_bind r (fun _ => Ret tt), s).

(** A record of a named logger is treated as one of the service as long as its name is
    still routed to the metafilter that it was opened with. *)
Theorem named_agrees (e : env) (l : named_t) (severity : Z) (attributes : list attribute_view_t) (now now' : Z) (s : impl_t) :
  find_metafilter (n_backend l) s = (n_filter l, s) ->
  named_emit_ack e l severity attributes now now' s
  = (let '(p, s') := find_metafilter (n_backend l) s in emit_ack e p (n_backend l) severity attributes now now' s').
Proof. intros E. by rewrite E. Qed.

Lemma get_metafilter_shape n s q s1 :
  service_wf s -> get_metafilter n s = (q, s1) ->
  is_Some (heap s1 !! q) /\ forall k, k <> n -> metafilters s1 !! k = metafilters s !! k.
Proof.
  intros W. unfold get_metafilter. destruct (metafilters s !! n) as [p|] eqn:E; intros [= <- <-]; simpl.
  - split; [by apply (ptr_valid s W n)|done].
  - rewrite lookup_insert_eq. split; [eauto|]. intros k Hk. by rewrite lookup_insert_ne.
Qed.

Lemma find_metafilter_shape n s q s1 :
  service_wf s -> find_metafilter n s = (q, s1) ->
  is_Some (heap s1 !! q) /\ forall k, k <> default_key -> metafilters s1 !! k = metafilters s !! k.
Proof.
  intros W. unfold find_metafilter. destruct (longest_match (metafilters s) n) as [[k p]|] eqn:L;
    [destruct (empty_ (mf_at s p))|]; try by apply get_metafilter_shape.
  intros [= <- <-]. apply longest_match_some in L as [L _]. split; [by apply (ptr_valid s W k)|done].
Qed.

(** A filter that is set on a name while a stream of it is open does not reach the stream
    when the name had no metafilter of its own: the service refuses by the filter what the
    stream lets through. *)
Theorem named_logger_not_updated (di : Z -> dynamic_t) (s : impl_t) (n : string) (f : filter_t) (ttl now0 fid : Z) :
  service_wf s -> metafilters s !! n = None ->
  let '(l, s1) := open_named n s in
  let s2 := (set_filter di n f ttl local now0 fid s1).2 in
  forall p, metafilters s2 !! n = Some p ->
    n <> default_key -> n_filter l <> p /\ mf_at s2 (n_filter l) = mf_at s1 (n_filter l).
Proof.
  intros W Hn. unfold open_named. destruct (find_metafilter n s) as [q s1] eqn:E.
  assert (service_wf s1) as W1 by (replace s1 with (find_metafilter n s).2 by (by rewrite E); by apply find_metafilter_wf).
  intros p Hp Hne.
  destruct (find_metafilter_shape n s q s1 W E) as [Hq Hk]. pose proof (Hk n Hne) as Hn1. rewrite Hn in Hn1.
  unfold set_filter in Hp |- *. unfold get_metafilter in Hp |- *. rewrite Hn1 in Hp |- *. simpl in Hp |- *.
  rewrite lookup_insert_eq in Hp. injection Hp as <-.
  pose proof (ptr_fresh s1 W1 q Hq) as Hf. split; [lia|].
  unfold mf_at. simpl. rewrite lookup_alter_ne, lookup_insert_ne by lia. done.
Qed.
End named.
