(* ===== verification/Chrono.v ===== *)
(** * The timer service: [chrono/src/chrono.cpp]

    Clients ask for a notification after a delay or periodically and get a
    stream of timer ids.  A timer descriptor holds an asio timer, the stream and
    the repeat interval; [streamed] handles are shared, so the descriptor in the
    map and the handle returned to the client write to one stream.  Whether a
    write or a close on a stream succeeds is up to the connection: each handler
    takes the outcome as an argument.  The random ids are an argument too. *)

From Stdlib Require Import SpecFloat.
From S2P Require Import Prelude LogFilter.

Local Open Scope Z_scope.

Inductive event := Write (timer_id : Z) | Close.

Record timer_desc_t := mk_desc { stream : nat; interval_ : double.t }.

Record chrono_t := mk_chrono {
  timers_ : gmap Z timer_desc_t;
  (** timers with a pending [async_wait] *)
  waits : gset Z;
  (** what was sent on each stream, oldest first *)
  streams : gmap nat (list event);
  next_stream : nat
}.

Inductive chrono_error := out_of_range | stream_error.

Definition chrono_construct : chrono_t := mk_chrono ∅ ∅ ∅ 0.

(** The stream operations: nothing is sent when the connection is gone. *)
Definition send (ev : event) (ok : bool) (n : nat) (s : chrono_t) : chrono_t :=
  if ok then mk_chrono (timers_ s) (waits s) (alter (fun h => h ++ [ev]) n (streams s)) (next_stream s)
  else s.

(** [remove_timer]: the stream is closed (a failure is only logged), the descriptor
    erased; with it goes the last reference to the asio timer and its wait. *)
Definition remove_timer (timer_id : Z) (close_ok : bool) (s : chrono_t) : chrono_t :=
  let s := match timers_ s !! timer_id with
           | Some d => send Close close_ok (stream d) s
           | None => s
           end in
  mk_chrono (delete timer_id (timers_ s)) (waits s ∖ {[timer_id]}) (streams s) (next_stream s).

Definition arm (timer_id : Z) (s : chrono_t) : chrono_t :=
  mk_chrono (timers_ s) ({[timer_id]} ∪ waits s) (streams s) (next_stream s).

(** The [do ... while] over [std::rand()]: the first draw that is not in use. *)
Fixpoint pick_id (draws : list Z) (t : gmap Z timer_desc_t) : option Z :=
  match draws with
  | [] => None
  | r :: draws => match t !! r with Some _ => pick_id draws t | None => Some r end
  end.

(** [set_timer_impl]; [None] when every given draw is taken and the loop goes on. *)
Definition set_timer_impl (first repeat : double.t) (send_id : bool) (draws : list Z)
    (write_ok close_ok : bool) (s : chrono_t) : option (outcome chrono_error nat * chrono_t) :=
  match pick_id draws (timers_ s) with
  | None => None
  | Some timer_id =>
      let n := next_stream s in
      let s := mk_chrono (<[timer_id := mk_desc n repeat]> (timers_ s)) (waits s)
                         (<[n := []]> (streams s)) (S n) in
      let s := arm timer_id s in
      if send_id && negb write_ok then Some (Throw stream_error, remove_timer timer_id close_ok s)
      else Some (Ret n, if send_id then send (Write timer_id) true n s else s)
  end.

Definition notify_after (time : double.t) (send_id : bool) :=
  set_timer_impl time double.zero send_id.
Definition notify_every (time : double.t) (send_id : bool) :=
  set_timer_impl time time send_id.

Definition cancel (timer_id : Z) (close_ok : bool) (s : chrono_t) : chrono_t :=
  match timers_ s !! timer_id with
  | Some _ => remove_timer timer_id close_ok s
  | None => s
  end.

Definition restart (timer_id : Z) (s : chrono_t) : outcome chrono_error unit * chrono_t :=
  match timers_ s !! timer_id with
  | Some _ => (Ret tt, arm timer_id s)
  | None => (Throw out_of_range, s)
  end.

(** [!timer_desc.interval_]: both zeros are false, a NaN is true. *)
Definition is_zero (d : double.t) : bool :=
  match d with S754_zero _ => true | _ => false end.

(** [on_timer]; [aborted] is [asio::error::operation_aborted].  The handler runs
    because its wait completed, so the wait is no longer pending. *)
Definition on_timer (aborted : bool) (timer_id : Z) (write_ok close_ok : bool) (s : chrono_t) : chrono_t :=
  if aborted then s
  else
    let s := mk_chrono (timers_ s) (waits s ∖ {[timer_id]}) (streams s) (next_stream s) in
    match timers_ s !! timer_id with
    | None => s
    | Some d =>
        let s := if write_ok then send (Write timer_id) true (stream d) s
                 else remove_timer timer_id close_ok s in
        match timers_ s !! timer_id with
        | None => s
        | Some _ => if is_zero (interval_ d) then remove_timer timer_id close_ok s
                    else (restart timer_id s).2
        end
    end.

(** ** Facts *)

Inductive call :=
| SetTimer (first repeat : double.t) (send_id : bool) (draws : list Z) (write_ok close_ok : bool)
| Cancel (timer_id : Z) (close_ok : bool)
| Restart (timer_id : Z)
| OnTimer (aborted : bool) (timer_id : Z) (write_ok close_ok : bool).

Definition serve (c : call) (s : chrono_t) : chrono_t :=
  match c with
  | SetTimer f r i d w cl => match set_timer_impl f r i d w cl s with Some (_, s') => s' | None => s end
  | Cancel t cl => cancel t cl s
  | Restart t => (restart t s).2
  | OnTimer a t w cl => on_timer a t w cl s
  end.

(** Only live timers wait; live timers own distinct, allocated streams; and a
    stream owned by a live timer has not been closed. *)
Record chrono_wf (s : chrono_t) : Prop := {
  waits_live : forall t, t ∈ waits s -> is_Some (timers_ s !! t);
  stream_open : forall t d, timers_ s !! t = Some d ->
    exists h, streams s !! stream d = Some h /\ Close ∉ h;
  stream_inj : forall t t' d d', timers_ s !! t = Some d -> timers_ s !! t' = Some d' ->
    stream d = stream d' -> t = t';
  stream_fresh : forall n, is_Some (streams s !! n) -> (n < next_stream s)%nat;
  closed_once : forall n h, streams s !! n = Some h ->
    forall h1 h2, h = h1 ++ Close :: h2 -> h2 = []
}.

Lemma remove_timer_wf t close_ok s : chrono_wf s -> chrono_wf (remove_timer t close_ok s).
Proof.
  intros [H1 H2 H3 H4 H5]. unfold remove_timer.
  set (s1 := match timers_ s !! t with Some d => send Close close_ok (stream d) s | None => s end).
  assert (timers_ s1 = timers_ s /\ waits s1 = waits s /\ next_stream s1 = next_stream s) as (Et & Ew & En).
  { unfold s1, send. by repeat case_match. }
  assert (forall n, streams s1 !! n = streams s !! n \/
            exists d h, timers_ s !! t = Some d /\ stream d = n /\ streams s !! n = Some h /\
                        streams s1 !! n = Some (h ++ [Close])) as Es.
  { intros n. unfold s1, send. destruct (timers_ s !! t) as [d|] eqn:Hd; [|by left].
    destruct close_ok; [|by left]. simpl. destruct (decide (stream d = n)) as [<-|Hne].
    - right. destruct (H2 t d Hd) as (h & Hh & _). exists d, h. split_and!; try done.
      by rewrite lookup_alter_eq, Hh.
    - left. by apply lookup_alter_ne. }
  constructor; simpl; rewrite ?Et, ?Ew, ?En.
  - intros t' Ht. apply elem_of_difference in Ht as [Ht Hne]. rewrite lookup_delete_ne by set_solver. auto.
  - intros t' d' [Hne Hd]%lookup_delete_Some. destruct (H2 t' d' Hd) as (h & Hh & Hc). exists h. split; [|done].
    destruct (Es (stream d')) as [->|(d & h' & Hd' & Hsd & _)]; [done|].
    destruct Hne. by apply (H3 t t' d d').
  - intros t1 t2 d1 d2 [_ Hd1]%lookup_delete_Some [_ Hd2]%lookup_delete_Some. by apply H3.
  - intros n Hn. apply H4. destruct (Es n) as [<-|(d & h & _ & _ & -> & _)]; [done|by eexists].
  - intros n h Hn h1 h2 Hh. destruct (Es n) as [E|(d & h' & Hd & Hsd & Hh' & E)]; rewrite E in Hn; [by eapply H5|].
    simplify_eq. destruct (H2 t d Hd) as (h0 & Hh0 & Hc). assert (h0 = h') as -> by congruence.
    destruct h2 as [|x h2 _] using rev_ind; [done|]. exfalso. apply Hc.
    rewrite app_comm_cons, app_assoc in Hn. apply app_inj_tail in Hn as [-> _]. set_solver.
Qed.

Lemma send_write_wf t ok d s : chrono_wf s -> timers_ s !! t = Some d -> chrono_wf (send (Write t) ok (stream d) s).
Proof.
  intros [H1 H2 H3 H4 H5] Hd. destruct ok; [|by constructor]. constructor; simpl; try done.
  - intros t' d' Hd'. destruct (H2 t' d' Hd') as (h & Hh & Hc). destruct (decide (stream d = stream d')) as [->|Hne].
    + exists (h ++ [Write t]). rewrite lookup_alter_eq, Hh. set_solver.
    + exists h. by rewrite lookup_alter_ne.
  - intros n. rewrite lookup_alter_is_Some. apply H4.
  - intros n h. rewrite lookup_alter_Some. intros [(<- & h' & Hh' & ->)|[_ Hn]] h1 h2 E; [|by eapply H5].
    destruct (H2 t d Hd) as (h0 & Hh0 & Hc). assert (h0 = h') as -> by congruence.
    destruct h2 as [|x h2 _] using rev_ind; [done|]. exfalso. apply Hc.
    rewrite app_comm_cons, app_assoc in E. apply app_inj_tail in E as [-> _]. set_solver.
Qed.

Lemma arm_wf t s : chrono_wf s -> is_Some (timers_ s !! t) -> chrono_wf (arm t s).
Proof. intros [H1 H2 H3 H4 H5] Ht. constructor; simpl; try done. set_solver. Qed.

Lemma disarm_wf t s : chrono_wf s ->
  chrono_wf (mk_chrono (timers_ s) (waits s ∖ {[t]}) (streams s) (next_stream s)).
Proof. intros [H1 H2 H3 H4 H5]. constructor; simpl; try done. set_solver. Qed.

Lemma pick_id_fresh draws t r : pick_id draws t = Some r -> r ∈ draws /\ t !! r = None.
Proof.
  induction draws as [|d draws IH]; simpl; [done|]. destruct (t !! d) eqn:Hd.
  - intros H. apply IH in H as [H1 H2]. set_solver.
  - intros [= ->]. set_solver.
Qed.

Lemma new_timer_wf t r s : chrono_wf s -> timers_ s !! t = None ->
  chrono_wf (mk_chrono (<[t := mk_desc (next_stream s) r]> (timers_ s)) (waits s)
                       (<[next_stream s := []]> (streams s)) (S (next_stream s))).
Proof.
  intros [H1 H2 H3 H4 H5] Ht.
  assert (forall t' d', timers_ s !! t' = Some d' -> stream d' <> next_stream s) as Hne.
  { intros t' d' Hd E. destruct (H2 t' d' Hd) as (h & Hh & _). assert (stream d' < next_stream s)%nat by eauto. lia. }
  constructor; simpl.
  - intros t' Ht'. apply lookup_insert_is_Some. destruct (decide (t = t')); [by left|right; auto].
  - intros t' d'. rewrite lookup_insert_Some. intros [[<- <-]|[_ Hd]].
    + exists []. rewrite lookup_insert_eq. set_solver.
    + destruct (H2 t' d' Hd) as (h & Hh & Hc). exists h. rewrite lookup_insert_ne; [done|].
      by apply not_eq_sym, (Hne t').
  - intros t1 t2 d1 d2. rewrite !lookup_insert_Some.
    intros [[<- <-]|[? Hd1]] [[<- <-]|[? Hd2]] E; simpl in E; try done.
    + by destruct (Hne t2 d2 Hd2). + by destruct (Hne t1 d1 Hd1). + by apply (H3 t1 t2 d1 d2).
  - intros n. rewrite lookup_insert_is_Some. intros [<-|[_ Hn]]; [lia|]. apply H4 in Hn. lia.
  - intros n h. rewrite lookup_insert_Some. intros [[<- <-]|[_ Hn]] h1 h2 E; [by destruct h1|by eapply H5].
Qed.

Lemma set_timer_wf f r i draws w cl s x s' :
  chrono_wf s -> set_timer_impl f r i draws w cl s = Some (x, s') -> chrono_wf s'.
Proof.
  intros Hs. unfold set_timer_impl. destruct (pick_id draws (timers_ s)) as [t|] eqn:Hp; [|done].
  apply pick_id_fresh in Hp as [_ Ht].
  pose proof (new_timer_wf t r s Hs Ht) as Hn.
  assert (chrono_wf (arm t (mk_chrono (<[t := mk_desc (next_stream s) r]> (timers_ s)) (waits s)
     (<[next_stream s := []]> (streams s)) (S (next_stream s))))) as Ha.
  { apply arm_wf; [done|]. simpl. by rewrite lookup_insert_eq. }
  destruct i, w; simpl; intros E; injection E as <- <-; try done.
  - apply (send_write_wf t true (mk_desc (next_stream s) r) _ Ha). simpl. by rewrite lookup_insert_eq.
  - by apply remove_timer_wf.
Qed.

Lemma on_timer_wf a t w cl s : chrono_wf s -> chrono_wf (on_timer a t w cl s).
Proof.
  intros Hs. unfold on_timer. destruct a; [done|].
  pose proof (disarm_wf t s Hs) as Hd. set (s1 := mk_chrono _ _ _ _) in *.
  destruct (timers_ s1 !! t) as [d|] eqn:Ht; [|done].
  assert (chrono_wf (if w then send (Write t) true (stream d) s1 else remove_timer t cl s1)) as H2.
  { destruct w; [by apply send_write_wf|by apply remove_timer_wf]. }
  set (s2 := if w then _ else _) in *. destruct (timers_ s2 !! t) eqn:Ht2; [|done].
  case_match; [by apply remove_timer_wf|]. unfold restart. rewrite Ht2. by apply arm_wf.
Qed.

Lemma serve_wf c s : chrono_wf s -> chrono_wf (serve c s).
Proof.
  intros Hs. destruct c; simpl.
  - destruct set_timer_impl as [[x s']|] eqn:E; [by eapply set_timer_wf|done].
  - unfold cancel. case_match; [by apply remove_timer_wf|done].
  - unfold restart. destruct (timers_ s !! timer_id) eqn:E; [by apply arm_wf|done].
  - by apply on_timer_wf.
Qed.

Lemma chrono_construct_wf : chrono_wf chrono_construct.
Proof.
  constructor; simpl; intros *; rewrite ?lookup_empty; set_solver || by intros [??].
Qed.

(** ** Theorems *)

(** The timer service invariant.  After every sequence of requests and timer
    completions only live timers wait, live timers have distinct open streams,
    and no event follows a close on any stream. *)
Theorem chrono_invariant (cs : list call) :
  chrono_wf (foldl (fun s c => serve c s) chrono_construct cs).
Proof.
  generalize chrono_construct_wf. generalize chrono_construct. induction cs as [|c cs IH]; intros s Hs; simpl; [done|].
  by apply IH, serve_wf.
Qed.

(** The life of a timer.  A new timer takes an unused id and disturbs no other
    timer; when it fires, a one-shot timer sends its id, closes its stream and is
    gone, and a periodic one sends its id and waits again. *)
Theorem timer_lifecycle (first repeat : double.t) (draws : list Z) (n : nat) (s s1 : chrono_t) (t : Z) :
  chrono_wf s -> pick_id draws (timers_ s) = Some t ->
  set_timer_impl first repeat false draws true true s = Some (Ret n, s1) ->
  timers_ s !! t = None /\
  (forall t', t' <> t -> timers_ s1 !! t' = timers_ s !! t') /\
  streams s1 !! n = Some [] /\
  (let s2 := on_timer false t true true s1 in
  (is_zero repeat = true -> timers_ s2 !! t = None /\ (t ∉ waits s2) /\
                            streams s2 !! n = Some [Write t; Close]) /\
  (is_zero repeat = false -> timers_ s2 !! t = timers_ s1 !! t /\ t ∈ waits s2 /\
                             streams s2 !! n = Some [Write t])).
Proof.
  intros Hs Hp Hset. pose proof (pick_id_fresh _ _ _ Hp) as [_ Ht].
  unfold set_timer_impl in Hset. rewrite Hp in Hset. simpl in Hset. injection Hset as <- <-.
  unfold arm, on_timer; cbn. split_and!; try done.
  - intros t' Hne. by rewrite lookup_insert_ne.
  - by rewrite lookup_insert_eq.
  - intros Hz. rewrite lookup_insert_eq; cbn. rewrite Hz. unfold remove_timer; cbn.
    rewrite lookup_insert_eq; cbn. rewrite lookup_delete_eq.
    split_and!; [done|set_solver|]. by rewrite !alter_insert_eq, lookup_insert_eq.
  - intros Hz. rewrite lookup_insert_eq; cbn. rewrite Hz. unfold restart; cbn.
    rewrite lookup_insert_eq; cbn.
    split_and!; [by rewrite ?lookup_insert_eq|set_solver|]. by rewrite alter_insert_eq, lookup_insert_eq.
Qed.

Lemma timer_lifecycle_witness :
  exists s1, set_timer_impl (double.of_Z 1) double.zero false [7] true true chrono_construct
             = Some (Ret 0%nat, s1) /\
             streams (on_timer false 7 true true s1) !! 0%nat = Some [Write 7; Close].
Proof.
  eexists; split; [reflexivity|].
  destruct (timer_lifecycle (double.of_Z 1) double.zero [7] 0 chrono_construct _ 7
              chrono_construct_wf eq_refl eq_refl) as (_ & _ & _ & H & _).
  apply H. reflexivity.
Defined.
