(* ===== verification/Profile.v ===== *)
(** * Application profiles: [node/src/node/profile.cpp]

    [profile_t]'s constructor reads the limits and timeouts of an application
    and validates them.  The stored document is a record of optional values,
    already looked up and converted by the [dynamic_t] accessors (library
    code); the defaults, the arithmetic and the order of the checks are the
    constructor's. *)

From Stdlib Require Import SpecFloat.
From S2P Require Import Prelude LogFilter.

Local Open Scope Z_scope.

(** [stdext::clamp] *)
Definition clamp (value min max : Z) : Z := Z.max min (Z.min value max).

(** The keys of the profile document; [None] is an absent key. *)
Record document := mk_document {
  doc_log_output : option bool;
  doc_spawn_timeout : option double.t;
  doc_handshake_timeout : option double.t;
  doc_heartbeat_timeout : option double.t;
  doc_seal_timeout : option double.t;
  doc_terminate_timeout : option double.t;
  doc_idle_timeout : option double.t;
  doc_request_timeout : option double.t;
  doc_concurrency : option Z;
  doc_crashlog_limit : option Z;
  doc_pool_limit : option Z;
  doc_queue_limit : option Z;
  doc_grow_threshold : option Z;
  doc_publish_on : option Z;
  doc_unpublish_under : option Z
}.

Definition empty_document : document :=
  mk_document None None None None None None None None None None None None None None None.

Record profile_t := mk_profile {
  log_output : bool;
  timeout_spawn : Z;
  timeout_handshake : Z;
  timeout_heartbeat : Z;
  timeout_seal : Z;
  timeout_terminate : Z;
  timeout_idle : Z;
  request_timeout : Z;
  concurrency : Z;
  crashlog_limit : Z;
  grow_threshold : Z;
  pool_limit : Z;
  queue_limit : Z;
  publish_on : Z;
  unpublish_under : Z
}.

Inductive profile_error :=
| heartbeat_not_positive | pool_limit_not_positive | concurrency_not_positive
| publish_above_pool_limit | publish_below_unpublish
| division_by_zero.   (* undefined behaviour: the process dies *)

(** [static_cast<uint64_t>(1000 * d)]: the product is rounded to a double, then
    truncated; outside the range of [uint64_t] the cast is undefined. *)
Definition millis (undefined : double.t -> Z) (d : double.t) : Z :=
  let f := SFmul 53 1024 (double.of_Z 1000) d in
  match f with
  | S754_zero _ => 0
  | S754_finite false m e =>
      let a := if 0 <=? e then Z.shiftl (Zpos m) e else Z.shiftr (Zpos m) (- e) in
      if a <? u64_modulus then a else undefined f
  | S754_finite true m e =>
      if Z.shiftr (Zpos m) (- e) =? 0 then 0 else undefined f
  | _ => undefined f
  end.

(** [std::max(1UL, queue_limit / pool_limit / 2)] *)
Definition default_threshold (queue pool : Z) : outcome profile_error Z :=
  if pool =? 0 then Throw division_by_zero else Ret (Z.max 1 (queue / pool / 2)).

Definition profile_construct (undefined : double.t -> Z) (doc : document) : outcome profile_error profile_t :=
  let seconds (o : option double.t) (d : Z) := millis undefined (default (double.of_Z d) o) in
  let conc := default 10 (doc_concurrency doc) in
  let pool := default 10 (doc_pool_limit doc) in
  let queue := default 100 (doc_queue_limit doc) in
  let on := u32 (default 0 (doc_publish_on doc)) in
  let under := u32 (default 0 (doc_unpublish_under doc)) in
  outcome_bind (default_threshold queue pool) (fun threshold =>
  let p := mk_profile
    (default false (doc_log_output doc))
    (seconds (doc_spawn_timeout doc) 1) (seconds (doc_handshake_timeout doc) 5)
    (seconds (doc_heartbeat_timeout doc) 30) (seconds (doc_seal_timeout doc) 60)
    (seconds (doc_terminate_timeout doc) 10) (seconds (doc_idle_timeout doc) 600)
    (seconds (doc_request_timeout doc) 86400)
    conc (default 50 (doc_crashlog_limit doc))
    (default threshold (doc_grow_threshold doc)) pool queue on under in
  if timeout_heartbeat p =? 0 then Throw heartbeat_not_positive
  else if pool =? 0 then Throw pool_limit_not_positive
  else if conc =? 0 then Throw concurrency_not_positive
  else if pool <? on then Throw publish_above_pool_limit
  else if on <? under then Throw publish_below_unpublish
  else Ret p).

(** The unsigned fields of a document are unsigned. *)
Definition unsigned (o : option Z) : Prop := forall z, o = Some z -> 0 <= z.
Definition document_wf (doc : document) : Prop :=
  unsigned (doc_concurrency doc) /\ unsigned (doc_pool_limit doc) /\ unsigned (doc_queue_limit doc) /\
  unsigned (doc_grow_threshold doc).

Record profile_wf (p : profile_t) : Prop := {
  concurrency_positive : 0 < concurrency p;
  pool_limit_positive : 0 < pool_limit p;
  queue_limit_nonneg : 0 <= queue_limit p;
  grow_threshold_nonneg : 0 <= grow_threshold p;
  publish_bounded : publish_on p <= pool_limit p;
  unpublish_bounded : 0 <= unpublish_under p <= publish_on p
}.

(** ** Facts *)

Lemma default_nonneg o d : unsigned o -> 0 <= d -> 0 <= default d o.
Proof. intros Ho Hd. destruct o as [z|]; simpl; [by apply Ho|done]. Qed.

Lemma u32_nonneg z : 0 <= u32 z.
Proof. apply Z.mod_pos_bound. lia. Qed.

(** ** Theorems *)

(** C40: a profile that is constructed satisfies the bounds the engine divides and
    compares by: positive pool limit, concurrency and heartbeat timeout, and
    publish thresholds ordered under the pool limit; without an explicit grow
    threshold it is at least one. *)
Theorem profile_construct_sound (undefined : double.t -> Z) (doc : document) (p : profile_t) :
  document_wf doc -> profile_construct undefined doc = Ret p ->
  profile_wf p /\ timeout_heartbeat p <> 0 /\
  (doc_grow_threshold doc = None -> 1 <= grow_threshold p).
Proof.
  intros (Hc & Hp & Hq & Hg). unfold profile_construct, default_threshold.
  pose proof (default_nonneg _ 10 Hc ltac:(lia)). pose proof (default_nonneg _ 10 Hp ltac:(lia)).
  pose proof (default_nonneg _ 100 Hq ltac:(lia)).
  pose proof (u32_nonneg (default 0 (doc_unpublish_under doc))).
  destruct (Z.eqb_spec (default 10 (doc_pool_limit doc)) 0); simpl; [done|].
  repeat case_match; intros; simplify_eq; simpl.
  repeat match goal with H : (_ =? _) = false |- _ => apply Z.eqb_neq in H
                       | H : (_ <? _) = false |- _ => apply Z.ltb_ge in H end.
  split_and!; [constructor; simpl; try lia|done|].
  - apply default_nonneg; [done|lia].
  - intros ->. simpl. lia.
Qed.

Lemma profile_construct_witness :
  exists p, profile_construct (fun _ => 0) empty_document = Ret p /\ profile_wf p /\ grow_threshold p = 5.
Proof.
  eexists. split; [vm_compute; reflexivity|].
  split; [|reflexivity].
  refine (proj1 (profile_construct_sound (fun _ => 0) empty_document _ _ _)).
  - split_and!; intros ??; discriminate.
  - vm_compute; reflexivity.
Defined.

(** A zero pool limit is never reported: the default grow threshold divides by
    it before the check that would refuse it. *)
Theorem zero_pool_limit_divides (undefined : double.t -> Z) (doc : document) :
  doc_pool_limit doc = Some 0 ->
  profile_construct undefined doc = Throw division_by_zero.
Proof. intros H. unfold profile_construct. rewrite H. reflexivity. Qed.

Lemma zero_pool_limit_witness :
  profile_construct (fun _ => 0)
    (mk_document None None None None None None None None None None (Some 0) None (Some 5) None None)
  = Throw division_by_zero.
Proof. apply zero_pool_limit_divides. reflexivity. Defined.
