(* ===== verification/Splitter.v ===== *)
(** * Slave output: [node/src/util/splitter.hpp] and [machine_t::output]

    The splitter collects what a worker prints and yields it line by line; the
    machine keeps the last [crashlog_limit] lines in a circular buffer and dumps
    them with the unfinished tail when the slave breaks.  Strings are lists of
    characters here; the loop [while (auto line = splitter.next())] is a
    recursion on the length of the unparsed text. *)

From Equations Require Import Equations.
From Stdlib Require Import Wf_nat.
From S2P Require Import Prelude.

(** A value with the equation that names it, for recursive calls that need it. *)
Definition inspected {A} (a : A) : { b : A | a = b } := exist _ a eq_refl.

Section splitter.
Context {char : Type} `{EqDecision char}.

Record splitter_t := mk_splitter { sep : char; unparsed : list char }.

(** [unparsed.find(sep)] with [substr(0, pos)] and [erase(0, pos + 1)]. *)
Fixpoint cut (c : char) (l : list char) : option (list char * list char) :=
  match l with
  | [] => None
  | x :: l => if decide (x = c) then Some ([], l)
              else match cut c l with Some (a, b) => Some (x :: a, b) | None => None end
  end.

Definition next (s : splitter_t) : option (list char) * splitter_t :=
  match cut (sep s) (unparsed s) with
  | None => (None, s)
  | Some (line, rest) => (Some line, mk_splitter (sep s) rest)
  end.

Definition empty_ (s : splitter_t) : bool := match unparsed s with [] => true | _ => false end.
Definition data (s : splitter_t) : list char := unparsed s.
Definition consume (d : list char) (s : splitter_t) : splitter_t :=
  mk_splitter (sep s) (unparsed s ++ d).

Lemma cut_shorter c l a b : cut c l = Some (a, b) -> (length b < length l)%nat.
Proof.
  revert a b. induction l as [|x l IH]; simpl; [done|]. intros a b.
  case_decide; [intros [= <- <-]; lia|].
  destruct (cut c l) as [[a' b']|] eqn:E; [|done]. intros [= <- <-].
  specialize (IH _ _ eq_refl). lia.
Qed.

(** The lines the loop of [machine_t::output] takes out, and what is left. *)
Equations? drain (c : char) (l : list char) : list (list char) * list char by wf (length l) lt :=
  drain c l with inspected (cut c l) => {
    | exist _ (Some (line, rest)) E := let '(lines, tail) := drain c rest in (line :: lines, tail);
    | exist _ None _ := ([], l) }.
Proof. by eapply cut_shorter. Qed.

(** [boost::circular_buffer]: a full buffer overwrites its oldest element. *)
Definition push_back (capacity : nat) (x : list char) (b : list (list char)) : list (list char) :=
  if bool_decide (capacity = 0%nat) then b
  else if bool_decide (length b < capacity)%nat then b ++ [x]
  else drop 1 b ++ [x].

Record output_t := mk_output { splitter : splitter_t; lines : list (list char) }.

(** [machine_t::output] *)
Definition output (capacity : nat) (d : list char) (o : output_t) : output_t :=
  let s := consume d (splitter o) in
  let '(ls, tail) := drain (sep s) (unparsed s) in
  mk_output (mk_splitter (sep s) tail) (foldl (fun b x => push_back capacity x b) (lines o) ls).

(** The text part of [machine_t::dump]. *)
Definition dump (o : output_t) : list (list char) :=
  if empty_ (splitter o) then lines o else lines o ++ [data (splitter o)].

(** ** Facts *)

Lemma cut_None c l : cut c l = None <-> c ∉ l.
Proof.
  induction l as [|x l IH]; simpl; [set_solver|]. rewrite not_elem_of_cons.
  case_decide; [naive_solver|]. destruct (cut c l) as [[a b]|]; naive_solver.
Qed.

Lemma cut_Some c l a b : cut c l = Some (a, b) <-> l = a ++ c :: b /\ c ∉ a.
Proof.
  revert a b. induction l as [|x l IH]; intros a b; simpl.
  { split; [done|]. intros [E _]. by destruct a. }
  case_decide as Hx.
  - subst x. split; [intros [= <- <-]; set_solver|]. intros [E Ha].
    destruct a as [|y a]; simplify_eq/=; [done|]. set_solver.
  - destruct (cut c l) as [[a' b']|] eqn:E.
    + destruct (IH a' b') as [IH1 _]. destruct (IH1 eq_refl) as [-> Ha']. split.
      * intros [= <- <-]. split; [done|]. set_solver.
      * intros [El Ha]. destruct a as [|y a]; simplify_eq/=.
        assert (Some (a', b') = Some (a, b)) as [= <- <-]; [|done].
        apply IH. set_solver.
    + split; [done|]. intros [El Ha]. destruct a as [|y a]; simplify_eq/=.
      assert (None = Some (a, b)); [|done]. apply IH. set_solver.
Qed.

Lemma drain_cut c l :
  drain c l = match cut c l with
              | Some (line, rest) => let '(ls, tail) := drain c rest in (line :: ls, tail)
              | None => ([], l)
              end.
Proof.
  rewrite (drain_equation_1 c l).
  destruct (inspected (cut c l)) as [[[a b]|] E]; simpl; by rewrite E.
Qed.

Lemma drain_app c l d : forall ls tail,
  drain c l = (ls, tail) ->
  drain c (l ++ d) = let '(ls', tail') := drain c (tail ++ d) in (ls ++ ls', tail').
Proof.
  induction l as [l IH] using (induction_ltof1 _ length). unfold ltof in IH.
  intros ls tail. rewrite (drain_cut c l). destruct (cut c l) as [[a b]|] eqn:E.
  - pose proof (cut_shorter _ _ _ _ E) as Hlt. apply cut_Some in E as [-> Ha].
    destruct (drain c b) as [ls0 t0] eqn:Hb. intros [= <- <-].
    rewrite drain_cut. replace (cut c ((a ++ c :: b) ++ d)) with (Some (a, b ++ d)).
    2: { symmetry. apply cut_Some. split; [by rewrite <- app_assoc|done]. }
    rewrite (IH b Hlt ls0 t0 Hb). by destruct (drain c (t0 ++ d)).
  - intros [= <- <-]. by destruct (drain c (l ++ d)).
Qed.

Lemma drain_spec c l ls tail :
  drain c l = (ls, tail) ->
  l = concat ((fun x => x ++ [c]) <$> ls) ++ tail /\ (c ∉ tail) /\ Forall (fun x => c ∉ x) ls.
Proof.
  revert ls tail. induction l as [l IH] using (induction_ltof1 _ length). unfold ltof in IH.
  intros ls tail. rewrite drain_cut. destruct (cut c l) as [[a b]|] eqn:E.
  - pose proof (cut_shorter _ _ _ _ E) as Hlt. apply cut_Some in E as [-> Ha].
    destruct (drain c b) as [ls0 t0] eqn:Hb. intros [= <- <-].
    destruct (IH b Hlt ls0 t0 Hb) as (-> & Ht & Hls). split_and!; [|done|by constructor].
    simpl. by rewrite <- !app_assoc.
  - intros [= <- <-]. apply cut_None in E. split_and!; [done|done|constructor].
Qed.

(** The buffer holds the last [capacity] lines. *)
Definition keep_last (n : nat) (l : list (list char)) : list (list char) := drop (length l - n) l.

Lemma push_back_last n x b : push_back n x (keep_last n b) = keep_last n (b ++ [x]).
Proof.
  unfold push_back, keep_last. rewrite length_app; simpl.
  repeat case_bool_decide; simplify_eq; rewrite ?length_drop in *.
  - rewrite Nat.sub_0_r, drop_all, Nat.sub_0_r, drop_ge; [done|]. rewrite length_app; simpl; lia.
  - rewrite drop_app_le by lia. f_equal. f_equal. lia.
  - rewrite drop_drop, drop_app_le by lia. f_equal. f_equal. lia.
Qed.

Lemma push_all_last n ls : forall b,
  foldl (fun b x => push_back n x b) (keep_last n b) ls = keep_last n (b ++ ls).
Proof.
  induction ls as [|x ls IH]; intros b; simpl; [by rewrite app_nil_r|].
  by rewrite push_back_last, IH, <- app_assoc.
Qed.

Definition fresh_output (c : char) : output_t := mk_output (mk_splitter c []) [].

(** The state after printing [l], in whatever pieces it came. *)
Definition printed (capacity : nat) (c : char) (l : list char) (o : output_t) : Prop :=
  exists ls tail, drain c l = (ls, tail) /\ o = mk_output (mk_splitter c tail) (keep_last capacity ls).

Lemma output_printed capacity c l d o :
  printed capacity c l o -> printed capacity c (l ++ d) (output capacity d o).
Proof.
  intros (ls & tail & Hd & ->). unfold output; simpl.
  destruct (drain c (tail ++ d)) as [ls' tail'] eqn:Hd'.
  exists (ls ++ ls'), tail'. rewrite (drain_app c l d ls tail Hd), Hd'. split; [done|].
  by rewrite push_all_last.
Qed.

Lemma outputs_printed capacity c chunks : forall l o,
  printed capacity c l o ->
  printed capacity c (l ++ concat chunks) (foldl (fun o d => output capacity d o) o chunks).
Proof.
  induction chunks as [|d chunks IH]; intros l o Ho; simpl; [by rewrite app_nil_r|].
  rewrite app_assoc. apply IH. by apply output_printed.
Qed.

(** The crash log.  However the output of a worker is cut into chunks, the
    buffer ends with the last [crashlog_limit] complete lines and the splitter
    with the unfinished one: the lines, each closed by the separator, and the
    tail are exactly the text printed. *)
Theorem output_keeps_last_lines (capacity : nat) (c : char) (chunks : list (list char)) :
  let o := foldl (fun o d => output capacity d o) (fresh_output c) chunks in
  exists ls, concat chunks = concat ((fun x => x ++ [c]) <$> ls) ++ unparsed (splitter o) /\
    (c ∉ unparsed (splitter o)) /\ Forall (fun x => c ∉ x) ls /\
    lines o = keep_last capacity ls.
Proof.
  destruct (outputs_printed capacity c chunks [] (fresh_output c)) as (ls & tail & Hd & Ho).
  { exists [], []. split; [|done]. by rewrite drain_cut. }
  rewrite Ho; simpl. exists ls. simpl in Hd.
  destruct (drain_spec _ _ _ _ Hd) as (H1 & H2 & H3). done.
Qed.
End splitter.

Example output_example :
  let o := foldl (fun o d => output 2 d o) (fresh_output 0%nat) [[1;2]; [0;3;0]; []; [4;0;5]]%nat in
  (lines o, unparsed (splitter o), dump o) = ([[3]; [4]], [5], [[3]; [4]; [5]])%nat.
Proof. reflexivity. Qed.
