(* ===== verification/Channel.v ===== *)
(** * Channels and their dispatches

    A channel is the pair of streams of one request between a client and a
    worker: [node/src/node/slave/channel.cpp] counts which sides are still open,
    [dispatch/client.cpp] adapts the client-to-worker stream and
    [dispatch/worker.cpp] the worker-to-client one.  The adapters tell the
    channel that a side is closed through callbacks; here an operation returns
    the callbacks it makes.  Whether a write to a stream throws is an argument. *)

From S2P Require Import Prelude.

Local Open Scope Z_scope.

(** An [std::error_code]: a value with its category; a zero value is success,
    whatever the category. *)
Inductive category_t :=
| system_category | generic_category | node_category | overseer_category | slave_category
| dispatch_category | unicorn_category
| other_category (n : Z).
#[export] Instance category_eq_dec : EqDecision category_t.
Proof. solve_decision. Defined.

Record error_code := mk_ec { category : category_t; value : Z }.
#[export] Instance error_code_eq_dec : EqDecision error_code.
Proof. solve_decision. Defined.

Definition success : error_code := mk_ec system_category 0.
Definition is_error (ec : error_code) : bool := negb (value ec =? 0).

(** [error::node_errors] *)
Definition node_error (v : Z) : error_code := mk_ec node_category v.
Definition deadline_error := node_error 1.
Definition resource_error := node_error 2.
Definition timeout_error := node_error 3.
Definition invalid_assignment := node_error 4.
Definition already_started := node_error 5.
Definition not_running := node_error 6.
Definition uncaught_spool_error := node_error 7.
Definition uncaught_publish_error := node_error 8.

(** ** [channel_t] *)

Module channel.
Definition none : Z := 0.
Definition tx : Z := 1.
Definition rx : Z := 2.
Definition both : Z := Z.lor tx rx.

Record channel_t := mk {
  id_ : Z;
  birthstamp_ : Z;
  state : Z;
  watched : bool;
  (** [into_worker] and [from_worker] are set *)
  attached : bool
}.

Definition construct (id birthstamp : Z) : channel_t := mk id birthstamp both false false.

Definition closed (c : channel_t) : bool := state c =? none.
(** As named in the source; see the theorem [send_closed_means_open]. *)
Definition send_closed (c : channel_t) : bool := Z.land (state c) tx =? tx.
Definition recv_closed (c : channel_t) : bool := Z.land (state c) rx =? rx.

(** [maybe_notify]: [true] when [callback()] is called. *)
Definition maybe_notify (c : channel_t) : bool * channel_t :=
  if closed c && watched c then (true, mk (id_ c) (birthstamp_ c) (state c) (watched c) false)
  else (false, c).

Definition clear (mask : Z) (c : channel_t) : channel_t :=
  mk (id_ c) (birthstamp_ c) (Z.land (state c) (Z.lnot mask)) (watched c) (attached c).

Definition close_send (c : channel_t) : bool * channel_t := maybe_notify (clear tx c).
Definition close_recv (c : channel_t) : bool * channel_t := maybe_notify (clear rx c).
Definition close_both (c : channel_t) : bool * channel_t := maybe_notify (clear (Z.lor tx rx) c).
Definition watch (c : channel_t) : bool * channel_t :=
  maybe_notify (mk (id_ c) (birthstamp_ c) (state c) true (attached c)).
Definition attach_dispatches (c : channel_t) : channel_t :=
  mk (id_ c) (birthstamp_ c) (state c) (watched c) true.

Inductive op := CloseSend | CloseRecv | CloseBoth | Watch.
Definition step (o : op) (c : channel_t) : bool * channel_t :=
  match o with
  | CloseSend => close_send c
  | CloseRecv => close_recv c
  | CloseBoth => close_both c
  | Watch => watch c
  end.

(** The notifications of a sequence of operations, in order. *)
Fixpoint run (os : list op) (c : channel_t) : list bool * channel_t :=
  match os with
  | [] => ([], c)
  | o :: os => let '(n, c) := step o c in let '(ns, c) := run os c in (n :: ns, c)
  end.
End channel.

(** ** [client_rpc_dispatch_t] *)

Module client.
Inductive state_t := open | bound | closed.

Record dispatch_t := mk { state : state_t; ec : error_code }.
Definition construct : dispatch_t := mk open success.

(** The result of an operation: the callback it makes, if any; [Throw] is an
    exception of the stream, or the failed assertion of [attach]. *)
Inductive error := stream_error | assertion_failed.

Definition finalize (d : dispatch_t) : option error_code * dispatch_t :=
  match state d with
  | open => (None, mk closed (ec d))
  | bound => (Some (ec d), mk closed (ec d))
  | closed => (None, d)
  end.

Definition attach (stream_ok : bool) (d : dispatch_t)
  : outcome error (option error_code) * dispatch_t :=
  if negb stream_ok then (Throw stream_error, d)
  else match state d with
       | open => (Ret None, mk bound (ec d))
       | closed => (Ret (Some (ec d)), d)
       | bound => (Throw assertion_failed, d)
       end.

(** An error code is remembered and the stream aborted; its exception is eaten. *)
Definition discard (e : error_code) (d : dispatch_t) : option error_code * dispatch_t :=
  if is_error e then finalize (mk (state d) e) else (None, d).

Definition write (stream_ok : bool) (d : dispatch_t) : outcome error (option error_code) * dispatch_t :=
  if stream_ok then (Ret None, d) else (Throw stream_error, d).

(** [abort] and [close] finalize only when the stream took the message. *)
Definition abort (stream_ok : bool) (d : dispatch_t) : outcome error (option error_code) * dispatch_t :=
  if stream_ok then let '(cb, d) := finalize d in (Ret cb, d) else (Throw stream_error, d).
Definition close (stream_ok : bool) (d : dispatch_t) : outcome error (option error_code) * dispatch_t :=
  if stream_ok then let '(cb, d) := finalize d in (Ret cb, d) else (Throw stream_error, d).

Inductive op := Attach (ok : bool) | Discard (e : error_code) | Write (ok : bool)
              | Abort (ok : bool) | Close (ok : bool).

Definition step (o : op) (d : dispatch_t) : outcome error (option error_code) * dispatch_t :=
  match o with
  | Attach ok => attach ok d
  | Discard e => let '(cb, d) := discard e d in (Ret cb, d)
  | Write ok => write ok d
  | Abort ok => abort ok d
  | Close ok => close ok d
  end.

(** Callbacks made and [attach] calls that returned; an exception ends an
    operation, not the dispatch. *)
Fixpoint run (os : list op) (d : dispatch_t) : list error_code * nat * dispatch_t :=
  match os with
  | [] => ([], 0%nat, d)
  | o :: os =>
      let '(r, d) := step o d in
      let '(cbs, n, d) := run os d in
      match r with
      | Ret cb => (match cb with Some e => e :: cbs | None => cbs end,
                   match o with Attach _ => S n | _ => n end, d)
      | Throw _ => (cbs, n, d)
      end
  end.
End client.

(** ** [worker_rpc_dispatch_t] *)

Module worker.
Inductive state_t := open | closed.

(** [asio::error::connection_aborted] *)
Definition connection_aborted : error_code := mk_ec system_category 103.

Record dispatch_t := mk { state : state_t }.
Definition construct : dispatch_t := mk open.

Definition finalize (e : error_code) (d : dispatch_t) : option error_code * dispatch_t :=
  match state d with
  | closed => (None, d)
  | open => (Some e, mk closed)
  end.

Definition on_chunk (stream_ok : bool) (d : dispatch_t) : option error_code * dispatch_t :=
  match state d with
  | closed => (None, d)
  | open => if stream_ok then (None, d) else finalize connection_aborted d
  end.
Definition on_error (stream_ok : bool) (d : dispatch_t) : option error_code * dispatch_t :=
  match state d with
  | closed => (None, d)
  | open => finalize (if stream_ok then success else connection_aborted) d
  end.
Definition on_choke (stream_ok : bool) (d : dispatch_t) : option error_code * dispatch_t :=
  match state d with
  | closed => (None, d)
  | open => finalize (if stream_ok then success else connection_aborted) d
  end.
(** The stream's exception is eaten and the callback is given no error. *)
Definition discard (e : error_code) (d : dispatch_t) : option error_code * dispatch_t :=
  if is_error e then
    match state d with
    | closed => (None, d)
    | open => finalize success d
    end
  else (None, d).

Inductive op := Chunk (ok : bool) | Error (ok : bool) | Choke (ok : bool) | Discard (e : error_code).
Definition step (o : op) (d : dispatch_t) : option error_code * dispatch_t :=
  match o with
  | Chunk ok => on_chunk ok d
  | Error ok => on_error ok d
  | Choke ok => on_choke ok d
  | Discard e => discard e d
  end.

Fixpoint run (os : list op) (d : dispatch_t) : list error_code * dispatch_t :=
  match os with
  | [] => ([], d)
  | o :: os => let '(cb, d) := step o d in
               let '(cbs, d) := run os d in
               (match cb with Some e => e :: cbs | None => cbs end, d)
  end.
End worker.

(** ** Facts *)

Module channel_facts.
Import channel.

(** The four values of the state. *)
Definition valid (c : channel_t) : Prop := state c = 0 \/ state c = 1 \/ state c = 2 \/ state c = 3.

(** Which sides a sequence of operations closes, and whether it watches. *)
Definition closes_tx (o : op) : bool := match o with CloseSend | CloseBoth => true | _ => false end.
Definition closes_rx (o : op) : bool := match o with CloseRecv | CloseBoth => true | _ => false end.
Definition watches (o : op) : bool := match o with Watch => true | _ => false end.

Definition tx_open (c : channel_t) : bool := Z.testbit (state c) 0.
Definition rx_open (c : channel_t) : bool := Z.testbit (state c) 1.

Lemma step_sides o c : valid c ->
  let '(n, c') := step o c in
  valid c' /\ tx_open c' = tx_open c && negb (closes_tx o) /\
  rx_open c' = rx_open c && negb (closes_rx o) /\ watched c' = watched c || watches o /\
  n = negb (tx_open c') && negb (rx_open c') && watched c'.
Proof.
  destruct c as [i b st w a]. unfold valid; simpl.
  intros [->|[->|[->| ->]]]; destruct o, w; vm_compute; split_and!; auto.
Qed.

Lemma run_sides os : forall c, valid c ->
  valid (run os c).2 /\
  tx_open (run os c).2 = tx_open c && negb (existsb closes_tx os) /\
  rx_open (run os c).2 = rx_open c && negb (existsb closes_rx os) /\
  watched (run os c).2 = watched c || existsb watches os.
Proof.
  induction os as [|o os IH]; intros c Hc; simpl.
  { by rewrite !andb_true_r, orb_false_r. }
  pose proof (step_sides o c Hc) as Hs. destruct (step o c) as [n c1].
  destruct Hs as (Hv & Ht & Hr & Hw & _). specialize (IH c1 Hv).
  destruct (run os c1) as [ns c2]; simpl in *. destruct IH as (Hv' & -> & -> & ->).
  rewrite Ht, Hr, Hw, !negb_orb, !andb_assoc, orb_assoc. done.
Qed.

(** A channel notifies its owner exactly at the operations after which both
    sides have been closed and the channel is watched, in whatever order the
    closes and [watch] come. *)
Theorem channel_notifies (id birthstamp : Z) (os : list op) (o : op) :
  (step o (run os (construct id birthstamp)).2).1
  = existsb closes_tx (os ++ [o]) && existsb closes_rx (os ++ [o]) && existsb watches (os ++ [o]).
Proof.
  destruct (run_sides os (construct id birthstamp)) as (Hv & Ht & Hr & Hw); [by right; right; right|].
  pose proof (step_sides o _ Hv) as Hs. destruct (step o (run os (construct id birthstamp)).2) as [n c']; simpl.
  destruct Hs as (_ & Ht' & Hr' & Hw' & ->). rewrite Ht', Hr', Hw', Ht, Hr, Hw. simpl.
  rewrite !existsb_app; simpl. rewrite !orb_false_r. by rewrite !negb_andb, !negb_involutive.
Qed.

(** [send_closed] and [recv_closed] answer whether the side is still open, so
    the [tx] and [rx] counts of the slave statistics count open sides. *)
Theorem send_closed_means_open (id birthstamp : Z) (os : list op) :
  let c := (run os (construct id birthstamp)).2 in
  send_closed c = negb (existsb closes_tx os) /\ recv_closed c = negb (existsb closes_rx os).
Proof.
  intros c. destruct (run_sides os (construct id birthstamp)) as (Hv & Ht & Hr & _); [by right; right; right|].
  fold c in Hv, Ht, Hr. change (tx_open (construct id birthstamp)) with true in Ht.
  change (rx_open (construct id birthstamp)) with true in Hr. rewrite andb_true_l in Ht, Hr.
  rewrite <- Ht, <- Hr. unfold send_closed, recv_closed, tx_open, rx_open.
  by destruct Hv as [->|[->|[->| ->]]].
Qed.
End channel_facts.

Module dispatch_facts.
Definition pending (d : client.dispatch_t) : nat :=
  match client.state d with client.bound => 1 | _ => 0 end%nat.

(** Accounting of callbacks: each returned [attach] is answered, or still bound. *)
Lemma client_accounting (os : list client.op) : forall d cbs n d',
  client.run os d = (cbs, n, d') -> (length cbs + pending d' = n + pending d)%nat.
Proof.
  induction os as [|o os IH]; intros [st e] cbs n d' Hrun; simpl in Hrun; [by simplify_eq|].
  destruct o as [[]|e'|[]|[]|[]], st; cbn in Hrun; unfold client.discard in Hrun;
    try destruct (is_error e'); cbn in Hrun;
    match type of Hrun with context [client.run os ?d] =>
      destruct (client.run os d) as [[cbs1 n1] d1] eqn:E; apply IH in E end;
    simplify_eq; cbn in *; lia.
Qed.

(** The client dispatch calls the callback of each [attach] at most once, and
    exactly once when it ends closed; it is the promise stated in its header. *)
Theorem client_callback_once (os : list client.op) :
  let '(cbs, n, d) := client.run os client.construct in
  (length cbs <= n <= length cbs + 1)%nat /\
  (length cbs = n <-> client.state d <> client.bound).
Proof.
  destruct (client.run os client.construct) as [[cbs n] d] eqn:E.
  apply client_accounting in E. unfold pending in E. cbn in E.
  destruct (client.state d); split; try lia; split; try done; lia.
Qed.

Lemma worker_closed_silent (os : list worker.op) :
  worker.run os (worker.mk worker.closed) = ([], worker.mk worker.closed).
Proof.
  induction os as [|o os IH]; [done|]. simpl.
  assert (worker.step o (worker.mk worker.closed) = (None, worker.mk worker.closed)) as ->.
  { destruct o; try done. simpl. unfold worker.discard. by case_match. }
  by rewrite IH.
Qed.

(** The worker dispatch calls its callback once, at the first closing message,
    failed write or discard, and never again. *)
Theorem worker_callback_once (os : list worker.op) :
  let '(cbs, d) := worker.run os worker.construct in
  (length cbs <= 1)%nat /\ (length cbs = 1%nat <-> worker.state d = worker.closed).
Proof.
  unfold worker.construct. induction os as [|o os IH]; [simpl; split; [lia|done]|].
  simpl. destruct o as [[]|[]|[]|e]; cbn; unfold worker.discard; try (destruct (is_error e)); cbn;
    first [ by destruct (worker.run os (worker.mk worker.open))
          | rewrite worker_closed_silent; cbn; split; [lia|done] ].
Qed.
End dispatch_facts.
