(* ===== verification/Protocols.v ===== *)
(** * The protocols of the services, and the dispatches that serve them

    The headers under [idl/] describe what can be sent to a service: for every tag the
    messages of its protocol with their names, arguments, the protocol that the channel
    goes on with ([dispatch_type]) and that of the answers ([upstream_type]).  [messages]
    is that description as data, [dispatches] lists the classes that serve a protocol with
    the messages they register ([on<...>]).

    A message that declares no [dispatch_type] ends the channel, one without an
    [upstream_type] is answered by an empty option: these are the defaults of the server's
    traits.  The protocols of streams and options belong to the server too: how a message
    moves a stream is a parameter, of which the class [Streams] states the documented rules.

    [walk] follows a channel through a sequence of messages.  [channel_ends_iff] finds the
    protocols whose channels no message can end, and [dispatches_follow_streams] shows that
    the dispatches of a request (Channel.v) are closed, and tell so once, exactly when the
    stream that they serve has ended. *)

From S2P Require Import Prelude Channel.

(** ** Types, messages, protocols *)

Inductive ty :=
| TString | TBool | TInt | TUint | TInt64 | TUint64 | TDouble | TDynamic
| TOptional (t : ty)
| TDefault (t : ty) (d : string)     (** [optional_with_default] *)
| TVector (t : ty)
| TMap (t : ty)                      (** from strings *)
| TUnit | TPair (a b : ty)           (** tuples *)
| TNamed (name : string).            (** a type of the library that is meant *)

Definition TTuple (l : list ty) : ty := foldr TPair TUnit l.

Inductive tag :=
| app_tag | node_tag | worker_tag | control_tag | rpc_tag
| isolate_tag | isolate_spawned_tag | isolate_spooled_tag
| unicorn_tag | unicorn_final_tag | base_log_tag | named_log_tag
| cache_tag | chrono_tag | metrics_tag | graphite_tag | unicat_tag | uniresis_tag
| vicodyn_tag | urlfetch_tag | elasticsearch_tag | elliptics_tag | echo_tag.
#[export] Instance tag_eq_dec : EqDecision tag.
Proof. solve_decision. Defined.
Definition all_tags : list tag :=
  [app_tag; node_tag; worker_tag; control_tag; rpc_tag; isolate_tag; isolate_spawned_tag; isolate_spooled_tag;
   unicorn_tag; unicorn_final_tag; base_log_tag; named_log_tag; cache_tag; chrono_tag; metrics_tag; graphite_tag;
   unicat_tag; uniresis_tag; vicodyn_tag; urlfetch_tag; elasticsearch_tag; elliptics_tag; echo_tag].

(** What one direction of a channel speaks *)
Inductive stage := Speaks (t : tag) | StreamOf (l : list ty) | OptionOf (l : list ty) | Terminal.

Record message := mk_message {
  alias : string;
  in_tag : tag;
  arguments : list ty;
  dispatch_type : stage;
  upstream_type : stage
}.
Definition no_answer : stage := OptionOf [].

(** *** [node/include/cocaine/idl/node.hpp] *)

Definition app_enqueue := mk_message "enqueue" app_tag [TString; TOptional TString] (StreamOf [TString]) (StreamOf [TString]).
Definition app_info := mk_message "info" app_tag [] Terminal (OptionOf [TDynamic]).
Definition app_control := mk_message "control" app_tag [] (StreamOf [TInt]) no_answer.
Definition app_protocol : list message := [app_enqueue; app_info; app_control].

Definition node_start_app := mk_message "start_app" node_tag [TString; TString] Terminal no_answer.
Definition node_pause_app := mk_message "pause_app" node_tag [TString] Terminal no_answer.
Definition node_control_app := mk_message "control" node_tag [TString] (StreamOf [TInt]) no_answer.
Definition node_info := mk_message "info" node_tag [TString; TOptional (TNamed "flags_t")] Terminal (OptionOf [TDynamic]).
Definition node_list := mk_message "list" node_tag [] Terminal (OptionOf [TDynamic]).
Definition node_enqueue := mk_message "enqueue" node_tag [TString; TString] (StreamOf [TString]) (StreamOf [TString]).
Definition node_protocol : list message :=
  [node_start_app; node_pause_app; node_list; node_info; node_control_app; node_enqueue].

(** *** [node/include/cocaine/idl/rpc.hpp] *)

Definition worker_handshake := mk_message "handshake" worker_tag [TString] (Speaks control_tag) (Speaks control_tag).
Definition worker_heartbeat := mk_message "heartbeat" control_tag [] (Speaks control_tag) no_answer.
Definition worker_terminate := mk_message "terminate" control_tag [TInt; TString] (Speaks control_tag) Terminal.
Definition rpc_invoke := mk_message "invoke" rpc_tag [TString] (StreamOf [TString]) (StreamOf [TString]).
Definition worker_protocol : list message := [worker_handshake].
Definition control_protocol : list message := [worker_heartbeat; worker_terminate].
Definition rpc_protocol : list message := [rpc_invoke].

(** *** [node/include/cocaine/idl/isolate.hpp] *)

Definition isolate_spool := mk_message "spool" isolate_tag [TDynamic; TString] (Speaks isolate_spooled_tag) (OptionOf []).
Definition isolate_spawn := mk_message "spawn" isolate_tag [TDynamic; TString; TString; TMap TString; TMap TString]
  (Speaks isolate_spawned_tag) (StreamOf [TString]).
Definition isolate_metrics := mk_message "metrics" isolate_tag [TVector TString] (Speaks isolate_tag) (OptionOf [TMap (TMap TDynamic)]).
Definition isolate_kill := mk_message "kill" isolate_spawned_tag [] Terminal Terminal.
Definition isolate_cancel := mk_message "cancel" isolate_spooled_tag [] Terminal Terminal.
Definition isolate_protocol : list message := [isolate_spool; isolate_spawn; isolate_metrics].
Definition isolate_spawned_protocol : list message := [isolate_kill].
Definition isolate_spooled_protocol : list message := [isolate_cancel].

(** *** [unicorn/include/cocaine/idl/unicorn.hpp] *)

Definition path_t := TNamed "path_t".
Definition value_t := TNamed "value_t".
Definition version_t := TNamed "version_t".
Definition versioned_value_t := TNamed "versioned_value_t".
(** Every request goes on with the final protocol. *)
Definition unicorn_message (name : string) (args : list ty) (upstream : stage) : message :=
  mk_message name unicorn_tag args (Speaks unicorn_final_tag) upstream.

Definition unicorn_create := unicorn_message "create" [path_t; value_t] (OptionOf [TBool]).
Definition unicorn_put := unicorn_message "put" [path_t; value_t; version_t] (OptionOf [TBool; versioned_value_t]).
Definition unicorn_get := unicorn_message "get" [path_t] (OptionOf [versioned_value_t]).
Definition unicorn_subscribe := unicorn_message "subscribe" [path_t] (StreamOf [versioned_value_t]).
Definition unicorn_remove := unicorn_message "remove" [path_t; version_t] (OptionOf [TBool]).
Definition unicorn_del := unicorn_message "del" [path_t; version_t] (OptionOf [TBool]).
Definition unicorn_increment := unicorn_message "increment" [path_t; value_t] (OptionOf [versioned_value_t]).
Definition unicorn_children_subscribe := unicorn_message "children_subscribe" [path_t] (StreamOf [version_t; TVector TString]).
Definition unicorn_lock := unicorn_message "lock" [path_t] (StreamOf [TBool]).
Definition unicorn_named_lock := unicorn_message "named_lock" [path_t; value_t] (StreamOf [TBool]).
Definition unicorn_close := mk_message "close" unicorn_final_tag [] Terminal Terminal.
Definition unicorn_protocol : list message :=
  [unicorn_subscribe; unicorn_children_subscribe; unicorn_put; unicorn_get; unicorn_create; unicorn_del; unicorn_remove;
   unicorn_increment; unicorn_lock; unicorn_named_lock].
Definition unicorn_final_protocol : list message := [unicorn_close].

(** *** [logging/include/cocaine/idl/logging_v2.hpp] *)

Definition attributes_t := TNamed "attributes_t".
Definition filter_t := TNamed "filter_t".
Definition filter_id := TUint64.
Definition log_arguments : list ty := [TUint; TString; TString; TOptional attributes_t].

Definition log_emit := mk_message "emit" base_log_tag log_arguments Terminal Terminal.
Definition log_emit_ack := mk_message "emit_ack" base_log_tag log_arguments Terminal (OptionOf [TBool]).
Definition log_verbosity := mk_message "verbosity" base_log_tag [] Terminal (OptionOf [TUint]).
Definition log_set_verbosity := mk_message "set_verbosity" base_log_tag [TUint] Terminal no_answer.
Definition log_get := mk_message "get" base_log_tag [TString] (Speaks named_log_tag) (StreamOf [TBool]).
Definition log_list_loggers := mk_message "list_loggers" base_log_tag [] Terminal (OptionOf [TVector TString]).
Definition log_set_filter := mk_message "set_filter" base_log_tag [TString; filter_t; TNamed "seconds_t"] Terminal (OptionOf [filter_id]).
Definition log_remove_filter := mk_message "remove_filter" base_log_tag [filter_id] Terminal (OptionOf [TBool]).
Definition log_list_filters := mk_message "list_filters" base_log_tag [] Terminal
  (OptionOf [TVector (TTuple [TString; TNamed "representation_t"; filter_id; TUint64; TNamed "disposition_t"])]).
Definition log_set_cluster_filter := mk_message "set_cluster_filter" base_log_tag [TString; filter_t; TUint64] Terminal (OptionOf [filter_id]).
Definition named_emit := mk_message "emit" named_log_tag [TUint; TString; TOptional attributes_t] (Speaks named_log_tag) (StreamOf [TBool]).
Definition named_emit_ack := mk_message "emit_ack" named_log_tag [TUint; TString; TOptional attributes_t] (Speaks named_log_tag) (StreamOf [TBool]).
Definition base_log_protocol : list message :=
  [log_emit; log_verbosity; log_set_verbosity; log_emit_ack; log_get; log_list_loggers; log_set_filter; log_remove_filter;
   log_list_filters; log_set_cluster_filter].
Definition named_log_protocol : list message := [named_emit; named_emit_ack].

(** *** The smaller services *)

(** [cache/include/cocaine/idl/cache.hpp] *)
Definition cache_put := mk_message "put" cache_tag [TString; TString] Terminal no_answer.
Definition cache_get := mk_message "get" cache_tag [TString] Terminal (OptionOf [TBool; TString]).
Definition cache_protocol : list message := [cache_get; cache_put].

(** [chrono/include/cocaine/idl/chrono.hpp] *)
Definition chrono_notify_after := mk_message "notify_after" chrono_tag [TDouble; TDefault TBool "false"] Terminal (StreamOf [TInt64]).
Definition chrono_notify_every := mk_message "notify_every" chrono_tag [TDouble; TDefault TBool "false"] Terminal (StreamOf [TInt64]).
Definition chrono_cancel := mk_message "cancel" chrono_tag [TInt64] Terminal no_answer.
Definition chrono_restart := mk_message "restart" chrono_tag [TInt64] Terminal no_answer.
Definition chrono_protocol : list message := [chrono_notify_after; chrono_notify_every; chrono_cancel; chrono_restart].

(** [metrics/include/cocaine/idl/metrics.hpp] *)
Definition metrics_fetch := mk_message "fetch" metrics_tag [TOptional TString; TOptional TDynamic] Terminal (OptionOf [TDynamic]).
Definition metrics_protocol : list message := [metrics_fetch].

(** [graphite/include/cocaine/idl/graphite.hpp] *)
Definition graphite_send_bulk := mk_message "send_bulk" graphite_tag [TNamed "metric_pack_t"] Terminal no_answer.
Definition graphite_send_one := mk_message "send_one" graphite_tag [TNamed "metric_t"] Terminal no_answer.
Definition graphite_protocol : list message := [graphite_send_bulk; graphite_send_one].

(** [unicat/include/cocaine/idl/unicat.hpp] *)
Definition unicat_arguments : list ty :=
  [TVector (TTuple [TString; TOptional TString; TString]); TVector (TNamed "cid_t"); TVector (TNamed "uid_t"); TNamed "flags_t"].
Definition unicat_grant := mk_message "grant" unicat_tag unicat_arguments Terminal no_answer.
Definition unicat_revoke := mk_message "revoke" unicat_tag unicat_arguments Terminal no_answer.
Definition unicat_protocol : list message := [unicat_grant; unicat_revoke].

(** [uniresis/include/cocaine/idl/uniresis.hpp] *)
Definition uniresis_cpu_count := mk_message "cpu_count" uniresis_tag [] Terminal (OptionOf [TUint]).
Definition uniresis_memory_count := mk_message "memory_count" uniresis_tag [] Terminal (OptionOf [TUint64]).
Definition uniresis_uuid := mk_message "uuid" uniresis_tag [] Terminal (OptionOf [TString]).
Definition uniresis_protocol : list message := [uniresis_cpu_count; uniresis_memory_count; uniresis_uuid].

(** [vicodyn/include/cocaine/idl/vicodyn.hpp] *)
Definition vicodyn_info := mk_message "info" vicodyn_tag [] Terminal (OptionOf [TDynamic]).
Definition vicodyn_peers := mk_message "peers" vicodyn_tag [TOptional TString] Terminal (OptionOf [TDynamic]).
Definition vicodyn_apps := mk_message "apps" vicodyn_tag [TOptional TString] Terminal (OptionOf [TDynamic]).
Definition vicodyn_protocol : list message := [vicodyn_info; vicodyn_peers; vicodyn_apps].

(** [urlfetch/include/cocaine/idl/urlfetch.hpp] *)
Definition string_map := TMap TString.
Definition urlfetch_result : stage := OptionOf [TBool; TString; TInt; string_map].
Definition urlfetch_get := mk_message "get" urlfetch_tag
  [TString; TDefault TInt "5000"; TOptional string_map; TOptional string_map; TDefault TBool "true"] Terminal urlfetch_result.
Definition urlfetch_post := mk_message "post" urlfetch_tag
  [TString; TString; TDefault TInt "5000"; TOptional string_map; TOptional string_map; TDefault TBool "true"] Terminal urlfetch_result.
Definition urlfetch_protocol : list message := [urlfetch_get; urlfetch_post].

(** [elasticsearch/include/cocaine/idl/elasticsearch.hpp] *)
Definition elasticsearch_get := mk_message "get" elasticsearch_tag [TString; TString; TString] Terminal (OptionOf [TBool; TString]).
Definition elasticsearch_index := mk_message "index" elasticsearch_tag [TString; TString; TString; TOptional TString] Terminal (OptionOf [TBool; TString]).
Definition elasticsearch_search := mk_message "search" elasticsearch_tag [TString; TString; TString; TDefault TInt "10"] Terminal (OptionOf [TBool; TInt; TString]).
Definition elasticsearch_delete := mk_message "delete" elasticsearch_tag [TString; TString; TString] Terminal (OptionOf [TBool]).
Definition elasticsearch_protocol : list message := [elasticsearch_get; elasticsearch_index; elasticsearch_search; elasticsearch_delete].

(** [elliptics/include/cocaine/services/elliptics.hpp]; the protocol extends that of the
    storages, whose messages are the server's and not in the list. *)
Definition elliptics_cache_read := mk_message "cache_read" elliptics_tag [TString; TString] Terminal (OptionOf [TString]).
Definition elliptics_cache_write := mk_message "cache_write" elliptics_tag [TString; TString; TString; TDefault TInt "0"] Terminal no_answer.
Definition elliptics_bulk_read := mk_message "bulk_read" elliptics_tag [TString; TVector TString] Terminal (OptionOf [string_map]).
Definition elliptics_read_latest := mk_message "read_latest" elliptics_tag [TString; TString] Terminal (OptionOf [TString]).
(** It is described, and left out of the list. *)
Definition elliptics_bulk_write := mk_message "bulk_write" elliptics_tag [TString; TVector TString; TVector TString] Terminal (OptionOf [TMap TInt]).
Definition elliptics_own : list message := [elliptics_cache_read; elliptics_cache_write; elliptics_bulk_read; elliptics_read_latest].

(** [echo/include/cocaine/idl/echo.hpp] *)
Definition echo_ping := mk_message "ping" echo_tag [TString] Terminal (OptionOf [TString]).
Definition echo_protocol : list message := [echo_ping].

(** The version of a protocol *)
Definition version (t : tag) : nat := match t with base_log_tag => 2 | _ => 1 end.


(** The messages of a protocol *)
Definition messages (t : tag) : list message :=
  match t with
  | app_tag => app_protocol
  | node_tag => node_protocol
  | worker_tag => worker_protocol
  | control_tag => control_protocol
  | rpc_tag => rpc_protocol
  | isolate_tag => isolate_protocol
  | isolate_spawned_tag => isolate_spawned_protocol
  | isolate_spooled_tag => isolate_spooled_protocol
  | unicorn_tag => unicorn_protocol
  | unicorn_final_tag => unicorn_final_protocol
  | base_log_tag => base_log_protocol
  | named_log_tag => named_log_protocol
  | cache_tag => cache_protocol
  | chrono_tag => chrono_protocol
  | metrics_tag => metrics_protocol
  | graphite_tag => graphite_protocol
  | unicat_tag => unicat_protocol
  | uniresis_tag => uniresis_protocol
  | vicodyn_tag => vicodyn_protocol
  | urlfetch_tag => urlfetch_protocol
  | elasticsearch_tag => elasticsearch_protocol
  | elliptics_tag => elliptics_own
  | echo_tag => echo_protocol
  end.

(** ** Walks *)

(** What is sent: a message of a protocol by its name, or one of a stream or of an option *)
Inductive stream_message := Chunk | Error | Choke.
Inductive option_message := Value | OptionError.
#[export] Instance stream_message_eq_dec : EqDecision stream_message.
Proof. solve_decision. Defined.
#[export] Instance option_message_eq_dec : EqDecision option_message.
Proof. solve_decision. Defined.
Inductive label := Message (name : string) | OfStream (m : stream_message) | OfOption (m : option_message).
#[export] Instance label_eq_dec : EqDecision label.
Proof. solve_decision. Defined.

(** The server's streams: a chunk leaves the stream as it is, an error and a choke end it,
    as anything ends an option. *)
Class Streams := {
  stream_next : list ty -> stream_message -> option stage;
  option_next : list ty -> option_message -> option stage;
  chunk_continues l : stream_next l Chunk = Some (StreamOf l);
  error_ends l : stream_next l Error = Some Terminal;
  choke_ends l : stream_next l Choke = Some Terminal;
  value_ends l : option_next l Value = Some Terminal;
  option_error_ends l : option_next l OptionError = Some Terminal
}.
Create Rewrite HintDb streams.
#[export] Hint Rewrite @chunk_continues @error_ends @choke_ends @value_ends @option_error_ends : streams.

Definition find_message (t : tag) (name : string) : option message :=
  find (fun m => String.eqb (alias m) name) (messages t).

Section Walks.
Context `{Streams}.

Definition next (s : stage) (m : label) : option stage :=
  match s, m with
  | Speaks t, Message name => dispatch_type <$> find_message t name
  | StreamOf l, OfStream m => stream_next l m
  | OptionOf l, OfOption m => option_next l m
  | _, _ => None
  end.

(** [None] when a message is not one that the channel accepts *)
Fixpoint walk (s : stage) (l : list label) : option stage :=
  match l with
  | [] => Some s
  | m :: l => match next s m with Some s => walk s l | None => None end
  end.

Lemma walk_app s l l' : walk s (l ++ l') = match walk s l with Some s => walk s l' | None => None end.
Proof. revert s. induction l as [|m l IH]; intros s; simpl; [done|]. by destruct (next s m). Qed.

(** Nothing is accepted once a channel has ended. *)
Lemma terminal_walk l s : walk Terminal l = Some s -> l = [] /\ s = Terminal.
Proof. destruct l; simpl; [by intros [= <-]|done]. Qed.

Lemma find_message_in t name m : find_message t name = Some m -> m ∈ messages t.
Proof. intros [E _]%find_some. by apply list_elem_of_In. Qed.

(** A set of protocols that every message leads back to is never left. *)
Lemma closed_walk (P : tag -> Prop) :
  (forall t m, P t -> m ∈ messages t -> exists t', dispatch_type m = Speaks t' /\ P t') ->
  forall l t s, P t -> walk (Speaks t) l = Some s -> exists t', s = Speaks t' /\ P t'.
Proof.
  intros HP. induction l as [|[name|?|?] l IH]; intros t s Ht; simpl.
  - intros [= <-]. eauto.
  - destruct (find_message t name) as [m|] eqn:F; simpl; [|done].
    destruct (HP t m Ht (find_message_in _ _ _ F)) as (t' & -> & Ht'). by apply IH.
  - done.
  - done.
Qed.
End Walks.

(** The protocols that no message leaves *)
Definition endless : list tag := [worker_tag; control_tag; named_log_tag].

Lemma endless_closed t m : t ∈ endless -> m ∈ messages t -> exists t', dispatch_type m = Speaks t' /\ t' ∈ endless.
Proof.
  intros Ht. revert m. apply Forall_forall. unfold endless in Ht.
  rewrite !elem_of_cons in Ht. destruct Ht as [->|[->|[->|Ht]]]; [..|by apply not_elem_of_nil in Ht];
    repeat constructor; eexists; (split; [reflexivity|unfold endless; set_solver]).
Qed.

(** Membership in a closed list of tags *)
Ltac decide_in := refine (bool_decide_unpack _ _); vm_compute; exact I.

(** A way to end a channel of each of the others *)
Definition way_out (t : tag) : list label :=
  match t with
  | app_tag => [Message "info"]
  | node_tag => [Message "list"]
  | rpc_tag => [Message "invoke"; OfStream Chunk; OfStream Choke]
  | isolate_tag => [Message "spawn"; Message "kill"]
  | isolate_spawned_tag => [Message "kill"]
  | isolate_spooled_tag => [Message "cancel"]
  | unicorn_tag => [Message "lock"; Message "close"]
  | unicorn_final_tag => [Message "close"]
  | base_log_tag => [Message "emit"]
  | cache_tag => [Message "put"]
  | chrono_tag => [Message "cancel"]
  | metrics_tag => [Message "fetch"]
  | graphite_tag => [Message "send_one"]
  | unicat_tag => [Message "grant"]
  | uniresis_tag => [Message "uuid"]
  | vicodyn_tag => [Message "info"]
  | urlfetch_tag | elasticsearch_tag => [Message "get"]
  | elliptics_tag => [Message "cache_read"]
  | echo_tag => [Message "ping"]
  | worker_tag | control_tag | named_log_tag => []
  end.

(** ** The dispatches *)

Record dispatch_class := mk_class { class_name : string; serves : stage; registered : list label }.
Definition stream_labels : list label := [OfStream Chunk; OfStream Error; OfStream Choke].
Definition option_labels : list label := [OfOption Value; OfOption OptionError].
Definition names (l : list message) : list label := (fun m => Message (alias m)) <$> l.

(** [node/src] *)
Definition node_classes : list dispatch_class := [
  mk_class "node_t" (Speaks node_tag)
    (names [node_start_app; node_pause_app; node_list; node_info; node_control_app; node_enqueue]);
  mk_class "node_t::control_slot_t::controlling_slot_t" (StreamOf [TInt]) stream_labels;
  mk_class "node_t::enqueue/empty" (StreamOf [TString]) [OfStream Error; OfStream Chunk; OfStream Choke];
  mk_class "app_dispatch_t" (Speaks app_tag) (names [app_enqueue; app_info; app_control]);
  mk_class "app_t::control_slot_t::controlling_slot_t" (StreamOf [TInt]) [OfStream Chunk];
  mk_class "handshaking_t" (Speaks worker_tag) (names [worker_handshake]);
  mk_class "slave::control_t" (Speaks control_tag) (names [worker_heartbeat; worker_terminate]);
  mk_class "client_rpc_dispatch_t" (StreamOf [TString]) stream_labels;
  mk_class "worker_rpc_dispatch_t" (StreamOf [TString]) stream_labels;
  mk_class "external_t::spool_dispatch_t" (upstream_type isolate_spool) option_labels;
  mk_class "external_t::spawn_dispatch_t" (upstream_type isolate_spawn) [OfStream Chunk; OfStream Choke; OfStream Error];
  mk_class "external_t::metrics_dispatch_t" (upstream_type isolate_metrics) option_labels].

(** The other plugins *)
Definition plugin_classes : list dispatch_class := [
  mk_class "unicorn_service_t" (Speaks unicorn_tag)
    (names [unicorn_subscribe; unicorn_children_subscribe; unicorn_put; unicorn_get; unicorn_create; unicorn_del;
            unicorn_remove; unicorn_increment; unicorn_lock; unicorn_named_lock]);
  mk_class "unicorn_dispatch_t" (Speaks unicorn_final_tag) (names [unicorn_close]);
  mk_class "logging_v2_t" (Speaks base_log_tag)
    (names [log_emit; log_emit_ack; log_get; log_verbosity; log_set_verbosity; log_list_loggers; log_set_filter;
            log_set_cluster_filter; log_remove_filter; log_list_filters]);
  mk_class "named_logging_t" (Speaks named_log_tag) (names [named_emit; named_emit_ack]);
  mk_class "cache_t" (Speaks cache_tag) (names [cache_get; cache_put]);
  mk_class "chrono_t" (Speaks chrono_tag) (names [chrono_notify_after; chrono_notify_every; chrono_cancel; chrono_restart]);
  mk_class "metrics_t" (Speaks metrics_tag) (names [metrics_fetch]);
  mk_class "graphite_t" (Speaks graphite_tag) (names [graphite_send_bulk; graphite_send_one]);
  mk_class "unicat_t" (Speaks unicat_tag) (names [unicat_grant; unicat_revoke]);
  mk_class "uniresis_t" (Speaks uniresis_tag) (names [uniresis_cpu_count; uniresis_memory_count; uniresis_uuid]);
  mk_class "gateway::vicodyn_t" (Speaks vicodyn_tag) (names [vicodyn_peers; vicodyn_apps; vicodyn_info]);
  mk_class "vicodyn::proxy_t" (Speaks app_tag) (names [app_enqueue]);
  mk_class "vicodyn_dispatch_t::forward_dispatch" (StreamOf [TString]) [OfStream Chunk; OfStream Choke; OfStream Error];
  mk_class "vicodyn_dispatch_t::backward_dispatch" (StreamOf [TString]) [OfStream Chunk; OfStream Choke; OfStream Error];
  mk_class "urlfetch_t" (Speaks urlfetch_tag) (names [urlfetch_get; urlfetch_post]);
  mk_class "elasticsearch_t" (Speaks elasticsearch_tag)
    (names [elasticsearch_get; elasticsearch_index; elasticsearch_search; elasticsearch_delete]);
  mk_class "elliptics_service_t" (Speaks elliptics_tag)
    (names [elliptics_cache_read; elliptics_cache_write; elliptics_bulk_read; elliptics_read_latest]);
  mk_class "echo_t" (Speaks echo_tag) (names [echo_ping])].
Definition dispatches : list dispatch_class := node_classes ++ plugin_classes.

(** What can be sent at a stage *)
Definition labels_of (s : stage) : list label :=
  match s with
  | Speaks t => names (messages t)
  | StreamOf _ => stream_labels
  | OptionOf _ => option_labels
  | Terminal => []
  end.
Definition unserved (d : dispatch_class) : list (string * label) :=
  (fun m => (class_name d, m)) <$> filter (fun m => m ∉ registered d) (labels_of (serves d)).

(** ** Facts *)

Lemma accepted_labels `{Streams} s m : (exists s', next s m = Some s') <-> m ∈ labels_of s.
Proof.
  destruct s as [t|l|l|], m as [name|m|m]; simpl;
    try (split; [by intros [? ?]|]; intros E; exfalso; revert E;
         unfold names, stream_labels, option_labels;
         first [by intros (? & ? & ?)%list_elem_of_fmap|set_solver]).
  - split.
    + intros [s' E]. destruct (find_message t name) as [m|] eqn:F; [|done].
      apply find_some in F as [F1 F2%String.eqb_eq]. apply list_elem_of_fmap. exists m.
      split; [by rewrite F2|by apply list_elem_of_In].
    + intros (m & [= ->] & Hm)%list_elem_of_fmap. unfold find_message.
      destruct (find _ _) eqn:F; [by eexists|].
      apply list_elem_of_In in Hm. pose proof (find_none _ _ F m Hm) as N. simpl in N.
      by rewrite String.eqb_refl in N.
  - split; [intros _; destruct m; set_solver|].
    intros _. destruct m; autorewrite with streams; eauto.
  - split; [intros _; destruct m; set_solver|].
    intros _. destruct m; autorewrite with streams; eauto.
Qed.

(** What every dispatch of the repository registers is part of the protocol that it serves,
    nothing is registered twice, and all that is described is served except for the list. *)
Lemma dispatches_complete :
  Forall (fun d => NoDup (registered d) /\ registered d ⊆ labels_of (serves d)) dispatches
  /\ dispatches ≫= unserved =
     [("app_t::control_slot_t::controlling_slot_t", OfStream Error);
      ("app_t::control_slot_t::controlling_slot_t", OfStream Choke);
      ("vicodyn::proxy_t", Message "info");
      ("vicodyn::proxy_t", Message "control")].
Proof.
  split; [|by vm_compute]. apply Forall_forall. intros d.
  assert (forallb (fun d => bool_decide (NoDup (registered d)) && bool_decide (registered d ⊆ labels_of (serves d))) dispatches = true) as E
    by (by vm_compute).
  rewrite forallb_forall in E. intros Hd%list_elem_of_In%E. by apply andb_prop in Hd as [?%bool_decide_eq_true ?%bool_decide_eq_true].
Qed.

Lemma way_out_ends `{Streams} t : t ∉ endless -> walk (Speaks t) (way_out t) = Some Terminal.
Proof.
  intros Ht. destruct t; try (exfalso; apply Ht; decide_in);
    cbn; unfold find_message; simpl; repeat (autorewrite with streams; simpl); reflexivity.
Qed.

(** What a protocol that is not endless leads to *)
Lemma left_only_by_get t m :
  t ∉ endless -> m ∈ messages t ->
  match dispatch_type m with
  | Speaks t' => t' ∉ endless \/ (t = base_log_tag /\ t' = named_log_tag /\ alias m = "get")
  | _ => True
  end.
Proof.
  intros Ht. revert m. apply Forall_forall.
  destruct t; try (exfalso; apply Ht; decide_in);
    repeat first [apply Forall_nil; exact I|apply Forall_cons; split]; simpl; first [exact I|left; decide_in|by right].
Qed.

Lemma never_speaks `{Streams} l s t' :
  (forall t, s <> Speaks t) -> walk s l = Some (Speaks t') -> False.
Proof.
  revert s. induction l as [|m l IH]; intros s Hs; simpl; [intros [= ->]; by eapply Hs|].
  destruct s as [t|a|a|], m as [name|[]|[]]; simpl; try done; try (by exfalso; eapply Hs);
    autorewrite with streams; by apply IH.
Qed.

Lemma trapped_by_get `{Streams} l t t' :
  t ∉ endless -> walk (Speaks t) l = Some (Speaks t') -> t' ∈ endless ->
  t' = named_log_tag /\
  exists before after, l = before ++ Message "get" :: after /\ walk (Speaks t) before = Some (Speaks base_log_tag).
Proof.
  revert t. induction l as [|[name|?|?] l IH]; intros t Ht; simpl; [by intros [= <-]| |done|done].
  destruct (find_message t name) as [m|] eqn:F; simpl; [|done].
  pose proof (left_only_by_get t m Ht (find_message_in _ _ _ F)) as L.
  destruct (dispatch_type m) as [t1| | |] eqn:D.
  - destruct L as [L|(-> & -> & A)].
    + intros W Ht'. destruct (IH t1 L W Ht') as (-> & before & after & -> & B). split; [done|].
      exists (Message name :: before), after. split; [done|]. simpl. rewrite F. simpl. by rewrite D.
    + intros W _. apply find_some in F as [_ N%String.eqb_eq]. subst name. rewrite A.
      split; [|by exists [], l].
      destruct (closed_walk (fun t => t = named_log_tag)) with (l := l) (t := named_log_tag) (s := Speaks t')
        as (? & [= ->] & ->); [|done|done|done].
      intros ? m' -> Hm'. revert m' Hm'. apply Forall_forall. repeat constructor; by eexists.
  - intros W. by apply never_speaks in W.
  - intros W. by apply never_speaks in W.
  - intros W. by apply never_speaks in W.
Qed.

(** C31: Whatever has been sent, the messages of a channel can end it unless it speaks one of
    three protocols: that of a worker's handshake, the control protocol that the handshake
    leads to (whose messages, the one to terminate too, lead back to it), and that of a named logger.
    A channel that began with another protocol comes to none of them but that of a named
    logger, and there only by the message [get] sent while it speaks the protocol of the
    logging service. *)
Theorem channel_ends_iff `{Streams} s :
  ((exists l, walk s l = Some Terminal) <-> (forall t, s = Speaks t -> t ∉ endless))
  /\ (forall t l t', t ∉ endless -> walk (Speaks t) l = Some (Speaks t') -> t' ∈ endless ->
      t' = named_log_tag /\
      exists before after, l = before ++ Message "get" :: after /\ walk (Speaks t) before = Some (Speaks base_log_tag)).
Proof.
  split; [|intros t l t'; apply trapped_by_get]. split.
  - intros [l W] t -> Ht.
    by destruct (closed_walk (fun t => t ∈ endless) endless_closed l t Terminal Ht W) as (? & ? & _).
  - intros Hs. destruct s as [t|a|a|].
    + exists (way_out t). by apply way_out_ends, Hs.
    + exists [OfStream Choke]. simpl. by autorewrite with streams.
    + exists [OfOption Value]. simpl. by autorewrite with streams.
    + by exists [].
Qed.

(** ** The dispatches of a request *)

(** What the two dispatches of Channel.v do with a message of their stream *)
Definition worker_op (ok : bool) (m : stream_message) : Channel.worker.op :=
  match m with Chunk => Channel.worker.Chunk ok | Error => Channel.worker.Error ok | Choke => Channel.worker.Choke ok end.
Definition client_op (ok : bool) (m : stream_message) : Channel.client.op :=
  match m with Chunk => Channel.client.Write ok | Error => Channel.client.Abort ok | Choke => Channel.client.Close ok end.

Definition stage_of (closed : bool) (l : list ty) : stage := if closed then Terminal else StreamOf l.
Definition worker_closed (d : Channel.worker.dispatch_t) : bool :=
  match Channel.worker.state d with Channel.worker.closed => true | _ => false end.
Definition client_closed (d : Channel.client.dispatch_t) : bool :=
  match Channel.client.state d with Channel.client.closed => true | _ => false end.

Lemma worker_follows `{Streams} l (ms : list stream_message) s :
  walk (StreamOf l) (OfStream <$> ms) = Some s ->
  let '(cbs, d) := Channel.worker.run (worker_op true <$> ms) Channel.worker.construct in
  s = stage_of (worker_closed d) l /\ cbs = (if worker_closed d then [success] else []).
Proof.
  induction ms as [|[] ms IH]; simpl; [by intros [= <-]|..]; autorewrite with streams.
  - intros W. specialize (IH W). unfold Channel.worker.construct in IH. by destruct (Channel.worker.run _ _).
  - intros W. apply terminal_walk in W as [W ->]. destruct ms; [|done]. by simpl.
  - intros W. apply terminal_walk in W as [W ->]. destruct ms; [|done]. by simpl.
Qed.

Lemma client_follows `{Streams} l (ms : list stream_message) s :
  walk (StreamOf l) (OfStream <$> ms) = Some s ->
  let '(cbs, _, d) := Channel.client.run (Channel.client.Attach true :: (client_op true <$> ms)) Channel.client.construct in
  s = stage_of (client_closed d) l /\ cbs = (if client_closed d then [success] else []).
Proof.
  simpl. induction ms as [|[] ms IH]; simpl; [by intros [= <-]|..]; autorewrite with streams.
  - intros W. specialize (IH W). by destruct (Channel.client.run _ _) as [[? ?] ?].
  - intros W. apply terminal_walk in W as [W ->]. destruct ms; [|done]. by simpl.
  - intros W. apply terminal_walk in W as [W ->]. destruct ms; [|done]. by simpl.
Qed.

(** While the streams take what they are given, the two dispatches of a request refine the
    streams that they serve: after the messages of a walk a dispatch is closed if and only
    if the walk has ended, it has then called the slave back exactly once, without an error,
    and before that not at all. *)
Theorem dispatches_follow_streams `{Streams} m ms s :
  m ∈ [app_enqueue; rpc_invoke] ->
  walk (dispatch_type m) (OfStream <$> ms) = Some s ->
  (let '(cbs, d) := Channel.worker.run (worker_op true <$> ms) Channel.worker.construct in
   s = stage_of (worker_closed d) [TString] /\ cbs = (if worker_closed d then [success] else []))
  /\ (let '(cbs, _, d) := Channel.client.run (Channel.client.Attach true :: (client_op true <$> ms)) Channel.client.construct in
      s = stage_of (client_closed d) [TString] /\ cbs = (if client_closed d then [success] else [])).
Proof.
  intros Hm W. assert (dispatch_type m = StreamOf [TString]) as E by (by repeat (apply elem_of_cons in Hm as [->|Hm]; [done|]); apply not_elem_of_nil in Hm).
  rewrite E in W. split; [by apply worker_follows|by apply client_follows].
Qed.

(** The rules of the server's streams *)
#[export] Instance server_streams : Streams.
Proof.
  refine {| stream_next l m := match m with Chunk => Some (StreamOf l) | _ => Some Terminal end;
            option_next _ _ := Some Terminal |}; done.
Defined.

Lemma dispatches_follow_streams_witness :
  Channel.worker.run (worker_op true <$> [Chunk; Chunk; Choke]) Channel.worker.construct
  = ([success], Channel.worker.mk Channel.worker.closed).
Proof.
  assert (app_enqueue ∈ [app_enqueue; rpc_invoke]) as Hm by set_solver.
  destruct (dispatches_follow_streams (H := server_streams) app_enqueue [Chunk; Chunk; Choke] Terminal Hm eq_refl) as [_ _].
  reflexivity.
Defined.

Lemma channel_ends_witness :
  (exists l, walk (H := server_streams) (Speaks base_log_tag) l = Some Terminal)
  /\ walk (H := server_streams) (Speaks base_log_tag) [Message "get"; Message "emit"] = Some (Speaks named_log_tag).
Proof.
  split; [|reflexivity].
  destruct (channel_ends_iff (H := server_streams) (Speaks base_log_tag)) as [E _].
  apply E. intros t [= <-]. decide_in.
Defined.
