(* ===== verification/NodeConfig.v ===== *)
(** * The configuration of an application, its metrics, and the codes of the node service

    An object of the storage that is looked up in a cache first
    ([node/include/cocaine/service/node/cached.hpp]), the manifest of an application
    ([node/src/node/manifest.cpp]), the names of its metrics in the registry of the process
    ([node/src/node/stats.cpp]), and the texts of the error codes ([node/src/node/error.cpp],
    [node/src/node/slave/error.cpp]).

    The storages of the context belong to the server: what they answer is a parameter. *)

From stdpp Require Import pretty.
From S2P Require Import Prelude LogFilter Channel Dynamic.

Local Open Scope Z_scope.
Local Open Scope cpp_scope.

(** ** The texts of the codes *)

Definition node_message (ec : Z) : string :=
  match ec with
  | 1 => "invocation deadline has passed"
  | 2 => "no resources available to complete invocation"
  | 3 => "invocation has timed out"
  | 4 => "failed to assign event to a slave"
  | 5 => "application has already been started"
  | 6 => "application is not running"
  | 7 => "uncaught error while spooling app"
  | 8 => "uncaught error while publishing app"
  | _ => "unknown node error " ++ pretty ec
  end%string.

Definition overseer_message (ec : Z) : string :=
  match ec with
  | 1 => "queue is full"
  | 2 => "pool is full"
  | _ => "unexpected overseer error"
  end.

Definition slave_message (ec : Z) : string :=
  match ec with
  | 1 => "timed out while spawning"
  | 2 => "locator not found"
  | 3 => "locator endpoints set is empty"
  | 4 => "timed out while activating"
  | 5 => "unknown activate error"
  | 6 => "timed out while sealing"
  | 7 => "timed out while terminating"
  | 8 => "timed out while waiting for heartbeat"
  | 9 => "invalid state"
  | 10 => "unexpected control IPC error"
  | 11 => "overseer is shutting down"
  | 12 => "slave has committed suicide"
  | 13 => "slave is idle"
  | 14 => "slave is sealing"
  | _ => "unexpected slave error"
  end.

(** ** [cached<T>] *)

Inductive sources := cache | storage.

Section cached.
Context {W T E : Type}.
(** [api::storage(context, name)], which throws when it is not configured; [get] and [put]
    of a storage *)
Context (storage_of : W -> string -> outcome E unit).
Context (get : W -> string -> string -> string -> outcome E T).
Context (put : string -> string -> string -> T -> W -> W).
(** Whether an exception is a [std::system_error] *)
Context (is_system : E -> bool).

Definition download (collection name : string) : ST W E (T * sources) :=
  let! w := st_get in
  match storage_of w "core" with
  | Throw e => st_throw e
  | Ret _ => match get w "core" collection name with
             | Ret x => st_ret (x, storage)
             | Throw e => st_throw e
             end
  end.

(** The result of the write to the cache is not waited for. *)
Definition cached_construct (collection name : string) : ST W E (T * sources) :=
  let! w := st_get in
  match storage_of w "cache" with
  | Throw e => if is_system e then download collection name else st_throw e
  | Ret _ =>
      match get w "cache" collection name with
      | Ret x => st_ret (x, cache)
      | Throw e =>
          if is_system e then
            let! x := download collection name in
            st_modify (put "cache" collection name x.1) ;;;
            st_ret x
          else st_throw e
      end
  end.
End cached.

(** ** [manifest_t] *)

Record manifest_t := mk_manifest {
  m_name : string;
  endpoint : string;
  environment : list (string * string);
  executable : string
}.

Inductive manifest_error := environment_not_a_map | no_runnable_object | bad_get.

(** [to<std::map<std::string, std::string>>] *)
Definition strings_of (m : list (string * dynamic_t)) : option (list (string * string)) :=
  all_of (fun x => (fun s => (x.1, s)) <$> as_string x.2) m.

(** The object is that of the storage or the cache; [runtime] is the directory of the
    sockets, [pid] the number of the process. *)
Definition manifest_construct (runtime : string) (pid : Z) (name : string) (object : dynamic_t)
  : outcome manifest_error manifest_t :=
  let endpoint := (runtime ++ "/" ++ name ++ "." ++ pretty pid)%string in
  outcome_bind
    (access environment_not_a_map
       (as_object object ≫= fun m => as_object (field "environment" (DObject []) m) ≫= strings_of))
    (fun env =>
  outcome_bind (access bad_get (as_object object)) (fun m =>
    match find_field "slave" m with
    | Some v => outcome_bind (access bad_get (as_string v)) (fun s => Ret (mk_manifest name endpoint env s))
    | None => Throw no_runnable_object
    end)).

(** ** [stats_t] *)

Inductive metric_kind := Counter | Meter | GaugeDouble | Timer.
#[export] Instance metric_kind_eq_dec : EqDecision metric_kind.
Proof. solve_decision. Defined.
#[export] Instance metric_kind_countable : Countable metric_kind.
Proof.
  refine (inj_countable' (fun k => match k with Counter => 0 | Meter => 1 | GaugeDouble => 2 | Timer => 3 end)%nat
            (fun n => match n with 0 => Counter | 1 => Meter | 2 => GaugeDouble | _ => Timer end)%nat _).
  by intros [].
Defined.

(** The registry of the process: metrics by kind and name.  Asking for one that is there
    gives that one. *)
Abbreviation registry_t := (gset (metric_kind * string)).

Definition stats_names (name : string) : list (metric_kind * string) :=
  [(Counter, name ++ ".requests.accepted"); (Counter, name ++ ".requests.rejected");
   (Counter, name ++ ".slaves.spawned"); (Counter, name ++ ".slaves.crashed");
   (Meter, name ++ ".rate"); (GaugeDouble, name ++ ".queue.depth_average"); (Timer, name ++ ".timings")]%string.

Definition stats_construct (name : string) (hub : registry_t) : registry_t := list_to_set (stats_names name) ∪ hub.
Definition deregister (name : string) (hub : registry_t) : registry_t := hub ∖ list_to_set (stats_names name).

(** ** Facts *)

(** The text of a declared code names it: two of them never share their texts, nor has
    any of them that of an unknown code. *)
Definition texts_distinct (message : Z -> string) (last : nat) : bool :=
  bool_decide (NoDup ((fun n => message (Z.of_nat n)) <$> seq 0 (S (S last)))).

Lemma messages_distinct :
  texts_distinct node_message 8 = true /\
  bool_decide (NoDup (overseer_message <$> [1; 2; 3])) = true /\
  bool_decide (NoDup ((fun n => slave_message (Z.of_nat n)) <$> seq 1 15)) = true.
Proof. vm_compute. done. Qed.

Section cached_facts.
Context {W T E : Type}.
Context (storage_of : W -> string -> outcome E unit).
Context (get : W -> string -> string -> string -> outcome E T).
Context (put : string -> string -> string -> T -> W -> W).
Context (is_system : E -> bool).
Abbreviation cached := (cached_construct storage_of get put is_system).

(** What the object is on every branch: the cache's, if the cache has one; otherwise the
    core storage's, which is then written to the cache if there is one.  An error of the
    cache that is not a [std::system_error], and every error of the core storage, goes to
    the caller, and nothing has been written. *)
Theorem cached_construct_spec (collection name : string) (w : W) :
  let '(r, w') := cached collection name w in
  match storage_of w "cache", get w "cache" collection name with
  | Ret _, Ret x => r = Ret (x, cache) /\ w' = w
  | Ret _, Throw e =>
      if is_system e then
        match storage_of w "core", get w "core" collection name with
        | Ret _, Ret x => r = Ret (x, storage) /\ w' = put "cache" collection name x w
        | Throw e, _ | Ret _, Throw e => r = Throw e /\ w' = w
        end
      else r = Throw e /\ w' = w
  | Throw e, _ =>
      if is_system e then
        match storage_of w "core", get w "core" collection name with
        | Ret _, Ret x => r = Ret (x, storage) /\ w' = w
        | Throw e, _ | Ret _, Throw e => r = Throw e /\ w' = w
        end
      else r = Throw e /\ w' = w
  end.
Proof.
  unfold cached_construct, download, st_bind, st_get, st_modify, st_ret, st_throw.
  repeat (break_match; simplify_eq/=); done.
Qed.

(** Once read, an object is never read from the core storage again while the cache keeps
    it: whatever is stored there later, the next application gets what the first one got. *)
Theorem cached_is_stale (collection name : string) (w w' w'' : W) (x : T) (src : sources) :
  (forall y v, get (put "cache" collection name y v) "cache" collection name = Ret y) ->
  is_Some (match storage_of w "cache" with Ret u => Some u | Throw _ => None end) ->
  cached collection name w = (Ret (x, src), w') ->
  storage_of w'' "cache" = Ret tt -> get w'' "cache" collection name = get w' "cache" collection name ->
  cached collection name w'' = (Ret (x, cache), w'').
Proof.
  intros Hput Hc Hw Hc' Hg. pose proof (cached_construct_spec collection name w) as H. rewrite Hw in H.
  destruct (storage_of w "cache") as [[]|e]; [|by destruct Hc].
  assert (get w' "cache" collection name = Ret x) as Hx.
  { destruct (get w "cache" collection name) as [y|e] eqn:Ey; [by destruct H as [[= -> ->] ->]|].
    destruct (is_system e); [|by destruct H]. destruct (storage_of w "core"); [|by destruct H].
    destruct (get w "core" collection name) as [y|]; [|by destruct H]. destruct H as [[= -> ->] ->]. apply Hput. }
  pose proof (cached_construct_spec collection name w'') as H'. destruct (cached collection name w'') as [r v].
  rewrite Hc', Hg, Hx in H'. by destruct H' as [-> ->].
Qed.
End cached_facts.

Lemma strings_of_Some vars env : strings_of vars = Some env <-> vars = (fun x => (x.1, DString x.2)) <$> env.
Proof.
  unfold strings_of. rewrite all_of_Some. split.
  - induction 1 as [|[k v] [k' s] vars env Hx _ IH]; [done|]. simpl in *. destruct v; by simplify_eq/=.
  - intros ->. induction env as [|[k s] env IH]; simpl; by constructor.
Qed.

(** A manifest is accepted exactly when it is an object with a string to run, and every
    variable of its environment is a string; its socket is named after the application
    and the process. *)
Theorem manifest_construct_spec (runtime : string) (pid : Z) (name : string) (object : dynamic_t) (m : manifest_t) :
  manifest_construct runtime pid name object = Ret m <->
  exists fields exe env,
    object = DObject fields /\
    field "environment" (DObject []) fields = DObject ((fun x => (x.1, DString x.2)) <$> env) /\
    find_field "slave" fields = Some (DString exe) /\
    m = mk_manifest name (runtime ++ "/" ++ name ++ "." ++ pretty pid)%string env exe.
Proof.
  unfold manifest_construct. split.
  - destruct object as [| | | | | | |fields]; simpl; try done. intros H.
    destruct (field "environment" (DObject []) fields) as [| | | | | | |vars] eqn:Ev; simpl in H; try done.
    destruct (strings_of vars) as [env|] eqn:Es; [|done]. apply strings_of_Some in Es as ->.
    simpl in H. destruct (find_field "slave" fields) as [[| | | | |exe| |]|] eqn:Ex; simpl in H; try done. injection H as <-.
    by exists fields, exe, env.
  - intros (fields & exe & env & -> & Ev & Ex & ->). simpl. rewrite Ev. simpl.
    rewrite (proj2 (strings_of_Some _ env)) by done. simpl. by rewrite Ex.
Qed.

(** The metrics of an application that is started again before its former overseer is gone
    are removed by the end of the former: its names are those of the new one. *)
Theorem restart_loses_metrics (name : string) (hub : registry_t) :
  let hub' := deregister name (stats_construct name (stats_construct name hub)) in
  (forall x, x ∈ stats_names name -> x ∉ hub') /\ (forall x, x ∉ stats_names name -> x ∈ hub' <-> x ∈ hub).
Proof. unfold deregister, stats_construct. split; intros x; set_solver. Qed.

(** ** Witnesses *)

(** Two storages, both working *)
Definition example_storages : gmap (string * string) string := {[("core", "app") := "v1"]}.
Definition example_get (w : gmap (string * string) string) (s c n : string) : outcome Z string :=
  match w !! (s, n) with Some x => Ret x | None => Throw 2 end.
Definition example_put (s c n x : string) (w : gmap (string * string) string) := <[(s, n) := x]> w.

Lemma cached_is_stale_witness :
  cached_construct (fun _ _ => Ret tt) example_get example_put (fun _ => true) "manifests" "app"
    (<[("core", "app") := "v2"]> (<[("cache", "app") := "v1"]> example_storages))
  = (Ret ("v1", cache), <[("core", "app") := "v2"]> (<[("cache", "app") := "v1"]> example_storages)).
Proof.
  eapply (cached_is_stale (fun _ _ => Ret tt) example_get example_put (fun _ => true) "manifests" "app" example_storages
           (<[("cache", "app") := "v1"]> example_storages) _ "v1" storage).
  - intros y v. unfold example_get, example_put. by rewrite lookup_insert_eq.
  - by eexists.
  - reflexivity.
  - reflexivity.
  - reflexivity.
Defined.
