(* ===== verification/Machine.v ===== *)
(** * The slave state machine

    [node/src/node/slave/machine.cpp], the states under [slave/state/], the
    control dispatch [slave/control.cpp], the spawn handle
    [slave/spawn_handle.cpp] and the owner [slave.cpp].

    States, controls, client dispatches and channels are shared objects, so the
    model is a store of them: a state that is left behind keeps its (moved-from)
    fields and can still be reached by a timer or a spawn handle.  The event loop
    is the list of posted handlers, run in any order; each handler runs
    atomically.  What the surroundings decide (whether a write throws, what the
    isolate or the authentication service answers, when a timer expires, when an
    unreferenced state is destroyed) is carried by the events.  Logging and
    metrics are left out. *)

From Stdlib Require Import Ascii.
From S2P Require Import Prelude Profile Splitter Channel.

Local Open Scope Z_scope.
Local Open Scope cpp_scope.

(** ** Errors *)

(** [error::slave_errors] *)
Definition slave_error (v : Z) : error_code := mk_ec slave_category v.
Definition spawn_timeout := slave_error 1.
Definition locator_not_found := slave_error 2.
Definition empty_locator_endpoints := slave_error 3.
Definition activate_timeout := slave_error 4.
Definition unknown_activate_error := slave_error 5.
Definition seal_timeout := slave_error 6.
Definition teminate_timeout := slave_error 7.
Definition heartbeat_timeout := slave_error 8.
Definition invalid_state := slave_error 9.
Definition conrol_ipc_error := slave_error 10.
Definition overseer_shutdowning := slave_error 11.
Definition committed_suicide := slave_error 12.
Definition slave_idle := slave_error 13.
Definition slave_is_sealing := slave_error 14.

Definition broken_pipe : error_code := mk_ec system_category 32.

(** A C++ exception, or the end of the process: a null or dangling pointer, or a
    failed [BOOST_ASSERT]. *)
Inductive failure := system_error (ec : error_code) | crash.

(** ** Data *)

(** The states.  [session] and [handle] say whether the pointer is set, [control]
    is the address of the control dispatch. *)
Inductive state_obj :=
| Preparation
| Spawn (handle session : bool) (control : option Z) (handshaking : option Z)
| Handshaking (handle : bool)
| Active (handle session : bool) (control : option Z)
| Seal (handle session : bool) (control : option Z)
| Terminate (handle session : bool) (control : option Z)
| Inactive (ec : error_code).

Inductive task :=
| TPreparationStart (a : Z)
| TRefresh (a : Z) (ec : error_code)
| TPreparationTerminate (a : Z)
| TShutdown (ec : error_code)
| TClose (id : Z)
| TCleanup (ec : error_code)
| TStateTimeout (a : Z)
| TControlTimeout (c : Z)
| TChannelTimeout (id : Z).
#[export] Instance task_eq_dec : EqDecision task.
Proof. solve_decision. Defined.

(** A client dispatch with the channel its stored callback closes, and a channel
    with its worker dispatch and the address of its client dispatch. *)
Record client_obj := mk_client { c2w : client.dispatch_t; target : Z }.
Record chan_obj := mk_chan { ch : channel.channel_t; w2c : worker.dispatch_t; into_worker : Z }.

Record machine_t := mk_machine {
  objects : gmap Z state_obj;  (** the state objects, by address *)
  cur : Z;  (** the pointer [state] *)
  controls : gmap Z bool;  (** the [closed] flag of each control dispatch *)
  clients : gmap Z client_obj;  (** the client dispatches of the loads *)
  chans : gmap Z chan_obj;  (** the channel objects *)
  live : gset Z;  (** the keys of [data.channels] *)
  timers : gset Z;  (** the keys of [data.timers] *)
  armed : gset (nat * Z);  (** timers with a pending wait *)
  counter : Z;
  closed_ : bool;
  shutdowned : bool;
  loop : list task;  (** handlers posted to the event loop *)
  spawning : gset Z;  (** spawn states a spawn handle still points to *)
  token_wait : option Z;  (** the preparation state waiting for a token *)
  connected : bool;  (** writes to the control stream succeed *)
  sent : list (Z * error_code);  (** [terminate] messages sent to the worker *)
  cleaned : list error_code;  (** calls of the cleanup handler *)
  handled : list Z;  (** calls of the channel handlers *)
  out : @output_t ascii;  (** [splitter] and [lines] *)
  dumped : list (list (list Ascii.ascii));  (** crash logs written to the storage *)
  fresh_ : Z  (** the next unused address *)
}.

Definition set_objects (x : gmap Z state_obj) (m : machine_t) : machine_t :=
  mk_machine x (cur m) (controls m) (clients m) (chans m) (live m) (timers m) (armed m)
    (counter m) (closed_ m) (shutdowned m) (loop m) (spawning m) (token_wait m)
    (connected m) (sent m) (cleaned m) (handled m) (out m) (dumped m) (fresh_ m).
Definition set_cur (x : Z) (m : machine_t) : machine_t :=
  mk_machine (objects m) x (controls m) (clients m) (chans m) (live m) (timers m) (armed m)
    (counter m) (closed_ m) (shutdowned m) (loop m) (spawning m) (token_wait m)
    (connected m) (sent m) (cleaned m) (handled m) (out m) (dumped m) (fresh_ m).
Definition set_controls (x : gmap Z bool) (m : machine_t) : machine_t :=
  mk_machine (objects m) (cur m) x (clients m) (chans m) (live m) (timers m) (armed m)
    (counter m) (closed_ m) (shutdowned m) (loop m) (spawning m) (token_wait m)
    (connected m) (sent m) (cleaned m) (handled m) (out m) (dumped m) (fresh_ m).
Definition set_clients (x : gmap Z client_obj) (m : machine_t) : machine_t :=
  mk_machine (objects m) (cur m) (controls m) x (chans m) (live m) (timers m) (armed m)
    (counter m) (closed_ m) (shutdowned m) (loop m) (spawning m) (token_wait m)
    (connected m) (sent m) (cleaned m) (handled m) (out m) (dumped m) (fresh_ m).
Definition set_chans (x : gmap Z chan_obj) (m : machine_t) : machine_t :=
  mk_machine (objects m) (cur m) (controls m) (clients m) x (live m) (timers m) (armed m)
    (counter m) (closed_ m) (shutdowned m) (loop m) (spawning m) (token_wait m)
    (connected m) (sent m) (cleaned m) (handled m) (out m) (dumped m) (fresh_ m).
Definition set_live (x : gset Z) (m : machine_t) : machine_t :=
  mk_machine (objects m) (cur m) (controls m) (clients m) (chans m) x (timers m) (armed m)
    (counter m) (closed_ m) (shutdowned m) (loop m) (spawning m) (token_wait m)
    (connected m) (sent m) (cleaned m) (handled m) (out m) (dumped m) (fresh_ m).
Definition set_timers (x : gset Z) (m : machine_t) : machine_t :=
  mk_machine (objects m) (cur m) (controls m) (clients m) (chans m) (live m) x (armed m)
    (counter m) (closed_ m) (shutdowned m) (loop m) (spawning m) (token_wait m)
    (connected m) (sent m) (cleaned m) (handled m) (out m) (dumped m) (fresh_ m).
Definition set_armed (x : gset (nat * Z)) (m : machine_t) : machine_t :=
  mk_machine (objects m) (cur m) (controls m) (clients m) (chans m) (live m) (timers m) x
    (counter m) (closed_ m) (shutdowned m) (loop m) (spawning m) (token_wait m)
    (connected m) (sent m) (cleaned m) (handled m) (out m) (dumped m) (fresh_ m).
Definition set_counter (x : Z) (m : machine_t) : machine_t :=
  mk_machine (objects m) (cur m) (controls m) (clients m) (chans m) (live m) (timers m)
    (armed m) x (closed_ m) (shutdowned m) (loop m) (spawning m) (token_wait m) (connected m)
    (sent m) (cleaned m) (handled m) (out m) (dumped m) (fresh_ m).
Definition set_closed_ (x : bool) (m : machine_t) : machine_t :=
  mk_machine (objects m) (cur m) (controls m) (clients m) (chans m) (live m) (timers m)
    (armed m) (counter m) x (shutdowned m) (loop m) (spawning m) (token_wait m) (connected m)
    (sent m) (cleaned m) (handled m) (out m) (dumped m) (fresh_ m).
Definition set_shutdowned (x : bool) (m : machine_t) : machine_t :=
  mk_machine (objects m) (cur m) (controls m) (clients m) (chans m) (live m) (timers m)
    (armed m) (counter m) (closed_ m) x (loop m) (spawning m) (token_wait m) (connected m) (sent m)
    (cleaned m) (handled m) (out m) (dumped m) (fresh_ m).
Definition set_loop (x : list task) (m : machine_t) : machine_t :=
  mk_machine (objects m) (cur m) (controls m) (clients m) (chans m) (live m) (timers m)
    (armed m) (counter m) (closed_ m) (shutdowned m) x (spawning m) (token_wait m) (connected m)
    (sent m) (cleaned m) (handled m) (out m) (dumped m) (fresh_ m).
Definition set_spawning (x : gset Z) (m : machine_t) : machine_t :=
  mk_machine (objects m) (cur m) (controls m) (clients m) (chans m) (live m) (timers m)
    (armed m) (counter m) (closed_ m) (shutdowned m) (loop m) x (token_wait m) (connected m)
    (sent m) (cleaned m) (handled m) (out m) (dumped m) (fresh_ m).
Definition set_token_wait (x : option Z) (m : machine_t) : machine_t :=
  mk_machine (objects m) (cur m) (controls m) (clients m) (chans m) (live m) (timers m)
    (armed m) (counter m) (closed_ m) (shutdowned m) (loop m) (spawning m) x (connected m) (sent m)
    (cleaned m) (handled m) (out m) (dumped m) (fresh_ m).
Definition set_connected (x : bool) (m : machine_t) : machine_t :=
  mk_machine (objects m) (cur m) (controls m) (clients m) (chans m) (live m) (timers m)
    (armed m) (counter m) (closed_ m) (shutdowned m) (loop m) (spawning m) (token_wait m) x
    (sent m) (cleaned m) (handled m) (out m) (dumped m) (fresh_ m).
Definition set_sent (x : list (Z * error_code)) (m : machine_t) : machine_t :=
  mk_machine (objects m) (cur m) (controls m) (clients m) (chans m) (live m) (timers m)
    (armed m) (counter m) (closed_ m) (shutdowned m) (loop m) (spawning m) (token_wait m)
    (connected m) x (cleaned m) (handled m) (out m) (dumped m) (fresh_ m).
Definition set_cleaned (x : list error_code) (m : machine_t) : machine_t :=
  mk_machine (objects m) (cur m) (controls m) (clients m) (chans m) (live m) (timers m)
    (armed m) (counter m) (closed_ m) (shutdowned m) (loop m) (spawning m) (token_wait m)
    (connected m) (sent m) x (handled m) (out m) (dumped m) (fresh_ m).
Definition set_handled (x : list Z) (m : machine_t) : machine_t :=
  mk_machine (objects m) (cur m) (controls m) (clients m) (chans m) (live m) (timers m)
    (armed m) (counter m) (closed_ m) (shutdowned m) (loop m) (spawning m) (token_wait m)
    (connected m) (sent m) (cleaned m) x (out m) (dumped m) (fresh_ m).
Definition set_out (x : @output_t ascii) (m : machine_t) : machine_t :=
  mk_machine (objects m) (cur m) (controls m) (clients m) (chans m) (live m) (timers m)
    (armed m) (counter m) (closed_ m) (shutdowned m) (loop m) (spawning m) (token_wait m)
    (connected m) (sent m) (cleaned m) (handled m) x (dumped m) (fresh_ m).
Definition set_dumped (x : list (list (list Ascii.ascii))) (m : machine_t) : machine_t :=
  mk_machine (objects m) (cur m) (controls m) (clients m) (chans m) (live m) (timers m)
    (armed m) (counter m) (closed_ m) (shutdowned m) (loop m) (spawning m) (token_wait m)
    (connected m) (sent m) (cleaned m) (handled m) (out m) x (fresh_ m).
Definition set_fresh_ (x : Z) (m : machine_t) : machine_t :=
  mk_machine (objects m) (cur m) (controls m) (clients m) (chans m) (live m) (timers m)
    (armed m) (counter m) (closed_ m) (shutdowned m) (loop m) (spawning m) (token_wait m)
    (connected m) (sent m) (cleaned m) (handled m) (out m) (dumped m) x.


Abbreviation M := (ST machine_t failure).

(** ** Primitive accesses *)

Definition throw {A} (ec : error_code) : M A := st_throw (system_error ec).
Definition die {A} : M A := st_throw crash.
(** [BOOST_ASSERT] *)
Definition assert (b : bool) : M unit := if b then st_ret tt else die.
(** [try { m } catch (const std::exception&) { h }] *)
Definition try_catch {A} (m : M A) (h : error_code -> M A) : M A :=
  st_catch m (fun f => match f with system_error ec => h ec | crash => die end).

Definition post (t : task) : M unit := st_modify (fun m => set_loop (loop m ++ [t]) m).

Definition state_timer (a : Z) : nat * Z := (0%nat, a).
Definition control_timer (c : Z) : nat * Z := (1%nat, c).
Definition channel_timer (id : Z) : nat * Z := (2%nat, id).
(** [expires_from_now] and [async_wait] *)
Definition arm (t : nat * Z) : M unit := st_modify (fun m => set_armed ({[t]} ∪ armed m) m).
(** [timer.cancel()]: whether a wait was cancelled.  Its handler is then called
    with an error and does nothing. *)
Definition timer_cancel (t : nat * Z) : M bool :=
  fun m => (Ret (bool_decide (t ∈ armed m)), set_armed (armed m ∖ {[t]}) m).

Definition object_at (a : Z) : M state_obj :=
  let! m := st_get in
  match objects m !! a with Some o => st_ret o | None => die end.
Definition current : M (Z * state_obj) :=
  let! m := st_get in
  match objects m !! cur m with Some o => st_ret (cur m, o) | None => die end.
Definition store_object (a : Z) (o : state_obj) : M unit :=
  st_modify (fun m => set_objects (<[a := o]> (objects m)) m).
(** [std::make_shared] *)
Definition make_state (o : state_obj) : M Z :=
  fun m => (Ret (fresh_ m), set_fresh_ (fresh_ m + 1) (set_objects (<[fresh_ m := o]> (objects m)) m)).
Definition make_control : M Z :=
  fun m => (Ret (fresh_ m), set_fresh_ (fresh_ m + 1) (set_controls (<[fresh_ m := false]> (controls m)) m)).

(** ** The states' observers *)

Definition is_active (o : state_obj) : bool := match o with Active _ _ _ => true | _ => false end.
Definition is_sealing (o : state_obj) : bool := match o with Seal _ _ _ => true | _ => false end.
Definition is_terminating (o : state_obj) : bool := match o with Terminate _ _ _ => true | _ => false end.

Definition inactive_name (ec : error_code) : string :=
  if (value ec =? 0) || (value ec =? 12) then "closed" else "broken".
Definition name (o : state_obj) : string :=
  match o with
  | Preparation => "preparation"
  | Spawn _ _ _ _ => "spawning"
  | Handshaking _ => "handshaking"
  | Active _ _ _ => "active"
  | Seal _ _ _ => "sealing"
  | Terminate _ _ _ => "terminating"
  | Inactive ec => inactive_name ec
  end.

(** ** [machine_t::migrate] and [machine_t::shutdown] *)

Definition migrate (a : Z) : M unit := st_modify (set_cur a).

(** The states' [cancel]; the timers' exceptions are eaten. *)
Definition spawn_cancel (a : Z) : M unit := let! _ := timer_cancel (state_timer a) in st_ret tt.
Definition handshaking_cancel (a : Z) : M unit := let! _ := timer_cancel (state_timer a) in st_ret tt.
Definition seal_cancel (a : Z) : M unit := let! _ := timer_cancel (state_timer a) in st_ret tt.
Definition terminate_cancel (a : Z) : M unit := let! _ := timer_cancel (state_timer a) in st_ret tt.

(** [state->cancel()]: the other states keep [state_t::cancel], which does nothing. *)
Definition state_cancel (a : Z) (o : state_obj) : M unit :=
  match o with
  | Spawn _ _ _ _ => spawn_cancel a
  | Handshaking _ => handshaking_cancel a
  | Seal _ _ _ => seal_cancel a
  | Terminate _ _ _ => terminate_cancel a
  | Preparation | Active _ _ _ | Inactive _ => st_ret tt
  end.

(** [machine_t::dump]: what is written to the storage; nothing for a silent slave. *)
Definition dump_crashlog : M unit :=
  st_modify (fun m => match dump (out m) with
                      | [] => m
                      | text => set_dumped (dumped m ++ [text]) m
                      end).

(** [data.timers] is cleared: the timers are destroyed with their waits. *)
Definition clear_timers : M unit :=
  st_modify (fun m => set_timers ∅ (set_armed (armed m ∖ set_map channel_timer (timers m)) m)).

(** Every channel is posted a [close_both] and [data.channels] is cleared. *)
Definition clear_channels : M unit :=
  st_modify (fun m => set_live ∅ (set_loop (loop m ++ (TClose <$> elements (live m))) m)).

Definition shutdown (ec : error_code) : M unit :=
  let! done := st_gets shutdowned in
  st_modify (set_shutdowned true) ;;;
  if (done : bool) then st_ret tt else
  let! state := current in
  state_cancel state.1 state.2 ;;;
  let ec := if is_terminating state.2 then success else ec in
  let! target := make_state (Inactive ec) in
  migrate target ;;;
  st_when (is_error ec && negb (bool_decide (ec = overseer_shutdowning))) dump_crashlog ;;;
  clear_timers ;;;
  clear_channels ;;;
  let! closed := st_gets closed_ in
  if (closed : bool) then st_ret tt else post (TCleanup ec).

(** ** The control dispatch *)

Definition control_start (starts : bool) (c : Z) : M unit :=
  if starts then arm (control_timer c) else throw broken_pipe.

Definition control_cancel (c : Z) : M unit :=
  st_modify (fun m => set_controls (<[c := true]> (controls m)) m) ;;;
  let! _ := timer_cancel (control_timer c) in st_ret tt.

Definition control_terminate (c : option Z) (ec : error_code) : M unit :=
  match c with
  | None => die
  | Some c =>
      assert (is_error ec) ;;;
      let! ok := st_gets connected in
      if (ok : bool) then st_modify (fun m => set_sent (sent m ++ [(c, ec)]) m)
      else shutdown conrol_ipc_error
  end.

Definition control_closed (c : Z) (m : machine_t) : bool := default true (controls m !! c).

Definition control_discard (c : Z) (ec : error_code) : M unit :=
  let! closed := st_gets (control_closed c) in
  st_when (is_error ec && negb closed) (shutdown conrol_ipc_error).

Definition on_heartbeat (c : Z) : M unit :=
  let! closed := st_gets (control_closed c) in
  st_when (negb closed) (arm (control_timer c)).

Definition on_terminate : M unit := shutdown committed_suicide.
Definition control_on_timeout : M unit := shutdown heartbeat_timeout.

(** ** The states' operations *)

(** [terminate_t::start] *)
Definition terminate_start (a : Z) (ec : error_code) : M unit :=
  arm (state_timer a) ;;;
  let! o := object_at a in
  match o with
  | Terminate _ _ control => control_terminate control ec
  | _ => die
  end.

(** The pointers are moved into a new terminating state. *)
Definition go_terminating (handle session : bool) (control : option Z) (ec : error_code) : M unit :=
  let! terminating := make_state (Terminate handle session control) in
  migrate terminating ;;;
  terminate_start terminating ec.

Definition seal_terminate (a : Z) (ec : error_code) : M unit :=
  let! o := object_at a in
  match o with
  | Seal handle session control =>
      seal_cancel a ;;;
      store_object a (Seal false false None) ;;;
      go_terminating handle session control ec
  | _ => die
  end.

Definition preparation_terminate (ec : error_code) : M unit := shutdown ec.
Definition spawn_terminate (a : Z) (ec : error_code) : M unit := spawn_cancel a ;;; shutdown ec.
Definition handshaking_terminate (a : Z) (ec : error_code) : M unit := handshaking_cancel a ;;; shutdown ec.
Definition terminate_terminate (a : Z) (ec : error_code) : M unit := terminate_cancel a ;;; shutdown ec.

Definition active_terminate (a : Z) (handle session : bool) (control : option Z) (ec : error_code) : M unit :=
  store_object a (Active false false None) ;;;
  go_terminating handle session control ec.

(** [state->terminate(ec)] *)
Definition state_terminate (a : Z) (ec : error_code) : M unit :=
  let! o := object_at a in
  match o with
  | Preparation => preparation_terminate ec
  | Spawn _ _ _ _ => spawn_terminate a ec
  | Handshaking _ => handshaking_terminate a ec
  | Terminate _ _ _ => terminate_terminate a ec
  | Active handle session control => active_terminate a handle session control ec
  | Seal _ _ _ => seal_terminate a ec
  | Inactive _ => st_ret tt
  end.

Definition seal_start (a : Z) : M unit :=
  let! channels := st_gets live in
  if bool_decide (channels = ∅) then seal_terminate a slave_is_sealing
  else arm (state_timer a).

Definition active_seal (a : Z) (handle session : bool) (control : option Z) : M unit :=
  store_object a (Active false false None) ;;;
  let! sealing := make_state (Seal handle session control) in
  migrate sealing ;;;
  seal_start sealing.

(** [state->seal()] *)
Definition state_seal (a : Z) : M unit :=
  let! o := object_at a in
  match o with
  | Active handle session control => active_seal a handle session control
  | _ => throw invalid_state
  end.

(** [handshaking_t::activate] with a control dispatch: the constructor of
    [active_t] starts its timer. *)
Definition handshaking_activate (a : Z) (session : bool) (control : Z) (starts : bool) : M unit :=
  let! o := object_at a in
  match o with
  | Handshaking handle =>
      store_object a (Handshaking false) ;;;
      control_start starts control ;;;
      let! active := make_state (Active handle session (Some control)) in
      migrate active
  | _ => die
  end.

(** [handshaking_t::activate] with a session and a stream.  [timer_ok] is false
    when cancelling the timer gives an error. *)
Definition handshaking_accept (a : Z) (timer_ok starts : bool) : M (option Z) :=
  let! cancelled := timer_cancel (state_timer a) in
  if negb timer_ok || negb cancelled then st_ret None else
  try_catch
    (let! control := make_control in
     handshaking_activate a true control starts ;;;
     st_ret (Some control))
    (fun _ => shutdown unknown_activate_error ;;; st_ret None).

Definition spawn_activate (a : Z) (timer_ok starts : bool) : M (option Z) :=
  let! o := object_at a in
  match o with
  | Spawn _ _ _ (Some handshaking) => handshaking_accept handshaking timer_ok starts
  | Spawn handle _ _ None =>
      let! control := make_control in
      store_object a (Spawn handle true (Some control) None) ;;;
      st_ret (Some control)
  | _ => die
  end.

Definition state_activate (a : Z) (timer_ok starts : bool) : M (option Z) :=
  let! o := object_at a in
  match o with
  | Spawn _ _ _ _ => spawn_activate a timer_ok starts
  | Handshaking _ => handshaking_accept a timer_ok starts
  | _ => throw invalid_state
  end.

(** [spawn_t::on_spawn] *)
Definition on_spawn (a : Z) (timer_ok starts : bool) : M unit :=
  let! cancelled := timer_cancel (state_timer a) in
  if negb timer_ok || negb cancelled then st_ret tt else
  try_catch
    (let! o := object_at a in
     match o with
     | Spawn handle session control _ =>
         let! handshaking := make_state (Handshaking handle) in
         store_object a (Spawn false session control (Some handshaking)) ;;;
         migrate handshaking ;;;
         match control with
         | Some control =>
             store_object a (Spawn false false None (Some handshaking)) ;;;
             handshaking_activate handshaking session control starts
         | None => arm (state_timer handshaking)
         end
     | _ => die
     end)
    (fun _ => post (TShutdown unknown_activate_error)).

(** What [spawn_t::spawn] meets. *)
Inductive spawn_result :=
| LocatorNotFound | NoEndpoints
| IsolateNotFound (ec : error_code) | SpawnFailed (ec : error_code) | Spawned.

Definition spawn_spawn (a : Z) (r : spawn_result) : M unit :=
  match r with
  | LocatorNotFound => shutdown locator_not_found
  | NoEndpoints => shutdown empty_locator_endpoints
  | IsolateNotFound ec => post (TShutdown ec)
  | SpawnFailed ec => arm (state_timer a) ;;; post (TShutdown ec)
  | Spawned =>
      arm (state_timer a) ;;;
      st_modify (fun m => set_spawning ({[a]} ∪ spawning m) m) ;;;
      let! o := object_at a in
      match o with
      | Spawn _ session control handshaking => store_object a (Spawn true session control handshaking)
      | _ => die
      end
  end.

(** [preparation_t::start]; [token_ok] is false when the request throws. *)
Definition preparation_start (a : Z) (token_ok : bool) : M unit :=
  if token_ok then st_modify (set_token_wait (Some a)) else post (TPreparationTerminate a).

(** The members of the state are read: it must still exist. *)
Definition on_token (ec : error_code) : M unit :=
  let! waiting := st_gets token_wait in
  match waiting with
  | None => st_ret tt
  | Some a => st_modify (set_token_wait None) ;;; object_at a ;;; post (TRefresh a ec)
  end.

Definition on_refresh (a : Z) (ec : error_code) (r : spawn_result) : M unit :=
  object_at a ;;;
  if is_error ec then shutdown ec else
  let! spawning := make_state (Spawn false false None None) in
  migrate spawning ;;;
  spawn_spawn spawning r.

(** The states' [on_timeout] without an error; with one they only log. *)
Definition spawn_on_timeout : M unit := shutdown spawn_timeout.
Definition handshaking_on_timeout : M unit := shutdown activate_timeout.
Definition seal_on_timeout (a : Z) : M unit := seal_terminate a seal_timeout.
Definition terminate_on_timeout : M unit := shutdown teminate_timeout.

Definition state_on_timeout (a : Z) : M unit :=
  let! o := object_at a in
  match o with
  | Spawn _ _ _ _ => spawn_on_timeout
  | Handshaking _ => handshaking_on_timeout
  | Seal _ _ _ => seal_on_timeout a
  | Terminate _ _ _ => terminate_on_timeout
  | Preparation | Active _ _ _ | Inactive _ => st_ret tt
  end.

(** The destructors; [terminate_t] does not check its pointers. *)
Definition spawn_destroy (control : option Z) : M unit :=
  match control with Some control => control_cancel control | None => st_ret tt end.
Definition active_destroy (control : option Z) : M unit :=
  match control with Some control => control_cancel control | None => st_ret tt end.
Definition terminate_destroy (session : bool) (control : option Z) : M unit :=
  match control with
  | Some control => control_cancel control ;;; if session then st_ret tt else die
  | None => die
  end.

Definition state_destroy (a : Z) : M unit :=
  let! o := object_at a in
  st_modify (fun m => set_objects (delete a (objects m)) m) ;;;
  match o with
  | Spawn _ _ control _ => spawn_destroy control
  | Active _ _ control => active_destroy control
  | Terminate _ session control => terminate_destroy session control
  | _ => st_ret tt
  end.

(** ** Channels *)

(** [machine_t::revoke] *)
Definition revoke (id : Z) : M unit :=
  st_modify (fun m => set_live (live m ∖ {[id]}) m) ;;;
  st_modify (fun m => set_timers (timers m ∖ {[id]}) (set_armed (armed m ∖ {[channel_timer id]}) m)) ;;;
  let! state := current in
  let! channels := st_gets live in
  st_when (is_sealing state.2 && bool_decide (channels = ∅))
    (state_terminate state.1 slave_is_sealing) ;;;
  st_modify (fun m => set_handled (handled m ++ [id]) m).

Definition chan_at (id : Z) : M chan_obj :=
  let! m := st_get in
  match chans m !! id with Some c => st_ret c | None => die end.
Definition store_chan (id : Z) (c : chan_obj) : M unit :=
  st_modify (fun m => set_chans (<[id := c]> (chans m)) m).

(** A channel operation; its callback is [revoke]. *)
Definition channel_do (op : channel.op) (id : Z) : M unit :=
  let! c := chan_at id in
  let '(notify, ch') := channel.step op (ch c) in
  store_chan id (mk_chan ch' (w2c c) (into_worker c)) ;;;
  st_when notify (revoke id).

(** The callbacks of the dispatches, bound in [inject]. *)
Definition on_send_closed (id : Z) (ec : error_code) : M unit :=
  channel_do (if is_error ec then channel.CloseBoth else channel.CloseSend) id.
Definition on_recv_closed (id : Z) (ec : error_code) : M unit :=
  channel_do (if is_error ec then channel.CloseBoth else channel.CloseRecv) id.

Definition worker_do (op : worker.op) (id : Z) : M unit :=
  let! c := chan_at id in
  let '(callback, d) := worker.step op (w2c c) in
  store_chan id (mk_chan (ch c) d (into_worker c)) ;;;
  match callback with Some ec => on_recv_closed id ec | None => st_ret tt end.

Definition client_at (p : Z) : M client_obj :=
  let! m := st_get in
  match clients m !! p with Some c => st_ret c | None => die end.
Definition store_client (p : Z) (c : client_obj) : M unit :=
  st_modify (fun m => set_clients (<[p := c]> (clients m)) m).

(** A client operation other than [attach]: it calls the stored callback. *)
Definition client_do (op : client.op) (p : Z) : M unit :=
  let! c := client_at p in
  let '(r, d) := client.step op (c2w c) in
  store_client p (mk_client d (target c)) ;;;
  match r with
  | Ret (Some ec) => on_send_closed (target c) ec
  | Ret None => st_ret tt
  | Throw client.stream_error => throw broken_pipe
  | Throw client.assertion_failed => die
  end.

(** [attach] stores the callback, or calls it at once when the dispatch is closed. *)
Definition client_attach (attach_ok : bool) (p id : Z) : M unit :=
  let! c := client_at p in
  let '(r, d) := client.attach attach_ok (c2w c) in
  match r with
  | Ret (Some ec) => store_client p (mk_client d (target c)) ;;; on_send_closed id ec
  | Ret None => store_client p (mk_client d id)
  | Throw client.stream_error => throw broken_pipe
  | Throw client.assertion_failed => die
  end.

(** ** [machine_t::inject] *)

Record load_t := mk_load {
  dispatch : Z;
  birthstamp : Z;                  (** nanoseconds *)
  request_timeout_header : option Z
}.

Record inject_env := mk_env { now : Z; fork_ok : bool; send_ok : bool; attach_ok : bool }.

Section profile.
Context (profile : profile_t).

(** Milliseconds left to the request, in the 64-bit arithmetic of [std::chrono]. *)
Definition duration (load : load_t) (now : Z) : Z :=
  let timeout := default (request_timeout profile) (request_timeout_header load) in
  Z.quot (i64 (birthstamp load + 1000000 * i64 timeout - now)) 1000000.

Definition bump_counter : M Z :=
  fun m => let id := u64 (counter m + 1) in (Ret id, set_counter id m).

Definition active_inject (session fork_ok : bool) : M unit :=
  if session then if fork_ok then st_ret tt else throw broken_pipe else die.

(** [state->inject(dispatch)] *)
Definition state_inject (fork_ok : bool) : M unit :=
  let! state := current in
  match state.2 with
  | Active _ session _ => active_inject session fork_ok
  | _ => throw invalid_state
  end.

Definition insert_channel (id : Z) : M unit :=
  st_modify (fun m => set_live ({[id]} ∪ live m) m).
Definition insert_timer (id : Z) : M unit :=
  st_modify (fun m => set_timers ({[id]} ∪ timers m) m).

Definition timed_out (p id : Z) : M unit :=
  client_do (client.Discard timeout_error) p ;;;
  worker_do (worker.Discard timeout_error) id.

Definition inject (load : load_t) (e : inject_env) : M Z :=
  let! id := bump_counter in
  state_inject (fork_ok e) ;;;
  store_chan id (mk_chan (channel.construct id (birthstamp load)) worker.construct (dispatch load)) ;;;
  (if send_ok e then st_ret tt else throw broken_pipe) ;;;
  let! c := chan_at id in
  store_chan id (mk_chan (channel.attach_dispatches (ch c)) (w2c c) (into_worker c)) ;;;
  insert_channel id ;;;
  (if duration load (now e) <=? 0 then timed_out (dispatch load) id
   else insert_timer id ;;; arm (channel_timer id)) ;;;
  client_attach (attach_ok e) (dispatch load) id ;;;
  channel_do channel.Watch id ;;;
  st_ret id.

(** ** The other operations of [machine_t] *)

Definition start : M unit :=
  let! preparation := make_state Preparation in
  migrate preparation ;;;
  post (TPreparationStart preparation).

Definition active (m : machine_t) : bool :=
  match objects m !! cur m with Some o => is_active o | None => false end.
Definition load (m : machine_t) : nat := size (live m).

Definition activate (timer_ok starts : bool) : M (option Z) :=
  let! state := current in
  state_activate state.1 timer_ok starts.

Definition seal : M unit := let! state := current in state_seal state.1.

Definition terminate (ec : error_code) : M unit :=
  assert (is_error ec) ;;;
  let! was := st_gets closed_ in
  st_modify (set_closed_ true) ;;;
  if (was : bool) then st_ret tt else
  let! state := current in
  state_terminate state.1 ec.

Definition machine_output (data : list ascii) : M unit :=
  st_modify (fun m => set_out (output (Z.to_nat (crashlog_limit profile)) data (out m)) m).

(** [machine_t::stats] *)
Record stats_t := mk_stats {
  state_ : string; tx : nat; rx : nat; load_ : nat; total : Z; age : option Z
}.

Fixpoint min_element (l : list Z) : option Z :=
  match l with
  | [] => None
  | x :: l => Some (match min_element l with Some y => if y <? x then y else x | None => x end)
  end.

Definition stats : M stats_t :=
  let! state := current in
  let! m := st_get in
  let cs := omap (fun id => chans m !! id) (elements (live m)) in
  st_ret (mk_stats (name state.2)
            (length (filter (fun c => channel.send_closed (ch c) = true) cs))
            (length (filter (fun c => channel.recv_closed (ch c) = true) cs))
            (size (live m)) (u64 (counter m - 1))
            (min_element ((fun c => channel.birthstamp_ (ch c)) <$> cs))).

(** ** The spawn handle *)

(** [on_ready] uses its pointer to the spawn state and then drops it. *)
Definition handle_on_ready (a : Z) (timer_ok starts : bool) : M unit :=
  let! m := st_get in
  (if bool_decide (a ∈ spawning m) then on_spawn a timer_ok starts else die) ;;;
  st_modify (fun m => set_spawning (spawning m ∖ {[a]}) m).

Definition handle_on_terminate (a : Z) (ec : error_code) : M unit :=
  st_modify (fun m => set_spawning (spawning m ∖ {[a]}) m) ;;;
  shutdown ec.

(** ** Events *)

Definition run_task (t : task) (token_ok : bool) (r : spawn_result) : M unit :=
  match t with
  | TPreparationStart a => preparation_start a token_ok
  | TRefresh a ec => on_refresh a ec r
  | TPreparationTerminate a => object_at a ;;; shutdown unknown_activate_error
  | TShutdown ec => shutdown ec
  | TClose id => channel_do channel.CloseBoth id
  | TCleanup ec => st_modify (fun m => set_cleaned (cleaned m ++ [ec]) m)
  | TStateTimeout a => state_on_timeout a
  | TControlTimeout _ => control_on_timeout
  | TChannelTimeout id => let! c := chan_at id in timed_out (into_worker c) id
  end.

(** The pointers to the state [a]: [machine_t::state], a pending or expired wait,
    a posted start, a spawn handle, a spawn state. *)
Definition points_to (a : Z) (o : state_obj) : bool :=
  match o with Spawn _ _ _ (Some k) => bool_decide (k = a) | _ => false end.
Definition referenced (a : Z) (m : machine_t) : bool :=
  bool_decide (a = cur m) || bool_decide (state_timer a ∈ armed m) ||
  bool_decide (TStateTimeout a ∈ loop m) || bool_decide (TPreparationStart a ∈ loop m) ||
  bool_decide (a ∈ spawning m) ||
  existsb (fun e => points_to a e.2) (map_to_list (objects m)).

Inductive event :=
| Enqueued (p : Z)                                       (** a client dispatch is created *)
| Inject (load : load_t) (e : inject_env)
| Activate (timer_ok starts : bool)
| SealIt
| TerminateIt (ec : error_code)
| Token (ec : error_code)
| Ready (a : Z) (timer_ok starts : bool)
| Exited (a : Z) (ec : error_code)
| Output (data : list ascii)
| Heartbeat (c : Z)
| Suicide (c : Z)
| ControlDiscarded (c : Z) (ec : error_code)
| FromClient (op : client.op) (p : Z)
| FromWorker (op : worker.op) (id : Z)
| Connection (ok : bool)
| Expire (t : nat * Z)
| Run (i : nat) (token_ok : bool) (r : spawn_result)
| Destroy (a : Z).

Definition expired_task (t : nat * Z) : option task :=
  match t with
  | (0%nat, a) => Some (TStateTimeout a)
  | (1%nat, c) => Some (TControlTimeout c)
  | (2%nat, id) => Some (TChannelTimeout id)
  | _ => None
  end.

Definition step (ev : event) : M unit :=
  match ev with
  | Enqueued p => let! m := st_get in
      match clients m !! p with
      | Some _ => st_ret tt
      | None => store_client p (mk_client client.construct 0)
      end
  | Inject load e => let! _ := inject load e in st_ret tt
  | Activate timer_ok starts => let! _ := activate timer_ok starts in st_ret tt
  | SealIt => seal
  | TerminateIt ec => terminate ec
  | Token ec => on_token ec
  | Ready a timer_ok starts => handle_on_ready a timer_ok starts
  | Exited a ec => handle_on_terminate a ec
  | Output data => machine_output data
  | Heartbeat c => on_heartbeat c
  | Suicide _ => on_terminate
  | ControlDiscarded c ec => control_discard c ec
  | FromClient (client.Attach _) _ => st_ret tt            (* only [inject] attaches *)
  | FromClient op p => client_do op p
  | FromWorker op id => worker_do op id
  | Connection ok => st_modify (set_connected ok)
  | Expire t => let! m := st_get in
      match expired_task t with
      | Some task => st_when (bool_decide (t ∈ armed m))
                       (let! _ := timer_cancel t in post task)
      | None => st_ret tt
      end
  | Run i token_ok r => let! m := st_get in
      match loop m !! i with
      | Some t => st_modify (fun m => set_loop (delete i (loop m)) m) ;;; run_task t token_ok r
      | None => st_ret tt
      end
  | Destroy a => let! m := st_get in
      st_when (bool_decide (is_Some (objects m !! a)) && negb (referenced a m)) (state_destroy a)
  end.

(** A run goes on after an exception and ends at a crash. *)
Fixpoint run (evs : list event) (m : machine_t) : outcome unit machine_t :=
  match evs with
  | [] => Ret m
  | ev :: evs =>
      match step ev m with
      | (Throw crash, _) => Throw tt
      | (_, m) => run evs m
      end
  end.

Definition empty_machine : machine_t :=
  mk_machine ∅ 0 ∅ ∅ ∅ ∅ ∅ ∅ 1 false false [] ∅ None true [] [] []
    (mk_output (mk_splitter "010"%char []) []) [] 1.

(** The constructor followed by [start]. *)
Definition started : machine_t := (start empty_machine).2.
End profile.

(** ** The owner, [slave_t]

    The machine pointer is empty when the slave has been moved away. *)
Record slave_t := mk_slave { slave_ec : error_code; machine : option machine_t }.

Definition slave_construct : slave_t := mk_slave overseer_shutdowning (Some started).
Definition slave_terminate (ec : error_code) (s : slave_t) : slave_t := mk_slave ec (machine s).
(** [~slave_t] *)
Definition slave_destroy (s : slave_t) : outcome failure unit * option machine_t :=
  match machine s with
  | Some m => let '(r, m) := terminate (slave_ec s) m in (r, Some m)
  | None => (Ret tt, None)
  end.
