(* ===== verification/MachineFacts.v ===== *)
(** * Theorems about the slave state machine

    An invariant of the store of states and channels, preserved by every handler,
    from which the safety of the machine follows: no handler meets a null or a
    destroyed object, the cleanup handler is called at most once, a sealing slave
    always waits for some channel.  The theorems assume fair runs, which leave out the
    races shown in [MachineBehaviour.v]. *)

From Stdlib Require Import Ascii.
From S2P Require Import Prelude Profile Splitter Channel Machine.

Local Open Scope Z_scope.
Local Open Scope cpp_scope.

(** ** Weakest preconditions

    [wp m Q s]: from [s], [m] does not crash; [Q] holds of the result ([None] for
    an exception) and the state it leaves. *)

Definition wp {A} (m : M A) (Q : option A -> machine_t -> Prop) (s : machine_t) : Prop :=
  match m s with
  | (Ret a, s') => Q (Some a) s'
  | (Throw (system_error _), s') => Q None s'
  | (Throw crash, _) => False
  end.

Lemma wp_bind {A B} (m : M A) (k : A -> M B) (Q : option B -> machine_t -> Prop) s :
  wp m (fun r s' => match r with Some a => wp (k a) Q s' | None => Q None s' end) s ->
  wp (st_bind m k) Q s.
Proof. unfold wp, st_bind. by destruct (m s) as [[a|[ec|]] s']. Qed.

Lemma wp_mono {A} (m : M A) (Q Q' : option A -> machine_t -> Prop) s :
  wp m Q s -> (forall r s', Q r s' -> Q' r s') -> wp m Q' s.
Proof. unfold wp. destruct (m s) as [[a|[ec|]] s']; auto. Qed.

Lemma wp_modify f (Q : option unit -> machine_t -> Prop) s : Q (Some tt) (f s) -> wp (st_modify f) Q s.
Proof. done. Qed.

Lemma wp_try {A} (m : M A) h (Q : option A -> machine_t -> Prop) s :
  wp m (fun r s' => match r with
                    | Some a => Q (Some a) s'
                    | None => forall ec, wp (h ec) Q s'
                    end) s ->
  wp (try_catch m h) Q s.
Proof. unfold wp, try_catch, st_catch. destruct (m s) as [[a|[ec|]] s']; try done. intros H. apply H. Qed.

(** ** The invariant *)

(** A store of states: pointers lead to states of the right kind. *)
Definition obj_ok (objs : gmap Z state_obj) (o : state_obj) : Prop :=
  match o with
  | Spawn _ session control handshaking =>
      (is_Some control -> session = true) /\
      (forall k, handshaking = Some k -> exists h, objs !! k = Some (Handshaking h))
  | Terminate _ session control => session = true /\ is_Some control
  | _ => True
  end.

(** Moving out of a state keeps its kind. *)
Definition same_kind (o o' : state_obj) : Prop :=
  match o, o' with
  | Spawn _ _ _ _, Spawn _ _ _ _ | Handshaking _, Handshaking _ | Active _ _ _, Active _ _ _
  | Seal _ _ _, Seal _ _ _ => True
  | _, _ => False
  end.

Record obj_core (m : machine_t) : Prop := {
  oc_cur : is_Some (objects m !! cur m);
  oc_fresh : forall a o, objects m !! a = Some o -> a < fresh_ m;
  oc_armed : forall a, state_timer a ∈ armed m -> is_Some (objects m !! a);
  oc_loop : forall a, TStateTimeout a ∈ loop m -> is_Some (objects m !! a);
  oc_spawning : forall a, a ∈ spawning m -> exists h s c k, objects m !! a = Some (Spawn h s c k);
  oc_obj : forall a o, objects m !! a = Some o -> obj_ok (objects m) o
}.

(** A channel that has been closed and watched has been revoked. *)
Definition quiet (c : channel.channel_t) : Prop := channel.closed c && channel.watched c = false.

Record chan_core (m : machine_t) : Prop := {
  cc_live : forall id, id ∈ live m -> exists c, chans m !! id = Some c /\ quiet (ch c);
  cc_timers : timers m ⊆ live m;
  cc_armed : forall id, channel_timer id ∈ armed m -> id ∈ timers m;
  cc_close : forall id, TClose id ∈ loop m -> is_Some (chans m !! id);
  cc_timeout : forall id, TChannelTimeout id ∈ loop m -> is_Some (chans m !! id);
  cc_into : forall id c, chans m !! id = Some c -> is_Some (clients m !! into_worker c);
  cc_bound : forall p c, clients m !! p = Some c -> client.state (c2w c) = client.bound ->
                         is_Some (chans m !! target c)
}.

Definition is_cleanup (t : task) : Prop := match t with TCleanup _ => True | _ => False end.
#[export] Instance is_cleanup_dec t : Decision (is_cleanup t).
Proof. destruct t; simpl; apply _. Defined.

(** Cleanup calls, made or posted. *)
Definition cleanups (m : machine_t) : nat := (length (filter is_cleanup (loop m)) + length (cleaned m))%nat.
Definition clean_core (m : machine_t) : Prop := (cleanups m <= if shutdowned m then 1 else 0)%nat.

(** The current state holds what its operations use. *)
Definition head_ok (m : machine_t) : Prop :=
  match objects m !! cur m with
  | Some (Active _ session control) => session = true /\ is_Some control
  | Some (Seal _ session control) => session = true /\ is_Some control /\ live m <> ∅
  | Some (Inactive _) => shutdowned m = true
  | _ => True
  end.

Record Inv (m : machine_t) : Prop := {
  inv_obj : obj_core m;
  inv_chan : chan_core m;
  inv_clean : clean_core m;
  inv_head : head_ok m
}.

(** The invariant without its last clause, which a state breaks while it is entered. *)
Definition Core (m : machine_t) : Prop := obj_core m /\ chan_core m /\ clean_core m.
Lemma Inv_Core m : Inv m -> Core m.
Proof. by intros []. Qed.
Lemma Core_armed x m : x ⊆ armed m -> Core m -> Core (set_armed x m).
Proof. intros Hx ([] & [] & Hc). split; [|split]; [split|split|]; simpl; auto. Qed.

(** What every handler but [inject] does to the stores: channels and dispatches
    stay, an unbound dispatch is not bound, and no channel is added. *)
Record grow (s s' : machine_t) : Prop := {
  gr_chans : forall id, is_Some (chans s !! id) -> is_Some (chans s' !! id);
  gr_clients : forall p c, clients s !! p = Some c ->
      exists c', clients s' !! p = Some c' /\
        (client.state (c2w c) <> client.bound -> client.state (c2w c') <> client.bound);
  gr_live : live s' ⊆ live s
}.

#[export] Instance grow_preorder : PreOrder grow.
Proof.
  split.
  - intros s. split; [done| |done]. intros p c Hc. by exists c.
  - intros s1 s2 s3 [H1 H2 H3] [H4 H5 H6]. split; [naive_solver| |set_solver].
    intros p c Hc. destruct (H2 p c Hc) as (c1 & Hc1 & Hb1).
    destruct (H5 p c1 Hc1) as (c2 & Hc2 & Hb2). exists c2. naive_solver.
Qed.

(** [safe m]: from a good state [m] does not crash and leaves a good state. *)
Definition ends {A} (s : machine_t) (_ : option A) (s' : machine_t) : Prop := Inv s' /\ grow s s'.
Definition safe {A} (m : M A) : Prop := forall s, Inv s -> wp m (ends s) s.

Lemma ends_trans {A B} (s s1 s2 : machine_t) (r : option A) (r' : option B) :
  grow s s1 -> ends s1 r s2 -> ends s r' s2.
Proof. intros H1 [HI H2]. split; [done|]. by transitivity s1. Qed.

Lemma safe_bind {A B} (m : M A) (k : A -> M B) :
  safe m -> (forall a, safe (k a)) -> safe (st_bind m k).
Proof.
  intros Hm Hk s Hs. apply wp_bind. eapply wp_mono; [by apply Hm|].
  intros [a|] s1 [HI Hg]; [|done]. eapply wp_mono; [by apply Hk|].
  intros r s2. by apply ends_trans.
Qed.

Lemma safe_ret {A} (a : A) : safe (st_ret a).
Proof. intros s Hs. by split. Qed.
Lemma safe_throw {A} ec : safe (@throw A ec).
Proof. intros s Hs. by split. Qed.
Lemma safe_gets {A} (f : machine_t -> A) : safe (st_gets f).
Proof. intros s Hs. by split. Qed.
Lemma safe_get : safe st_get.
Proof. intros s Hs. by split. Qed.
Lemma safe_when (b : bool) m : safe m -> safe (st_when b m).
Proof. intros Hm. destruct b; [done|apply safe_ret]. Qed.
Lemma safe_modify f : (forall s, Inv s -> Inv (f s) /\ grow s (f s)) -> safe (st_modify f).
Proof. intros Hf s Hs. by apply Hf. Qed.

Create HintDb safe.
#[export] Hint Resolve safe_ret safe_throw safe_gets safe_get : safe.
Ltac safe_walk :=
  repeat match goal with
  | |- safe (st_bind _ _) => apply safe_bind; [| intros ?]
  | |- safe (st_when _ _) => apply safe_when
  | |- safe (match ?x with _ => _ end) => destruct x eqn:?
  | |- safe _ => solve [eauto with safe]
  end.

(** ** Writes *)

(** A write that drops pointers only. *)
Lemma Inv_frame s s' :
  objects s' = objects s -> cur s' = cur s -> fresh_ s' = fresh_ s ->
  chans s' = chans s -> clients s' = clients s -> live s' = live s -> timers s' = timers s ->
  armed s' ⊆ armed s -> spawning s' ⊆ spawning s -> (forall t, t ∈ loop s' -> t ∈ loop s) ->
  (cleanups s' <= cleanups s)%nat -> (shutdowned s = true -> shutdowned s' = true) ->
  Inv s -> Inv s' /\ grow s s'.
Proof.
  intros Eo Ec Ef Eh El Ev Et Ha Hs Hl Hc Hd [[] [] Hclean Hh].
  repeat split; rewrite ?Eo, ?Ec, ?Ef, ?Eh, ?El, ?Ev, ?Et; auto.
  - unfold clean_core in *. destruct (shutdowned s); [rewrite Hd by done; lia|].
    destruct (shutdowned s'); lia.
  - unfold head_ok in *. rewrite Eo, Ec, Ev. by repeat case_match; auto.
  - intros p c Hp. by exists c.
Qed.

Ltac frame := apply Inv_frame; auto; try done; try set_solver.

Lemma safe_cancel t : safe (timer_cancel t).
Proof. intros s Hs. unfold wp, timer_cancel; simpl. frame. Qed.

Lemma Inv_arm t s :
  (forall a, t = state_timer a -> is_Some (objects s !! a)) ->
  (forall id, t = channel_timer id -> id ∈ timers s) ->
  Inv s -> Inv (set_armed ({[t]} ∪ armed s) s) /\ grow s (set_armed ({[t]} ∪ armed s) s).
Proof.
  intros Ht Hc [[] [] Hclean Hh]. split; [|by split; simpl; eauto].
  split; [split|split|done|done]; simpl; auto.
  - intros a Ha. apply elem_of_union in Ha as [Ha|Ha]; [|auto].
    apply elem_of_singleton in Ha. by apply Ht.
  - intros id Ha. apply elem_of_union in Ha as [Ha|Ha]; [|auto].
    apply elem_of_singleton in Ha. by apply Hc.
Qed.

Lemma safe_arm_control c : safe (arm (control_timer c)).
Proof. apply safe_modify. intros s Hs. by apply Inv_arm. Qed.

(** What a posted handler will look up. *)
Definition task_ok (t : task) (s : machine_t) : Prop :=
  match t with
  | TStateTimeout a => is_Some (objects s !! a)
  | TClose id | TChannelTimeout id => is_Some (chans s !! id)
  | TCleanup _ => False
  | _ => True
  end.

Lemma Inv_post_all ts s :
  Forall (fun t => task_ok t s) ts -> Inv s ->
  Inv (set_loop (loop s ++ ts) s) /\ grow s (set_loop (loop s ++ ts) s).
Proof.
  intros Ht [[] [] Hclean Hh]. rewrite Forall_forall in Ht.
  split; [|by split; simpl; eauto].
  split; [split|split| |done]; simpl; auto.
  1-3: intros a Ha; apply elem_of_app in Ha as [Ha|Ha]; [by auto|exact (Ht _ Ha)].
  unfold clean_core, cleanups in *; simpl. rewrite filter_app, length_app.
  replace (filter is_cleanup ts) with (@nil task); [simpl; lia|].
  clear -Ht. induction ts as [|t ts IH]; [done|]. rewrite filter_cons.
  destruct t; simpl; try (apply IH; intros ??; apply Ht; by right).
  exfalso. apply (Ht (TCleanup ec)). by left.
Qed.

Lemma safe_post t : (forall s, Inv s -> task_ok t s) -> safe (post t).
Proof. intros Ht. apply safe_modify. intros s Hs. apply Inv_post_all; [|done]. constructor; auto. Qed.

(** ** Entering a state *)

(** The current pointer moves to a new object. *)
Definition made (new : state_obj) (s : machine_t) : machine_t :=
  set_cur (fresh_ s) (set_fresh_ (fresh_ s + 1) (set_objects (<[fresh_ s := new]> (objects s)) s)).

Lemma fresh_None s : obj_core s -> objects s !! fresh_ s = None.
Proof.
  intros Hs. destruct (objects s !! fresh_ s) as [o|] eqn:E; [|done].
  apply (oc_fresh s Hs) in E. lia.
Qed.

(** Changing an object to one of its kind. *)
Lemma obj_ok_store objs a old moved o :
  objs !! a = Some old -> (same_kind old moved \/ old = moved) ->
  obj_ok objs o -> obj_ok (<[a := moved]> objs) o.
Proof.
  intros Ha Hk. destruct o; simpl; try done. intros [Hc Hh]. split; [done|].
  intros k Hs. destruct (Hh k Hs) as [h Hk']. destruct (decide (a = k)) as [->|].
  - rewrite lookup_insert_eq. rewrite Ha in Hk'. simplify_eq.
    destruct Hk as [Hk| <-]; [|by exists h]. destruct moved; simpl in Hk; try done. by eexists.
  - rewrite lookup_insert_ne by done. by exists h.
Qed.

Lemma obj_ok_fresh objs f new o :
  objs !! f = None -> obj_ok objs o -> obj_ok (<[f := new]> objs) o.
Proof.
  intros Hf. destruct o; simpl; try done. intros [Hc Hh]. split; [done|].
  intros k Hs. destruct (Hh k Hs) as [h Hk]. exists h.
  rewrite lookup_insert_ne; [done|]. intros ->. congruence.
Qed.

Lemma obj_core_store a old moved s :
  obj_core s -> objects s !! a = Some old -> same_kind old moved ->
  obj_ok (<[a := moved]> (objects s)) moved ->
  obj_core (set_objects (<[a := moved]> (objects s)) s).
Proof.
  intros [] Ha Hk Hm.
  assert (forall b, is_Some (objects s !! b) -> is_Some (<[a := moved]> (objects s) !! b)) as Hd.
  { intros b Hb. destruct (decide (a = b)) as [->|]; [by rewrite lookup_insert_eq|].
    by rewrite lookup_insert_ne. }
  split; simpl; auto.
  - intros b o Hb. destruct (decide (a = b)) as [->|]; [by eauto|].
    rewrite lookup_insert_ne in Hb by done. eauto.
  - intros b Hb. destruct (oc_spawning0 b Hb) as (h & se & c & k & E).
    destruct (decide (a = b)) as [->|]; [|rewrite lookup_insert_ne by done; eauto].
    rewrite lookup_insert_eq. rewrite Ha in E. simplify_eq.
    destruct moved; simpl in Hk; try done. eauto 10.
  - intros b o Hb. destruct (decide (a = b)) as [->|].
    + rewrite lookup_insert_eq in Hb. by simplify_eq.
    + rewrite lookup_insert_ne in Hb by done. eapply obj_ok_store; eauto.
Qed.

Lemma obj_core_made new s :
  obj_core s -> obj_ok (objects s) new -> obj_core (made new s).
Proof.
  intros Hs Hn. pose proof (fresh_None s Hs) as Hf. destruct Hs.
  assert (forall b o, objects s !! b = Some o -> <[fresh_ s := new]> (objects s) !! b = Some o) as Hd.
  { intros b o Hb. rewrite lookup_insert_ne; [done|]. intros <-. congruence. }
  split; simpl.
  - by rewrite lookup_insert_eq.
  - intros b o Hb. destruct (decide (fresh_ s = b)) as [->|]; [lia|].
    rewrite lookup_insert_ne in Hb by done. apply oc_fresh0 in Hb. lia.
  - intros b Hb. destruct (oc_armed0 b Hb) as [o Ho]. eauto.
  - intros b Hb. destruct (oc_loop0 b Hb) as [o Ho]. eauto.
  - intros b Hb. destruct (oc_spawning0 b Hb) as (h & se & c & k & E). eauto 10.
  - intros b o Hb. destruct (decide (fresh_ s = b)) as [<-|].
    + rewrite lookup_insert_eq in Hb. simplify_eq. by apply obj_ok_fresh.
    + rewrite lookup_insert_ne in Hb by done. apply obj_ok_fresh; eauto.
Qed.

(** What [head_ok] asks of the object entered. *)
Definition enters (new : state_obj) (s : machine_t) : Prop :=
  obj_ok (objects s) new /\
  match new with
  | Active _ session control => session = true /\ is_Some control
  | Seal _ session control => session = true /\ is_Some control /\ live s <> ∅
  | Inactive _ => shutdowned s = true
  | _ => True
  end.

Lemma Inv_made new s :
  Core s -> enters new s -> Inv (made new s) /\ grow s (made new s).
Proof.
  intros (Ho & [] & Hcl) [Hn Hh]. split; [|split; simpl; eauto].
  split; [by apply obj_core_made|by split|done|].
  unfold head_ok; simpl. rewrite lookup_insert_eq. by destruct new.
Qed.

(** The chain of writes of a move: the old object, the new one, the pointer. *)
Lemma Core_store a old moved s :
  Core s -> objects s !! a = Some old -> same_kind old moved ->
  obj_ok (<[a := moved]> (objects s)) moved -> Core (set_objects (<[a := moved]> (objects s)) s).
Proof.
  intros (Ho & Hc & Hcl) Ha Hk Hm. split; [by eapply obj_core_store|]. by split; [destruct Hc|].
Qed.

Lemma Inv_move a old moved new s :
  Core s -> objects s !! a = Some old -> same_kind old moved ->
  obj_ok (<[a := moved]> (objects s)) moved ->
  enters new (set_objects (<[a := moved]> (objects s)) s) ->
  Inv (made new (set_objects (<[a := moved]> (objects s)) s)) /\
  grow s (made new (set_objects (<[a := moved]> (objects s)) s)).
Proof.
  intros Hs Ha Hk Hm Hn.
  destruct (Inv_made new (set_objects (<[a := moved]> (objects s)) s)) as [HI Hg]; auto.
  - by eapply Core_store.
  - split; [done|]. by destruct Hg.
Qed.

(** ** [shutdown] *)

Lemma Inv_clear_timers s :
  Inv s -> let s' := set_timers ∅ (set_armed (armed s ∖ set_map channel_timer (timers s)) s) in
  Inv s' /\ grow s s'.
Proof.
  intros [[] [] Hcl Hh]; simpl. split; [|split; simpl; eauto].
  split; [split|split|done|done]; simpl; auto.
  - intros a Ha. apply elem_of_difference in Ha as [Ha _]. auto.
  - set_solver.
  - intros id Ha. apply elem_of_difference in Ha as [Ha Hn]. exfalso. apply Hn, elem_of_map.
    exists id. auto.
Qed.

Lemma cleanup_filter_app l ts :
  Forall (fun t => ~ is_cleanup t) ts -> filter is_cleanup (l ++ ts) = filter is_cleanup l.
Proof.
  intros H. rewrite filter_app. replace (filter is_cleanup ts) with (@nil task); [by rewrite app_nil_r|].
  induction H as [|t ts Ht Hts IH]; [done|]. by rewrite filter_cons_False.
Qed.

Lemma closes_not_cleanup (l : list Z) : Forall (fun t => ~ is_cleanup t) (TClose <$> l).
Proof. apply Forall_fmap, Forall_true. auto. Qed.

Lemma Inv_clear_channels ec s :
  Inv s -> timers s = ∅ -> objects s !! cur s = Some (Inactive ec) ->
  let s' := set_live ∅ (set_loop (loop s ++ (TClose <$> elements (live s))) s) in
  Inv s' /\ grow s s' /\ cleanups s' = cleanups s.
Proof.
  intros Hs Ht Hc; simpl.
  destruct (Inv_post_all (TClose <$> elements (live s)) s) as [[Ho Hch Hcl Hh] Hg]; [|done|].
  { apply Forall_fmap, Forall_forall. intros id Hid. simpl. apply elem_of_elements in Hid.
    destruct (cc_live s (inv_chan s Hs) id Hid) as (c & E & _). by rewrite E. }
  split_and!.
  - split; [by destruct Ho|destruct Hch; split; simpl; auto; set_solver|done|].
    unfold head_ok in *. simpl in *. by rewrite Hc in *.
  - destruct Hg. split; simpl; auto. set_solver.
  - unfold cleanups; simpl. by rewrite cleanup_filter_app by apply closes_not_cleanup.
Qed.

Lemma Inv_post_cleanup ec s :
  Inv s -> cleanups s = 0%nat -> shutdowned s = true ->
  Inv (set_loop (loop s ++ [TCleanup ec]) s) /\ grow s (set_loop (loop s ++ [TCleanup ec]) s).
Proof.
  intros [[] [] Hclean Hh] H0 Hd. split; [|split; simpl; eauto].
  split; [split|split| |done]; simpl; auto.
  1-3: intros a Ha; apply elem_of_app in Ha as [Ha|Ha]; [by auto|]; by apply list_elem_of_singleton in Ha.
  unfold clean_core, cleanups in *; simpl. rewrite Hd, filter_app, length_app. simpl. lia.
Qed.

(** The overrides of the states' methods. *)
Ltac states :=
  unfold preparation_terminate, spawn_terminate, handshaking_terminate, terminate_terminate, active_terminate,
    active_seal, active_inject, spawn_on_timeout, handshaking_on_timeout, seal_on_timeout, terminate_on_timeout,
    spawn_destroy, active_destroy, terminate_destroy,
    spawn_cancel, handshaking_cancel, seal_cancel, terminate_cancel.

Lemma safe_state_cancel a o : safe (state_cancel a o).
Proof. destruct o; simpl; states; try apply safe_ret; safe_walk; apply safe_cancel. Qed.

(** [state_cancel] touches the armed timers only. *)
Lemma state_cancel_run a o s :
  exists x, state_cancel a o s = (Ret tt, set_armed x s) /\ x ⊆ armed s.
Proof.
  destruct o; simpl; unfold st_bind, st_ret, timer_cancel;
    first [ exists (armed s ∖ {[state_timer a]}); split; [done|set_solver]
          | exists (armed s); split; [by destruct s|done] ].
Qed.

Lemma wp_current o (Q : option (Z * state_obj) -> machine_t -> Prop) s :
  objects s !! cur s = Some o -> Q (Some (cur s, o)) s -> wp current Q s.
Proof. intros E HQ. unfold wp, current, st_bind, st_get. by rewrite E. Qed.

Lemma wp_object_at a o (Q : option state_obj -> machine_t -> Prop) s :
  objects s !! a = Some o -> Q (Some o) s -> wp (object_at a) Q s.
Proof. intros E HQ. unfold wp, object_at, st_bind, st_get. by rewrite E. Qed.

(** The writes of an effective [shutdown] after the timer of the state is cancelled. *)
Definition dumped_if (b : bool) (s : machine_t) : machine_t := (st_when b dump_crashlog s).2.
Definition cleared (s : machine_t) : machine_t :=
  let s := set_timers ∅ (set_armed (armed s ∖ set_map channel_timer (timers s)) s) in
  set_live ∅ (set_loop (loop s ++ (TClose <$> elements (live s))) s).
Definition posted_cleanup (ec : error_code) (s : machine_t) : machine_t :=
  if closed_ s then s else set_loop (loop s ++ [TCleanup ec]) s.
Definition final_code (o : state_obj) (ec : error_code) : error_code :=
  if is_terminating o then success else ec.
Definition worth_dumping (ec : error_code) : bool :=
  is_error ec && negb (bool_decide (ec = overseer_shutdowning)).

Lemma dump_when b s : exists x, st_when b dump_crashlog s = (Ret tt, set_dumped x s).
Proof.
  destruct b; simpl; unfold dump_crashlog, st_modify, st_ret; [|exists (dumped s); by destruct s].
  destruct (dump (out s)); [exists (dumped s); by destruct s|by eexists].
Qed.

Lemma shutdown_run ec o s :
  shutdowned s = false -> objects s !! cur s = Some o ->
  exists x, x ⊆ armed s /\ shutdown ec s =
    (Ret tt, posted_cleanup (final_code o ec) (cleared (dumped_if (worth_dumping (final_code o ec))
       (made (Inactive (final_code o ec)) (set_armed x (set_shutdowned true s)))))).
Proof.
  intros Hd Ho. unfold shutdown. unfold st_bind at 1, st_gets; rewrite Hd. simpl.
  unfold st_bind at 1, st_modify. unfold st_bind at 1, current, st_get, st_bind at 1; simpl. rewrite Ho.
  destruct (state_cancel_run (cur s) o (set_shutdowned true s)) as (x & Ex & Hx).
  exists x. split; [done|]. unfold st_bind at 1, st_ret; simpl. unfold st_bind at 1; simpl. rewrite Ex.
  change (if is_terminating o then success else ec) with (final_code o ec).
  change (is_error (final_code o ec) && _) with (worth_dumping (final_code o ec)).
  unfold st_bind, make_state, migrate, st_modify.
  change (set_cur _ _) with (made (Inactive (final_code o ec)) (set_armed x (set_shutdowned true s))).
  unfold dumped_if. set (s1 := made _ _).
  destruct (dump_when (worth_dumping (final_code o ec)) s1) as [y ->].
  unfold posted_cleanup. cbn [snd closed_ clear_timers clear_channels st_modify st_gets].
  match goal with |- (if closed_ ?t then _ else _) _ = _ =>
    change t with (cleared (set_dumped y s1)); set (s2 := cleared (set_dumped y s1)) end.
  by destruct (closed_ s2).
Qed.

Lemma shutdown_again ec s : shutdowned s = true -> shutdown ec s = (Ret tt, s).
Proof.
  intros Hd. unfold shutdown, st_bind, st_gets, st_modify, st_ret. rewrite Hd.
  destruct s; simpl in *. by subst.
Qed.

Lemma dumped_if_frame b s : exists x, dumped_if b s = set_dumped x s.
Proof. unfold dumped_if. destruct (dump_when b s) as [x ->]. by exists x. Qed.

Lemma safe_shutdown ec : safe (shutdown ec).
Proof.
  intros s Hs. unfold wp. destruct (shutdowned s) eqn:Hd.
  { rewrite shutdown_again by done. by split. }
  destruct (oc_cur s (inv_obj s Hs)) as [o Ho].
  destruct (shutdown_run ec o s Hd Ho) as (x & Hx & ->). set (ec' := final_code o ec).
  destruct (Inv_frame s (set_armed x (set_shutdowned true s))) as [HI1 Hg1]; auto.
  destruct (Inv_made (Inactive ec') (set_armed x (set_shutdowned true s))) as [HI2 Hg2]; [by apply Inv_Core|by split|].
  set (s2 := made _ _) in *. destruct (dumped_if_frame (worth_dumping ec') s2) as [y ->].
  destruct (Inv_frame s2 (set_dumped y s2)) as [HI3 Hg3]; auto.
  destruct (Inv_clear_timers (set_dumped y s2) HI3) as [HI4 Hg4]. set (s4 := set_timers _ _) in *.
  destruct (Inv_clear_channels ec' s4) as (HI5 & Hg5 & Hc5); [done|done|by simpl; rewrite lookup_insert_eq|].
  assert (cleanups s4 = 0%nat) as H0.
  { pose proof (inv_clean s Hs) as H. unfold clean_core in H. rewrite Hd in H.
    change (cleanups s4) with (cleanups s). lia. }
  assert (grow s (cleared (set_dumped y s2))) as Hg by (do 4 (etrans; [eassumption|]); exact Hg5).
  unfold posted_cleanup. destruct (closed_ _); [by split|].
  destruct (Inv_post_cleanup ec' (cleared (set_dumped y s2))) as [HI6 Hg6]; auto.
  { etrans; [exact Hc5|done]. }
  split; [done|]. by etrans.
Qed.
#[export] Hint Resolve safe_shutdown safe_cancel safe_arm_control safe_state_cancel : safe.

(** ** Controls *)

Lemma safe_frame_modify f :
  (forall s, objects (f s) = objects s /\ cur (f s) = cur s /\ fresh_ (f s) = fresh_ s /\
     chans (f s) = chans s /\ clients (f s) = clients s /\ live (f s) = live s /\
     timers (f s) = timers s /\ armed (f s) = armed s /\ spawning (f s) ⊆ spawning s /\
     loop (f s) = loop s /\ cleaned (f s) = cleaned s /\ shutdowned (f s) = shutdowned s) ->
  safe (st_modify f).
Proof.
  intros Hf. apply safe_modify. intros s Hs. destruct (Hf s) as (? & ? & ? & ? & ? & ? & ? & Ha & ? & Hl & Hc & Hd).
  apply Inv_frame; auto; try congruence; rewrite ?Ha, ?Hl; auto.
  unfold cleanups. rewrite Hl, Hc. done.
Qed.

Ltac frame_write := apply safe_frame_modify; intros ?; repeat split; simpl; set_solver.

Lemma safe_control_cancel c : safe (control_cancel c).
Proof. unfold control_cancel. safe_walk. frame_write. Qed.

Lemma safe_control_terminate c ec : is_Some c -> is_error ec = true -> safe (control_terminate c ec).
Proof.
  intros [p ->] He. simpl. rewrite He. simpl. safe_walk. frame_write.
Qed.
#[export] Hint Resolve safe_control_cancel safe_control_terminate : safe.

(** ** The states *)

Lemma wp_of_safe {A} (m : M A) s s0 :
  safe m -> Inv s -> grow s0 s -> wp m (ends s0) s.
Proof. intros Hm Hs Hg. eapply wp_mono; [by apply Hm|]. intros r s'. by apply ends_trans. Qed.

Lemma wp_weaken {A} (m : M A) s s0 : grow s0 s -> wp m (ends s) s -> wp m (ends s0) s.
Proof. intros Hg Hm. eapply wp_mono; [exact Hm|]. intros r s'. by apply ends_trans. Qed.

Lemma wp_move_terminating a old moved h c ec s :
  Core s -> objects s !! a = Some old -> same_kind old moved ->
  obj_ok (<[a := moved]> (objects s)) moved -> is_Some c -> is_error ec = true ->
  wp (store_object a moved ;;; go_terminating h true c ec) (ends s) s.
Proof.
  intros Hs Ha Hk Hm Hc He.
  destruct (Inv_move a old moved (Terminate h true c) s) as [HI Hg]; auto; [by repeat split|].
  set (s1 := made _ _) in *.
  assert (objects s1 !! fresh_ s = Some (Terminate h true c)) as Ef by (apply lookup_insert_eq).
  apply wp_bind, wp_modify. unfold go_terminating. apply wp_bind. cbn -[terminate_start].
  apply wp_bind, wp_modify. unfold terminate_start. apply wp_bind, wp_modify.
  change (set_cur _ _) with s1.
  destruct (Inv_arm (state_timer (fresh_ s)) s1) as [HI2 Hg2]; auto; [|done|].
  { intros b [= <-]. by rewrite Ef. }
  apply wp_bind. eapply wp_object_at; [exact Ef|].
  apply wp_of_safe; auto with safe. by etrans.
Qed.

Lemma wp_seal_terminate a h c ec s :
  Core s -> objects s !! a = Some (Seal h true c) -> is_Some c -> is_error ec = true ->
  wp (seal_terminate a ec) (ends s) s.
Proof.
  intros Hs Ha Hc He. unfold seal_terminate. apply wp_bind. eapply wp_object_at; [exact Ha|].
  apply wp_bind. change (seal_cancel a) with (state_cancel a (Seal h true c)).
  destruct (state_cancel_run a (Seal h true c) s) as (x & Ex & Hx).
  unfold wp at 1. rewrite Ex. apply wp_weaken; [by split; simpl; eauto|].
  eapply wp_move_terminating; eauto; try done. by apply Core_armed.
Qed.

Lemma wp_state_terminate ec s :
  Inv s -> is_error ec = true -> wp (state_terminate (cur s) ec) (ends s) s.
Proof.
  intros Hs He. destruct (oc_cur s (inv_obj s Hs)) as [o Ho].
  pose proof (inv_head s Hs) as Hh. unfold head_ok in Hh. rewrite Ho in Hh.
  unfold state_terminate. apply wp_bind. eapply wp_object_at; [exact Ho|].
  destruct o as [| | |h se c|h se c| |]; try (by apply wp_of_safe; [states; safe_walk|..]).
  - destruct Hh as [-> Hc]. eapply wp_move_terminating; eauto using Inv_Core; done.
  - destruct Hh as (-> & Hc & _). eapply wp_seal_terminate; eauto using Inv_Core.
Qed.

Lemma wp_seal s : Inv s -> wp seal (ends s) s.
Proof.
  intros Hs. destruct (oc_cur s (inv_obj s Hs)) as [o Ho].
  pose proof (inv_head s Hs) as Hh. unfold head_ok in Hh. rewrite Ho in Hh.
  unfold seal. apply wp_bind. eapply wp_current; [exact Ho|]. unfold state_seal.
  apply wp_bind. eapply wp_object_at; [exact Ho|].
  destruct o as [| | |h se c| | |]; try (by apply wp_of_safe; [safe_walk|..]).
  destruct Hh as [-> Hc]. set (moved := Active false false None).
  set (s1 := made (Seal h true c) (set_objects (<[cur s := moved]> (objects s)) s)).
  assert (objects s1 !! fresh_ s = Some (Seal h true c)) as Ef by (apply lookup_insert_eq).
  apply wp_bind, wp_modify. apply wp_bind. cbn -[seal_start]. apply wp_bind, wp_modify.
  change (set_cur _ _) with s1. unfold seal_start. apply wp_bind. unfold wp at 1. cbn -[s1].
  case_bool_decide as Hl.
  - (* no channels: the terminating state is entered at once *)
    apply wp_weaken; [by split; simpl; eauto|].
    eapply wp_seal_terminate; [|exact Ef|done|done].
    pose proof (Core_store _ _ moved s (Inv_Core s Hs) Ho) as (Hob & Hch & Hcl); [done..|].
    split; [by apply obj_core_made|]. by split; [destruct Hch|].
  - destruct (Inv_move (cur s) (Active h true c) moved (Seal h true c) s) as [HI Hg];
      [by apply Inv_Core|done..|by repeat split|].
    apply wp_modify. destruct (Inv_arm (state_timer (fresh_ s)) s1) as [HI2 Hg2]; auto; [|done|].
    { intros b [= <-]. by rewrite Ef. }
    split; [done|]. by etrans.
Qed.

(** ** Channels and dispatches *)

Lemma channel_step_notifies op c :
  (channel.step op c).1 = channel.closed (channel.step op c).2 && channel.watched (channel.step op c).2.
Proof.
  assert (forall c, (channel.maybe_notify c).1 =
            channel.closed (channel.maybe_notify c).2 && channel.watched (channel.maybe_notify c).2) as H.
  { intros c'. unfold channel.maybe_notify. destruct (channel.closed c' && channel.watched c') eqn:E; simpl; [|done].
    by rewrite <- E. }
  destruct op; apply H.
Qed.

Lemma chans_grow id c c' s :
  chans s !! id = Some c -> into_worker c' = into_worker c ->
  grow s (set_chans (<[id := c']> (chans s)) s).
Proof.
  intros Hc Hi. split; simpl; eauto. intros i [d Hd].
  destruct (decide (id = i)) as [->|]; [by rewrite lookup_insert_eq|by rewrite lookup_insert_ne, Hd].
Qed.

(** A channel is rewritten, and removed from the map when it is no more quiet. *)
Definition removed (id : Z) (s : machine_t) : machine_t :=
  set_timers (timers s ∖ {[id]}) (set_armed (armed s ∖ {[channel_timer id]})
    (set_live (live s ∖ {[id]}) s)).

Lemma chan_core_store id c' s :
  chan_core s -> is_Some (clients s !! into_worker c') -> (id ∈ live s -> quiet (ch c')) ->
  chan_core (set_chans (<[id := c']> (chans s)) s).
Proof.
  intros [] Hi Hq.
  assert (forall i, is_Some (chans s !! i) -> is_Some (<[id := c']> (chans s) !! i)) as Hd.
  { intros i [d Hdi]. destruct (decide (id = i)) as [->|]; [by rewrite lookup_insert_eq|by rewrite lookup_insert_ne, Hdi]. }
  split; simpl; auto.
  - intros i Hl. destruct (decide (id = i)) as [<-|Hne].
    + rewrite lookup_insert_eq. exists c'. auto.
    + rewrite lookup_insert_ne by done. auto.
  - intros i c Hc. destruct (decide (id = i)) as [->|].
    + rewrite lookup_insert_eq in Hc. by simplify_eq.
    + rewrite lookup_insert_ne in Hc by done. eauto.
  - intros p c Hp Hb. apply Hd. eauto.
Qed.

Lemma Inv_store_chan id c' s :
  Inv s -> is_Some (clients s !! into_worker c') -> (id ∈ live s -> quiet (ch c')) ->
  Inv (set_chans (<[id := c']> (chans s)) s).
Proof. intros [[] Hc Hcl Hh] Hi Hq. split; [by split|by apply chan_core_store|done|done]. Qed.

Lemma chan_core_removed id s : chan_core s -> chan_core (removed id s).
Proof.
  intros []. split; simpl; auto.
  - intros i Hi. apply cc_live0. set_solver.
  - set_solver.
  - intros i Hi. assert (i <> id) by (intros ->; set_solver). set_solver.
Qed.

Lemma Core_removed id s : Inv s -> Core (removed id s).
Proof.
  intros [[] Hc Hcl _]. split; [split; simpl; auto; set_solver|].
  split; [by apply chan_core_removed|done].
Qed.

Lemma Core_store_chan id c' s :
  Core s -> is_Some (clients s !! into_worker c') -> (id ∉ live s) ->
  Core (set_chans (<[id := c']> (chans s)) s).
Proof. intros ([] & Hc & Hcl) Hi Hq. split; [by split|]. split; [by apply chan_core_store|done]. Qed.

(** [revoke] after the write of the channel that made it necessary. *)
Lemma wp_revoke id c' s :
  Inv s -> is_Some (clients s !! into_worker c') ->
  wp (revoke id) (ends s) (set_chans (<[id := c']> (chans s)) s).
Proof.
  intros Hs Hi. set (s1 := removed id (set_chans (<[id := c']> (chans s)) s)).
  assert (Core s1) as Hc.
  { change s1 with (set_chans (<[id := c']> (chans (removed id s))) (removed id s)).
    apply Core_store_chan; [by apply Core_removed|done|simpl; set_solver]. }
  assert (grow s s1) as Hg.
  { split; simpl; [|eauto|set_solver]. intros i [d Hd].
    destruct (decide (id = i)) as [->|]; [by rewrite lookup_insert_eq|by rewrite lookup_insert_ne, Hd]. }
  destruct (oc_cur s (inv_obj s Hs)) as [o Ho].
  pose proof (inv_head s Hs) as Hh. unfold head_ok in Hh. rewrite Ho in Hh.
  unfold revoke. apply wp_bind, wp_modify, wp_bind, wp_modify.
  change (set_timers _ _) with s1. apply wp_bind. eapply wp_current; [exact Ho|].
  apply wp_bind. unfold wp at 1. cbn -[s1 state_terminate].
  assert (forall s2, Inv s2 -> grow s s2 ->
            wp (st_modify (fun m => set_handled (handled m ++ [id]) m)) (ends s) s2) as Hend.
  { intros s2 H1 H2. apply wp_of_safe; [frame_write|done|done]. }
  apply wp_bind. destruct (is_sealing o && bool_decide (live s1 = ∅)) eqn:E; simpl.
  - apply andb_true_iff in E as [Eo El%bool_decide_eq_true].
    destruct o as [| | | |h se c| |]; try done. destruct Hh as (-> & Hc' & _).
    unfold state_terminate. apply wp_bind. eapply wp_object_at; [exact Ho|].
    eapply wp_mono; [by eapply wp_seal_terminate|].
    intros [[]|] s2 [HI Hg2]; [|split; [done|by etrans]]. apply Hend; [done|by etrans].
  - apply Hend; [|done]. destruct Hc as (Hob & Hch & Hcl). split; [done..|].
    unfold head_ok. change (objects s1 !! cur s1) with (objects s !! cur s). rewrite Ho.
    destruct o; try done. simpl in E. apply bool_decide_eq_false in E.
    destruct Hh as (-> & Hc' & _). done.
Qed.

Lemma wp_chan_at id c (Q : option chan_obj -> machine_t -> Prop) s :
  chans s !! id = Some c -> Q (Some c) s -> wp (chan_at id) Q s.
Proof. intros E HQ. unfold wp, chan_at, st_bind, st_get. by rewrite E. Qed.

Lemma wp_client_at p c (Q : option client_obj -> machine_t -> Prop) s :
  clients s !! p = Some c -> Q (Some c) s -> wp (client_at p) Q s.
Proof. intros E HQ. unfold wp, client_at, st_bind, st_get. by rewrite E. Qed.

Lemma wp_channel_do op id s : Inv s -> is_Some (chans s !! id) -> wp (channel_do op id) (ends s) s.
Proof.
  intros Hs [c Hc]. unfold channel_do. apply wp_bind. eapply wp_chan_at; [exact Hc|].
  pose proof (channel_step_notifies op (ch c)) as Hn.
  destruct (channel.step op (ch c)) as [n c'] eqn:E; simpl in Hn.
  pose proof (cc_into s (inv_chan s Hs) id c Hc) as Hi.
  apply wp_bind, wp_modify. destruct n; simpl.
  - by apply wp_revoke.
  - split; [|by eapply chans_grow]. apply Inv_store_chan; [done|done|]. intros _. by symmetry.
Qed.

Lemma wp_worker_do op id s : Inv s -> is_Some (chans s !! id) -> wp (worker_do op id) (ends s) s.
Proof.
  intros Hs [c Hc]. unfold worker_do. apply wp_bind. eapply wp_chan_at; [exact Hc|].
  destruct (worker.step op (w2c c)) as [cb d].
  pose proof (cc_into s (inv_chan s Hs) id c Hc) as Hi.
  set (c' := mk_chan (ch c) d (into_worker c)). set (s1 := set_chans (<[id := c']> (chans s)) s).
  assert (Inv s1) as HI.
  { apply Inv_store_chan; auto. intros Hl.
    destruct (cc_live s (inv_chan s Hs) id Hl) as (c0 & E0 & Hq). by simplify_eq. }
  assert (grow s s1) as Hg by (by eapply chans_grow).
  apply wp_bind, wp_modify. destruct cb as [ec|]; [|by split].
  apply wp_weaken; [done|]. apply wp_channel_do; [done|]. unfold s1; simpl. by rewrite lookup_insert_eq.
Qed.

(** A dispatch is rewritten: it is bound to an existing channel, or was not bound
    and stays so. *)
Lemma Inv_store_client p c' s :
  Inv s -> (client.state (c2w c') = client.bound -> is_Some (chans s !! target c')) ->
  Inv (set_clients (<[p := c']> (clients s)) s).
Proof.
  intros [[] [] Hcl Hh] Hb. split; [by split|split; simpl; auto|done|done].
  - intros id c Hc. destruct (decide (p = into_worker c)) as [->|]; [by rewrite lookup_insert_eq|].
    rewrite lookup_insert_ne by done. eauto.
  - intros q c Hq. destruct (decide (p = q)) as [->|].
    + rewrite lookup_insert_eq in Hq. by simplify_eq.
    + rewrite lookup_insert_ne in Hq by done. eauto.
Qed.

Lemma clients_grow p c c' s :
  clients s !! p = Some c ->
  (client.state (c2w c) <> client.bound -> client.state (c2w c') <> client.bound) ->
  grow s (set_clients (<[p := c']> (clients s)) s).
Proof.
  intros Hc Hb. split; simpl; [done| |done]. intros q d Hd.
  destruct (decide (p = q)) as [->|]; [|rewrite lookup_insert_ne by done; eauto].
  rewrite lookup_insert_eq. simplify_eq. eauto.
Qed.

(** Operations other than [attach] do not bind, and call back a bound dispatch only. *)
Lemma client_step_bound op d :
  (forall ok, op <> client.Attach ok) ->
  (client.state (client.step op d).2 = client.bound -> client.state d = client.bound) /\
  (forall ec, (client.step op d).1 = Ret (Some ec) -> client.state d = client.bound) /\
  (client.step op d).1 <> Throw client.assertion_failed.
Proof.
  intros Hop. destruct d as [st e]. destruct op as [ok|e'|ok|ok|ok].
  { by destruct (Hop ok). }
  all: destruct st; try destruct ok; cbn; unfold client.discard;
       try destruct (is_error e'); cbn; split_and!; try done; intros; by simplify_eq.
Qed.

Lemma wp_client_do op p s :
  (forall ok, op <> client.Attach ok) -> Inv s -> is_Some (clients s !! p) -> wp (client_do op p) (ends s) s.
Proof.
  intros Hop Hs [c Hc]. unfold client_do. apply wp_bind. eapply wp_client_at; [exact Hc|].
  destruct (client_step_bound op (c2w c) Hop) as (Hb & Hcb & Has).
  destruct (client.step op (c2w c)) as [r d]; simpl in *.
  pose proof (cc_bound s (inv_chan s Hs) p c Hc) as Ht.
  set (c' := mk_client d (target c)). set (s1 := set_clients (<[p := c']> (clients s)) s).
  assert (Inv s1) as HI by (apply Inv_store_client; auto).
  assert (grow s s1) as Hg by (eapply clients_grow; [exact Hc|]; simpl; intuition).
  apply wp_bind, wp_modify. destruct r as [[ec|]|[]]; [|by split|by split|done].
  apply wp_weaken; [done|]. apply wp_channel_do; [done|]. apply Ht. by eapply Hcb.
Qed.

Lemma wp_timed_out p id s :
  Inv s -> is_Some (clients s !! p) -> is_Some (chans s !! id) -> wp (timed_out p id) (ends s) s.
Proof.
  intros Hs Hp Hid. unfold timed_out. apply wp_bind.
  eapply wp_mono; [by apply wp_client_do|]. intros [[]|] s1 [HI Hg]; [|done].
  apply wp_weaken; [done|]. apply wp_worker_do; [done|]. by apply (gr_chans s s1 Hg).
Qed.

(** ** Activation *)

(** Writes to a state that is not asked for anything while it is current. *)
Definition idle_kind (o : state_obj) : Prop :=
  match o with Spawn _ _ _ _ | Handshaking _ => True | _ => False end.

Lemma Inv_store a old moved s :
  Inv s -> objects s !! a = Some old -> same_kind old moved -> idle_kind moved ->
  obj_ok (<[a := moved]> (objects s)) moved ->
  Inv (set_objects (<[a := moved]> (objects s)) s) /\ grow s (set_objects (<[a := moved]> (objects s)) s).
Proof.
  intros Hs Ha Hk Hi Hm. split; [|by split; simpl; eauto].
  destruct (Core_store a old moved s (Inv_Core s Hs)) as (Ho & Hc & Hcl); auto.
  split; [done..|]. unfold head_ok; simpl. pose proof (inv_head s Hs) as Hh. unfold head_ok in Hh.
  destruct (decide (a = cur s)) as [->|]; [|by rewrite lookup_insert_ne].
  rewrite lookup_insert_eq. by destruct moved.
Qed.

Lemma safe_make_control : safe make_control.
Proof.
  intros s [[] [] Hcl Hh]. unfold wp, make_control. split; [|by split; simpl; eauto].
  split; [split|split|done|done]; simpl; auto.
  intros a o Ho. apply oc_fresh0 in Ho. lia.
Qed.

Lemma wp_handshaking_activate a h c starts s :
  Inv s -> objects s !! a = Some (Handshaking h) -> wp (handshaking_activate a true c starts) (ends s) s.
Proof.
  intros Hs Ha. unfold handshaking_activate. apply wp_bind. eapply wp_object_at; [exact Ha|].
  destruct (Inv_store a (Handshaking h) (Handshaking false) s) as [HI Hg]; try done.
  apply wp_bind, wp_modify. set (s1 := set_objects _ _) in *.
  apply wp_bind. destruct starts; simpl; [|by split].
  destruct (Inv_arm (control_timer c) s1) as [HI2 Hg2]; [done..|]. set (s2 := set_armed _ _) in *.
  apply wp_modify. apply wp_bind. cbn. apply wp_modify.
  destruct (Inv_made (Active h true (Some c)) s2) as [HI3 Hg3]; [by apply Inv_Core|done|].
  split; [done|]. etrans; [exact Hg|]. by etrans.
Qed.

Lemma wp_handshaking_accept a h timer_ok starts s :
  Inv s -> objects s !! a = Some (Handshaking h) -> wp (handshaking_accept a timer_ok starts) (ends s) s.
Proof.
  intros Hs Ha. unfold handshaking_accept. apply wp_bind.
  unfold wp at 1, timer_cancel. set (s1 := set_armed _ s).
  destruct (Inv_frame s s1) as [HI Hg]; auto; [set_solver|].
  destruct (negb timer_ok || _); [by split|].
  apply wp_try. apply wp_bind. unfold wp at 1, make_control. set (s2 := set_fresh_ _ _).
  destruct (safe_make_control s1 HI) as [HI2 Hg2]. fold s2 in HI2, Hg2.
  apply wp_bind. eapply wp_mono; [by eapply wp_handshaking_activate|].
  intros [[]|] s3 [HI3 Hg3].
  - split; [done|]. etrans; [exact Hg|]. by etrans.
  - intros ec. apply wp_of_safe; [safe_walk|done|]. etrans; [exact Hg|]. by etrans.
Qed.

Lemma wp_activate timer_ok starts s : Inv s -> wp (activate timer_ok starts) (ends s) s.
Proof.
  intros Hs. destruct (oc_cur s (inv_obj s Hs)) as [o Ho].
  unfold activate. apply wp_bind. eapply wp_current; [exact Ho|].
  unfold state_activate. apply wp_bind. eapply wp_object_at; [exact Ho|].
  destruct o as [|h se c [k|]|h| | | |]; try (by apply wp_of_safe; [safe_walk|..]).
  - unfold spawn_activate. apply wp_bind. eapply wp_object_at; [exact Ho|].
    destruct (oc_obj s (inv_obj s Hs) _ _ Ho) as [_ Hk]. destruct (Hk k eq_refl) as [h' Hk'].
    by eapply wp_handshaking_accept.
  - unfold spawn_activate. apply wp_bind. eapply wp_object_at; [exact Ho|].
    apply wp_bind. unfold wp at 1, make_control. set (s1 := set_fresh_ _ _).
    destruct (safe_make_control s Hs) as [HI Hg]. fold s1 in HI, Hg.
    apply wp_bind, wp_modify.
    destruct (Inv_store (cur s) (Spawn h se c None) (Spawn h true (Some (fresh_ s)) None) s1) as [HI2 Hg2]; try done.
    split; [done|]. by etrans.
  - by eapply wp_handshaking_accept.
Qed.

Lemma wp_on_spawn a timer_ok starts s :
  Inv s -> (exists h se c k, objects s !! a = Some (Spawn h se c k)) ->
  wp (on_spawn a timer_ok starts) (ends s) s.
Proof.
  intros Hs (h & se & c & k & Ha). unfold on_spawn. apply wp_bind.
  unfold wp at 1, timer_cancel. set (s1 := set_armed _ s).
  destruct (Inv_frame s s1) as [HI Hg]; auto; [set_solver|].
  destruct (negb timer_ok || _); [by split|].
  apply wp_weaken; [done|]. clear Hg. apply wp_try. apply wp_bind. eapply wp_object_at; [exact Ha|].
  destruct (Inv_made (Handshaking h) s1) as [HI2 Hg2]; [by apply Inv_Core|done|].
  set (s2 := made _ _) in *. set (f := fresh_ s1).
  assert (objects s2 !! f = Some (Handshaking h)) as Ef by (apply lookup_insert_eq).
  assert (f <> a) as Hne. { pose proof (oc_fresh s1 (inv_obj s1 HI) _ _ Ha). unfold f. lia. }
  assert (objects s2 !! a = Some (Spawn h se c k)) as Ea by (unfold s2; simpl; by rewrite lookup_insert_ne).
  destruct (oc_obj s1 (inv_obj s1 HI) _ _ Ha) as [Hc _].
  assert (forall se' c', (is_Some c' -> se' = true) ->
            obj_ok (<[a := Spawn false se' c' (Some f)]> (objects s2)) (Spawn false se' c' (Some f))) as Hok.
  { intros se' c' Hcs. split; [done|]. intros k' [= <-]. exists h. by rewrite lookup_insert_ne. }
  destruct (Inv_store a _ (Spawn false se c (Some f)) s2 HI2 Ea) as [HI3 Hg3]; [done..|by apply Hok|].
  apply wp_bind. cbn -[handshaking_activate]. apply wp_bind, wp_modify, wp_bind, wp_modify.
  change (set_cur _ _) with (set_objects (<[a := Spawn false se c (Some f)]> (objects s2)) s2).
  set (s3 := set_objects _ s2) in *.
  assert (objects s3 !! f = Some (Handshaking h)) as Ef3 by (unfold s3; simpl; by rewrite lookup_insert_ne).
  assert (objects s3 !! a = Some (Spawn false se c (Some f))) as Ea3 by (apply lookup_insert_eq).
  assert (forall t, grow s1 t -> Inv t -> wp (post (TShutdown unknown_activate_error)) (ends s1) t) as Hpost.
  { intros t Ht HIt. apply wp_of_safe; [by apply safe_post|done|done]. }
  destruct c as [c|].
  - rewrite Hc by done. rewrite Hc in * by done.
    destruct (Inv_store a _ (Spawn false false None (Some f)) s3 HI3 Ea3) as [HI4 Hg4]; [done..| |].
    { split; [by intros []|]. intros k' [= <-]. exists h. by rewrite lookup_insert_ne. }
    apply wp_bind, wp_modify. set (s4 := set_objects _ s3) in *.
    eapply wp_mono; [eapply wp_handshaking_activate; [done|]; unfold s4; simpl; by rewrite lookup_insert_ne|].
    intros [[]|] s5 [HI5 Hg5]; [split; [done|]|intros ec; apply Hpost; [|done]];
      (etrans; [exact Hg2|]; etrans; [exact Hg3|]; by etrans).
  - destruct (Inv_arm (state_timer f) s3) as [HI4 Hg4]; [|done|done|].
    { intros b [= <-]. by rewrite Ef3. }
    apply wp_modify. split; [done|]. etrans; [exact Hg2|]. by etrans.
Qed.

(** ** Preparation, timeouts, destructors *)

Lemma Inv_spawning a s :
  Inv s -> (exists h se c k, objects s !! a = Some (Spawn h se c k)) ->
  Inv (set_spawning ({[a]} ∪ spawning s) s) /\ grow s (set_spawning ({[a]} ∪ spawning s) s).
Proof.
  intros [[] [] Hcl Hh] Ha. split; [|by split; simpl; eauto].
  split; [split|split|done|done]; simpl; auto.
  intros b [->%elem_of_singleton|Hb]%elem_of_union; auto.
Qed.

Lemma wp_spawn_spawn a h r s :
  Inv s -> objects s !! a = Some (Spawn h false None None) -> wp (spawn_spawn a r) (ends s) s.
Proof.
  intros Hs Ha. destruct (Inv_arm (state_timer a) s) as [HI Hg]; [|done|done|].
  { intros b [= <-]. by rewrite Ha. }
  set (s1 := set_armed _ s) in *.
  destruct r; try (by apply wp_of_safe; [first [apply safe_shutdown | by apply safe_post]|..]).
  - simpl. apply wp_bind, wp_modify. fold s1. apply wp_of_safe; [by apply safe_post|done|done].
  - simpl. apply wp_bind, wp_modify. fold s1.
    destruct (Inv_spawning a s1) as [HI2 Hg2]; [done|by eauto 10|]. set (s2 := set_spawning _ _) in *.
    apply wp_bind, wp_modify. fold s2. apply wp_bind. eapply wp_object_at; [exact Ha|]. apply wp_modify.
    destruct (Inv_store a _ (Spawn true false None None) s2 HI2 Ha) as [HI3 Hg3]; [done..| |].
    { split; [by intros []|done]. }
    split; [done|]. etrans; [exact Hg|]. by etrans.
Qed.

Lemma wp_on_refresh a ec r s : Inv s -> is_Some (objects s !! a) -> wp (on_refresh a ec r) (ends s) s.
Proof.
  intros Hs [o Ha]. unfold on_refresh. apply wp_bind. eapply wp_object_at; [exact Ha|].
  destruct (is_error ec); [by apply wp_of_safe; auto with safe|].
  destruct (Inv_made (Spawn false false None None) s) as [HI Hg]; [by apply Inv_Core| |].
  { split; [|done]. split; [by intros []|done]. }
  apply wp_bind. cbn -[spawn_spawn]. apply wp_bind, wp_modify. change (set_cur _ _) with (made (Spawn false false None None) s).
  apply wp_weaken; [done|]. eapply wp_spawn_spawn; [done|]. apply lookup_insert_eq.
Qed.

(** A sealing state still has its pointers. *)
Definition not_moved (o : state_obj) : bool :=
  match o with Seal _ session control => session && bool_decide (is_Some control) | _ => true end.

Lemma wp_state_on_timeout a o s :
  Inv s -> objects s !! a = Some o -> not_moved o = true -> wp (state_on_timeout a) (ends s) s.
Proof.
  intros Hs Ha Hm. unfold state_on_timeout. apply wp_bind. eapply wp_object_at; [exact Ha|].
  destruct o as [| | | |h se c| |]; try (by apply wp_of_safe; [safe_walk|..]).
  simpl in Hm. apply andb_true_iff in Hm as [-> Hc%bool_decide_eq_true].
  eapply wp_seal_terminate; eauto using Inv_Core.
Qed.

Lemma points_to_ne s a b o :
  referenced a s = false -> objects s !! b = Some o -> points_to a o = false.
Proof.
  unfold referenced. rewrite !orb_false_iff. intros [_ Hp] Hb.
  destruct (points_to a o) eqn:E; [|done]. rewrite <- Hp. symmetry. apply existsb_exists.
  exists (b, o). split; [|done]. by apply list_elem_of_In, elem_of_map_to_list.
Qed.

Lemma Inv_delete a s :
  Inv s -> referenced a s = false ->
  Inv (set_objects (delete a (objects s)) s) /\ grow s (set_objects (delete a (objects s)) s).
Proof.
  intros [Ho [] Hcl Hh] Hr. pose proof (points_to_ne s a) as Hp. specialize (fun b o => Hp b o Hr).
  unfold referenced in Hr. rewrite !orb_false_iff, !bool_decide_eq_false in Hr.
  destruct Hr as [[[[[Hc Ha] Hl] _] Hsp] _]. destruct Ho.
  assert (forall b, b <> a -> delete a (objects s) !! b = objects s !! b) as Hd.
  { intros b Hb. by rewrite lookup_delete_ne. }
  split; [|by split; simpl; eauto]. split; [split|by split|done|]; simpl.
  - by rewrite Hd by done.
  - intros b o [_ Hb]%lookup_delete_Some. eauto.
  - intros b Hb. rewrite Hd; [auto|]. by intros ->.
  - intros b Hb. rewrite Hd; [auto|]. by intros ->.
  - intros b Hb. rewrite Hd; [auto|]. by intros ->.
  - intros b o [_ Hb]%lookup_delete_Some. specialize (oc_obj0 b o Hb). specialize (Hp b o Hb).
    destruct o as [|h se c k| | | | |]; simpl in *; try done. destruct oc_obj0 as [? Hk]. split; [done|].
    intros k' ->. destruct (Hk k' eq_refl) as [h' Hh']. exists h'. rewrite Hd; [done|].
    intros ->. by rewrite bool_decide_true in Hp.
  - unfold head_ok in *; simpl. by rewrite Hd.
Qed.

Lemma wp_destroy a s :
  Inv s -> is_Some (objects s !! a) -> referenced a s = false -> wp (state_destroy a) (ends s) s.
Proof.
  intros Hs [o Ha] Hr. unfold state_destroy. apply wp_bind. eapply wp_object_at; [exact Ha|].
  destruct (Inv_delete a s Hs Hr) as [HI Hg]. apply wp_bind, wp_modify.
  destruct o as [|h se [c|] k| |h se [c|]| |h se c|]; states; try (by split);
    try (by apply wp_of_safe; auto with safe).
  destruct (oc_obj s (inv_obj s Hs) a _ Ha) as [-> [c' ->]].
  by apply wp_of_safe; [safe_walk|..].
Qed.

(** ** [inject] *)

(** [inject] adds at most the new channel. *)
Definition injected {A} (id : Z) (s : machine_t) (_ : option A) (s' : machine_t) : Prop :=
  Inv s' /\ live s' ⊆ {[id]} ∪ live s.

Lemma Inv_insert_channel id c s :
  Inv s -> chans s !! id = Some c -> quiet (ch c) -> Inv (set_live ({[id]} ∪ live s) s).
Proof.
  intros [[] [] Hcl Hh] Hc Hq. split; [by split|split; simpl; auto|done|].
  - intros i [->%elem_of_singleton|Hi]%elem_of_union; eauto.
  - set_solver.
  - unfold head_ok in *; simpl. repeat case_match; try done.
    destruct Hh as (? & ? & ?). split_and!; auto. set_solver.
Qed.

Lemma Inv_insert_timer id s :
  Inv s -> id ∈ live s ->
  Inv (set_armed ({[channel_timer id]} ∪ armed s) (set_timers ({[id]} ∪ timers s) s)).
Proof.
  intros Hs Hl. apply (Inv_arm (channel_timer id) (set_timers ({[id]} ∪ timers s) s)); [done| |].
  - intros i [= <-]. simpl. set_solver.
  - destruct Hs as [[] [] Hcl Hh]. split; [by split|split; simpl; auto; set_solver|done|done].
Qed.

Lemma wp_client_attach ok p c id s :
  Inv s -> clients s !! p = Some c -> client.state (c2w c) <> client.bound -> is_Some (chans s !! id) ->
  wp (client_attach ok p id)
     (fun _ s' => Inv s' /\ live s' ⊆ live s /\ is_Some (chans s' !! id)) s.
Proof.
  intros Hs Hc Hb Hid. unfold client_attach. apply wp_bind. eapply wp_client_at; [exact Hc|].
  destruct c as [[st e] tg]; simpl in *. unfold client.attach; simpl.
  destruct ok; simpl; [|by split_and!].
  destruct st; simpl; [|by destruct (Hb eq_refl)|].
  - apply wp_modify. split_and!; [|done|done]. by apply Inv_store_client.
  - apply wp_bind, wp_modify. set (s1 := set_clients _ _).
    assert (Inv s1) as HI by (by apply Inv_store_client).
    eapply wp_mono; [by apply wp_channel_do|]. intros r s2 [HI2 [Hg _ Hl]].
    split_and!; [done|done|]. by apply Hg.
Qed.

Section profile.
Context (profile : profile_t).

(** The request timer is armed, or the request has timed out already. *)
Lemma wp_deadline p id (late : bool) s :
  Inv s -> is_Some (clients s !! p) -> is_Some (chans s !! id) -> id ∈ live s ->
  wp (if late then timed_out p id else insert_timer id ;;; arm (channel_timer id)) (ends s) s.
Proof.
  intros Hs Hp Hid Hl. destruct late; [by apply wp_timed_out|].
  apply wp_bind, wp_modify, wp_modify. split; [exact (Inv_insert_timer id s Hs Hl)|]. by split; simpl; eauto.
Qed.

Lemma wp_inject load e c s :
  Inv s -> clients s !! dispatch load = Some c -> client.state (c2w c) <> client.bound ->
  wp (inject profile load e) (injected (u64 (counter s + 1)) s) s.
Proof.
  intros Hs Hc Hb. set (id := u64 (counter s + 1)). set (p := dispatch load) in *.
  destruct (Inv_frame s (set_counter id s)) as [HI1 _]; auto. set (s1 := set_counter id s) in *.
  destruct (oc_cur s (inv_obj s Hs)) as [o Ho].
  pose proof (inv_head s Hs) as Hh. unfold head_ok in Hh. rewrite Ho in Hh.
  unfold inject. fold p. apply wp_bind. unfold wp at 1, bump_counter. fold id s1.
  apply wp_bind. unfold state_inject. apply wp_bind. eapply wp_current; [exact Ho|]. simpl.
  assert (injected (A:=Z) id s None s1) as Hend by (split; [done|simpl; set_solver]).
  destruct o as [| | |h se ctl| | |]; try exact Hend.
  destruct Hh as [-> _]. destruct (fork_ok e); [|exact Hend].
  set (c0 := mk_chan (channel.construct id (birthstamp load)) worker.construct p).
  set (c1 := mk_chan (channel.attach_dispatches (ch c0)) worker.construct p).
  set (s2 := set_chans (<[id := c0]> (chans s1)) s1).
  assert (Inv s2) as HI2. { apply Inv_store_chan; [done|simpl; by rewrite Hc|done]. }
  apply wp_bind, wp_modify. fold s2. apply wp_bind.
  destruct (send_ok e); [|split; [done|simpl; set_solver]].
  apply wp_bind. eapply wp_chan_at; [apply lookup_insert_eq|]. fold c0 s2.
  set (s3 := set_chans (<[id := c1]> (chans s2)) s2).
  assert (Inv s3) as HI3. { apply Inv_store_chan; [done|simpl; by rewrite Hc|done]. }
  apply wp_bind, wp_modify. fold s3. set (s4 := set_live ({[id]} ∪ live s3) s3).
  assert (Inv s4) as HI4. { eapply Inv_insert_channel; [done|apply lookup_insert_eq|done]. }
  assert (live s4 = {[id]} ∪ live s) as El4 by done.
  assert (is_Some (chans s4 !! id)) as Hid by (exists c1; apply lookup_insert_eq).
  apply wp_bind, wp_modify. fold s4. apply wp_bind.
  eapply wp_mono; [apply wp_deadline; [done|by exists c|done|set_solver]|].
  intros [[]|] s5 [HI5 [Gc Gp Gl]]; [|split; [done|by rewrite <- El4]].
  destruct (Gp p c Hc) as (c' & Hc' & Hb').
  apply wp_bind. eapply wp_mono; [eapply wp_client_attach; [done|exact Hc'|by apply Hb'|by apply Gc]|].
  intros [[]|] s6 (HI6 & Gl6 & Hid6); [|split; [done|by rewrite <- El4; etrans]].
  apply wp_bind. eapply wp_mono; [by apply wp_channel_do|].
  intros [[]|] s7 [HI7 [_ _ Gl7]]; (split; [done|rewrite <- El4; set_solver]).
Qed.

(** ** Events the surroundings may produce

    The isolate calls [on_ready] at most once, the client and the worker speak on
    dispatches that exist, a load is injected with a dispatch that is not bound
    yet, the owner terminates a slave with an error.  The two races of the code are
    left out: a token that comes when the preparation state is gone, and a seal
    timeout that runs when sealing is over. *)
Definition exists_state (a : Z) (m : machine_t) : bool := bool_decide (is_Some (objects m !! a)).
Definition fair (ev : event) (m : machine_t) : bool :=
  match ev with
  | Inject load _ =>
      match clients m !! dispatch load with
      | Some c => match client.state (c2w c) with client.bound => false | _ => true end
      | None => false
      end
  | TerminateIt ec => is_error ec
  | Token _ => match token_wait m with Some a => exists_state a m | None => true end
  | Ready a _ _ => bool_decide (a ∈ spawning m)
  | FromClient _ p => bool_decide (is_Some (clients m !! p))
  | FromWorker _ id => bool_decide (is_Some (chans m !! id))
  | Run i _ _ =>
      match loop m !! i with
      | Some (TRefresh a _) | Some (TPreparationTerminate a) => exists_state a m
      | Some (TStateTimeout a) => match objects m !! a with Some o => not_moved o | None => true end
      | _ => true
      end
  | _ => true
  end.

Fixpoint fair_run (evs : list event) (m : machine_t) : bool :=
  match evs with
  | [] => true
  | ev :: evs => fair ev m && fair_run evs (step profile ev m).2
  end.

Lemma cleanups_delete i t s :
  loop s !! i = Some t ->
  cleanups s = ((if decide (is_cleanup t) then 1 else 0) + cleanups (set_loop (delete i (loop s)) s))%nat.
Proof.
  intros Ht. unfold cleanups; simpl. rewrite (delete_Permutation _ _ _ Ht) at 1.
  rewrite filter_cons. case_decide; simpl; lia.
Qed.

Lemma wp_run_task i t token_ok r s :
  Inv s -> loop s !! i = Some t -> fair (Run i token_ok r) s = true ->
  wp (run_task t token_ok r) (ends s) (set_loop (delete i (loop s)) s).
Proof.
  intros Hs Ht Hf. unfold fair in Hf. rewrite Ht in Hf.
  assert (t ∈ loop s) as Hin by (by eapply list_elem_of_lookup_2).
  pose proof (cleanups_delete i t s Ht) as Hcl. set (s1 := set_loop _ s) in *.
  assert (forall u, u ∈ loop s1 -> u ∈ loop s) as Hsub.
  { intros u Hu. change (u ∈ delete i (loop s)) in Hu. by eapply list_elem_of_delete_inv. }
  destruct (Inv_frame s s1) as [HI Hg]; auto; [lia|].
  destruct t as [a|a ec|a|ec|id|ec|a|c|id]; cbn -[timed_out not_moved state_on_timeout] in *.
  - apply wp_of_safe; [|done|done]. unfold preparation_start. destruct token_ok; [frame_write|by apply safe_post].
  - apply wp_weaken; [done|]. apply wp_on_refresh; [done|]. by apply bool_decide_eq_true in Hf.
  - apply bool_decide_eq_true in Hf as [o Ho]. apply wp_bind. eapply wp_object_at; [exact Ho|].
    by apply wp_of_safe; auto with safe.
  - by apply wp_of_safe; auto with safe.
  - apply wp_weaken; [done|]. apply wp_channel_do; [done|]. by apply (cc_close s (inv_chan s Hs)).
  - apply wp_modify. apply Inv_frame; auto. unfold cleanups in *; simpl in *. rewrite length_app; simpl. lia.
  - apply wp_weaken; [done|]. destruct (oc_loop s (inv_obj s Hs) a Hin) as [o Ho]. rewrite Ho in Hf.
    by apply (wp_state_on_timeout a o s1).
  - apply wp_of_safe; [apply safe_shutdown|done|done].
  - destruct (cc_timeout s (inv_chan s Hs) id Hin) as [c Hc].
    apply wp_bind. eapply wp_chan_at; [exact Hc|]. apply wp_weaken; [done|].
    apply wp_timed_out; [done| |by exists c]. by eapply (cc_into s (inv_chan s Hs)).
Qed.

Lemma wp_expire t s : Inv s -> wp (step profile (Expire t)) (ends s) s.
Proof.
  intros Hs. simpl. apply wp_bind. unfold wp at 1; cbn -[expired_task].
  destruct (expired_task t) as [u|] eqn:E; [|by split]. case_bool_decide as Ht; [|by split].
  simpl. apply wp_bind. unfold wp at 1, timer_cancel. set (s1 := set_armed _ s).
  destruct (Inv_frame s s1) as [HI Hg]; auto; [set_solver|]. apply wp_modify.
  destruct (Inv_post_all [u] s1) as [HI2 Hg2]; [|done|split; [done|by etrans]].
  constructor; [|done]. destruct t as [[|[|[|k]]] z]; simpl in E; simplify_eq; simpl.
  - by apply (oc_armed s (inv_obj s Hs)).
  - done.
  - apply (cc_armed s (inv_chan s Hs)), (cc_timers s (inv_chan s Hs)), (cc_live s (inv_chan s Hs)) in Ht.
    destruct Ht as (c & -> & _). done.
Qed.

(** Every event but [inject]. *)
Definition is_inject (ev : event) : bool := match ev with Inject _ _ => true | _ => false end.

Lemma wp_terminate ec s : Inv s -> is_error ec = true -> wp (terminate ec) (ends s) s.
Proof.
  intros Hs He. unfold terminate. rewrite He. simpl. apply wp_bind. unfold wp at 1; simpl.
  apply wp_bind. unfold wp at 1; simpl. apply wp_bind, wp_modify.
  destruct (Inv_frame s (set_closed_ true s)) as [HI Hg]; auto.
  destruct (closed_ s); [by split|]. destruct (oc_cur _ (inv_obj _ HI)) as [o Ho].
  apply wp_bind. eapply wp_current; [exact Ho|]. apply wp_weaken; [done|]. by apply wp_state_terminate.
Qed.

Lemma wp_token ec s :
  Inv s -> fair (Token ec) s = true -> wp (on_token ec) (ends s) s.
Proof.
  intros Hs Hf. unfold on_token. apply wp_bind. unfold wp at 1; simpl. simpl in Hf.
  destruct (token_wait s) as [a|] eqn:E; [|by split].
  apply bool_decide_eq_true in Hf as [o Ho]. apply wp_bind, wp_modify.
  destruct (Inv_frame s (set_token_wait None s)) as [HI Hg]; auto.
  apply wp_bind. eapply wp_object_at; [exact Ho|]. apply wp_of_safe; [by apply safe_post|done|done].
Qed.

Lemma wp_enqueued p s : Inv s -> wp (step profile (Enqueued p)) (ends s) s.
Proof.
  intros Hs. simpl. apply wp_bind. unfold wp at 1; simpl. destruct (clients s !! p) eqn:E; [by split|].
  apply wp_modify. split; [by apply Inv_store_client|]. split; simpl; [done| |done].
  intros q c Hq. exists c. rewrite lookup_insert_ne; [done|]. intros ->. congruence.
Qed.

Lemma wp_ready a timer_ok starts s :
  Inv s -> a ∈ spawning s -> wp (handle_on_ready a timer_ok starts) (ends s) s.
Proof.
  intros Hs Ha. unfold handle_on_ready. apply wp_bind. unfold wp at 1; simpl.
  rewrite bool_decide_true by done. apply wp_bind.
  eapply wp_mono; [apply wp_on_spawn; [done|by apply (oc_spawning s (inv_obj s Hs))]|].
  intros [[]|] s1 [HI Hg]; [|done]. apply wp_of_safe; [frame_write|done|done].
Qed.

Lemma wp_step ev s :
  Inv s -> fair ev s = true -> is_inject ev = false -> wp (step profile ev) (ends s) s.
Proof.
  intros Hs Hf Hi. destruct ev; try done; cbn [step fair] in *.
  - by apply wp_enqueued.
  - apply wp_bind. eapply wp_mono; [by apply wp_activate|]. by intros [] s1.
  - by apply wp_seal.
  - by apply wp_terminate.
  - by apply wp_token.
  - apply bool_decide_eq_true in Hf. by apply wp_ready.
  - apply wp_of_safe; [|done|done]. unfold handle_on_terminate. safe_walk. frame_write.
  - apply wp_of_safe; [|done|done]. unfold machine_output. frame_write.
  - apply wp_of_safe; [|done|done]. unfold on_heartbeat. safe_walk.
  - apply wp_of_safe; [apply safe_shutdown|done|done].
  - apply wp_of_safe; [|done|done]. unfold control_discard. safe_walk.
  - apply bool_decide_eq_true in Hf. destruct op; [by split| | | |]; by apply wp_client_do.
  - apply bool_decide_eq_true in Hf. by apply wp_worker_do.
  - apply wp_of_safe; [frame_write|done|done].
  - by apply wp_expire.
  - apply wp_bind. unfold wp at 1; simpl. destruct (loop s !! i) as [t|] eqn:E; [|by split].
    apply wp_bind, wp_modify. apply wp_run_task; [done|done|]. unfold fair. by rewrite E.
  - apply wp_bind. unfold wp at 1; simpl.
    destruct (bool_decide (is_Some (objects s !! a)) && negb (referenced a s)) eqn:E; [|by split].
    apply andb_true_iff in E as [E1%bool_decide_eq_true E2%negb_true_iff]. by apply wp_destroy.
Qed.
End profile.

(** ** Theorems *)

Lemma started_Inv : Inv started.
Proof.
  assert (objects started = {[1 := Preparation]}) as Eo by reflexivity.
  assert (clients started = ∅ /\ chans started = ∅) as [Ep Ec] by done.
  split; [split|split| |]; rewrite ?Eo, ?Ep, ?Ec; try done.
  - intros a o [<- <-]%lookup_singleton_Some. done.
  - intros a Ha. simpl in Ha. by repeat (apply elem_of_cons in Ha as [?|Ha]; [done|]); apply elem_of_nil in Ha.
  - by intros a o [<- <-]%lookup_singleton_Some.
  - intros a Ha. simpl in Ha. by repeat (apply elem_of_cons in Ha as [?|Ha]; [done|]); apply elem_of_nil in Ha.
  - intros a Ha. simpl in Ha. by repeat (apply elem_of_cons in Ha as [?|Ha]; [done|]); apply elem_of_nil in Ha.
  - unfold clean_core. vm_compute. lia.
Qed.

Lemma step_Inv profile ev s :
  Inv s -> fair ev s = true ->
  match step profile ev s with (Throw crash, _) => False | (_, s') => Inv s' end.
Proof.
  intros Hs Hf. destruct (is_inject ev) eqn:Ei.
  - destruct ev as [|load e| | | | | | | | | | | | | | | |]; try done. simpl in Hf.
    destruct (clients s !! dispatch load) as [c|] eqn:Hc; [|done].
    assert (wp (step profile (Inject load e)) (injected (u64 (counter s + 1)) s) s) as Hw.
    { simpl. apply wp_bind. eapply wp_mono; [eapply wp_inject; [done|exact Hc|]|].
      - intros Hb. by rewrite Hb in Hf.
      - by intros [id|] s1 H1. }
    unfold wp in Hw. destruct (step _ _ _) as [[?|[]] ?]; try done; apply Hw.
  - pose proof (wp_step profile ev s Hs Hf Ei) as Hw. unfold wp in Hw.
    destruct (step _ _ _) as [[?|[]] ?]; try done; apply Hw.
Qed.

Lemma run_Inv profile evs : forall s,
  Inv s -> fair_run profile evs s = true -> exists m, run profile evs s = Ret m /\ Inv m.
Proof.
  induction evs as [|ev evs IH]; intros s Hs Hf; simpl in *; [by eauto|].
  apply andb_true_iff in Hf as [Hf Hr]. pose proof (step_Inv profile ev s Hs Hf) as Hi.
  destruct (step profile ev s) as [[[]|[ec|]] s'] eqn:E; try done; by apply IH.
Qed.

(** C2: whatever fair sequence of events a started slave sees, in any interleaving of
    its handlers, timers and posted tasks, it never follows a null or dangling pointer
    nor fails an assertion, and the invariant holds after it: the current state exists
    and holds its session and control dispatch, pending timers and posted handlers lead
    to existing objects, only live channels have request timers, a sealing slave has a
    channel to wait for, an inactive one has been shut down. *)
Theorem machine_safe (profile : profile_t) (evs : list event) :
  fair_run profile evs started = true ->
  exists m, run profile evs started = Ret m /\ Inv m.
Proof. intros Hf. apply run_Inv; [apply started_Inv|done]. Qed.

Definition example_profile : profile_t := mk_profile true 1 1 1 1 1 1 1000 10 50 5 10 100 0 0.
(** The worker comes up and performs the handshake. *)
Definition boot : list event :=
  [Run 0 true Spawned; Token success; Run 0 true Spawned; Ready 2 true true; Activate true true].
(** A request is served while the slave is being sealed. *)
Definition example_events : list event :=
  boot ++ [Enqueued 7; Inject (mk_load 7 0 (Some 1000)) (mk_env 5 true true true); SealIt; Destroy 5;
           FromWorker (worker.Choke true) 2; FromClient (client.Close true) 7; Destroy 6;
           Expire (state_timer 7); Run 0 true Spawned; Run 0 true Spawned].

Lemma machine_safe_witness :
  exists m, run example_profile example_events started = Ret m /\ Inv m.
Proof. apply (machine_safe example_profile example_events). vm_compute. reflexivity. Defined.

(** ** The cleanup handler, over all runs

    A predicate on the cleanup calls that [shutdown] and [terminate] keep is kept by
    every event, fair or not. *)
Section cleanup.
Context (profile : profile_t) (P : machine_t -> Prop).
Context (P_frame : forall s s', cleanups s' = cleanups s -> closed_ s' = closed_ s ->
                                shutdowned s' = shutdowned s -> live s' ⊆ live s -> P s -> P s').
Context (P_shutdown : forall ec, keeps P (shutdown ec)).
Context (P_closed : forall s, P s -> P (set_closed_ true s)).
(** Channels the predicate lets [inject] add. *)
Context (admits : Z -> Prop).
Context (P_insert : forall id s, admits id -> P s -> P (set_live ({[id]} ∪ live s) s)).

Lemma keeps_frame (f : machine_t -> machine_t) :
  (forall s, loop (f s) = loop s /\ cleaned (f s) = cleaned s /\ closed_ (f s) = closed_ s /\
             shutdowned (f s) = shutdowned s /\ live (f s) ⊆ live s) -> keeps P (@st_modify _ failure f).
Proof.
  intros Hf. apply keeps_modify. intros s Hs. destruct (Hf s) as (E1 & E2 & E3 & E4 & E5).
  apply (P_frame s); [|done..]. unfold cleanups. by rewrite E1, E2.
Qed.

Lemma keeps_write {A} (r : machine_t -> outcome failure A) (f : machine_t -> machine_t) :
  keeps P (@st_modify _ failure f) -> keeps P (fun s => (r s, f s)).
Proof. intros Hf s Hs. by apply (Hf s). Qed.

Lemma keeps_post t : ~ is_cleanup t -> keeps P (post t).
Proof.
  intros Ht. apply keeps_modify. intros s Hs. apply (P_frame s); [|done..].
  unfold cleanups; simpl. by rewrite cleanup_filter_app by (by constructor).
Qed.

Lemma keeps_die {A} : keeps P (@die A).
Proof. by intros s. Qed.
Lemma keeps_fail {A} ec : keeps P (@throw A ec).
Proof. by intros s. Qed.

Local Ltac kwrite := apply keeps_frame; intros ?; split_and!; simpl; first [done | by apply subseteq_difference_l].
Local Ltac ksteps := repeat first
  [ progress keeps_walk | apply keeps_get | apply keeps_die | apply keeps_fail | apply P_shutdown
  | (apply keeps_post; exact (fun H => H)) | kwrite | apply keeps_write; kwrite ].
Local Tactic Notation "kw" reference(d) := unfold d; states; ksteps.

Lemma keeps_try {A} (m : M A) h : keeps P m -> (forall ec, keeps P (h ec)) -> keeps P (try_catch m h).
Proof. intros Hm Hh. apply keeps_catch; [done|]. intros [ec|]; [done|apply keeps_die]. Qed.

Lemma keeps_object_at a : keeps P (object_at a). Proof. kw object_at. Qed.
Lemma keeps_current : keeps P current. Proof. kw current. Qed.
Lemma keeps_chan_at id : keeps P (chan_at id). Proof. kw chan_at. Qed.
Lemma keeps_client_at p : keeps P (client_at p). Proof. kw client_at. Qed.
Lemma keeps_cancel t : keeps P (timer_cancel t). Proof. kw timer_cancel. Qed.
Lemma keeps_arm t : keeps P (arm t). Proof. kw arm. Qed.
Lemma keeps_store_object a o : keeps P (store_object a o). Proof. kw store_object. Qed.
Lemma keeps_store_chan id c : keeps P (store_chan id c). Proof. kw store_chan. Qed.
Lemma keeps_store_client p c : keeps P (store_client p c). Proof. kw store_client. Qed.
Lemma keeps_migrate a : keeps P (migrate a). Proof. kw migrate. Qed.
Lemma keeps_make_state o : keeps P (make_state o). Proof. kw make_state. Qed.
Lemma keeps_make_control : keeps P make_control. Proof. kw make_control. Qed.
Local Hint Resolve keeps_object_at keeps_current keeps_chan_at keeps_client_at keeps_cancel keeps_arm
  keeps_store_object keeps_store_chan keeps_store_client keeps_migrate keeps_make_state
  keeps_make_control keeps_get keeps_die keeps_fail P_shutdown : keeps.

Lemma keeps_state_cancel a o : keeps P (state_cancel a o). Proof. kw state_cancel. Qed.
Lemma keeps_control_cancel c : keeps P (control_cancel c). Proof. kw control_cancel. Qed.
Local Hint Resolve keeps_state_cancel keeps_control_cancel : keeps.
Lemma keeps_control_terminate c ec : keeps P (control_terminate c ec).
Proof. unfold control_terminate, assert. ksteps. Qed.
Local Hint Resolve keeps_control_terminate : keeps.
Lemma keeps_go_terminating h s c ec : keeps P (go_terminating h s c ec).
Proof. unfold go_terminating, terminate_start. ksteps. Qed.
Local Hint Resolve keeps_go_terminating : keeps.
Lemma keeps_seal_terminate a ec : keeps P (seal_terminate a ec). Proof. kw seal_terminate. Qed.
Local Hint Resolve keeps_seal_terminate : keeps.
Lemma keeps_state_terminate a ec : keeps P (state_terminate a ec). Proof. kw state_terminate. Qed.
Local Hint Resolve keeps_state_terminate : keeps.
Lemma keeps_revoke id : keeps P (revoke id). Proof. kw revoke. Qed.
Local Hint Resolve keeps_revoke : keeps.
Lemma keeps_channel_do op id : keeps P (channel_do op id). Proof. kw channel_do. Qed.
Local Hint Resolve keeps_channel_do : keeps.
Lemma keeps_worker_do op id : keeps P (worker_do op id).
Proof. unfold worker_do, on_recv_closed. ksteps. Qed.
Lemma keeps_client_do op p : keeps P (client_do op p).
Proof. unfold client_do, on_send_closed. ksteps. Qed.
Lemma keeps_client_attach ok p id : keeps P (client_attach ok p id).
Proof. unfold client_attach, on_send_closed. ksteps. Qed.
Local Hint Resolve keeps_worker_do keeps_client_do keeps_client_attach : keeps.
Lemma keeps_handshaking_activate a s c starts : keeps P (handshaking_activate a s c starts).
Proof. unfold handshaking_activate, control_start. ksteps. Qed.
Local Hint Resolve keeps_handshaking_activate : keeps.
Lemma keeps_handshaking_accept a t st : keeps P (handshaking_accept a t st).
Proof. unfold handshaking_accept. ksteps. apply keeps_try; intros; ksteps. Qed.
Local Hint Resolve keeps_handshaking_accept : keeps.
Lemma keeps_on_spawn a t st : keeps P (on_spawn a t st).
Proof. unfold on_spawn. ksteps. apply keeps_try; intros; ksteps. Qed.
Lemma keeps_spawn_spawn a r : keeps P (spawn_spawn a r). Proof. kw spawn_spawn. Qed.
Local Hint Resolve keeps_on_spawn keeps_spawn_spawn : keeps.
Lemma keeps_insert id : admits id -> keeps P (insert_channel id).
Proof. intros Ha. apply keeps_modify. auto. Qed.
Lemma keeps_inject load e s :
  admits (u64 (counter s + 1)) -> P s -> P (inject profile load e s).2.
Proof.
  intros Ha Hs. unfold inject. erewrite st_bind_Ret by reflexivity. cbv beta.
  set (id := u64 (counter s + 1)) in *. set (s1 := set_counter id s).
  assert (P s1) as Hs1 by (by apply (P_frame s)).
  clearbody s1. revert s1 Hs1. refine (_ : keeps P _). pose proof (keeps_insert id Ha).
  unfold state_inject, insert_timer, timed_out. states. ksteps.
Qed.
Lemma keeps_state_destroy a : keeps P (state_destroy a). Proof. kw state_destroy. Qed.
Local Hint Resolve keeps_state_destroy : keeps.
Lemma keeps_terminate ec : keeps P (terminate ec).
Proof. unfold terminate, assert. ksteps. Qed.
Local Hint Resolve keeps_terminate : keeps.

(** Running a posted cleanup moves it from the loop to the calls made. *)
Lemma keeps_run i token_ok r : keeps P (step profile (Run i token_ok r)).
Proof.
  intros s Hs. simpl. unfold st_bind at 1, st_get. destruct (loop s !! i) as [t|] eqn:E; [|done].
  unfold st_bind, st_modify. pose proof (cleanups_delete i t s E) as Hc.
  set (s1 := set_loop _ s) in *.
  destruct (decide (is_cleanup t)) as [Ht|Ht].
  - destruct t as [| | | | |ec| | |]; try done. apply (P_frame s); [|done..]. simpl.
    rewrite Hc. unfold cleanups, s1; simpl. rewrite length_app; simpl. lia.
  - assert (keeps P (run_task t token_ok r)) as Hk.
    { destruct t; try done; simpl;
        unfold preparation_start, on_refresh, state_on_timeout, control_on_timeout, timed_out; states; ksteps. }
    apply Hk. by apply (P_frame s).
Qed.

Lemma keeps_step ev : is_inject ev = false -> keeps P (step profile ev).
Proof.
  destruct ev; try done; intros _; try apply keeps_run; simpl;
    unfold activate, state_activate, spawn_activate, seal, state_seal, on_token,
      handle_on_ready, handle_on_terminate, machine_output, on_heartbeat, on_terminate, control_discard;
    states; unfold seal_start;
    ksteps.
  unfold expired_task in *. destruct t as [[|[|[|k]]] z]; simplify_eq; ksteps.
Qed.

Lemma run_keeps evs : (forall id, admits id) -> forall s m, P s -> run profile evs s = Ret m -> P m.
Proof.
  intros Ha. induction evs as [|ev evs IH]; intros s m Hs Hr; simpl in Hr; [by simplify_eq|].
  assert (P (step profile ev s).2) as Hk.
  { destruct (is_inject ev) eqn:Ei; [|by apply keeps_step].
    destruct ev as [|load e| | | | | | | | | | | | | | | |]; try done. simpl.
    pose proof (keeps_inject load e s (Ha _) Hs) as Hi. unfold st_bind.
    by destruct (inject profile load e s) as [[?|?] ?]. }
  destruct (step profile ev s) as [[[]|[ec|]] s']; try done; eauto.
Qed.
End cleanup.

Lemma cleanups_shut x y ec o s :
  let s' := posted_cleanup (final_code o ec) (cleared (set_dumped y
              (made (Inactive (final_code o ec)) (set_armed x (set_shutdowned true s))))) in
  cleanups s' = (cleanups s + if closed_ s then 0 else 1)%nat /\ closed_ s' = closed_ s /\ shutdowned s' = true.
Proof.
  unfold posted_cleanup. cbn [closed_ cleared set_live set_loop set_timers set_armed set_dumped made set_cur
    set_fresh_ set_objects set_shutdowned]. destruct (closed_ s) eqn:E; (split; [|by split]);
    unfold cleanups; simpl.
  - rewrite cleanup_filter_app by apply closes_not_cleanup. lia.
  - rewrite filter_app, length_app, cleanup_filter_app by apply closes_not_cleanup. simpl. lia.
Qed.

(** An effective [shutdown] posts one cleanup, or none when the machine is closed. *)
Lemma shutdown_cleanups ec s :
  let s' := (shutdown ec s).2 in
  closed_ s' = closed_ s /\
  (cleanups s' = cleanups s \/
   shutdowned s = false /\ shutdowned s' = true /\ closed_ s = false /\ cleanups s' = S (cleanups s)) /\
  (shutdowned s' = true \/ cleanups s' = cleanups s /\ shutdowned s' = shutdowned s).
Proof.
  destruct (shutdowned s) eqn:Hd.
  { rewrite shutdown_again by done. simpl. auto. }
  destruct (objects s !! cur s) as [o|] eqn:Ho.
  - destruct (shutdown_run ec o s Hd Ho) as (x & _ & ->). cbn [snd].
    destruct (dumped_if_frame (worth_dumping (final_code o ec))
                (made (Inactive (final_code o ec)) (set_armed x (set_shutdowned true s)))) as [y ->].
    destruct (cleanups_shut x y ec o s) as (Hc & Hcl & Hs). rewrite Hc, Hcl, Hs.
    split; [done|]. split; [|by left]. destruct (closed_ s); [left|right]; [lia|]. split_and!; auto; lia.
  - unfold shutdown, st_bind, st_gets, st_modify, current, st_get, st_bind. rewrite Hd. simpl. rewrite Ho. simpl.
    split_and!; auto.
Qed.

(** C17: over every run of a started slave, with any events, the cleanup handler of the
    owner is called (or posted) at most once, and not before the slave has been shut down. *)
Theorem cleanup_once (profile : profile_t) (evs : list event) (m : machine_t) :
  run profile evs started = Ret m ->
  (cleanups m <= 1)%nat /\ (shutdowned m = false -> cleanups m = 0%nat).
Proof.
  apply (run_keeps profile (fun m => (cleanups m <= 1)%nat /\ (shutdowned m = false -> cleanups m = 0%nat)))
    with (admits := fun _ => True); try done.
  - intros s s' Hc _ Hs _. by rewrite Hc, Hs.
  - intros ec s [H1 H0]. destruct (shutdown_cleanups ec s) as (_ & Hc & Hs).
    destruct Hc as [Hc|(E & E' & _ & Hc)].
    + rewrite Hc. split; [done|]. destruct Hs as [Hs|[_ Hs]]; rewrite Hs; [done|auto].
    + rewrite Hc, E'. rewrite (H0 E). split; [lia|done].
  - split; [vm_compute; lia|done].
Qed.

Lemma cleanup_once_witness :
  match run example_profile example_events started with
  | Ret m => cleanups m = 1%nat /\ (cleanups m <= 1)%nat /\ (shutdowned m = false -> cleanups m = 0%nat)
  | Throw _ => False
  end.
Proof.
  destruct (run example_profile example_events started) as [m|] eqn:E; [|vm_compute in E; discriminate E].
  split; [|by apply (cleanup_once example_profile example_events m)].
  vm_compute in E. injection E as <-. reflexivity.
Defined.

(** The promise of the header: once the owner has called [terminate] on a slave that
    has posted no cleanup, the cleanup handler is never called, whatever happens next. *)
Theorem terminate_silences_cleanup (profile : profile_t) (evs : list event) (ec : error_code)
    (m m' : machine_t) :
  is_error ec = true -> cleanups m = 0%nat ->
  run profile evs (terminate ec m).2 = Ret m' ->
  cleanups m' = 0%nat.
Proof.
  intros He H0 Hr.
  set (P := fun m => closed_ m = true /\ cleanups m = 0%nat).
  assert (forall s s', cleanups s' = cleanups s -> closed_ s' = closed_ s ->
            shutdowned s' = shutdowned s -> live s' ⊆ live s -> P s -> P s') as PF.
  { intros s s' E1 E2 _ _. unfold P. by rewrite E1, E2. }
  assert (forall ec, keeps P (shutdown ec)) as PS.
  { intros e s [Hcl Hc]. destruct (shutdown_cleanups e s) as (E & [Hc'|(_ & _ & E' & _)] & _); [|congruence].
    split; [by rewrite E|by rewrite Hc']. }
  assert (P (terminate ec m).2) as HP.
  { unfold terminate. rewrite He. unfold assert, st_bind at 1, st_ret. unfold st_bind at 1, st_gets.
    unfold st_bind at 1, st_modify. assert (P (set_closed_ true m)) as HP0 by done.
    destruct (closed_ m); [exact HP0|]. apply keeps_bind; [by apply keeps_current| |done].
    intros a. by apply keeps_state_terminate. }
  apply (run_keeps profile P PF PS) with (admits := fun _ => True) in Hr; try done; [apply Hr|].
  intros s [_ Hc]. by split.
Qed.

Lemma terminate_silences_witness :
  exists m m', run example_profile boot started = Ret m /\
    run example_profile [Suicide 4; Run 0 true Spawned] (terminate overseer_shutdowning m).2 = Ret m' /\
    shutdowned m' = true /\ cleanups m' = 0%nat.
Proof.
  destruct (run example_profile boot started) as [m|] eqn:E; [|vm_compute in E; discriminate E].
  exists m. destruct (run example_profile [Suicide 4; Run 0 true Spawned]
    (terminate overseer_shutdowning m).2) as [m'|] eqn:E'.
  - exists m'. split; [done|]. split; [done|]. split.
    + vm_compute in E. injection E as <-. vm_compute in E'. injection E' as <-. reflexivity.
    + apply (terminate_silences_cleanup example_profile [Suicide 4; Run 0 true Spawned]
               overseer_shutdowning m m'); [reflexivity| |done].
      vm_compute in E. injection E as <-. reflexivity.
  - vm_compute in E. injection E as <-. vm_compute in E'. discriminate E'.
Defined.

(** ** The load *)

Lemma shutdown_live ec s : live (shutdown ec s).2 ⊆ live s.
Proof.
  destruct (shutdowned s) eqn:Hd; [by rewrite shutdown_again|].
  destruct (objects s !! cur s) as [o|] eqn:Ho.
  - destruct (shutdown_run ec o s Hd Ho) as (x & _ & ->). cbn [snd]. unfold posted_cleanup.
    destruct (closed_ _); apply empty_subseteq.
  - unfold shutdown, st_bind, st_gets, st_modify, current, st_get, st_bind. rewrite Hd. simpl. by rewrite Ho.
Qed.

(** No event but [inject] adds a channel, and [inject] adds one at most. *)
Lemma step_live profile ev s : is_inject ev = false -> live (step profile ev s).2 ⊆ live s.
Proof.
  intros Hi. apply (keeps_step profile (fun m => live m ⊆ live s)); try done.
  - intros s1 s2 _ _ _ H1 H2. by etrans.
  - intros ec s1 H1. etrans; [apply shutdown_live|done].
Qed.

Lemma inject_live profile load e s :
  live (inject profile load e s).2 ⊆ {[u64 (counter s + 1)]} ∪ live s.
Proof.
  set (id := u64 (counter s + 1)).
  apply (keeps_inject profile (fun m => live m ⊆ {[id]} ∪ live s)) with (admits := fun i => i = id); try done.
  - intros s1 s2 _ _ _ H1 H2. by etrans.
  - intros ec s1 H1. etrans; [apply shutdown_live|done].
  - intros i s1 -> H1. simpl. set_solver.
  - set_solver.
Qed.

Lemma step_load profile ev s : is_inject ev = false -> (load (step profile ev s).2 <= load s)%nat.
Proof. intros Hi. unfold load. by apply subseteq_size, step_live. Qed.

Lemma inject_load profile l e s : (load (inject profile l e s).2 <= S (load s))%nat.
Proof.
  unfold load. etrans; [apply subseteq_size, inject_live|].
  rewrite size_union_alt, size_singleton. apply le_n_S, subseteq_size. set_solver.
Qed.

(** ** Activity *)

Lemma active_cur s o : objects s !! cur s = Some o -> active s = is_active o.
Proof. intros Ho. unfold active. by rewrite Ho. Qed.

Lemma shutdown_inactive ec s : active s = false -> active (shutdown ec s).2 = false.
Proof.
  intros Ha. destruct (shutdowned s) eqn:Hd; [by rewrite shutdown_again|].
  destruct (objects s !! cur s) as [o|] eqn:Ho.
  - destruct (shutdown_run ec o s Hd Ho) as (x & _ & ->). cbn [snd].
    destruct (dumped_if_frame (worth_dumping (final_code o ec))
                (made (Inactive (final_code o ec)) (set_armed x (set_shutdowned true s)))) as [y ->].
    unfold posted_cleanup. destruct (closed_ _); unfold active; simpl; by rewrite lookup_insert_eq.
  - unfold shutdown, st_bind, st_gets, st_modify, current, st_get, st_bind. rewrite Hd. simpl. by rewrite Ho.
Qed.

Lemma control_terminate_inactive c ec s : active s = false -> active (control_terminate c ec s).2 = false.
Proof.
  intros Ha. destruct c as [c|]; [|done]. unfold control_terminate, assert.
  destruct (is_error ec); [|done]. erewrite st_bind_Ret by reflexivity.
  unfold st_bind, st_gets. destruct (connected s); [done|]. by apply shutdown_inactive.
Qed.

Lemma go_terminating_inactive h se c ec s : active (go_terminating h se c ec s).2 = false.
Proof.
  unfold go_terminating, terminate_start. do 3 (erewrite st_bind_Ret by reflexivity).
  match goal with |- active (st_bind _ _ ?t).2 = _ => set (s1 := t) end.
  assert (objects s1 !! fresh_ s = Some (Terminate h se c)) as Ef by apply lookup_insert_eq.
  assert (active s1 = false) as Ha by (unfold active; simpl; by rewrite lookup_insert_eq).
  unfold st_bind, object_at, st_get, st_bind. rewrite Ef. by apply control_terminate_inactive.
Qed.

(** [seal] on an active slave leaves it inactive, whatever happens next. *)
Lemma seal_inactive s : active s = true -> active (seal s).2 = false.
Proof.
  unfold active at 1. destruct (objects s !! cur s) as [o|] eqn:Ho; [|done]. destruct o as [| | |h se c| | |]; try done.
  intros _. unfold seal, current, st_get. unfold st_bind at 1 2. rewrite Ho. unfold st_ret. cbn [fst].
  unfold state_seal, object_at, st_get. unfold st_bind at 1 2. rewrite Ho. unfold active_seal, st_ret.
  do 3 (erewrite st_bind_Ret by reflexivity). unfold seal_start. erewrite st_bind_Ret by reflexivity.
  match goal with |- active ((if _ then _ else _) ?t).2 = _ => set (s1 := t) end.
  assert (objects s1 !! fresh_ s = Some (Seal h se c)) as Ef by apply lookup_insert_eq.
  case_bool_decide; [|unfold active, arm, st_modify; simpl; by rewrite lookup_insert_eq].
  unfold seal_terminate, object_at, st_get. unfold st_bind at 1 2. change (fresh_ _) with (fresh_ s). rewrite Ef. unfold st_ret.
  do 2 (erewrite st_bind_Ret by reflexivity). apply go_terminating_inactive.
Qed.
