(* ===== verification/MachineBehaviour.v ===== *)
(** * What the operations of a slave do

    The functional behaviour of [shutdown], of the end of sealing and of [inject] on
    its branches, and the runs in which the code meets a destroyed or emptied state. *)

From Stdlib Require Import Ascii.
From S2P Require Import Prelude Profile Splitter Channel Machine MachineFacts.

Local Open Scope Z_scope.
Local Open Scope cpp_scope.

(** ** Running handlers *)

Lemma object_at_run a o s : objects s !! a = Some o -> object_at a s = (Ret o, s).
Proof. intros E. unfold object_at, st_bind, st_get. by rewrite E. Qed.
Lemma current_run o s : objects s !! cur s = Some o -> current s = (Ret (cur s, o), s).
Proof. intros E. unfold current, st_bind, st_get. by rewrite E. Qed.
Lemma chan_at_run id c s : chans s !! id = Some c -> chan_at id s = (Ret c, s).
Proof. intros E. unfold chan_at, st_bind, st_get. by rewrite E. Qed.
Lemma client_at_run p c s : clients s !! p = Some c -> client_at p s = (Ret c, s).
Proof. intros E. unfold client_at, st_bind, st_get. by rewrite E. Qed.

(** One call of a sequence; the lookups take their equation from the context. *)
Ltac call :=
  first [ erewrite st_bind_Ret by reflexivity
        | erewrite st_bind_Ret by (apply object_at_run; eassumption)
        | erewrite st_bind_Ret by (apply current_run; eassumption)
        | erewrite st_bind_Ret by (apply chan_at_run; eassumption)
        | erewrite st_bind_Ret by (apply client_at_run; eassumption) ];
  cbv beta iota.

(** The state in which the terminate message is sent. *)
Definition terminating (h : bool) (c : Z) (s : machine_t) : machine_t :=
  set_armed ({[state_timer (fresh_ s)]} ∪ armed s) (made (Terminate h true (Some c)) s).

Lemma go_terminating_run h c ec s :
  is_error ec = true ->
  go_terminating h true (Some c) ec s =
    if connected s then (Ret tt, set_sent (sent s ++ [(c, ec)]) (terminating h c s))
    else shutdown conrol_ipc_error (terminating h c s).
Proof.
  intros He. unfold go_terminating. call. call. unfold terminate_start. call.
  change (set_armed _ _) with (terminating h c s). set (s1 := terminating h c s).
  assert (objects s1 !! fresh_ s = Some (Terminate h true (Some c))) as Ef by apply lookup_insert_eq.
  call. unfold control_terminate. rewrite He. call. unfold st_bind, st_gets.
  change (connected s1) with (connected s). by destruct (connected s).
Qed.

(** The state left when a sealing state is moved from. *)
Definition unsealed (a : Z) (s : machine_t) : machine_t :=
  set_objects (<[a := Seal false false None]> (objects s)) (set_armed (armed s ∖ {[state_timer a]}) s).

Lemma seal_terminate_run a h c ec s :
  objects s !! a = Some (Seal h true (Some c)) ->
  seal_terminate a ec s = go_terminating h true (Some c) ec (unsealed a s).
Proof. intros Ha. unfold seal_terminate. call. call. by call. Qed.

Lemma revoke_sealing id h c s :
  objects s !! cur s = Some (Seal h true (Some c)) -> live s ⊆ {[id]} ->
  revoke id s =
    st_bind (go_terminating h true (Some c) slave_is_sealing)
      (fun _ => st_modify (fun m => set_handled (handled m ++ [id]) m)) (unsealed (cur s) (removed id s)).
Proof.
  intros Ho Hl. set (s1 := removed id s).
  assert (live s1 = ∅) as El by (simpl; set_solver).
  assert (objects s1 !! cur s1 = Some (Seal h true (Some c))) as Ho1 by done.
  unfold revoke. call. call. change (set_timers _ _) with s1. call. call.
  rewrite El, bool_decide_true by done. simpl. unfold st_bind at 1, state_terminate. call.
  by rewrite (seal_terminate_run (cur s) h c).
Qed.

(** The first [shutdown] takes effect and the others do nothing, as its comment says.
    The slave becomes inactive with the given error, or with none when it was
    terminating; its channels and request timers are gone and every channel will be
    closed; the crash log is written for an error other than the overseer's shutdown,
    when there is something to write; the owner is told unless it terminated the slave. *)
Theorem shutdown_spec (ec : error_code) (o : state_obj) (m : machine_t) :
  objects m !! cur m = Some o -> shutdowned m = false ->
  let code := if is_terminating o then success else ec in
  exists m', shutdown ec m = (Ret tt, m') /\
    objects m' !! cur m' = Some (Inactive code) /\ live m' = ∅ /\ timers m' = ∅ /\
    loop m' = loop m ++ (TClose <$> elements (live m)) ++ (if closed_ m then [] else [TCleanup code]) /\
    dumped m' = dumped m ++ (if is_error code && negb (bool_decide (code = overseer_shutdowning)) &&
                                negb (bool_decide (dump (out m) = []))
                             then [dump (out m)] else []) /\
    forall ec', shutdown ec' m' = (Ret tt, m').
Proof.
  intros Ho Hd code. destruct (shutdown_run ec o m Hd Ho) as (x & _ & ->).
  change (final_code o ec) with code. set (s1 := made _ _).
  assert (dumped_if (worth_dumping code) s1 =
          set_dumped (dumped m ++ (if worth_dumping code && negb (bool_decide (dump (out m) = []))
                                   then [dump (out m)] else [])) s1) as ->.
  { unfold dumped_if. destruct (worth_dumping code); simpl.
    - change (out s1) with (out m). destruct (dump (out m)); simpl; [by rewrite app_nil_r|done].
    - by rewrite app_nil_r. }
  set (s2 := set_dumped _ s1). eexists. split; [reflexivity|].
  assert (objects (cleared s2) !! cur (cleared s2) = Some (Inactive code)) as Hc by apply lookup_insert_eq.
  unfold posted_cleanup. change (closed_ (cleared s2)) with (closed_ m).
  destruct (closed_ m); (split_and!; [exact Hc|done|done| |done|intros ec'; by apply shutdown_again]).
  - simpl. by rewrite app_nil_r.
  - simpl. by rewrite <- app_assoc.
Qed.

Lemma shutdown_witness :
  exists m', shutdown heartbeat_timeout started = (Ret tt, m') /\
    objects m' !! cur m' = Some (Inactive heartbeat_timeout).
Proof.
  destruct (shutdown_spec heartbeat_timeout Preparation started) as (m' & E & Hc & _); [reflexivity|reflexivity|].
  by exists m'.
Defined.

(** Sealing ends when its last channel is revoked: the slave asks the worker to stop
    and waits in the terminating state, holding the control dispatch and the session;
    when the worker is gone already it is shut down at once, and without an error. *)
Theorem sealing_completes (id : Z) (h : bool) (c : Z) (m : machine_t) :
  objects m !! cur m = Some (Seal h true (Some c)) -> live m ⊆ {[id]} -> shutdowned m = false ->
  exists m', revoke id m = (Ret tt, m') /\ live m' = ∅ /\ handled m' = handled m ++ [id] /\
    if connected m
    then objects m' !! cur m' = Some (Terminate h true (Some c)) /\
         sent m' = sent m ++ [(c, slave_is_sealing)] /\ state_timer (cur m') ∈ armed m' /\
         loop m' = loop m
    else objects m' !! cur m' = Some (Inactive success) /\ sent m' = sent m /\
         loop m' = loop m ++ (if closed_ m then [] else [TCleanup success]).
Proof.
  intros Ho Hl Hd. rewrite (revoke_sealing id h c m Ho Hl). set (s1 := unsealed (cur m) (removed id m)).
  assert (live s1 = ∅) as El by (simpl; set_solver).
  unfold st_bind. rewrite go_terminating_run by done. set (s2 := terminating h c s1).
  change (connected s1) with (connected m). destruct (connected m).
  - eexists. split; [reflexivity|]. split_and!; try done; [apply lookup_insert_eq|simpl; set_solver].
  - destruct (shutdown_run conrol_ipc_error (Terminate h true (Some c)) s2) as (x & _ & ->);
      [done|apply lookup_insert_eq|].
    change (final_code _ _) with success. set (s3 := made _ (set_armed x _)).
    destruct (dumped_if_frame (worth_dumping success) s3) as [y ->].
    unfold posted_cleanup. set (s4 := cleared (set_dumped y s3)). change (closed_ s4) with (closed_ m).
    assert (loop s4 = loop m) as El4.
    { unfold s4, cleared. cbn [loop set_live set_loop]. change (live _) with (live s1). rewrite El, elements_empty.
      by apply app_nil_r. }
    assert (objects s4 !! cur s4 = Some (Inactive success)) as Ec by apply lookup_insert_eq.
    destruct (closed_ m); (eexists; split; [reflexivity|]); split_and!; try done.
    + rewrite app_nil_r. exact El4.
    + cbn [loop set_loop set_handled]. by rewrite El4.
Qed.

(** A slave sealed while it serves one request. *)
Definition sealed_events : list event :=
  boot ++ [Enqueued 7; Inject (mk_load 7 0 (Some 1000)) (mk_env 5 true true true); SealIt].
Definition sealed_machine : machine_t :=
  match run example_profile sealed_events started with Ret m => m | Throw _ => started end.

Lemma sealing_completes_witness :
  exists m', revoke 2 sealed_machine = (Ret tt, m') /\ objects m' !! cur m' = Some (Terminate true true (Some 4)).
Proof.
  destruct (sealing_completes 2 true 4 sealed_machine) as (m' & E & _ & _ & Hc);
    [vm_compute; reflexivity|vm_compute; set_solver|vm_compute; reflexivity|].
  exists m'. split; [exact E|]. exact (proj1 Hc).
Defined.

Section inject.
Context (profile : profile_t).

(** Only an active slave takes requests: in any other state [inject] throws
    [invalid_state] and leaves everything but the channel counter as it was. *)
Theorem inject_refused (load : load_t) (e : inject_env) (o : state_obj) (m : machine_t) :
  objects m !! cur m = Some o -> is_active o = false ->
  inject profile load e m =
    (Throw (system_error invalid_state), set_counter (u64 (counter m + 1)) m).
Proof.
  intros Ho Ha. unfold inject. call. apply st_bind_Throw. unfold state_inject.
  set (s1 := set_counter _ m). assert (objects s1 !! cur s1 = Some o) as Ho1 by done. call.
  by destruct o.
Qed.

(** The channel of a request just accepted. *)
Definition new_chan (load : load_t) (id : Z) (st : Z) (watched attached : bool) (w : worker.dispatch_t) : chan_obj :=
  mk_chan (channel.mk id (birthstamp load) st watched attached) w (dispatch load).

(** The state after the channel has been inserted. *)
Definition accepted (load : load_t) (m : machine_t) : machine_t :=
  let id := u64 (counter m + 1) in
  set_live ({[id]} ∪ live m)
    (set_chans (<[id := new_chan load id channel.both false true worker.construct]> (chans m))
      (set_counter id m)).

Lemma inject_prefix load e h c m :
  let id := u64 (counter m + 1) in
  objects m !! cur m = Some (Active h true c) -> fork_ok e = true -> send_ok e = true ->
  inject profile load e m =
      ((if duration profile load (now e) <=? 0 then timed_out (dispatch load) id
        else insert_timer id ;;; arm (channel_timer id)) ;;;
       client_attach (attach_ok e) (dispatch load) id ;;;
       channel_do channel.Watch id ;;;
       st_ret id) (accepted load m).
Proof.
  intros id Ho Hf Hs. unfold inject. call. fold id. set (s1 := set_counter id m).
  assert (objects s1 !! cur s1 = Some (Active h true c)) as Ho1 by done.
  rewrite (st_bind_Ret _ _ s1 tt s1).
  2: { unfold state_inject. call. cbn. by rewrite Hf. }
  call. rewrite Hs. call. set (s2 := set_chans _ s1).
  assert (chans s2 !! id = Some (mk_chan (channel.construct id (birthstamp load)) worker.construct (dispatch load)))
    as Hc by apply lookup_insert_eq.
  call. call. call. f_equal. unfold accepted. fold id. f_equal. unfold s2, set_chans; simpl.
  by rewrite insert_insert_eq.
Qed.

Lemma store_chan_twice id a b X s :
  set_chans (<[id := b]> (chans (set_chans (<[id := a]> X) s))) (set_chans (<[id := a]> X) s) =
  set_chans (<[id := b]> X) s.
Proof. unfold set_chans; simpl. by rewrite insert_insert_eq. Qed.

(** An active slave accepts a request in time: it gets the next channel number,
    the load grows by one, the request timer is armed, the client's dispatch is bound
    to the channel, and the state of the slave is untouched. *)
Theorem inject_accepts (load : load_t) (e : inject_env) (h : bool) (c : option Z) (ec : error_code)
    (t : Z) (m : machine_t) :
  let id := u64 (counter m + 1) in
  objects m !! cur m = Some (Active h true c) ->
  clients m !! dispatch load = Some (mk_client (client.mk client.open ec) t) ->
  fork_ok e = true -> send_ok e = true -> attach_ok e = true -> (id ∉ live m) ->
  0 < duration profile load (now e) ->
  exists m', inject profile load e m = (Ret id, m') /\
    objects m' = objects m /\ cur m' = cur m /\
    live m' = {[id]} ∪ live m /\ Machine.load m' = S (Machine.load m) /\
    timers m' = {[id]} ∪ timers m /\ channel_timer id ∈ armed m' /\ handled m' = handled m /\
    clients m' !! dispatch load = Some (mk_client (client.mk client.bound ec) id).
Proof.
  intros id Ho Hc Hf Hs Ha Hl Hd.
  rewrite (inject_prefix load e h c m Ho Hf Hs). fold id. set (s := accepted load m).
  rewrite (proj2 (Z.leb_gt _ _)) by done. rewrite (st_bind_Ret _ _ s tt _) by reflexivity. rewrite Ha.
  set (s1 := set_armed _ _).
  assert (clients s1 !! dispatch load = Some (mk_client (client.mk client.open ec) t)) as Hc1 by done.
  erewrite st_bind_Ret by (unfold client_attach; call; reflexivity).
  set (s2 := set_clients _ s1).
  assert (chans s2 !! id = Some (new_chan load id channel.both false true worker.construct)) as Hi.
  { apply lookup_insert_eq. }
  erewrite st_bind_Ret by (unfold channel_do; call; reflexivity).
  assert (live s2 = {[id]} ∪ live m) as El by done.
  eexists. split; [reflexivity|].
  split; [done|]. split; [done|]. split; [exact El|].
  split; [change (size (live s2) = S (size (live m))); rewrite El, size_union by set_solver; by rewrite size_singleton|].
  split; [done|].
  split; [change (channel_timer id ∈ {[channel_timer id]} ∪ armed s); set_solver|].
  split; [done|]. apply lookup_insert_eq.
Qed.

(** The steps of a request that is late.  Its dispatches are discarded: *)
Lemma timed_out_run load id ec t s :
  chans s !! id = Some (new_chan load id channel.both false true worker.construct) ->
  clients s !! dispatch load = Some (mk_client (client.mk client.open ec) t) ->
  timed_out (dispatch load) id s =
    (Ret tt, set_chans (<[id := new_chan load id channel.tx false true (worker.mk worker.closed)]> (chans s))
               (set_clients (<[dispatch load := mk_client (client.mk client.closed timeout_error) t]> (clients s)) s)).
Proof.
  intros Hi Hc. unfold timed_out. set (s1 := set_clients _ s).
  rewrite (st_bind_Ret _ _ s tt s1) by (unfold client_do; by call).
  assert (chans s1 !! id = Some (new_chan load id channel.both false true worker.construct)) as Hi1 by done.
  unfold worker_do. call. change (worker.step _ _) with (Some success, worker.mk worker.closed).
  cbv beta iota. call. unfold on_recv_closed, channel_do. set (s1' := set_chans _ s1).
  assert (chans s1' !! id = Some (new_chan load id channel.both false true (worker.mk worker.closed))) as Hi2
    by apply lookup_insert_eq.
  call. change (channel.step _ _) with (false, channel.mk id (birthstamp load) channel.tx false true).
  cbv beta iota. call. unfold st_when, st_ret. f_equal. exact (store_chan_twice id _ _ (chans s) s1).
Qed.

(** the stored error comes back when the client's dispatch is attached: *)
Lemma attach_closed_run load id t s :
  let d := mk_client (client.mk client.closed timeout_error) t in
  chans s !! id = Some (new_chan load id channel.tx false true (worker.mk worker.closed)) ->
  clients s !! dispatch load = Some d ->
  client_attach true (dispatch load) id s =
    (Ret tt, set_chans (<[id := new_chan load id channel.none false true (worker.mk worker.closed)]> (chans s))
               (set_clients (<[dispatch load := d]> (clients s)) s)).
Proof.
  intros d Hi Hc. unfold client_attach. call.
  change (client.attach _ _) with (Ret (E:=client.error) (Some timeout_error), client.mk client.closed timeout_error).
  cbv beta iota. call. unfold on_send_closed, channel_do. fold d. set (s1 := set_clients _ s).
  assert (chans s1 !! id = Some (new_chan load id channel.tx false true (worker.mk worker.closed))) as Hi1 by done.
  call. change (channel.step _ _) with (false, channel.mk id (birthstamp load) channel.none false true).
  cbv beta iota. call. done.
Qed.

(** and the closed channel is revoked as soon as it is watched. *)
Lemma watch_closed_run load id h c s :
  chans s !! id = Some (new_chan load id channel.none false true (worker.mk worker.closed)) ->
  objects s !! cur s = Some (Active h true c) ->
  let s' := set_chans (<[id := new_chan load id channel.none true false (worker.mk worker.closed)]> (chans s)) s in
  channel_do channel.Watch id s = (Ret tt, set_handled (handled s ++ [id]) (removed id s')).
Proof.
  intros Hi Ho s'. unfold channel_do. call.
  change (channel.step _ _) with (true, channel.mk id (birthstamp load) channel.none true false).
  cbv beta iota. call. unfold revoke. cbn [st_when]. call. call.
  match goal with |- context [set_timers ?x ?y] => change (set_timers x y) with (removed id s') end.
  assert (objects (removed id s') !! cur (removed id s') = Some (Active h true c)) as Ho1 by done.
  call. call. reflexivity.
Qed.

(** A request whose time is up when it reaches the slave is accepted and dropped
    at once: both dispatches are discarded with a timeout, the channel is revoked, and
    neither the load nor the timers change. *)
Theorem inject_too_late (load : load_t) (e : inject_env) (h : bool) (c : option Z) (ec : error_code)
    (t : Z) (m : machine_t) :
  let id := u64 (counter m + 1) in
  objects m !! cur m = Some (Active h true c) ->
  clients m !! dispatch load = Some (mk_client (client.mk client.open ec) t) ->
  fork_ok e = true -> send_ok e = true -> attach_ok e = true ->
  (id ∉ live m) -> (id ∉ timers m) -> duration profile load (now e) <= 0 ->
  exists m', inject profile load e m = (Ret id, m') /\
    objects m' = objects m /\ cur m' = cur m /\ live m' = live m /\ timers m' = timers m /\
    handled m' = handled m ++ [id] /\
    clients m' !! dispatch load = Some (mk_client (client.mk client.closed timeout_error) t) /\
    chans m' !! id = Some (new_chan load id channel.none true false (worker.mk worker.closed)).
Proof.
  intros id Ho Hc Hf Hs Ha Hl Ht Hd.
  rewrite (inject_prefix load e h c m Ho Hf Hs). fold id. set (s := accepted load m).
  rewrite (proj2 (Z.leb_le _ _)) by done.
  erewrite st_bind_Ret by (apply (timed_out_run load id ec t s); [apply lookup_insert_eq|done]).
  rewrite Ha. set (s1 := set_chans _ _).
  erewrite st_bind_Ret by (apply (attach_closed_run load id t s1); apply lookup_insert_eq).
  set (s2 := set_chans _ _).
  erewrite st_bind_Ret by (apply (watch_closed_run load id h c s2); [apply lookup_insert_eq|done]).
  eexists. split; [reflexivity|].
  split; [done|]. split; [done|].
  split. { change (live s ∖ {[id]} = live m). unfold s, accepted; simpl. fold id. set_solver. }
  split. { change (timers m ∖ {[id]} = timers m). set_solver. }
  split; [done|]. split; apply lookup_insert_eq.
Qed.
End inject.

Definition ready_machine : machine_t :=
  match run example_profile (boot ++ [Enqueued 7]) started with Ret m => m | Throw _ => started end.

Lemma inject_refused_witness :
  inject example_profile (mk_load 7 0 None) (mk_env 5 true true true) started =
    (Throw (system_error invalid_state), set_counter 2 started).
Proof. apply (inject_refused example_profile _ _ Preparation); reflexivity. Defined.

Lemma inject_accepts_witness :
  exists m', inject example_profile (mk_load 7 0 (Some 1000)) (mk_env 5 true true true) ready_machine = (Ret 2, m') /\
    Machine.load m' = 1%nat.
Proof.
  destruct (inject_accepts example_profile (mk_load 7 0 (Some 1000)) (mk_env 5 true true true) true (Some 4)
              success 0 ready_machine) as (m' & E & _ & _ & _ & Hl & _);
    [vm_compute; reflexivity..|vm_compute; set_solver|vm_compute; reflexivity|].
  exists m'. split; [exact E|exact Hl].
Defined.

Lemma inject_too_late_witness :
  exists m', inject example_profile (mk_load 7 0 (Some 1)) (mk_env 2000000 true true true) ready_machine = (Ret 2, m') /\
    live m' = ∅ /\ handled m' = [2].
Proof.
  destruct (inject_too_late example_profile (mk_load 7 0 (Some 1)) (mk_env 2000000 true true true) true (Some 4)
              success 0 ready_machine) as (m' & E & _ & _ & Hl & _ & Hh & _);
    [vm_compute; reflexivity..|vm_compute; set_solver|vm_compute; set_solver|vm_compute; discriminate|].
  exists m'. split; [exact E|]. split; [rewrite Hl; reflexivity|rewrite Hh; reflexivity].
Defined.

(** ** Races *)

(** The seal timer can expire just before the last channel is closed.  Sealing then
    ends normally, and the handler of the timer, already posted, terminates the sealing
    state a second time: its control dispatch has been moved away, and the process
    follows a null pointer.  The events before the handler are fair. *)
Theorem seal_timeout_race (profile : profile_t) :
  exists (evs : list event) (m : machine_t) (a : Z),
    fair_run profile evs started = true /\ run profile evs started = Ret m /\
    loop m !! 0%nat = Some (TStateTimeout a) /\ objects m !! a = Some (Seal false false None) /\
    (step profile (Run 0 true Spawned) m).1 = Throw crash.
Proof.
  exists (sealed_events ++ [Expire (state_timer 6); FromWorker (worker.Choke true) 2;
                            FromClient (client.Close true) 7]).
  eexists _, 6. split; [vm_compute; reflexivity|]. split; [vm_compute; reflexivity|].
  split; [reflexivity|]. split; vm_compute; reflexivity.
Qed.

(** A slave can be terminated while the authentication service is asked for a
    token.  Nothing keeps the preparation state alive (the callback holds a bare
    pointer), so it is destroyed, and the answer reads the destroyed object. *)
Theorem late_token_race (profile : profile_t) (ec : error_code) :
  exists (evs : list event) (m : machine_t) (a : Z),
    fair_run profile evs started = true /\ run profile evs started = Ret m /\
    token_wait m = Some a /\ objects m !! a = None /\
    (step profile (Token ec) m).1 = Throw crash.
Proof.
  exists [Run 0 true Spawned; TerminateIt overseer_shutdowning; Destroy 1].
  eexists _, 1. split; [vm_compute; reflexivity|]. split; [vm_compute; reflexivity|].
  split; [reflexivity|]. split; vm_compute; reflexivity.
Qed.

(** A slave that ends while terminating tells its owner so without an error; the
    owner passes that code on to [slave_t::terminate] and destroys the slave, and the
    destructor runs into the assertion that the code is an error. *)
Theorem clean_death_asserts (ec : error_code) (h : bool) (c : option Z) (m : machine_t) :
  objects m !! cur m = Some (Terminate h true c) -> shutdowned m = false -> closed_ m = false ->
  exists m', shutdown ec m = (Ret tt, m') /\ last (loop m') = Some (TCleanup success) /\
    (slave_destroy (slave_terminate success (mk_slave overseer_shutdowning (Some m')))).1 = Throw crash.
Proof.
  intros Ho Hd Hc. destruct (shutdown_run ec _ m Hd Ho) as (x & _ & ->). eexists. split; [reflexivity|].
  change (final_code _ _) with success. set (s1 := made _ _).
  destruct (dumped_if_frame (worth_dumping success) s1) as [y ->].
  unfold posted_cleanup. change (closed_ (cleared _)) with (closed_ m). rewrite Hc.
  split; [|reflexivity]. simpl. by rewrite last_snoc.
Qed.

Definition terminating_machine : machine_t :=
  match run example_profile (boot ++ [SealIt]) started with Ret m => m | Throw _ => started end.
Lemma clean_death_witness :
  exists m', shutdown committed_suicide terminating_machine = (Ret tt, m') /\
    (slave_destroy (slave_terminate success (mk_slave overseer_shutdowning (Some m')))).1 = Throw crash.
Proof.
  destruct (clean_death_asserts committed_suicide true (Some 4) terminating_machine) as (m' & E & _ & Hd);
    [vm_compute; reflexivity..|]. exists m'. split; [exact E|exact Hd].
Defined.
