(* ===== verification/Engine.v ===== *)
(** * The engine: the pool of slaves and the queue of requests

    [node/src/node/engine.cpp] and its owner [overseer.cpp].  The engine knows a
    slave through the interface [Slave] below: whether it is active, its load, and
    what [inject], [seal] and [activate] may do to it.  The theorems are proved
    against the laws of the interface, and the slave state machine discharges
    them in another file.

    The profile is fixed.  [gen] yields the uuids of new slaves; handlers posted to
    the event loop are kept in [posted] and run one by one in any order. *)

From S2P Require Import Prelude Profile Channel.

Local Open Scope Z_scope.
Local Open Scope cpp_scope.

(** ** What the engine asks of a slave *)

Class Slave (S Load Env : Type) := {
  slave_fresh : S;
  slave_active : S -> bool;
  slave_load : S -> nat;
  (** [true] when the call returned, [false] when it threw *)
  slave_inject : Load -> Env -> S -> bool * S;
  slave_seal : S -> bool * S;
  (** a control dispatch, a null pointer, or an exception *)
  slave_activate : bool -> bool -> S -> outcome unit bool * S;
  (** what a slave may do on its own *)
  slave_moves : S -> S -> Prop;

  fresh_load : slave_load slave_fresh = 0%nat;
  inject_adds_one : forall l e s, (slave_load (slave_inject l e s).2 <= Datatypes.S (slave_load s))%nat;
  seal_adds_none : forall s, (slave_load (slave_seal s).2 <= slave_load s)%nat;
  seal_deactivates : forall s, slave_active s = true -> slave_active (slave_seal s).2 = false;
  activate_adds_none : forall a b s, (slave_load (slave_activate a b s).2 <= slave_load s)%nat;
  moves_add_none : forall s s', slave_moves s s' -> (slave_load s' <= slave_load s)%nat
}.

(** ** Data *)

(** [load_t] with the parts of its event the engine reads; times are in
    nanoseconds, timeouts in milliseconds. *)
Record request {Load : Type} := mk_request {
  payload : Load;
  birthstamp : Z;
  timeout_header : option Z;
  deadline : option Z
}.
Arguments request : clear implicits.
Arguments mk_request {Load}.

(** The clock readings of one [assign], and what [inject] meets. *)
Record assign_env {Env : Type} := mk_assign_env { now_timeout : Z; now_deadline : Z; inject_env : Env }.
Arguments assign_env : clear implicits.
Arguments mk_assign_env {Env}.

Inductive engine_error :=
| queue_is_full | pool_is_full | rejected_assignment | invalid_slave_state
| division_by_zero.   (* undefined behaviour: the process dies *)
#[export] Instance engine_error_eq_dec : EqDecision engine_error.
Proof. solve_decision. Defined.

Inductive job := JRebalanceEvents | JRebalanceSlaves.
Inductive despawn_policy_t := graceful | force.

(** [error::overseer_shutdowning], the code a slave is destroyed with by default. *)
Definition overseer_shutdowning : error_code := mk_ec slave_category 11.

Section engine.
Context {S Load Env : Type} `{SL : !Slave S Load Env}.
Context (profile : profile_t) (gen : nat -> string).

Record engine_t := mk_engine {
  pool : gmap string S;
  queue : list (request Load);
  pool_target : Z;
  stopped : bool;
  on_spawn_rate_timer : bool;
  last_failed : Z;
  last_timeout : Z;                (** seconds *)
  accepted : Z; rejected : Z; spawned : Z; crashed : Z;
  posted : list job;
  dropped : list (request Load);   (** requests answered with [deadline_error] *)
  released : list (string * error_code);  (** slaves destroyed, with their codes *)
  told_spawned : nat;              (** notifications of the observers *)
  told_despawned : list string;
  generated : nat
}.

Definition set_pool x st := mk_engine x (queue st) (pool_target st) (stopped st) (on_spawn_rate_timer st)
  (last_failed st) (last_timeout st) (accepted st) (rejected st) (spawned st) (crashed st) (posted st)
  (dropped st) (released st) (told_spawned st) (told_despawned st) (generated st).
Definition set_queue x st := mk_engine (pool st) x (pool_target st) (stopped st) (on_spawn_rate_timer st)
  (last_failed st) (last_timeout st) (accepted st) (rejected st) (spawned st) (crashed st) (posted st)
  (dropped st) (released st) (told_spawned st) (told_despawned st) (generated st).
Definition set_target x st := mk_engine (pool st) (queue st) x (stopped st) (on_spawn_rate_timer st)
  (last_failed st) (last_timeout st) (accepted st) (rejected st) (spawned st) (crashed st) (posted st)
  (dropped st) (released st) (told_spawned st) (told_despawned st) (generated st).
Definition set_stopped x st := mk_engine (pool st) (queue st) (pool_target st) x (on_spawn_rate_timer st)
  (last_failed st) (last_timeout st) (accepted st) (rejected st) (spawned st) (crashed st) (posted st)
  (dropped st) (released st) (told_spawned st) (told_despawned st) (generated st).
Definition set_backoff (timer : bool) (failed timeout : Z) st := mk_engine (pool st) (queue st) (pool_target st)
  (stopped st) timer failed timeout (accepted st) (rejected st) (spawned st) (crashed st) (posted st)
  (dropped st) (released st) (told_spawned st) (told_despawned st) (generated st).
Definition set_stats (a r s c : Z) st := mk_engine (pool st) (queue st) (pool_target st)
  (stopped st) (on_spawn_rate_timer st) (last_failed st) (last_timeout st) a r s c (posted st)
  (dropped st) (released st) (told_spawned st) (told_despawned st) (generated st).
Definition set_posted x st := mk_engine (pool st) (queue st) (pool_target st) (stopped st) (on_spawn_rate_timer st)
  (last_failed st) (last_timeout st) (accepted st) (rejected st) (spawned st) (crashed st) x
  (dropped st) (released st) (told_spawned st) (told_despawned st) (generated st).
Definition set_dropped x st := mk_engine (pool st) (queue st) (pool_target st) (stopped st) (on_spawn_rate_timer st)
  (last_failed st) (last_timeout st) (accepted st) (rejected st) (spawned st) (crashed st) (posted st)
  x (released st) (told_spawned st) (told_despawned st) (generated st).
Definition set_released x st := mk_engine (pool st) (queue st) (pool_target st) (stopped st) (on_spawn_rate_timer st)
  (last_failed st) (last_timeout st) (accepted st) (rejected st) (spawned st) (crashed st) (posted st)
  (dropped st) x (told_spawned st) (told_despawned st) (generated st).
Definition set_told (n : nat) (l : list string) st := mk_engine (pool st) (queue st) (pool_target st)
  (stopped st) (on_spawn_rate_timer st) (last_failed st) (last_timeout st) (accepted st) (rejected st)
  (spawned st) (crashed st) (posted st) (dropped st) (released st) n l (generated st).
Definition set_generated x st := mk_engine (pool st) (queue st) (pool_target st) (stopped st) (on_spawn_rate_timer st)
  (last_failed st) (last_timeout st) (accepted st) (rejected st) (spawned st) (crashed st) (posted st)
  (dropped st) (released st) (told_spawned st) (told_despawned st) x.

Abbreviation E := (ST engine_t engine_error).

Definition engine_construct : engine_t :=
  mk_engine ∅ [] 0 false false 0 1 0 0 0 0 [] [] [] 0 [] 0.

Definition pool_size (st : engine_t) : Z := Z.of_nat (size (pool st)).
Definition queue_size (st : engine_t) : Z := Z.of_nat (length (queue st)).

Definition active_workers (st : engine_t) : Z :=
  u32 (Z.of_nat (length (filter (fun e => slave_active e.2 = true) (map_to_list (pool st))))).
Definition pooled_workers_ids (st : engine_t) : list string := (map_to_list (pool st)).*1.

(** [boost::min_element] by load: the first of the least loaded. *)
Fixpoint min_load (l : list (string * S)) : option (string * S) :=
  match l with
  | [] => None
  | x :: l =>
      match min_load l with
      | Some y => if (slave_load y.2 <? slave_load x.2)%nat then Some y else Some x
      | None => Some x
      end
  end.

Definition select_where (f : S -> bool) (p : gmap string S) : option (string * S) :=
  min_load (filter (fun e => f e.2 = true) (map_to_list p)).

Definition free (s : S) : bool := slave_active s && (Z.of_nat (slave_load s) <? concurrency profile).
Definition select_slave (p : gmap string S) : option (string * S) := select_where free p.

(** [boost::accumulate] with an [int] as its initial value, returned as [size_t]. *)
Definition pool_pressure (p : gmap string S) : Z :=
  u64 (foldl (fun acc e => i32 (u64 (u64 acc + Z.of_nat (slave_load e.2)))) 0 (map_to_list p)).

Definition post (j : job) : E unit := st_modify (fun st => set_posted (posted st ++ [j]) st).

(** ** Assignment of requests *)

Definition expired (r : request Load) (e : assign_env Env) : bool :=
  let timeout := default (request_timeout profile) (timeout_header r) in
  (i64 (birthstamp r + 1000000 * i64 timeout) <? now_timeout e) ||
  match deadline r with Some d => d <? now_deadline e | None => false end.

Definition assign (id : string) (r : request Load) (e : assign_env Env) : E unit :=
  if expired r e then st_modify (fun st => set_dropped (dropped st ++ [r]) st)
  else
    let! st := st_get in
    match pool st !! id with
    | None => st_throw invalid_slave_state
    | Some s =>
        let '(ok, s') := slave_inject (payload r) (inject_env e) s in
        st_modify (fun st => set_pool (<[id := s']> (pool st)) st) ;;;
        if (ok : bool) then st_ret tt else st_throw rejected_assignment
    end.

Definition pop_front : E unit := st_modify (fun st => set_queue (tail (queue st)) st).

(** The [while] loop of [rebalance_events]; [env k] is what its [k]-th turn meets.
    Every turn that goes on has removed a request, so the length of the queue is
    fuel enough. *)
Fixpoint rebalance_loop (n : nat) (k : nat) (env : nat -> assign_env Env) : E unit :=
  match n with
  | O => st_ret tt
  | Datatypes.S n =>
      let! st := st_get in
      match queue st with
      | [] => st_ret tt
      | r :: _ =>
          match select_slave (pool st) with
          | None => st_ret tt
          | Some (id, _) =>
              let! go := st_catch (assign id r (env k) ;;; pop_front ;;; st_ret true)
                                  (fun _ => post JRebalanceSlaves ;;; st_ret false) in
              if (go : bool) then rebalance_loop n (Datatypes.S k) env else st_ret tt
          end
      end
  end.

Definition rebalance_events (env : nat -> assign_env Env) : E unit :=
  let! st := st_get in
  if bool_decide (pool st = ∅) then st_ret tt else rebalance_loop (length (queue st)) 0 env.

(** ** Spawning and sealing *)

Definition spawn : E unit :=
  let! st := st_get in
  if pool_size st >=? pool_limit profile then st_throw pool_is_full else
  let id := gen (generated st) in
  st_modify (set_generated (Datatypes.S (generated st))) ;;;
  (* [insert] does not replace *)
  st_modify (fun st => match pool st !! id with
                       | Some _ => st
                       | None => set_pool (<[id := slave_fresh]> (pool st)) st
                       end) ;;;
  st_modify (fun st => set_stats (accepted st) (rejected st) (spawned st + 1) (crashed st) st).

(** [while (pool.size() < target) spawn(pool)]; the number of missing slaves is
    fuel enough, as new uuids are new. *)
Fixpoint spawn_loop (n : nat) (target : Z) : E unit :=
  match n with
  | O => st_ret tt
  | Datatypes.S n =>
      let! st := st_get in
      if pool_size st <? target then spawn ;;; spawn_loop n target else st_ret tt
  end.

(** [while (active-- > target)], a bounded number of turns. *)
Fixpoint seal_loop (n : nat) : E unit :=
  match n with
  | O => st_ret tt
  | Datatypes.S n =>
      let! st := st_get in
      match select_where slave_active (pool st) with
      | None => st_ret tt
      | Some (id, s) =>
          st_modify (fun st => set_pool (<[id := (slave_seal s).2]> (pool st)) st) ;;;
          seal_loop n
      end
  end.

Definition count_active (p : gmap string S) : Z :=
  Z.of_nat (length (filter (fun e => slave_active e.2 = true) (map_to_list p))).

(** [std::ceil((load - vacant) / static_cast<double>(concurrency))]: exact, for a
    queue shorter than 2^53. *)
Definition ceil_div (a b : Z) : Z := (a + b - 1) / b.

Definition wanted (st : engine_t) : outcome engine_error Z :=
  if 0 <? pool_target st then Ret (pool_target st)
  else if 0 <? queue_limit profile then
    if grow_threshold profile =? 0 then Throw division_by_zero
    else Ret (queue_size st / grow_threshold profile)
  else
    let vacant := u64 (pool_size st * concurrency profile - pool_pressure (pool st)) in
    let lack := if queue_size st <? vacant then 0
                else ceil_div (queue_size st - vacant) (concurrency profile) in
    Ret (u64 (pool_size st + lack)).

Definition rebalance_slaves : E unit :=
  let! st := st_get in
  if stopped st then st_ret tt else
  match wanted st with
  | Throw e => st_throw e
  | Ret target =>
      let target := clamp target 1 (pool_limit profile) in
      if on_spawn_rate_timer st then st_ret tt else
      if 0 <? pool_target st then
        if target <=? pool_size st then seal_loop (Z.to_nat (count_active (pool st) - target))
        else spawn_loop (Z.to_nat (target - pool_size st)) target
      else
        if pool_size st >=? pool_limit profile then st_ret tt
        else spawn_loop (Z.to_nat (target - pool_size st)) target
  end.

(** ** The operations *)

(** A [catch] clause: a division by zero is no exception. *)
Definition try_engine {A} (m : E A) (h : engine_error -> E A) : E A :=
  st_catch m (fun e => match e with division_by_zero => st_throw e | _ => h e end).

Definition enqueue_push (r : request Load) (env : nat -> assign_env Env) : E unit :=
  let! st := st_get in
  let limit := queue_limit profile in
  if (0 <? limit) && (queue_size st >=? limit) then st_throw queue_is_full else
  let vacant := u64 (pool_limit profile * concurrency profile - pool_pressure (pool st)) in
  if (limit =? 0) && (queue_size st >=? vacant) then st_throw queue_is_full else
  st_modify (fun st => set_queue (queue st ++ [r]) st) ;;;
  st_modify (fun st => set_stats (accepted st + 1) (rejected st) (spawned st) (crashed st) st) ;;;
  rebalance_events env.

Definition enqueue (r : request Load) (env env' : nat -> assign_env Env) : E unit :=
  try_engine
    (enqueue_push r env ;;; rebalance_slaves)
    (fun e =>
       st_modify (fun st => set_stats (accepted st) (rejected st + 1) (spawned st) (crashed st) st) ;;;
       rebalance_events env' ;;;
       rebalance_slaves ;;;
       st_throw e).

Definition control_population (count : Z) : E unit :=
  st_modify (set_target (Z.max 0 count)) ;;;
  rebalance_slaves.

Definition tell_despawned (id : string) : E unit :=
  st_modify (fun st => set_told (told_spawned st) (told_despawned st ++ [id]) st).

Definition despawn (id : string) (policy : despawn_policy_t) : E unit :=
  let! st := st_get in
  match pool st !! id with
  | None => st_ret tt
  | Some s =>
      match policy with
      | graceful =>
          let '(ok, s') := slave_seal s in
          st_modify (fun st => set_pool (<[id := s']> (pool st)) st) ;;;
          if (ok : bool) then st_ret tt else st_throw invalid_slave_state
      | force =>
          st_modify (fun st => set_released (released st ++ [(id, overseer_shutdowning)])
                                 (set_pool (delete id (pool st)) st)) ;;;
          post JRebalanceSlaves ;;;
          tell_despawned id
      end
  end.

Definition on_handshake (id : string) (timer_ok starts : bool) : E bool :=
  let! st := st_get in
  match pool st !! id with
  | None => st_ret false
  | Some s =>
      let '(r, s') := slave_activate timer_ok starts s in
      st_modify (fun st => set_pool (<[id := s']> (pool st)) st) ;;;
      match r with
      | Ret true =>
          post JRebalanceEvents ;;;
          st_modify (fun st => set_told (Datatypes.S (told_spawned st)) (told_despawned st) st) ;;;
          st_ret true
      | _ => st_ret false
      end
  end.

Definition seconds (z : Z) : Z := 1000000000 * z.

(** The backoff: [now] and [now'] are its two readings of the clock. *)
Definition backoff (now now' : Z) (st : engine_t) : engine_t :=
  if on_spawn_rate_timer st then set_backoff true now' (last_timeout st) st
  else set_backoff true now'
         (if now - last_failed st <? seconds 32 then Z.min (last_timeout st * 2) 32 else 1) st.

Definition on_slave_death (ec : error_code) (uuid : string) (now now' : Z) : E unit :=
  st_when (is_error ec)
    (st_modify (backoff now now') ;;;
     st_modify (fun st => set_stats (accepted st) (rejected st) (spawned st) (crashed st + 1) st)) ;;;
  st_modify (fun st => match pool st !! uuid with
                       | Some _ => set_released (released st ++ [(uuid, ec)]) (set_pool (delete uuid (pool st)) st)
                       | None => st
                       end) ;;;
  tell_despawned uuid ;;;
  post JRebalanceSlaves.

Definition on_spawn_rate_timeout : E unit :=
  st_modify (fun st => set_backoff false (last_failed st) (last_timeout st) st) ;;;
  rebalance_slaves.

(** [~overseer_t] *)
Definition overseer_destroy : E unit :=
  st_modify (set_stopped true) ;;;
  control_population 0 ;;;
  st_modify (fun st => set_released (released st ++ ((fun e => (e.1, overseer_shutdowning)) <$> map_to_list (pool st)))
                         (set_pool ∅ st)) ;;;
  st_modify (fun st => set_backoff false (last_failed st) (last_timeout st) st).

(** The handler of a closed channel posts a rebalance. *)
Definition on_channel_closed : E unit := post JRebalanceEvents.

Definition run_job (i : nat) (env : nat -> assign_env Env) : E unit :=
  let! st := st_get in
  match posted st !! i with
  | None => st_ret tt
  | Some j =>
      st_modify (fun st => set_posted (delete i (posted st)) st) ;;;
      match j with JRebalanceEvents => rebalance_events env | JRebalanceSlaves => rebalance_slaves end
  end.

(** ** Events *)

Inductive op :=
| Enqueue (r : request Load) (env env' : nat -> assign_env Env)
| ControlPopulation (count : Z)
| Despawn (id : string) (policy : despawn_policy_t)
| Handshake (id : string) (timer_ok starts : bool)
| SlaveDeath (ec : error_code) (uuid : string) (now now' : Z)
| SpawnRateTimeout
| ChannelClosed
| RunJob (i : nat) (env : nat -> assign_env Env)
| Destroy.

Definition exec (o : op) : E unit :=
  match o with
  | Enqueue r env env' => enqueue r env env'
  | ControlPopulation count => control_population count
  | Despawn id policy => despawn id policy
  | Handshake id timer_ok starts => let! _ := on_handshake id timer_ok starts in st_ret tt
  | SlaveDeath ec uuid now now' => on_slave_death ec uuid now now'
  | SpawnRateTimeout => on_spawn_rate_timeout
  | ChannelClosed => on_channel_closed
  | RunJob i env => run_job i env
  | Destroy => overseer_destroy
  end.

(** The engine runs an operation, or one of its slaves does something on its own. *)
Inductive step : engine_t -> engine_t -> Prop :=
| step_op o st : step st (exec o st).2
| step_slave id s s' st :
    pool st !! id = Some s -> slave_moves s s' -> step st (set_pool (<[id := s']> (pool st)) st).

Definition reachable : engine_t -> Prop := rtc step engine_construct.
End engine.
