(* ===== verification/EngineMachine.v ===== *)
(** * The slave state machine as a slave of the engine

    The state machine implements the interface the engine is verified against: its
    load is the number of its channels, [inject] adds one channel at most, nothing
    else adds any, and a sealed slave is no more active. *)

From S2P Require Import Prelude Profile Channel Machine MachineFacts Engine.

(** A queued request carries its client dispatch, which [inject] hands over. *)
Definition machine_request : Type := client.dispatch_t * load_t.

Definition machine_inject (profile : profile_t) (l : machine_request) (e : Machine.inject_env) (m : machine_t)
  : bool * machine_t :=
  let m := set_clients (<[dispatch l.2 := mk_client l.1 0]> (clients m)) m in
  match Machine.inject profile l.2 e m with
  | (Ret _, m) => (true, m)
  | (Throw _, m) => (false, m)
  end.

Definition machine_seal (m : machine_t) : bool * machine_t :=
  match Machine.seal m with
  | (Ret _, m) => (true, m)
  | (Throw _, m) => (false, m)
  end.

Definition machine_activate (timer_ok starts : bool) (m : machine_t) : outcome unit bool * machine_t :=
  match Machine.activate timer_ok starts m with
  | (Ret (Some _), m) => (Ret true, m)
  | (Ret None, m) => (Ret false, m)
  | (Throw _, m) => (Throw tt, m)
  end.

(** What happens to a slave between the calls of the engine. *)
Definition machine_moves (profile : profile_t) (m m' : machine_t) : Prop :=
  exists ev, is_inject ev = false /\ m' = (Machine.step profile ev m).2.

#[export] Instance machine_slave (profile : profile_t) : Slave machine_t machine_request Machine.inject_env.
Proof.
  refine (Build_Slave _ _ _ started Machine.active Machine.load (machine_inject profile) machine_seal
            machine_activate (machine_moves profile) _ _ _ _ _ _).
  - reflexivity.
  - intros l e m. unfold machine_inject. set (m1 := set_clients _ m).
    pose proof (inject_load profile l.2 e m1) as H. change (Machine.load m1) with (Machine.load m) in H.
    by destruct (Machine.inject profile l.2 e m1) as [[?|?] m'].
  - intros m. unfold machine_seal. pose proof (step_load profile SealIt m eq_refl) as H. simpl in H.
    by destruct (Machine.seal m) as [[?|?] m'].
  - intros m Ha. unfold machine_seal. pose proof (seal_inactive m Ha) as H.
    by destruct (Machine.seal m) as [[?|?] m'].
  - intros a b m. unfold machine_activate. pose proof (step_load profile (Activate a b) m eq_refl) as H.
    simpl in H. unfold st_bind in H. by destruct (Machine.activate a b m) as [[[?|]|?] m'].
  - intros m m' (ev & Hi & ->). by apply step_load.
Defined.
