(* ===== verification/EngineFacts.v ===== *)
(** * The engine: invariant and lemmas

    The bounds of the pool, the queue and the loads as an invariant of every
    reachable engine; the choice of a slave; what rebalancing does to the queue and to
    the pool; admission of requests; the backoff after failures. *)

From Stdlib Require Import Permutation.
From S2P Require Import Prelude Profile Channel Engine.

Local Open Scope Z_scope.
Local Open Scope cpp_scope.

(** The parameters the engine is meant to run with: a constructed profile whose
    total capacity fits the [int] in which the pressure is summed, and uuids that do
    not repeat. *)
Record sane (profile : profile_t) (gen : nat -> string) : Prop := {
  sane_profile : profile_wf profile;
  sane_capacity : pool_limit profile * concurrency profile < 2 ^ 31;
  sane_uuids : forall i j, gen i = gen j -> i = j
}.

Section facts.
Context {S Load Env : Type} `{SL : !Slave S Load Env}.
Context (profile : profile_t) (gen : nat -> string).

Abbreviation engine := (@engine_t S Load).
Implicit Types (st : engine) (p : gmap string S) (r : request Load).

(** ** Selection *)

Lemma min_load_Some (l : list (string * S)) e :
  min_load l = Some e -> e ∈ l /\ Forall (fun x => (slave_load e.2 <= slave_load x.2)%nat) l.
Proof.
  revert e. induction l as [|x l IH]; intros e; simpl; [done|].
  destruct (min_load l) as [y|] eqn:E.
  - destruct (IH y eq_refl) as [Hy Hl].
    destruct (Nat.ltb_spec (slave_load y.2) (slave_load x.2)) as [Hlt|Hge]; intros [= <-].
    + split; [by right|]. constructor; [lia|done].
    + split; [by left|]. constructor; [lia|]. eapply Forall_impl; [exact Hl|]. simpl. intros z Hz. lia.
  - intros [= <-]. split; [by left|]. constructor; [lia|].
    destruct l as [|z l]; [constructor|]. simpl in E. by destruct (min_load l) as [?|]; [case_match|].
Qed.

Lemma min_load_None (l : list (string * S)) : min_load l = None -> l = [].
Proof. destruct l as [|x l]; [done|]. simpl. by destruct (min_load l); [case_match|]. Qed.

Lemma select_where_Some f p id s :
  select_where f p = Some (id, s) ->
  p !! id = Some s /\ f s = true /\
  forall id' s', p !! id' = Some s' -> f s' = true -> (slave_load s <= slave_load s')%nat.
Proof.
  unfold select_where. intros [Hin Hmin]%min_load_Some.
  apply list_elem_of_filter in Hin as [Hf Hin]. apply elem_of_map_to_list in Hin.
  split; [done|]. split; [done|]. intros id' s' Hs' Hf'. rewrite Forall_forall in Hmin.
  apply (Hmin (id', s')). apply list_elem_of_filter. split; [done|]. by apply elem_of_map_to_list.
Qed.

Lemma select_where_None f p :
  select_where f p = None -> forall id s, p !! id = Some s -> f s = false.
Proof.
  unfold select_where. intros Hn%min_load_None id s Hs. destruct (f s) eqn:Ef; [|done].
  assert ((id, s) ∈ filter (fun e => f e.2 = true) (map_to_list p)) as Hin.
  { apply list_elem_of_filter. split; [done|]. by apply elem_of_map_to_list. }
  rewrite Hn in Hin. by apply elem_of_nil in Hin.
Qed.

(** ** Pressure *)

Definition loads (l : list (string * S)) : Z := foldr (fun e acc => Z.of_nat (slave_load e.2) + acc) 0 l.

Lemma loads_bound (c : Z) l :
  Forall (fun e => Z.of_nat (slave_load e.2) <= c) l -> 0 <= loads l <= Z.of_nat (length l) * c.
Proof. induction 1 as [|e l He Hl IH]; simpl; lia. Qed.

Lemma pressure_fold (c : Z) l : forall acc,
  Forall (fun e => Z.of_nat (slave_load e.2) <= c) l -> 0 <= acc ->
  acc + Z.of_nat (length l) * c < 2 ^ 31 ->
  foldl (fun acc e => i32 (u64 (u64 acc + Z.of_nat (slave_load e.2)))) acc l = acc + loads l.
Proof.
  induction l as [|e l IH]; intros acc Hl Ha Hb; simpl; [lia|].
  inversion Hl as [|? ? He Hl']; subst. simpl in Hb.
  pose proof (loads_bound c l Hl') as [H0 H1].
  rewrite (u64_small acc) by (unfold u64_modulus; lia).
  rewrite u64_small by (unfold u64_modulus; lia).
  rewrite i32_small by lia. rewrite IH; [lia|done|lia|lia].
Qed.

(** ** The invariant *)

Record engine_wf st : Prop := {
  ew_load : forall id s, pool st !! id = Some s -> Z.of_nat (slave_load s) <= concurrency profile;
  ew_size : pool_size st <= pool_limit profile;
  ew_queue : 0 < queue_limit profile -> queue_size st <= queue_limit profile;
  ew_queue0 : queue_limit profile = 0 -> queue_size st <= pool_limit profile * concurrency profile;
  ew_gen : forall id, is_Some (pool st !! id) -> exists n, (n < generated st)%nat /\ id = gen n;
  ew_timeout : 1 <= last_timeout st <= 32;
  ew_target : 0 <= pool_target st
}.

Context (SANE : sane profile gen).

Lemma concurrency_pos : 0 < concurrency profile.
Proof. apply (concurrency_positive profile), SANE. Qed.
Lemma pool_limit_pos : 0 < pool_limit profile.
Proof. apply (pool_limit_positive profile), SANE. Qed.

Lemma pressure_exact st :
  engine_wf st ->
  pool_pressure (pool st) = loads (map_to_list (pool st)) /\
  0 <= loads (map_to_list (pool st)) <= pool_size st * concurrency profile /\
  pool_size st * concurrency profile <= pool_limit profile * concurrency profile.
Proof.
  intros Hw. pose proof concurrency_pos as Hc. pose proof (ew_size st Hw) as Hs.
  assert (Forall (fun e => Z.of_nat (slave_load e.2) <= concurrency profile) (map_to_list (pool st))) as Hl.
  { apply Forall_forall. intros [id s] Hin%elem_of_map_to_list. by eapply ew_load. }
  assert (Z.of_nat (length (map_to_list (pool st))) = pool_size st) as El.
  { unfold pool_size. by rewrite length_map_to_list. }
  pose proof (loads_bound _ _ Hl) as Hb. rewrite El in Hb. pose proof (sane_capacity _ _ SANE) as Hcap.
  assert (pool_size st * concurrency profile <= pool_limit profile * concurrency profile) as Hm by nia.
  split; [|lia]. unfold pool_pressure.
  rewrite (pressure_fold (concurrency profile)) by (done || lia). rewrite Z.add_0_l.
  apply u64_small. unfold u64_modulus. lia.
Qed.

(** Writes outside the pool and the queue. *)
Lemma wf_frame st st' :
  pool st' = pool st -> generated st' = generated st -> pool_target st' = pool_target st ->
  1 <= last_timeout st' <= 32 -> (queue_size st' <= queue_size st) ->
  engine_wf st -> engine_wf st'.
Proof.
  intros Ep Eg Et Hl Hq []. split; try rewrite Ep; try rewrite Eg; try rewrite Et; auto; unfold pool_size in *;
    rewrite ?Ep; auto; intros; lia || (etrans; [exact Hq|]; auto).
Qed.

(** A slave of the pool changes. *)
Lemma wf_update st id s s' :
  engine_wf st -> pool st !! id = Some s -> Z.of_nat (slave_load s') <= concurrency profile ->
  engine_wf (set_pool (<[id := s']> (pool st)) st).
Proof.
  intros [] Hid Hl. split; simpl; auto.
  - intros i t. destruct (decide (id = i)) as [->|]; [rewrite lookup_insert_eq; intros [= <-]; done|].
    rewrite lookup_insert_ne by done. eauto.
  - unfold pool_size in *; simpl. by rewrite map_size_insert_Some by (by exists s).
  - intros i Hi. apply ew_gen0. destruct (decide (id = i)) as [->|]; [by rewrite Hid|].
    by rewrite lookup_insert_ne in Hi.
Qed.

Lemma wf_shrink st id : engine_wf st -> engine_wf (set_pool (delete id (pool st)) st).
Proof.
  intros []. split; simpl; auto.
  - intros i t [_ Hi]%lookup_delete_Some. eauto.
  - unfold pool_size in *; simpl. etrans; [|exact ew_size0]. apply inj_le, map_subseteq_size, delete_subseteq.
  - intros i [t [_ Hi]%lookup_delete_Some]. eauto.
Qed.

Abbreviation K m := (keeps engine_wf m).
Implicit Types (env : nat -> assign_env Env).

Lemma keeps_wf_frame (f : engine -> engine) :
  (forall st, pool (f st) = pool st /\ generated (f st) = generated st /\ pool_target (f st) = pool_target st /\
     last_timeout (f st) = last_timeout st /\ queue_size (f st) <= queue_size st) ->
  K (@st_modify _ engine_error f).
Proof.
  intros Hf. apply keeps_modify. intros st Hw. destruct (Hf st) as (E1 & E2 & E3 & E4 & E5).
  apply (wf_frame st); auto. rewrite E4. apply Hw.
Qed.

Local Ltac wframe := apply keeps_wf_frame; intros ?; split_and!; simpl; done.

Lemma keeps_engine_post j : K (post (S:=S) (Load:=Load) j).
Proof. wframe. Qed.
Lemma keeps_engine_get : K (@st_get engine engine_error).
Proof. by intros st. Qed.
Local Hint Resolve keeps_engine_post keeps_engine_get : keeps.

(** [assign] to a slave with room. *)
Lemma assign_wf id s r (e : assign_env Env) st :
  engine_wf st -> pool st !! id = Some s -> Z.of_nat (slave_load s) < concurrency profile ->
  engine_wf (assign profile id r e st).2.
Proof.
  intros Hw Hid Hl. unfold assign. destruct (expired profile r e).
  - by apply (wf_frame st); try done; apply Hw.
  - unfold st_bind at 1, st_get. rewrite Hid.
    pose proof (inject_adds_one (payload r) (inject_env e) s) as Hi.
    destruct (slave_inject (payload r) (inject_env e) s) as [ok s']; simpl in Hi.
    unfold st_bind, st_modify. assert (engine_wf (set_pool (<[id := s']> (pool st)) st)) as Hw'.
    { eapply wf_update; eauto. lia. }
    by destruct ok.
Qed.

Lemma free_spec s : free profile s = true <-> slave_active s = true /\ Z.of_nat (slave_load s) < concurrency profile.
Proof. unfold free. rewrite andb_true_iff, Z.ltb_lt. done. Qed.

Lemma pop_front_wf st : engine_wf st -> engine_wf (set_queue (tail (queue st)) st).
Proof. intros Hw. apply (wf_frame st); auto; [apply Hw|]. unfold queue_size; simpl. destruct (queue st); simpl; lia. Qed.

(** One turn of the loop. *)
Lemma turn_wf id s r e st :
  engine_wf st -> pool st !! id = Some s -> Z.of_nat (slave_load s) < concurrency profile ->
  engine_wf (st_catch (assign profile id r e ;;; pop_front ;;; st_ret true)
               (fun _ => post JRebalanceSlaves ;;; st_ret false) st).2.
Proof.
  intros Hw Hid Hl. pose proof (assign_wf id s r e st Hw Hid Hl) as Ha.
  unfold st_catch. unfold st_bind at 1. destruct (assign profile id r e st) as [[[]|x] st1]; simpl in *.
  - by apply pop_front_wf.
  - by apply (wf_frame st1); try done; apply Ha.
Qed.

Lemma keeps_rebalance_loop n : forall k env, K (rebalance_loop profile n k env).
Proof.
  induction n as [|n IH]; intros k env st Hw; simpl; [done|].
  erewrite st_bind_Ret by reflexivity. destruct (queue st) as [|r q]; [done|].
  destruct (select_slave profile (pool st)) as [[id s]|] eqn:Es; [|done].
  apply select_where_Some in Es as (Hid & [_ Hl]%free_spec & _).
  pose proof (turn_wf id s r (env k) st Hw Hid Hl) as Ht. unfold st_bind.
  destruct (st_catch _ _ st) as [[[]|x] st1]; simpl in *; [by apply IH|done|done].
Qed.

Lemma keeps_rebalance_events env : K (rebalance_events profile env).
Proof. unfold rebalance_events. keeps_walk. apply keeps_rebalance_loop. Qed.

Lemma fresh_uuid st : engine_wf st -> pool st !! gen (generated st) = None.
Proof.
  intros Hw. destruct (pool st !! gen (generated st)) eqn:E; [|done].
  destruct (ew_gen st Hw (gen (generated st))) as (n & Hn & He); [by rewrite E|].
  apply (sane_uuids _ _ SANE) in He. lia.
Qed.

(** What [spawn] does when there is room. *)
Definition grown st : engine :=
  set_stats (accepted st) (rejected st) (spawned st + 1) (crashed st)
    (set_pool (<[gen (generated st) := slave_fresh]> (pool st)) (set_generated (Datatypes.S (generated st)) st)).

Lemma spawn_run st :
  engine_wf st -> pool_size st < pool_limit profile ->
  spawn profile gen st = (Ret tt, grown st) /\ engine_wf (grown st) /\ pool_size (grown st) = pool_size st + 1.
Proof.
  intros Hw Hl. pose proof (fresh_uuid st Hw) as Hn.
  assert (pool_size (grown st) = pool_size st + 1) as Es.
  { unfold pool_size; simpl. rewrite map_size_insert_None by done. lia. }
  split_and!; [| |done].
  - unfold spawn. erewrite st_bind_Ret by reflexivity.
    destruct (Z.geb_spec (pool_size st) (pool_limit profile)); [lia|].
    erewrite st_bind_Ret by reflexivity. erewrite st_bind_Ret by reflexivity. cbn.
    rewrite Hn. reflexivity.
  - destruct Hw. split; auto; try (rewrite Es; lia).
    + intros id s. simpl. destruct (decide (gen (generated st) = id)) as [<-|].
      * rewrite lookup_insert_eq. intros [= <-]. rewrite fresh_load. pose proof concurrency_pos. lia.
      * rewrite lookup_insert_ne by done. eauto.
    + intros id Hid. simpl in *. destruct (decide (gen (generated st) = id)) as [<-|]; [exists (generated st); split; [lia|done]|].
      rewrite lookup_insert_ne in Hid by done. destruct (ew_gen0 id Hid) as (i & ? & ?). exists i. split; [lia|done].
Qed.

Lemma keeps_spawn : K (spawn profile gen).
Proof.
  intros st Hw. destruct (Z.lt_ge_cases (pool_size st) (pool_limit profile)) as [Hl|Hl].
  - by destruct (spawn_run st Hw Hl) as (-> & ? & _).
  - unfold spawn. erewrite st_bind_Ret by reflexivity.
    destruct (Z.geb_spec (pool_size st) (pool_limit profile)); [done|lia].
Qed.
Local Hint Resolve keeps_rebalance_events keeps_spawn : keeps.

Lemma keeps_spawn_loop target n : K (spawn_loop profile gen n target).
Proof. induction n as [|n IH]; simpl; keeps_walk. Qed.

Lemma keeps_seal_loop n : K (seal_loop n).
Proof.
  induction n as [|n IH]; intros st Hw; simpl; [done|]. erewrite st_bind_Ret by reflexivity.
  destruct (select_where slave_active (pool st)) as [[id s]|] eqn:Es; [|done].
  apply select_where_Some in Es as (Hid & _ & _). erewrite st_bind_Ret by reflexivity. apply IH.
  eapply wf_update; eauto. pose proof (seal_adds_none s). pose proof (ew_load st Hw id s Hid). lia.
Qed.
Local Hint Resolve keeps_spawn_loop keeps_seal_loop : keeps.

Lemma keeps_rebalance_slaves : K (rebalance_slaves profile gen).
Proof. unfold rebalance_slaves. keeps_walk. Qed.
Local Hint Resolve keeps_rebalance_slaves : keeps.

(** The capacity left to the queue when it has no limit of its own. *)
Definition capacity st : Z := pool_limit profile * concurrency profile - loads (map_to_list (pool st)).

Lemma vacant_exact st :
  engine_wf st ->
  u64 (pool_limit profile * concurrency profile - pool_pressure (pool st)) = capacity st.
Proof.
  intros Hw. destruct (pressure_exact st Hw) as (-> & Hl & Hs). unfold capacity. apply u64_small.
  pose proof (sane_capacity _ _ SANE). unfold u64_modulus. lia.
Qed.

Definition has_room st : bool :=
  if 0 <? queue_limit profile then queue_size st <? queue_limit profile else queue_size st <? capacity st.

Definition pushed r st : engine :=
  set_stats (accepted st + 1) (rejected st) (spawned st) (crashed st) (set_queue (queue st ++ [r]) st).

Lemma pushed_wf r st : engine_wf st -> has_room st = true -> engine_wf (pushed r st).
Proof.
  intros Hw Hr. destruct (pressure_exact st Hw) as (_ & Hl & Hs).
  assert (queue_size (pushed r st) = queue_size st + 1) as Eq.
  { unfold queue_size; simpl. rewrite length_app; simpl. lia. }
  unfold has_room, capacity in Hr. destruct Hw. split; auto; rewrite Eq; intros Hq.
  - rewrite (proj2 (Z.ltb_lt _ _) Hq) in Hr. apply Z.ltb_lt in Hr. lia.
  - rewrite Hq in Hr. simpl in Hr. apply Z.ltb_lt in Hr. lia.
Qed.

Lemma enqueue_push_run r env st :
  engine_wf st ->
  enqueue_push profile r env st =
    if has_room st then rebalance_events profile env (pushed r st) else (Throw queue_is_full, st).
Proof.
  intros Hw. unfold enqueue_push. erewrite st_bind_Ret by reflexivity. rewrite vacant_exact by done.
  pose proof (queue_limit_nonneg profile (sane_profile _ _ SANE)) as Hn. unfold has_room.
  destruct (Z.ltb_spec 0 (queue_limit profile)) as [Hq|Hq]; simpl.
  - rewrite (proj2 (Z.eqb_neq _ _)) by lia. simpl. rewrite Z.geb_leb, Z.leb_antisym.
    by destruct (queue_size st <? queue_limit profile).
  - rewrite (proj2 (Z.eqb_eq _ _)) by lia. simpl. rewrite Z.geb_leb, Z.leb_antisym.
    by destruct (queue_size st <? capacity st).
Qed.

Lemma keeps_enqueue_push r env : K (enqueue_push profile r env).
Proof.
  intros st Hw. rewrite enqueue_push_run by done. destruct (has_room st) eqn:Hr; [|done].
  apply keeps_rebalance_events. by apply pushed_wf.
Qed.
Local Hint Resolve keeps_enqueue_push : keeps.

Lemma keeps_enqueue r env env' : K (enqueue profile gen r env env').
Proof. unfold enqueue, try_engine. keeps_walk; wframe. Qed.

Lemma keeps_control_population count : K (control_population profile gen count).
Proof.
  unfold control_population. keeps_walk. apply keeps_modify. intros st []. split; simpl; auto. lia.
Qed.

(** A call of one slave of the pool. *)
Lemma keeps_update_with st id s s' :
  engine_wf st -> pool st !! id = Some s -> (slave_load s' <= slave_load s)%nat ->
  engine_wf (set_pool (<[id := s']> (pool st)) st).
Proof. intros Hw Hid Hl. eapply wf_update; eauto. pose proof (ew_load st Hw id s Hid). lia. Qed.

Lemma keeps_release l f : (forall st, engine_wf st -> engine_wf (f st)) ->
  K (@st_modify _ engine_error (fun st => set_released (l st) (f st))).
Proof. intros Hf. apply keeps_modify. intros st Hw. by destruct (Hf st Hw). Qed.

Lemma keeps_despawn id policy : K (despawn id policy).
Proof.
  intros st Hw. unfold despawn. erewrite st_bind_Ret by reflexivity.
  destruct (pool st !! id) as [s|] eqn:Hid; [|done]. destruct policy.
  - pose proof (seal_adds_none s) as Hs. destruct (slave_seal s) as [ok s']; simpl in Hs.
    erewrite st_bind_Ret by reflexivity. assert (engine_wf (set_pool (<[id := s']> (pool st)) st)).
    { by eapply keeps_update_with. }
    by destruct ok.
  - revert st Hw Hid. intros st Hw _. revert st Hw. refine (_ : K _). keeps_walk; [|wframe].
    apply keeps_release. intros st. by apply wf_shrink.
Qed.

Lemma keeps_on_handshake id a b : K (on_handshake id a b).
Proof.
  intros st Hw. unfold on_handshake. erewrite st_bind_Ret by reflexivity.
  destruct (pool st !! id) as [s|] eqn:Hid; [|done].
  pose proof (activate_adds_none a b s) as Hs. destruct (slave_activate a b s) as [r s']; simpl in Hs.
  erewrite st_bind_Ret by reflexivity. assert (engine_wf (set_pool (<[id := s']> (pool st)) st)) as Hw'.
  { by eapply keeps_update_with. }
  destruct r as [[]|]; [|done|done]. revert Hw'. generalize (set_pool (<[id := s']> (pool st)) st).
  refine (_ : K _). keeps_walk. wframe.
Qed.

Lemma backoff_wf now now' st : engine_wf st -> engine_wf (backoff now now' st).
Proof.
  intros Hw. unfold backoff. destruct (on_spawn_rate_timer st); apply (wf_frame st); try done; simpl;
    pose proof (ew_timeout st Hw); [lia|]. case_match; lia.
Qed.

Lemma keeps_on_slave_death ec uuid now now' : K (on_slave_death ec uuid now now').
Proof.
  unfold on_slave_death, tell_despawned. keeps_walk; try wframe.
  - apply keeps_modify. intros st. by apply backoff_wf.
  - apply keeps_modify. intros st Hw. destruct (pool st !! uuid); [|done].
    by apply (keeps_release (fun st => released st ++ [(uuid, ec)])
      (fun st => set_pool (delete uuid (pool st)) st) (fun st => wf_shrink st uuid)).
Qed.

Lemma keeps_timeout : K (on_spawn_rate_timeout profile gen).
Proof. unfold on_spawn_rate_timeout. keeps_walk. wframe. Qed.

Lemma empty_pool_wf st : engine_wf st -> engine_wf (set_pool ∅ st).
Proof.
  intros []. split; simpl; auto; try by intros ? [? ?%lookup_empty_Some].
  - by intros ?? ?%lookup_empty_Some.
  - unfold pool_size; simpl. rewrite map_size_empty. pose proof pool_limit_pos. lia.
Qed.

Local Hint Resolve keeps_enqueue keeps_control_population keeps_despawn keeps_on_handshake keeps_on_slave_death
  keeps_timeout : keeps.

Lemma keeps_exec o : K (exec profile gen o).
Proof.
  destruct o; simpl; keeps_walk; try wframe.
  - unfold run_job. keeps_walk. wframe.
  - unfold overseer_destroy. keeps_walk; try wframe.
    apply keeps_release. apply empty_pool_wf.
Qed.

Lemma construct_wf : engine_wf engine_construct.
Proof.
  pose proof concurrency_pos. pose proof pool_limit_pos. split; simpl; try done.
  - unfold pool_size; simpl. rewrite map_size_empty. lia.
  - unfold queue_size; simpl; lia.
  - unfold queue_size; simpl; nia.
  - by intros ? [? ?%lookup_empty_Some].
Qed.

Lemma reachable_wf st : reachable profile gen st -> engine_wf st.
Proof.
  unfold reachable. intros Hr. assert (engine_wf engine_construct) as H0 by apply construct_wf.
  induction Hr as [|st1 st2 st3 Hs _ IH]; [done|]. apply IH. destruct Hs as [o st|id s s' st Hid Hm].
  - by apply keeps_exec.
  - eapply keeps_update_with; eauto. by apply moves_add_none.
Qed.
End facts.
