(* ===== verification/EngineTheorems.v ===== *)
(** * The engine: its theorems

    Proved for any slaves that satisfy the interface; the witnesses run the engine on
    slave state machines. *)

From S2P Require Import Prelude Profile Channel Machine EngineMachine Engine EngineFacts.

Local Open Scope Z_scope.
Local Open Scope cpp_scope.

Section theorems.
Context {S Load Env : Type} `{SL : !Slave S Load Env}.
Context (profile : profile_t) (gen : nat -> string).
Implicit Types (st : @engine_t S Load) (r : request Load) (env : nat -> assign_env Env).

(** C1: whatever requests, slave failures, handshakes, population changes and slave
    activity an engine sees, in any order, no slave is given more requests than the
    profile's concurrency, the pool stays within its limit, the queue within its limit
    (or, without one, within the capacity of the pool), and the respawn delay between
    1 and 32 seconds. *)
Theorem engine_invariant (st : @engine_t S Load) :
  sane profile gen -> reachable profile gen st ->
  (forall id s, pool st !! id = Some s -> Z.of_nat (slave_load s) <= concurrency profile) /\
  pool_size st <= pool_limit profile /\
  queue_size st <= (if 0 <? queue_limit profile then queue_limit profile
                    else pool_limit profile * concurrency profile) /\
  1 <= last_timeout st <= 32.
Proof.
  intros Hsane Hr. pose proof (reachable_wf profile gen Hsane st Hr) as [].
  pose proof (queue_limit_nonneg profile (sane_profile _ _ Hsane)).
  split_and!; auto; try lia. destruct (Z.ltb_spec 0 (queue_limit profile)); auto.
  apply ew_queue0. lia.
Qed.

(** A request goes to a least loaded of the active slaves with room, if any. *)
Theorem select_slave_least (p : gmap string S) :
  match select_slave profile p with
  | Some (id, s) =>
      p !! id = Some s /\ slave_active s = true /\ Z.of_nat (slave_load s) < concurrency profile /\
      forall id' s', p !! id' = Some s' -> slave_active s' = true ->
        Z.of_nat (slave_load s') < concurrency profile -> (slave_load s <= slave_load s')%nat
  | None =>
      forall id s, p !! id = Some s -> slave_active s = true -> concurrency profile <= Z.of_nat (slave_load s)
  end.
Proof.
  destruct (select_slave profile p) as [[id s]|] eqn:E; unfold select_slave in E.
  - apply select_where_Some in E as (Hid & [Ha Hl]%free_spec & Hm). split_and!; auto.
    intros id' s' Hs' Ha' Hl'. apply (Hm id'); [done|]. by apply free_spec.
  - intros id s Hs Ha. pose proof (select_where_None _ _ E id s Hs) as Hf.
    destruct (Z.lt_ge_cases (Z.of_nat (slave_load s)) (concurrency profile)); [|done].
    assert (free profile s = true) by (by apply free_spec). congruence.
Qed.

(** ** Rebalancing of the queue *)

(** The requests of a list that had expired when their turns came, the [k]-th turn
    being the first. *)
Fixpoint late env (k : nat) (rs : list (request Load)) : list (request Load) :=
  match rs with
  | [] => []
  | r :: rs => (if expired profile r (env k) then [r] else []) ++ late env (Datatypes.S k) rs
  end.

(** The requests have had their turns one after another from the [k]-th on, and none
    was refused: the expired ones left the slaves alone, each other one was accepted
    by the slave selected for it. *)
Fixpoint handed env (k : nat) (rs : list (request Load)) (p p' : gmap string S) : Prop :=
  match rs with
  | [] => p' = p
  | r :: rs =>
      exists id s p1, select_slave profile p = Some (id, s) /\
        (if expired profile r (env k) then p1 = p
         else exists s', slave_inject (payload r) (inject_env (env k)) s = (true, s') /\ p1 = <[id := s']> p) /\
        handed env (Datatypes.S k) rs p1 p'
  end.

(** The [k]-th turn is a refusal: the slave selected for the request [r], which had not
    expired, does not take it. *)
Definition refused env (k : nat) (r : request Load) (p p' : gmap string S) : Prop :=
  exists id s s', select_slave profile p = Some (id, s) /\ expired profile r (env k) = false /\
    slave_inject (payload r) (inject_env (env k)) s = (false, s') /\ p' = <[id := s']> p.

(** What one turn does. *)
Lemma turn_run id s r q k env st :
  select_slave profile (pool st) = Some (id, s) -> queue st = r :: q ->
  exists b st', st_catch (assign profile id r (env k) ;;; pop_front ;;; st_ret true)
                  (fun _ => post JRebalanceSlaves ;;; st_ret false) st = (Ret b, st') /\
    accepted st' = accepted st /\ rejected st' = rejected st /\
    if b : bool
    then queue st' = q /\ posted st' = posted st /\ handed env k [r] (pool st) (pool st') /\
         dropped st' = dropped st ++ late env k [r]
    else queue st' = r :: q /\ posted st' = posted st ++ [JRebalanceSlaves] /\ dropped st' = dropped st /\
         refused env k r (pool st) (pool st').
Proof.
  intros Hsel Hq. unfold assign, st_catch, refused. cbn [handed late]. rewrite app_nil_r.
  pose proof Hsel as (Hid & _ & _)%select_where_Some.
  destruct (expired profile r (env k)) eqn:Ex.
  - exists true. eexists. split; [reflexivity|]. simpl. rewrite Hq. split_and!; eauto 6.
  - unfold st_bind, st_get. rewrite Hid.
    destruct (slave_inject (payload r) (inject_env (env k)) s) as [ok s'] eqn:Ei.
    destruct ok; [exists true|exists false]; (eexists; split; [reflexivity|]); simpl; rewrite ?Hq, ?app_nil_r;
      split_and!; eauto 12.
Qed.

(** What a rebalancing does: the requests [taken] from the front had their turns; it
    stopped for want of requests or of slaves, or at a refusal, which leaves the
    refused request at the front. *)
Record rebalanced env k st st' (taken : list (request Load)) (p : gmap string S) : Prop := {
  reb_queue : queue st = taken ++ queue st';
  reb_taken : handed env k taken (pool st) p;
  reb_dropped : dropped st' = dropped st ++ late env k taken;
  reb_stop :
    ((queue st' = [] \/ select_slave profile p = None) /\ pool st' = p /\ posted st' = posted st) \/
    (exists r q, queue st' = r :: q /\ refused env (k + length taken) r p (pool st') /\
       posted st' = posted st ++ [JRebalanceSlaves]);
  reb_accepted : accepted st' = accepted st;
  reb_rejected : rejected st' = rejected st
}.

Lemma rebalanced_here env k st :
  queue st = [] \/ select_slave profile (pool st) = None -> rebalanced env k st st [] (pool st).
Proof. intros H. split; simpl; rewrite ?app_nil_r; auto. Qed.

Lemma rebalance_loop_run n : forall k env st,
  (length (queue st) <= n)%nat ->
  exists st' taken p, rebalance_loop profile n k env st = (Ret tt, st') /\ rebalanced env k st st' taken p.
Proof.
  induction n as [|n IH]; intros k env st Hn; simpl.
  { exists st, [], (pool st). split; [done|]. apply rebalanced_here. left. destruct (queue st); [done|simpl in Hn; lia]. }
  erewrite st_bind_Ret by reflexivity. destruct (queue st) as [|r q] eqn:Hq.
  { exists st, [], (pool st). split; [done|]. apply rebalanced_here. by left. }
  destruct (select_slave profile (pool st)) as [[id s]|] eqn:Es.
  2: { exists st, [], (pool st). split; [done|]. apply rebalanced_here. by right. }
  destruct (turn_run id s r q k env st Es Hq) as (b & st1 & Et & Ha & Hr & Hb).
  rewrite (st_bind_Ret _ _ _ _ _ Et). destruct b.
  - destruct Hb as (Hq1 & Hp1 & (id' & s1 & p1 & Hs1 & Hh & Hp') & Hdr).
    destruct (IH (Datatypes.S k) env st1) as (st2 & taken & p & E2 & [Hf Ht Hdn Hst Hac Hre]).
    { rewrite Hq1. simpl in Hn. lia. }
    exists st2, (r :: taken), p. split; [done|]. simpl in Hp'. subst p1.
    split; [by rewrite Hq, <- Hq1, Hf|by exists id', s1, (pool st1)| | |by rewrite Hac|by rewrite Hre].
    + rewrite Hdn, Hdr. cbn [late]. by rewrite app_nil_r, <- app_assoc.
    + rewrite Hp1 in Hst. cbn [length]. by rewrite Nat.add_succ_r.
  - destruct Hb as (Hq1 & Hp1 & Hdr & Href). exists st1, [], (pool st). split; [done|].
    split; simpl; rewrite ?Hq1, ?app_nil_r; auto. right. exists r, q. by rewrite Nat.add_0_r.
Qed.

Lemma rebalance_events_run env st :
  exists st' taken p, rebalance_events profile env st = (Ret tt, st') /\ rebalanced env 0 st st' taken p.
Proof.
  unfold rebalance_events. erewrite st_bind_Ret by reflexivity. case_bool_decide as Hp.
  - exists st, [], (pool st). split; [done|]. apply rebalanced_here. right. by rewrite Hp.
  - by apply rebalance_loop_run.
Qed.

(** C10: rebalancing of the queue ends, keeps the order of the requests, and is
    work-conserving.  It takes the requests [taken] from the front, in order, and each
    of them is either dropped, having expired, or accepted by the slave selected for
    it at that moment; what it drops are exactly the expired ones among them.  It
    stops when the queue is empty, when no active slave has room, or when the selected
    slave refuses a request: then, and only then, a rebalancing of the slaves is
    posted, and the refused request is still the first of the queue. *)
Theorem rebalance_events_fifo (env : nat -> assign_env Env) (st : @engine_t S Load) :
  exists st' taken p, rebalance_events profile env st = (Ret tt, st') /\
    queue st = taken ++ queue st' /\ handed env 0 taken (pool st) p /\
    dropped st' = dropped st ++ late env 0 taken /\
    (((queue st' = [] \/ select_slave profile p = None) /\ pool st' = p /\ posted st' = posted st) \/
     (exists r q, queue st' = r :: q /\ refused env (length taken) r p (pool st') /\
        posted st' = posted st ++ [JRebalanceSlaves])).
Proof. destruct (rebalance_events_run env st) as (st' & taken & p & E & []). exists st', taken, p. auto. Qed.

(** ** Rebalancing of the pool *)

Context (SANE : sane profile gen).
Abbreviation wf := (engine_wf profile gen).

(** The pool grew to [n] slaves by fresh ones only; nothing else moved but the
    counter of spawned slaves. *)
Record enlarged (st st' : @engine_t S Load) : Prop := {
  en_old : pool st ⊆ pool st';
  en_new : forall id s, pool st' !! id = Some s -> pool st !! id = None -> s = slave_fresh;
  en_queue : queue st' = queue st;
  en_posted : posted st' = posted st;
  en_accepted : accepted st' = accepted st;
  en_rejected : rejected st' = rejected st
}.

Lemma enlarged_refl st : enlarged st st.
Proof. split; try done. intros id s E1 E2. congruence. Qed.

Lemma grown_enlarged st : wf st -> enlarged st (grown gen st).
Proof.
  intros Hw. pose proof (fresh_uuid profile gen SANE st Hw) as Hn. split; try done; simpl.
  - by apply insert_subseteq.
  - intros id s. destruct (decide (gen (generated st) = id)) as [<-|]; [rewrite lookup_insert_eq; by intros [= <-]|].
    rewrite lookup_insert_ne by done. congruence.
Qed.

Lemma enlarged_trans st1 st2 st3 : enlarged st1 st2 -> enlarged st2 st3 -> enlarged st1 st3.
Proof.
  intros [H1 H2 H3 H4 H5 H6] [G1 G2 G3 G4 G5 G6]. split; try congruence; [by etrans|].
  intros id s Hs Hn. destruct (pool st2 !! id) as [s2|] eqn:E; [|by eapply G2].
  pose proof (lookup_weaken _ _ _ _ E G1). assert (s = s2) as -> by congruence. by eapply H2.
Qed.

Lemma spawn_loop_run target n : forall st,
  wf st -> target <= pool_limit profile -> Z.of_nat n = Z.max 0 (target - pool_size st) ->
  exists st', spawn_loop profile gen n target st = (Ret tt, st') /\ wf st' /\
    pool_size st' = Z.max (pool_size st) target /\ enlarged st st'.
Proof.
  induction n as [|n IH]; intros st Hw Ht Hn; simpl.
  { exists st. split_and!; [done|done|lia|apply enlarged_refl]. }
  erewrite st_bind_Ret by reflexivity. rewrite (proj2 (Z.ltb_lt _ _)) by lia.
  destruct (spawn_run profile gen SANE st Hw) as (Es & Hw' & Hs); [lia|].
  rewrite (st_bind_Ret _ _ _ _ _ Es). destruct (IH (grown gen st) Hw' Ht) as (st' & E & Hw2 & Hs2 & He); [lia|].
  exists st'. split_and!; [done|done|lia|]. eapply enlarged_trans; [by apply grown_enlarged|done].
Qed.

Lemma count_active_update (p : gmap string S) id s s' :
  p !! id = Some s -> slave_active s = true -> slave_active s' = false ->
  count_active (<[id := s']> p) = count_active p - 1.
Proof.
  intros Hid Ha Ha'. unfold count_active.
  rewrite <- (map_to_list_delete p id s Hid).
  rewrite <- (insert_delete_eq p id s'), (map_to_list_insert (delete id p) id s') by apply lookup_delete_eq.
  rewrite filter_cons_False by (simpl; congruence). rewrite filter_cons_True by done. simpl. lia.
Qed.

Lemma select_active_None (p : gmap string S) : select_where slave_active p = None -> count_active p = 0.
Proof. unfold select_where, count_active. by intros ->%min_load_None. Qed.

Lemma count_active_nonneg (p : gmap string S) : 0 <= count_active p.
Proof. unfold count_active. lia. Qed.

Lemma seal_loop_run n : forall st,
  exists st', seal_loop n st = (Ret tt, st') /\ dom (pool st') = dom (pool st) /\
    count_active (pool st') = Z.max 0 (count_active (pool st) - Z.of_nat n) /\
    queue st' = queue st /\ posted st' = posted st /\ accepted st' = accepted st /\ rejected st' = rejected st.
Proof.
  induction n as [|n IH]; intros st; simpl.
  { exists st. pose proof (count_active_nonneg (pool st)). split_and!; try done; lia. }
  erewrite st_bind_Ret by reflexivity.
  destruct (select_where slave_active (pool st)) as [[id s]|] eqn:Es.
  - apply select_where_Some in Es as (Hid & Ha & _). erewrite st_bind_Ret by reflexivity.
    set (st1 := set_pool _ st). destruct (IH st1) as (st' & E & Hd & Hc & Hrest). exists st'.
    pose proof (count_active_update (pool st) id s _ Hid Ha (seal_deactivates s Ha)) as Hc1.
    split; [done|]. split; [rewrite Hd; apply dom_insert_lookup_L; by exists s|].
    split; [|done]. rewrite Hc. unfold st1; cbn [pool set_pool]. rewrite Hc1. lia.
  - exists st. apply select_active_None in Es. split_and!; try done. lia.
Qed.

(** What [rebalance_slaves] does to the counters and the queue: nothing. *)
Lemma rebalance_slaves_run st t :
  wf st -> wanted profile st = Ret t ->
  exists st', rebalance_slaves profile gen st = (Ret tt, st') /\
    queue st' = queue st /\ accepted st' = accepted st /\ rejected st' = rejected st /\
    (stopped st = false -> on_spawn_rate_timer st = false ->
     let target := clamp t 1 (pool_limit profile) in
     if 0 <? pool_target st then
       if target <=? pool_size st
       then dom (pool st') = dom (pool st) /\
            count_active (pool st') = Z.min (count_active (pool st)) target
       else pool_size st' = target /\ enlarged st st'
     else pool_size st' = Z.max (pool_size st) target /\ enlarged st st').
Proof.
  intros Hw Ht. unfold rebalance_slaves. erewrite st_bind_Ret by reflexivity.
  destruct (stopped st); [by exists st|]. rewrite Ht. destruct (on_spawn_rate_timer st); [by exists st|].
  set (target := clamp t 1 (pool_limit profile)). pose proof (pool_limit_pos profile gen SANE) as Hp.
  assert (1 <= target <= pool_limit profile) as Hb by (unfold target, clamp; lia).
  pose proof (ew_size _ _ st Hw) as Hsz.
  assert (exists st', spawn_loop profile gen (Z.to_nat (target - pool_size st)) target st = (Ret tt, st') /\
            wf st' /\ pool_size st' = Z.max (pool_size st) target /\ enlarged st st') as (st1 & E1 & _ & Hs1 & He1).
  { apply spawn_loop_run; [done|lia|lia]. }
  destruct (0 <? pool_target st); simpl.
  - destruct (Z.leb_spec target (pool_size st)).
    + destruct (seal_loop_run (Z.to_nat (count_active (pool st) - target)) st) as (st' & E & Hd & Hc & Hq & Hpo & Ha & Hr).
      exists st'. split_and!; auto. intros _ _. split; [done|]. rewrite Hc. pose proof (count_active_nonneg (pool st)). lia.
    + exists st1. pose proof He1 as []. split_and!; auto. intros _ _. split; [lia|done].
  - destruct (Z.geb_spec (pool_size st) (pool_limit profile)).
    + exists st. split_and!; auto. intros _ _. split; [lia|apply enlarged_refl].
    + exists st1. pose proof He1 as []. split_and!; auto.
Qed.

(** The automatic policy only enlarges the pool, to the wanted number of slaves
    bounded by 1 and the pool limit; it never throws, and it leaves the slaves it has
    and the queue alone. *)
Theorem automatic_policy (st : @engine_t S Load) (t : Z) :
  reachable profile gen st -> stopped st = false -> on_spawn_rate_timer st = false ->
  pool_target st = 0 -> wanted profile st = Ret t ->
  exists st', rebalance_slaves profile gen st = (Ret tt, st') /\
    pool_size st' = Z.max (pool_size st) (clamp t 1 (pool_limit profile)) /\
    pool st ⊆ pool st' /\
    (forall id s, pool st' !! id = Some s -> pool st !! id = None -> s = slave_fresh) /\
    queue st' = queue st.
Proof.
  intros Hr Hs Ht Hp Hw. pose proof (reachable_wf profile gen SANE st Hr) as Hwf.
  destruct (rebalance_slaves_run st t Hwf Hw) as (st' & E & Hq & _ & _ & Hres).
  specialize (Hres Hs Ht). rewrite Hp in Hres. destruct Hres as [Hsz []]. exists st'. auto.
Qed.

(** The direct policy: with a population target set, a pool of at least that many
    slaves is sealed down to that many active ones, the least loaded first, and a
    smaller one is enlarged to exactly the target (bounded by the pool limit). *)
Theorem direct_policy (st : @engine_t S Load) :
  reachable profile gen st -> stopped st = false -> on_spawn_rate_timer st = false -> 0 < pool_target st ->
  let target := Z.min (pool_target st) (pool_limit profile) in
  exists st', rebalance_slaves profile gen st = (Ret tt, st') /\ queue st' = queue st /\
    if target <=? pool_size st
    then dom (pool st') = dom (pool st) /\ count_active (pool st') = Z.min (count_active (pool st)) target
    else pool_size st' = target /\ pool st ⊆ pool st'.
Proof.
  intros Hr Hs Ht Hp target. pose proof (reachable_wf profile gen SANE st Hr) as Hwf.
  assert (wanted profile st = Ret (pool_target st)) as Hw.
  { unfold wanted. by rewrite (proj2 (Z.ltb_lt _ _) Hp). }
  destruct (rebalance_slaves_run st _ Hwf Hw) as (st' & E & Hq & _ & _ & Hres).
  specialize (Hres Hs Ht). pose proof (pool_limit_pos profile gen SANE).
  assert (clamp (pool_target st) 1 (pool_limit profile) = target) as Ec by (unfold clamp, target; lia).
  rewrite Ec, (proj2 (Z.ltb_lt _ _) Hp) in Hres. cbv zeta in Hres. exists st'. split; [done|]. split; [done|].
  destruct (target <=? pool_size st); [exact Hres|]. destruct Hres as [? []]. auto.
Qed.

(** ** Enough slaves for the queue *)

Lemma ceil_div_ge a b : 0 < b -> a <= ceil_div a b * b.
Proof.
  intros Hb. unfold ceil_div. pose proof (Z.mod_pos_bound (a + b - 1) b Hb).
  pose proof (Z.div_mod (a + b - 1) b ltac:(lia)). lia.
Qed.

Lemma ceil_div_le a b : 0 < b -> 0 <= a -> 0 <= ceil_div a b <= a.
Proof.
  intros Hb Ha. unfold ceil_div. split; [apply Z.div_pos; lia|].
  destruct (decide (a = 0)) as [->|]; [rewrite Z.div_small; lia|]. apply Z.div_le_upper_bound; nia.
Qed.

(** C28: without a queue limit, a rebalancing by the automatic policy (an engine that is
    not stopped, with no population target and no respawn timer pending: with one it
    returns early) leaves enough slaves to serve the requests being served and those in
    the queue together, or a full pool. *)
Theorem automatic_policy_suffices (st : @engine_t S Load) :
  reachable profile gen st -> stopped st = false -> on_spawn_rate_timer st = false ->
  pool_target st = 0 -> queue_limit profile = 0 ->
  exists st', rebalance_slaves profile gen st = (Ret tt, st') /\
    (loads (map_to_list (pool st)) + queue_size st <= pool_size st' * concurrency profile \/
     pool_size st' = pool_limit profile).
Proof.
  intros Hr Hs Ht Hp Hq. pose proof (reachable_wf profile gen SANE st Hr) as Hwf.
  pose proof (concurrency_pos profile gen SANE) as Hc. pose proof (pool_limit_pos profile gen SANE) as Hl.
  destruct (pressure_exact profile gen SANE st Hwf) as (Epr & Hlo & Hpc).
  pose proof (sane_capacity _ _ SANE) as Hcap. pose proof (ew_queue0 _ _ st Hwf Hq) as Hqs.
  pose proof (ew_size _ _ st Hwf) as Hsz.
  set (vacant := pool_size st * concurrency profile - loads (map_to_list (pool st))).
  set (lack := if queue_size st <? vacant then 0 else ceil_div (queue_size st - vacant) (concurrency profile)).
  assert (0 <= queue_size st) as Hq0 by (unfold queue_size; lia).
  assert (0 <= pool_size st) as Hp0 by (unfold pool_size; lia).
  assert (0 <= lack <= queue_size st /\ queue_size st - vacant <= lack * concurrency profile) as [Hlk Hge].
  { unfold lack. destruct (Z.ltb_spec (queue_size st) vacant); [lia|].
    pose proof (ceil_div_le (queue_size st - vacant) (concurrency profile) Hc ltac:(lia)).
    pose proof (ceil_div_ge (queue_size st - vacant) (concurrency profile) Hc). lia. }
  assert (wanted profile st = Ret (pool_size st + lack)) as Hw.
  { unfold wanted. rewrite Hp, Hq, Epr. cbn -[loads u64]. fold vacant.
    rewrite (u64_small vacant) by (unfold u64_modulus; lia). fold lack.
    rewrite u64_small; [done|]. unfold u64_modulus. nia. }
  destruct (rebalance_slaves_run st _ Hwf Hw) as (st' & E & _ & _ & _ & Hres).
  specialize (Hres Hs Ht). rewrite Hp in Hres. destruct Hres as [Es _].
  exists st'. split; [done|]. unfold clamp in Es.
  destruct (Z.le_gt_cases (pool_limit profile) (pool_size st + lack)); [right; lia|left].
  assert (pool_size st + lack <= pool_size st') by lia. unfold vacant in Hge. nia.
Qed.

(** ** Admission *)

Lemma wanted_Ret st : grow_threshold profile <> 0 -> exists t, wanted profile st = Ret t.
Proof.
  intros Hg. unfold wanted. destruct (0 <? pool_target st); [by eexists|].
  destruct (0 <? queue_limit profile); [|by eexists]. rewrite (proj2 (Z.eqb_neq _ _)) by done. by eexists.
Qed.

(** The rebalancing of the slaves divides by a grow threshold of zero. *)
Definition divides_by_zero st : bool :=
  (grow_threshold profile =? 0) && (0 <? queue_limit profile) && negb (stopped st) && negb (0 <? pool_target st).

Lemma rebalance_slaves_ends st :
  wf st -> exists st', rebalance_slaves profile gen st =
      (if divides_by_zero st then Throw division_by_zero else Ret tt, st') /\
    queue st' = queue st /\ accepted st' = accepted st /\ rejected st' = rejected st.
Proof.
  intros Hw. unfold divides_by_zero. destruct (wanted profile st) as [t|e] eqn:Ew.
  - destruct (rebalance_slaves_run st t Hw Ew) as (st' & E & Hq & Ha & Hr & _). exists st'. rewrite E.
    split; [|done]. f_equal. unfold wanted in Ew. destruct (0 <? pool_target st); [by rewrite andb_false_r|].
    destruct (0 <? queue_limit profile); [|by rewrite andb_false_r].
    by destruct (grow_threshold profile =? 0).
  - unfold rebalance_slaves. erewrite st_bind_Ret by reflexivity. exists st. split; [|done]. rewrite Ew.
    unfold wanted in Ew. destruct (0 <? pool_target st); [done|]. destruct (0 <? queue_limit profile); [|done].
    destruct (grow_threshold profile =? 0); [|done]. injection Ew as <-. by destruct (stopped st).
Qed.

(** Rebalancing does not touch what a rebalancing of the slaves would divide by. *)
Definition guards_are (s : bool) (t : Z) st : Prop := stopped st = s /\ pool_target st = t.
Lemma keeps_guards s t env : keeps (guards_are s t) (rebalance_events profile env).
Proof.
  assert (forall n k, keeps (guards_are s t) (rebalance_loop profile n k env)) as Hl.
  { induction n as [|n IH]; intros k; simpl; [by intros st|].
    unfold assign, pop_front, post. keeps_walk; try (by apply keeps_modify); try (by intros st); auto. }
  unfold rebalance_events. keeps_walk; by intros st.
Qed.

Lemma rebalance_both env st :
  wf st -> exists st1 st2 taken, rebalance_events profile env st = (Ret tt, st1) /\
    rebalance_slaves profile gen st1 = (if divides_by_zero st then Throw division_by_zero else Ret tt, st2) /\
    queue st = taken ++ queue st2 /\ accepted st2 = accepted st /\ rejected st2 = rejected st.
Proof.
  intros Hw. destruct (rebalance_events_run env st) as (st1 & taken & p & E & [Hq _ _ _ Ha Hr]).
  pose proof (keeps_rebalance_events profile gen env st Hw) as Hw1. rewrite E in Hw1.
  destruct (rebalance_slaves_ends st1 Hw1) as (st2 & E2 & Hq2 & Ha2 & Hr2).
  assert (divides_by_zero st1 = divides_by_zero st) as Hd.
  { pose proof (keeps_guards (stopped st) (pool_target st) env st (conj eq_refl eq_refl)) as [Hs Ht].
    rewrite E in Hs, Ht. unfold divides_by_zero. simpl in *. by rewrite Hs, Ht. }
  exists st1, st2, taken. rewrite <- Hd, Hq2, Ha2, Hr2. auto.
Qed.

(** C9: a request is refused exactly when the queue is full: at its limit, or, without
    a limit, when the queue would outgrow the room left in the full pool.  An accepted
    request goes to the back of the queue and is counted; a refused one leaves no
    trace but the counter of refusals.  In both cases the queue has been served from
    its front.  The one other end is the crash of a profile that limits the queue and
    sets the grow threshold to zero: after the same accounting the rebalancing of the
    slaves divides by it, exactly when the engine runs under the automatic policy. *)
Theorem enqueue_admission (r : request Load) (env env' : nat -> assign_env Env) (st : @engine_t S Load) :
  reachable profile gen st ->
  exists st', enqueue profile gen r env env' st =
      (if divides_by_zero st then Throw division_by_zero
       else if has_room profile st then Ret tt else Throw queue_is_full, st') /\
    (exists taken, (if has_room profile st then queue st ++ [r] else queue st) = taken ++ queue st') /\
    accepted st' = accepted st + (if has_room profile st then 1 else 0) /\
    rejected st' = rejected st + (if has_room profile st then 0 else 1).
Proof.
  intros Hr. pose proof (reachable_wf profile gen SANE st Hr) as Hwf.
  unfold enqueue, try_engine, st_catch. unfold st_bind at 1. rewrite (enqueue_push_run profile gen SANE) by done.
  destruct (has_room profile st) eqn:Hroom.
  - destruct (rebalance_both env (pushed r st)) as (st1 & st2 & taken & E1 & E2 & Hq & Ha & Hre); [by apply pushed_wf|].
    change (divides_by_zero (pushed r st)) with (divides_by_zero st) in E2.
    exists st2. rewrite E1, E2, Ha, Hre. simpl. split; [by destruct (divides_by_zero st)|].
    split; [by exists taken|]. split; [done|lia].
  - erewrite st_bind_Ret by reflexivity. set (st0 := set_stats _ _ _ _ st).
    assert (wf st0) as Hw0 by (by destruct Hwf).
    destruct (rebalance_both env' st0 Hw0) as (st1 & st2 & taken & E1 & E2 & Hq & Ha & Hre).
    change (divides_by_zero st0) with (divides_by_zero st) in E2.
    exists st2. rewrite (st_bind_Ret _ _ _ _ _ E1). unfold st_bind at 1. rewrite E2, Ha, Hre. simpl.
    split; [by destruct (divides_by_zero st)|]. split; [by exists taken|]. split; [lia|done].
Qed.

(** ** Failures *)

(** Rebalancing the slaves does not touch the backoff. *)
Definition backoff_is (f t : Z) st : Prop := last_failed st = f /\ last_timeout st = t /\ on_spawn_rate_timer st = false.

Lemma keeps_backoff f t : keeps (backoff_is f t) (@rebalance_slaves S Load Env SL profile gen).
Proof.
  assert (keeps (backoff_is f t) (@spawn S Load Env SL profile gen)) as Hs.
  { unfold spawn. keeps_walk; try (by apply keeps_modify); try (by intros st).
    apply keeps_modify. intros st Hb. by destruct (pool st !! _). }
  assert (forall n target, keeps (backoff_is f t) (@spawn_loop S Load Env SL profile gen n target)) as Hsl.
  { intros n target. induction n as [|n IH]; simpl; keeps_walk; by intros st. }
  assert (forall n, keeps (backoff_is f t) (@seal_loop S Load Env SL n)) as Hse.
  { intros n. induction n as [|n IH]; simpl; keeps_walk; by intros st. }
  unfold rebalance_slaves. keeps_walk; try (by intros st); auto.
Qed.

(** A slave dies with an error at [now], and the respawn timer fires before the next. *)
Definition fail_once (ec : error_code) (uuid : string) (now : Z) st : @engine_t S Load :=
  (on_spawn_rate_timeout profile gen (on_slave_death ec uuid now now st).2).2.
Definition fail_all (ec : error_code) (uuid : string) (times : list Z) st : @engine_t S Load :=
  foldl (fun st now => fail_once ec uuid now st) st times.

(** Each failure comes within 32 seconds of the one before. *)
Fixpoint hasty (before : Z) (times : list Z) : Prop :=
  match times with
  | [] => True
  | now :: times => now - before < seconds 32 /\ hasty now times
  end.

Lemma fail_once_run ec uuid now st :
  is_error ec = true -> on_spawn_rate_timer st = false ->
  backoff_is now (if now - last_failed st <? seconds 32 then Z.min (last_timeout st * 2) 32 else 1)
    (fail_once ec uuid now st).
Proof.
  intros He Ht. unfold fail_once, on_spawn_rate_timeout. erewrite st_bind_Ret by reflexivity.
  apply keeps_backoff. unfold on_slave_death. rewrite He. simpl.
  unfold st_bind, st_modify, st_when, tell_despawned, post, backoff; simpl. rewrite Ht. simpl.
  by destruct (pool st !! uuid).
Qed.

(** The delay before slaves are spawned again doubles with every failure that
    follows the last within 32 seconds, up to 32 seconds. *)
Theorem backoff_doubles (ec : error_code) (uuid : string) (times : list Z) (st : @engine_t S Load) :
  is_error ec = true -> on_spawn_rate_timer st = false -> 1 <= last_timeout st <= 32 ->
  hasty (last_failed st) times ->
  last_timeout (fail_all ec uuid times st) = Z.min (last_timeout st * 2 ^ Z.of_nat (length times)) 32.
Proof.
  intros He. revert st. induction times as [|now times IH]; intros st Ht Hl Hh; cbn [length].
  { change (last_timeout st = Z.min (last_timeout st * 1) 32). lia. }
  destruct Hh as [Hn Hh]. destruct (fail_once_run ec uuid now st He Ht) as (Hf & Hlt & Htm).
  rewrite (proj2 (Z.ltb_lt _ _)) in Hlt by done.
  change (fail_all ec uuid (now :: times) st) with (fail_all ec uuid times (fail_once ec uuid now st)).
  rewrite IH; [|done|rewrite Hlt; lia|by rewrite Hf].
  rewrite Hlt. rewrite Nat2Z.inj_succ, Z.pow_succ_r by lia.
  assert (1 <= 2 ^ Z.of_nat (length times)) by (apply (Z.pow_le_mono_r 2 0); lia).
  destruct (Z.min_spec (last_timeout st * 2) 32) as [[? ->]|[? ->]]; nia.
Qed.

(** A target of zero does not mean "no workers": the engine falls back to the
    automatic policy, which keeps at least one. *)
Theorem zero_population_spawns (st : @engine_t S Load) :
  reachable profile gen st -> stopped st = false -> on_spawn_rate_timer st = false ->
  grow_threshold profile <> 0 ->
  exists st', control_population profile gen 0 st = (Ret tt, st') /\ 1 <= pool_size st'.
Proof.
  intros Hr Hs Ht Hg. pose proof (reachable_wf profile gen SANE st Hr) as Hwf.
  unfold control_population. erewrite st_bind_Ret by reflexivity. set (st0 := set_target _ st).
  assert (wf st0) as Hw0 by (destruct Hwf; split; simpl; auto; lia).
  destruct (wanted_Ret st0 Hg) as [t Hw].
  destruct (rebalance_slaves_run st0 t Hw0 Hw) as (st' & E & _ & _ & _ & Hres).
  destruct (Hres Hs Ht) as [Es _]. exists st'. split; [done|]. rewrite Es. unfold clamp. lia.
Qed.
End theorems.

(** A profile may set the grow threshold to zero; the automatic policy then divides
    by it at the first rebalancing of the slaves. *)
Theorem zero_threshold_divides {S Load Env : Type} `{SL : !Slave S Load Env} (profile : profile_t)
    (gen : nat -> string) (st : @engine_t S Load) :
  0 < queue_limit profile -> grow_threshold profile = 0 -> stopped st = false -> pool_target st = 0 ->
  rebalance_slaves profile gen st = (Throw division_by_zero, st).
Proof.
  intros Hq Hg Hs Hp. unfold rebalance_slaves. erewrite st_bind_Ret by reflexivity. rewrite Hs.
  unfold wanted. rewrite Hp, (proj2 (Z.ltb_lt _ _) Hq), Hg. reflexivity.
Qed.

(** ** Witnesses: an engine of slave state machines *)

Fixpoint uuid_of (n : nat) : string := match n with O => "s" | Datatypes.S n => ("x" ++ uuid_of n)%string end.
Lemma uuid_of_inj i : forall j, uuid_of i = uuid_of j -> i = j.
Proof. induction i as [|i IH]; intros [|j]; simpl; intros H; try done. f_equal. apply IH. by injection H. Qed.

(** Ten slaves of ten channels, and no limit on the queue. *)
Definition unlimited_profile : profile_t := mk_profile true 1 1 1 1 1 1 1000 10 50 5 10 0 0 0.
Lemma unlimited_sane : sane unlimited_profile uuid_of.
Proof. split; [by split|done|intros i j; apply uuid_of_inj]. Qed.

Definition machines : Type := @engine_t machine_t machine_request.
Definition no_env : nat -> assign_env Machine.inject_env :=
  fun _ => mk_assign_env 0 0 (mk_env 0 true true true).
Definition a_request (p : Z) : request machine_request :=
  mk_request (client.construct, mk_load p 0 (Some 1000)) 0 (Some 1000) None.

(** Reachable engines, by the operations and by what their slaves do. *)
Lemma reachable_op (o : op (Load:=machine_request) (Env:=Machine.inject_env)) (st : machines) :
  reachable unlimited_profile uuid_of (SL := machine_slave unlimited_profile) st ->
  reachable unlimited_profile uuid_of (SL := machine_slave unlimited_profile)
    (exec unlimited_profile uuid_of (SL := machine_slave unlimited_profile) o st).2.
Proof. intros Hr. eapply rtc_r; [exact Hr|]. apply (step_op (SL := machine_slave unlimited_profile)). Qed.

Definition moved (evs : list event) (m : machine_t) : machine_t :=
  foldl (fun m ev => (Machine.step unlimited_profile ev m).2) m evs.

Lemma reachable_moves (evs : list event) : forall (st : machines) id m,
  Forall (fun ev => MachineFacts.is_inject ev = false) evs -> pool st !! id = Some m ->
  reachable unlimited_profile uuid_of (SL := machine_slave unlimited_profile) st ->
  reachable unlimited_profile uuid_of (SL := machine_slave unlimited_profile)
    (set_pool (<[id := moved evs m]> (pool st)) st).
Proof.
  induction evs as [|ev evs IH]; intros st id m Hf Hid Hr.
  { assert (set_pool (<[id := m]> (pool st)) st = st) as E.
    { rewrite insert_id by done. by destruct st. }
    simpl. by rewrite E. }
  inversion Hf as [|? ? Hev Hf']; subst. set (m1 := (Machine.step unlimited_profile ev m).2).
  set (st1 := set_pool (<[id := m1]> (pool st)) st).
  assert (set_pool (<[id := moved (ev :: evs) m]> (pool st)) st =
          set_pool (<[id := moved evs m1]> (pool st1)) st1) as ->.
  { unfold st1, set_pool; simpl. by rewrite insert_insert_eq. }
  apply IH; [done|apply lookup_insert_eq|]. eapply rtc_r; [exact Hr|].
  apply (step_slave (SL := machine_slave unlimited_profile) unlimited_profile uuid_of id m m1 st Hid). by exists ev.
Qed.

(** One slave is spawned and comes up, and serves a request. *)
Definition boot : list event :=
  [Run 0 true Spawned; Token success; Run 0 true Spawned; Ready 2 true true; Activate true true].
Abbreviation play o st := (exec unlimited_profile uuid_of (SL := machine_slave unlimited_profile) o st).2.
Definition one_slave : machines := play (ControlPopulation 0) engine_construct.
Definition ready_engine : machines := set_pool (<["s"%string := moved boot started]> (pool one_slave)) one_slave.
Definition busy_engine : machines := play (Enqueue (a_request 7) no_env no_env) ready_engine.

Lemma ready_reachable : reachable unlimited_profile uuid_of (SL := machine_slave unlimited_profile) ready_engine.
Proof.
  apply reachable_moves; [by repeat constructor|vm_compute; reflexivity|]. apply reachable_op. apply rtc_refl.
Qed.
Lemma busy_reachable : reachable unlimited_profile uuid_of (SL := machine_slave unlimited_profile) busy_engine.
Proof. apply reachable_op, ready_reachable. Qed.

Lemma engine_invariant_witness :
  queue_size busy_engine = 0 /\ pool_size busy_engine = 1 /\
  forall id s, pool busy_engine !! id = Some s -> Z.of_nat (Machine.load s) <= 10.
Proof.
  split; [vm_compute; reflexivity|]. split; [vm_compute; reflexivity|].
  exact (proj1 (engine_invariant (SL := machine_slave unlimited_profile) unlimited_profile uuid_of busy_engine
                  unlimited_sane busy_reachable)).
Defined.

Lemma automatic_policy_witness :
  exists st', rebalance_slaves unlimited_profile uuid_of (SL := machine_slave unlimited_profile) busy_engine = (Ret tt, st') /\
    pool_size st' = 1.
Proof.
  destruct (automatic_policy (SL := machine_slave unlimited_profile) unlimited_profile uuid_of unlimited_sane busy_engine 1
              busy_reachable) as (st' & E & Hs & _); [vm_compute; reflexivity..|].
  exists st'. split; [exact E|]. rewrite Hs. vm_compute. reflexivity.
Defined.

(** The same engine told to keep one slave. *)
Definition kept_engine : machines := play (ControlPopulation 1) busy_engine.
Lemma direct_policy_witness :
  exists st', rebalance_slaves unlimited_profile uuid_of (SL := machine_slave unlimited_profile) kept_engine = (Ret tt, st') /\
    count_active (SL := machine_slave unlimited_profile) (pool st') = 1.
Proof.
  destruct (direct_policy (SL := machine_slave unlimited_profile) unlimited_profile uuid_of unlimited_sane kept_engine
              (reachable_op (ControlPopulation 1) busy_engine busy_reachable))
    as (st' & E & _ & Hs); [vm_compute; reflexivity..|].
  exists st'. split; [exact E|]. vm_compute in Hs. exact (proj2 Hs).
Defined.

Lemma automatic_policy_suffices_witness :
  exists st', rebalance_slaves unlimited_profile uuid_of (SL := machine_slave unlimited_profile) busy_engine = (Ret tt, st') /\
    (1 <= pool_size st' * 10 \/ pool_size st' = 10).
Proof.
  destruct (automatic_policy_suffices (SL := machine_slave unlimited_profile) unlimited_profile uuid_of unlimited_sane
              busy_engine busy_reachable) as (st' & E & Hs); [vm_compute; reflexivity..|].
  exists st'. split; [exact E|]. exact Hs.
Defined.

Lemma enqueue_admission_witness :
  exists st', enqueue unlimited_profile uuid_of (SL := machine_slave unlimited_profile) (a_request 8) no_env no_env busy_engine
      = (Ret tt, st') /\ accepted st' = 2.
Proof.
  destruct (enqueue_admission (SL := machine_slave unlimited_profile) unlimited_profile uuid_of unlimited_sane
              (a_request 8) no_env no_env busy_engine busy_reachable) as (st' & E & _ & Ha & _).
  exists st'. split; [exact E|]. rewrite Ha. vm_compute. reflexivity.
Defined.

Lemma backoff_doubles_witness :
  last_timeout (fail_all (SL := machine_slave unlimited_profile) unlimited_profile uuid_of heartbeat_timeout "s"
    [seconds 1; seconds 3; seconds 7] busy_engine) = 8.
Proof.
  rewrite (backoff_doubles (SL := machine_slave unlimited_profile) unlimited_profile uuid_of heartbeat_timeout "s"
             [seconds 1; seconds 3; seconds 7] busy_engine); [vm_compute; reflexivity|vm_compute; reflexivity
             |vm_compute; reflexivity|vm_compute; split; discriminate|vm_compute; repeat split].
Defined.

Lemma zero_population_witness :
  exists st', control_population unlimited_profile uuid_of (SL := machine_slave unlimited_profile) 0
      (engine_construct : machines) = (Ret tt, st') /\ 1 <= pool_size st'.
Proof.
  apply (zero_population_spawns (SL := machine_slave unlimited_profile) unlimited_profile uuid_of unlimited_sane);
    [apply rtc_refl|reflexivity|reflexivity|discriminate].
Defined.

Lemma zero_threshold_witness :
  let profile := mk_profile true 1 1 1 1 1 1 1000 10 50 0 10 100 0 0 in
  rebalance_slaves profile uuid_of (SL := machine_slave profile) (engine_construct : machines) =
    (Throw division_by_zero, engine_construct).
Proof. intros profile. apply zero_threshold_divides; reflexivity. Defined.
