(* ===== verification/App.v ===== *)
(** * Applications and the node service

    [node/src/node/app.cpp]: an application is stopped, spooling or running; a running
    one owns an engine and is published in the context while enough workers are
    active.  [node/src/node.cpp]: the table of applications and the service's methods.

    The context's list of services is a set of names.  What the isolate, the storage
    and the context answer is an argument: [insert_err] is the exception with which the
    context refused to take a service in, if any, [remove_ok] says whether it gave one
    up, and a call that throws changes nothing.  An exception is [Some] of its code, or
    [None] when it is not a [std::system_error]. *)

From Stdlib Require Import Sorted.
From S2P Require Import Prelude Profile Channel EngineMachine EngineTheorems Engine.

Local Open Scope Z_scope.

Definition broken_pipe : error_code := mk_ec generic_category 32.

Section app.
Context {S Load Env : Type} `{SL : !Slave S Load Env}.
Context (gen : nat -> string).
Abbreviation overseer_t := (@engine_t S Load).

(** ** [app_state_t] *)

Inductive state_t :=
| stopped_t (ec : error_code)
| spooling_t (spooler : bool)
| running_t (overseer : overseer_t).

(** Handlers given to the application's event loop *)
Inductive task := TCancel (ec : error_code) | TPublish.

Record app_t := mk_app {
  name : string;
  profile : profile_t;
  state : state_t;
  loop : list task;
  (** results passed to the start request's callback; [None] is success *)
  callbacks : list (option error_code);
  (** the spool operations cancelled by [~spooling_t] *)
  cancelled : nat
}.

Definition set_state (s : state_t) (a : app_t) : app_t :=
  mk_app (name a) (profile a) s (loop a) (callbacks a) (cancelled a).
Definition dispatch_task (t : task) (a : app_t) : app_t :=
  mk_app (name a) (profile a) (state a) (loop a ++ [t]) (callbacks a) (cancelled a).
Definition call_back (r : option error_code) (a : app_t) : app_t :=
  mk_app (name a) (profile a) (state a) (loop a) (callbacks a ++ [r]) (cancelled a).

(** [std::exception]s, by their code *)
Abbreviation exn := (option error_code).

(** The services of the context, and an application. *)
Abbreviation world := (gset string * app_t)%type.

(** *** Running *)

Definition publish_service (insert_err : option exn) (w : world) : outcome exn unit * world :=
  match insert_err with
  | None => (Ret tt, ({[name w.2]} ∪ w.1, w.2))
  | Some e => (Throw e, w)
  end.
(** Its exception is eaten. *)
Definition unpublish (remove_ok : bool) (w : world) : world :=
  if remove_ok then (w.1 ∖ {[name w.2]}, w.2) else w.

Definition maybe_publish (insert_err : option exn) (o : overseer_t) (w : world) : outcome exn unit * world :=
  if active_workers o >=? publish_on (profile w.2) then publish_service insert_err w else (Ret tt, w).
Definition maybe_unpublish (remove_ok : bool) (o : overseer_t) (w : world) : world :=
  if active_workers o <? unpublish_under (profile w.2) then unpublish remove_ok w else w.

(** The notifications of the pool observer. *)
Definition spawned_notice (insert_err : option exn) (o : overseer_t) (w : world) : world :=
  (maybe_publish insert_err o w).2.
Definition despawned_notice (remove_ok : bool) (o : overseer_t) (w : world) : world := maybe_unpublish remove_ok o w.

(** The constructor of [running_t]; [engine_err] is the exception of creating the
    overseer or its socket, if any. *)
Definition running_construct (engine_err insert_err : option exn) (remove_ok : bool) (w : world)
  : outcome exn overseer_t * world :=
  match engine_err with
  | Some e => (Throw e, w)
  | None =>
      match maybe_publish insert_err engine_construct w with
      | (Ret _, w) => (Ret engine_construct, w)
      | (Throw e, w) => (Throw e, unpublish remove_ok w)
      end
  end.

(** *** Changes of state *)

(** The old state is destroyed after the new one is in place. *)
Definition reset (s : state_t) (remove_ok : bool) (w : world) : world :=
  let a := set_state s w.2 in
  match state w.2 with
  | stopped_t _ => (w.1, a)
  | spooling_t true => (w.1, mk_app (name a) (profile a) (state a) (loop a) (callbacks a) (Datatypes.S (cancelled a)))
  | spooling_t false => (w.1, a)
  | running_t _ => unpublish remove_ok (w.1, a)
  end.

Definition cancel (ec : error_code) (remove_ok : bool) (w : world) : world := reset (stopped_t ec) remove_ok w.

(** [spool_handle_t] *)
Definition on_abort (ec : error_code) (a : app_t) : app_t := call_back (Some ec) (dispatch_task (TCancel ec) a).
Definition on_ready (a : app_t) : app_t := dispatch_task TPublish a.

(** What the isolate answers to [spool]: an exception of the lookup, or of the call
    (with a code, or another one), or a spooler. *)
Inductive spool_result := NoIsolate (ec : error_code) | SpoolThrew (ec : option error_code) | SpoolStarted.

Definition is_stopped (s : state_t) : bool := match s with stopped_t _ => true | _ => false end.

(** [std::logic_error], or an error with a code *)
Inductive spool_error := logic_error | spool_code (ec : error_code).

Definition spool (r : spool_result) (a : app_t) : outcome spool_error unit * app_t :=
  if negb (is_stopped (state a)) then (Throw logic_error, a) else
  match r with
  | NoIsolate ec => (Throw (spool_code ec), a)
  | SpoolThrew ec => (Ret tt, set_state (spooling_t false) (on_abort (default uncaught_spool_error ec) a))
  | SpoolStarted => (Ret tt, set_state (spooling_t true) a)
  end.

(** The handlers of [publish]: the callback is told, and the application cancelled. *)
Definition publish_failed (e : exn) (remove_ok : bool) (w : world) : world :=
  let ec := default uncaught_publish_error e in
  let w := (w.1, call_back (Some ec) w.2) in
  if is_error ec then cancel ec remove_ok w else w.

(** The callback of the start is called inside the [try]: [thrown] is the exception it throws
    when it is told that the application runs, if any.  What it throws to a handler leaves
    the thread of the loop and ends the process. *)
Definition publish (engine_err insert_err : option exn) (remove_ok : bool) (thrown : option exn) (w : world) : world :=
  match running_construct engine_err insert_err remove_ok w with
  | (Ret o, w) =>
      let w := reset (running_t o) remove_ok w in
      let w := (w.1, call_back None w.2) in
      match thrown with
      | None => w
      | Some e => publish_failed e remove_ok w
      end
  | (Throw e, w) => publish_failed e remove_ok w
  end.

(** [app_t::app_t] *)
Definition app_construct (n : string) (p : profile_t) (r : spool_result) : outcome spool_error app_t :=
  match spool r (mk_app n p (stopped_t success) [] [] 0) with
  | (Ret _, a) => Ret a
  | (Throw e, _) => Throw e
  end.

(** [~app_t] up to the end of its event loop *)
Definition app_cancel (remove_ok : bool) (w : world) : world := cancel success remove_ok w.

Definition state_name (a : app_t) : string :=
  match state a with
  | stopped_t ec => if is_error ec then "broken" else "stopped"
  | spooling_t _ => "spooling"
  | running_t _ => "running"
  end.

Definition overseer (a : app_t) : option overseer_t :=
  match state a with running_t o => Some o | _ => None end.

(** Events of an application *)
Inductive app_event :=
| Ready
| Abort (ec : error_code)
| RunTask (engine_err insert_err : option exn) (remove_ok : bool) (thrown : option exn)
| PoolOp (o : op (Load:=Load) (Env:=Env))
| Spawned (insert_err : option exn)
| Despawned (remove_ok : bool)
| Cancelled (remove_ok : bool).

(** Handlers run in the order they were given. *)
Definition run_task (engine_err insert_err : option exn) (remove_ok : bool) (thrown : option exn) (w : world) : world :=
  match loop w.2 with
  | [] => w
  | t :: ts =>
      let w := (w.1, mk_app (name w.2) (profile w.2) (state w.2) ts (callbacks w.2) (cancelled w.2)) in
      match t with
      | TCancel ec => cancel ec remove_ok w
      | TPublish => publish engine_err insert_err remove_ok thrown w
      end
  end.

Definition app_step (e : app_event) (w : world) : world :=
  match e with
  | Ready => (w.1, on_ready w.2)
  | Abort ec => (w.1, on_abort ec w.2)
  | RunTask engine_err insert_err remove_ok thrown => run_task engine_err insert_err remove_ok thrown w
  | PoolOp o => match state w.2 with
                | running_t e => (w.1, set_state (running_t (exec (profile w.2) gen o e).2) w.2)
                | _ => w
                end
  | Spawned err => match state w.2 with running_t o => spawned_notice err o w | _ => w end
  | Despawned ok => match state w.2 with running_t o => despawned_notice ok o w | _ => w end
  | Cancelled ok => app_cancel ok w
  end.

Definition app_run (es : list app_event) (w : world) : world := foldl (fun w e => app_step e w) w es.

(** ** The application's dispatch *)

(** [app_dispatch_t::on_enqueue]: the error sent to the client, if any. *)
Definition on_enqueue (p : profile_t) (r : request Load) (env env' : nat -> assign_env Env)
    (code : engine_error -> error_code) (o : option overseer_t) : option error_code * option overseer_t :=
  match o with
  | None => (Some broken_pipe, None)
  | Some e => match enqueue p gen r env env' e with
              | (Ret _, e) => (None, Some e)
              | (Throw err, e) => (Some (code err), Some e)
              end
  end.

(** The control stream of the application's service, which holds the overseer weakly. *)
Inductive control_message := Chunk (size : Z) | ControlError | Choke | Discard.
Definition app_controlled (p : profile_t) (m : control_message) (o : option overseer_t) : option overseer_t :=
  match m with
  | Chunk size => (fun o => (control_population p gen size o).2) <$> o
  | Discard => (fun o => (control_population p gen 0 o).2) <$> o
  | ControlError | Choke => o
  end.

(** The control stream of the node service: a number sets the population, its end
    resets it. *)
Definition controlled (p : profile_t) (m : control_message) (o : overseer_t) : overseer_t :=
  match m with
  | Chunk size => (control_population p gen size o).2
  | ControlError | Choke | Discard => (control_population p gen 0 o).2
  end.

(** ** [node_t] *)

(** [std::map]: sorted by name. *)
Abbreviation apps_t := (list (string * app_t)).

Fixpoint find_app (n : string) (l : apps_t) : option app_t :=
  match l with
  | [] => None
  | (k, a) :: l => if String.eqb k n then Some a else find_app n l
  end.

Fixpoint insert_app (n : string) (a : app_t) (l : apps_t) : apps_t :=
  match l with
  | [] => [(n, a)]
  | (k, b) :: l' => if String.ltb n k then (n, a) :: l else (k, b) :: insert_app n a l'
  end.

(** [apps.erase(it)]: the rest of the map from the next element, and the map. *)
Fixpoint erase_app (n : string) (l : apps_t) : option (apps_t * apps_t) :=
  match l with
  | [] => None
  | (k, a) :: l => if String.eqb k n then Some (l, l)
                   else match erase_app n l with
                        | Some (next, l) => Some (next, (k, a) :: l)
                        | None => None
                        end
  end.

Inductive node_failure := node_throw (ec : error_code) | app_failed (e : spool_error) | undefined_behaviour.

Definition start_app (n : string) (p : profile_t) (r : spool_result) (l : apps_t)
  : outcome node_failure unit * apps_t :=
  match find_app n l with
  | Some _ => (Throw (node_throw already_started), l)
  | None => match app_construct n p r with
            | Ret a => (Ret tt, insert_app n a l)
            | Throw e => (Throw (app_failed e), l)
            end
  end.

(** The application whose pointer is released by the background task is the one
    [erase] returns: the next in the map.  At the end of the map it is read out of
    bounds. *)
Definition pause_app (n : string) (l : apps_t) : outcome node_failure app_t * apps_t :=
  match find_app n l with
  | None => (Throw (node_throw not_running), l)
  | Some _ =>
      match erase_app n l with
      | Some ((_, a) :: _, l) => (Ret a, l)
      | Some ([], l) => (Throw undefined_behaviour, l)
      | None => (Throw undefined_behaviour, l)
      end
  end.

Definition list_apps (l : apps_t) : list string := l.*1.
Definition node_info (n : string) (l : apps_t) : option string := state_name <$> find_app n l.
Definition node_overseer (n : string) (l : apps_t) : option overseer_t := find_app n l ≫= overseer.

(** The node service's [enqueue]: an unknown application is answered with an error on
    the stream, one that does not run throws out of the handler. *)
Definition node_enqueue (n : string) (r : request Load) (env env' : nat -> assign_env Env)
    (code : engine_error -> error_code) (l : apps_t) : option (option error_code * option overseer_t) :=
  match find_app n l with
  | None => Some (Some not_running, None)
  | Some a => match overseer a with
              | None => None
              | Some e => match enqueue (profile a) gen r env env' e with
                          | (Ret _, e) => Some (None, Some e)
                          | (Throw err, e) => Some (Some (code err), Some e)
                          end
              end
  end.
Definition on_context_shutdown (l : apps_t) : apps_t := [].

(** The runlist: applications that fail to start are reported together. *)
Fixpoint run_list (runlist : list (string * (profile_t * spool_result))) (l : apps_t) : list string * apps_t :=
  match runlist with
  | [] => ([], l)
  | (n, (p, r)) :: rest =>
      match start_app n p r l with
      | (Ret _, l) => run_list rest l
      | (Throw _, l) => let '(errored, l) := run_list rest l in (n :: errored, l)
      end
  end.
End app.

(** ** Facts *)

Section facts.
Context {S Load Env : Type} `{SL : !Slave S Load Env}.
Context (gen : nat -> string).
Abbreviation world := (gset string * @app_t S Load)%type.
Implicit Types (w : world) (o : @engine_t S Load).

(** Publication follows the number of active workers with a hysteresis: a spawn
    notice publishes the application from [publish-on] workers on, a despawn notice
    withdraws it below [unpublish-under], nothing else changes it; and as the second
    threshold is not above the first, an application published at some number of
    workers is not withdrawn at the same number. *)
Theorem publication_hysteresis (o : @engine_t S Load) (w : world) :
  let n := name w.2 in
  (n ∈ (spawned_notice None o w).1 <-> n ∈ w.1 \/ publish_on (profile w.2) <= active_workers o) /\
  (n ∈ (despawned_notice true o w).1 <-> n ∈ w.1 /\ unpublish_under (profile w.2) <= active_workers o) /\
  (profile_wf (profile w.2) -> publish_on (profile w.2) <= active_workers o ->
   n ∈ (despawned_notice true o (spawned_notice None o w)).1).
Proof.
  intros n. assert (forall x, n ∈ (despawned_notice true o (x, w.2)).1 <->
                      n ∈ x /\ unpublish_under (profile w.2) <= active_workers o) as Hd.
  { intros x. unfold despawned_notice, maybe_unpublish, unpublish; simpl.
    destruct (Z.ltb_spec (active_workers o) (unpublish_under (profile w.2))); simpl; [|naive_solver lia].
    split; [set_solver|]. intros [_ ?]. lia. }
  assert (n ∈ (spawned_notice None o w).1 <-> n ∈ w.1 \/ publish_on (profile w.2) <= active_workers o) as Hs.
  { unfold spawned_notice, maybe_publish, publish_service.
    destruct (Z.geb_spec (active_workers o) (publish_on (profile w.2))); simpl; [set_solver by lia|].
    split; [by left|]. intros [?|?]; [done|lia]. }
  split; [done|]. split; [by destruct w; apply Hd|]. intros [] Hp.
  assert (spawned_notice None o w = ((spawned_notice None o w).1, w.2)) as ->.
  { unfold spawned_notice, maybe_publish, publish_service. by destruct w, (_ >=? _). }
  apply Hd. split; [apply Hs; by right|lia].
Qed.

(** Answers of the isolate still to be reported: the publications in the loop. *)
Definition is_publish (t : task) : bool := match t with TPublish => true | _ => false end.
Definition pending (l : list task) : nat := length (List.filter is_publish l).
Definition is_answer (e : @app_event Load Env) : bool := match e with Ready | Abort _ => true | _ => false end.
Definition answers (es : list (@app_event Load Env)) : nat := length (List.filter is_answer es).

(** What the callback is told of one answer: the result, and once more when it was told of a
    success and threw. *)
Definition told (b : option (option error_code) * option error_code) : list (option error_code) :=
  match b with
  | (Some x, None) => [None; Some (default uncaught_publish_error x)]
  | (_, r) => [r]
  end.

(** The answers [bs] have been reported, [n] in all were given. *)
Definition reported (bs : list (option (option error_code) * option error_code)) (n : nat) w : Prop :=
  callbacks w.2 = concat (told <$> bs) /\ (length bs + pending (loop w.2) = n)%nat.
(** The callback threw only when an event says so. *)
Definition threw_in (es : list (@app_event Load Env)) (b : option (option error_code) * option error_code) : Prop :=
  match b.1 with None => True | Some x => exists engine_err insert_err ok, RunTask engine_err insert_err ok (Some x) ∈ es end.

Lemma reset_reports s ok w : callbacks (reset s ok w).2 = callbacks w.2 /\ loop (reset s ok w).2 = loop w.2.
Proof.
  destruct w as [sv [n p st l c k]]. unfold reset, unpublish; simpl.
  destruct st as [|[]|]; simpl; try done. by destruct ok.
Qed.

Lemma running_reports e i r w :
  callbacks (running_construct e i r w).2.2 = callbacks w.2 /\ loop (running_construct e i r w).2.2 = loop w.2.
Proof.
  destruct w as [sv a]. unfold running_construct, maybe_publish, publish_service, unpublish.
  destruct e; [done|]. destruct (_ >=? _); [|done]. destruct i; [|done]. by destruct r.
Qed.

Lemma failed_reports e r w :
  callbacks (publish_failed e r w).2 = callbacks w.2 ++ [Some (default uncaught_publish_error e)] /\ loop (publish_failed e r w).2 = loop w.2.
Proof.
  unfold publish_failed. destruct (is_error _); [|done]. unfold cancel.
  destruct (reset_reports (stopped_t (default uncaught_publish_error e)) r (w.1, call_back (Some (default uncaught_publish_error e)) w.2)) as [-> ->]. done.
Qed.

Lemma publish_reports e i r t w :
  exists b, (b.1 = None \/ b.1 = t) /\ callbacks (publish e i r t w).2 = callbacks w.2 ++ told b /\ loop (publish e i r t w).2 = loop w.2.
Proof.
  unfold publish. destruct (running_reports e i r w) as [<- <-]. destruct (running_construct e i r w) as [[o|x] w1]; cbn [snd].
  - destruct (reset_reports (running_t o) r w1) as [<- <-]. destruct (reset (running_t o) r w1) as [sv2 a2]. cbn [fst snd]. destruct t as [x|].
    + exists (Some x, None). destruct (failed_reports x r (sv2, call_back None a2)) as [-> ->]. split; [by right|]. cbn. by rewrite <- app_assoc.
    + by exists (None, None); auto.
  - exists (None, Some (default uncaught_publish_error x)). destruct (failed_reports x r w1) as [-> ->]. by auto.
Qed.

Lemma reported_more bs b n m w w' :
  reported bs n w -> callbacks w'.2 = callbacks w.2 ++ told b -> (pending (loop w'.2) + 1 + n = pending (loop w.2) + m)%nat -> reported (bs ++ [b]) m w'.
Proof.
  intros [Hc Hn] Hc' Hm. split; [|rewrite length_app; simpl; lia]. rewrite Hc', Hc, fmap_app, concat_app. cbn. by rewrite app_nil_r.
Qed.

Lemma app_step_reports e w bs n :
  reported bs n w -> exists bs', (bs' = bs \/ exists b, bs' = bs ++ [b] /\ threw_in [e] b) /\
    reported bs' (n + if is_answer e then 1 else 0)%nat (app_step gen e w).
Proof.
  intros Hr. assert (forall w', callbacks w'.2 = callbacks w.2 -> loop w'.2 = loop w.2 -> is_answer e = false ->
    exists bs', (bs' = bs \/ exists b, bs' = bs ++ [b] /\ threw_in [e] b) /\ reported bs' (n + if is_answer e then 1 else 0)%nat w') as Hsame.
  { intros w' Ec El Ea. exists bs. split; [by left|]. rewrite Ea, Nat.add_0_r. unfold reported in *. by rewrite Ec, El. }
  destruct e as [|ec|e i r t|q|err|ok|ok]; cbn [app_step is_answer].
  - exists bs. split; [by left|]. destruct Hr as [Hc Hn]. split; [done|]. unfold pending in *. simpl. rewrite List.filter_app, length_app. simpl. lia.
  - exists (bs ++ [(None, Some ec)]). split; [right; by eexists|]. apply (reported_more _ _ n _ w); [done|done|].
    unfold pending. simpl. rewrite List.filter_app, length_app. simpl. lia.
  - unfold run_task. destruct (loop w.2) as [|[ec|] l] eqn:El; [by apply Hsame| |].
    + exists bs. split; [by left|]. unfold cancel. set (w1 := (_, _)). destruct (reset_reports (stopped_t ec) r w1) as [Ec' El'].
      destruct Hr as [Hc Hn]. split; [by rewrite Ec'|]. rewrite El'. rewrite El in Hn. unfold pending in *. simpl in *. lia.
    + set (w1 := (_, _)). destruct (publish_reports e i r t w1) as (b & Hb & Ec' & El'). exists (bs ++ [b]). split.
      * right. exists b. split; [done|]. unfold threw_in. destruct Hb as [->| ->]; [done|]. destruct t as [x|]; [|done]. exists e, i, r. by left.
      * apply (reported_more _ _ n _ w); [done|done|]. rewrite El', El. unfold pending. simpl. lia.
  - apply Hsame; by destruct (state w.2).
  - apply Hsame; try done; destruct (state w.2); try done; unfold spawned_notice, maybe_publish, publish_service; destruct (_ >=? _), err; done.
  - apply Hsame; try done; destruct (state w.2); try done; unfold despawned_notice, maybe_unpublish, unpublish; destruct (_ <? _), ok; done.
  - destruct (reset_reports (stopped_t success) ok w) as [Ec El]. by apply Hsame.
Qed.

Lemma app_run_reports es w bs n :
  Forall (threw_in []) bs -> reported bs n w ->
  exists bs', Forall (threw_in es) bs' /\ reported bs' (n + answers es)%nat (app_run gen es w).
Proof.
  intros Hbs Hr. assert (forall es es' b, (forall e, e ∈ es -> e ∈ es') -> threw_in es b -> threw_in es' b) as Hmono.
  { intros es1 es2 [[x|] r] Hin; [|done]. intros (e & i & ok & H). exists e, i, ok. by apply Hin. }
  induction es as [|e es IH] using rev_ind; [exists bs; split; [done|]; unfold answers; simpl; by rewrite Nat.add_0_r|].
  destruct IH as (bs1 & H1 & Hr1). destruct (app_step_reports e _ _ _ Hr1) as (bs2 & H2 & Hr2). exists bs2. split.
  - assert (Forall (threw_in (es ++ [e])) bs1) as H1' by (eapply Forall_impl; [exact H1|]; intros b; apply Hmono; set_solver).
    destruct H2 as [->|(b & -> & Hb)]; [done|]. apply Forall_app. split; [done|]. apply Forall_singleton. revert Hb. apply Hmono. set_solver.
  - unfold app_run in *. rewrite foldl_app. simpl. assert (answers (es ++ [e]) = answers es + if is_answer e then 1 else 0)%nat as ->.
    { unfold answers. rewrite List.filter_app, length_app. simpl. by destruct (is_answer e). }
    by rewrite Nat.add_assoc.
Qed.

(** Whoever asked for the application to start is answered exactly once for each
    answer of the isolate, or once when spooling failed at once, and a second time when
    it was told of a success and threw: the answers reported and the publications still
    to run add up to those given, over every history of the application. *)
Theorem start_reported (n : string) (p : profile_t) (r : spool_result) (sv : gset string)
    (es : list (@app_event Load Env)) (a : @app_t S Load) :
  app_construct n p r = Ret a ->
  let w := app_run gen es (sv, a) in
  exists bs, Forall (threw_in es) bs /\ callbacks w.2 = concat (told <$> bs) /\
    (length bs + pending (loop w.2) = answers es + match r with SpoolThrew _ => 1 | _ => 0 end)%nat.
Proof.
  intros Ha w. unfold app_construct, spool in Ha; simpl in Ha.
  assert (exists bs, Forall (threw_in []) bs /\ reported bs (match r with SpoolThrew _ => 1 | _ => 0 end)%nat (sv, a)) as (bs & Hbs & Hr).
  { destruct r as [ec|ec|]; simplify_eq.
    - exists [(None, Some (default uncaught_spool_error ec))]. split; [by repeat constructor|]. done.
    - exists []. split; [constructor|]. done. }
  destruct (app_run_reports es _ _ _ Hbs Hr) as (bs' & H1 & H2 & H3). exists bs'. split; [done|]. split; [done|]. fold w in H3. lia.
Qed.

(** An application that is being destroyed comes back when the isolate's answer is
    already waiting in its event loop: publication does not look at the state. *)
Theorem publish_after_cancel (w : world) (remove_ok : bool) :
  loop w.2 = [TPublish] ->
  exists o, state (app_run gen [Cancelled remove_ok; RunTask None None remove_ok None] w).2 = running_t o.
Proof.
  destruct w as [sv [n p st l c k]]; simpl. intros ->. exists engine_construct.
  assert (forall (s : @state_t S Load) (x : world), state (reset s remove_ok x).2 = s) as Hs.
  { intros s [sv' [n' p' st' l' c' k']]. unfold reset, unpublish; simpl.
    destruct st' as [|[]|]; simpl; try done. by destruct remove_ok. }
  assert (loop (app_cancel remove_ok (sv, mk_app n p st [TPublish] c k)).2 = [TPublish]) as El.
  { unfold app_cancel, cancel, reset, unpublish; simpl. destruct st as [|[]|]; simpl; try done. by destruct remove_ok. }
  unfold run_task. rewrite El. unfold publish, running_construct, maybe_publish, publish_service; simpl.
  destruct (_ >=? _); simpl; by rewrite Hs.
Qed.

(** ** The table of applications *)

Abbreviation apps_t := (list (string * @app_t S Load)).
Definition before (x y : string) : Prop := String.ltb x y = true.

(** The keys of a [std::map]: sorted, and each once. *)
Record table_wf (l : apps_t) : Prop := {
  tw_sorted : Sorted before (l.*1);
  tw_nodup : NoDup (l.*1)
}.

Lemma before_total x y : String.ltb x y = false -> x <> y -> before y x.
Proof.
  unfold before, String.ltb. intros Hl Hn. rewrite String.compare_antisym.
  destruct (String.compare x y) eqn:E; try done. by apply String.compare_eq_iff in E.
Qed.

Lemma find_app_None n (l : apps_t) : find_app n l = None <-> n ∉ l.*1.
Proof.
  induction l as [|[k a] l IH]; simpl; [split; [intros _; apply not_elem_of_nil|done]|].
  rewrite not_elem_of_cons. destruct (String.eqb_spec k n) as [->|]; [naive_solver|]. rewrite IH. naive_solver.
Qed.

Lemma insert_app_perm n a (l : apps_t) : (insert_app n a l).*1 ≡ₚ n :: l.*1.
Proof.
  induction l as [|[k b] l IH]; simpl; [done|]. destruct (String.ltb n k); simpl; [done|].
  rewrite IH. apply Permutation_swap.
Qed.

Lemma insert_app_sorted n a (l : apps_t) : (n ∉ l.*1) -> Sorted before (l.*1) -> Sorted before ((insert_app n a l).*1).
Proof.
  induction l as [|[k b] l IH]; simpl; intros Hn Hs; [by repeat constructor|].
  apply not_elem_of_cons in Hn as [Hk Hn]. destruct (String.ltb n k) eqn:E; simpl.
  - constructor; [done|]. by constructor.
  - inversion Hs as [|? ? Hs' Hh]; subst. constructor; [by apply IH|].
    destruct l as [|[k' b'] l]; simpl in *; [constructor; by apply before_total|].
    destruct (String.ltb n k'); simpl; constructor; [by apply before_total|]. by inversion Hh.
Qed.

Lemma insert_app_find n a m (l : apps_t) :
  (n ∉ l.*1) -> find_app m (insert_app n a l) = if String.eqb n m then Some a else find_app m l.
Proof.
  induction l as [|[k b] l IH]; simpl; intros Hn; [done|]. apply not_elem_of_cons in Hn as [Hk Hn].
  destruct (String.ltb n k); simpl; [done|]. rewrite IH by done.
  destruct (String.eqb_spec k m) as [->|]; [|done]. by rewrite (proj2 (String.eqb_neq _ _) Hk).
Qed.

(** [start_app] adds an application under a name that is free, keeps the table in
    order and the other applications as they are; a name in use is refused, and a
    failed construction leaves the table alone. *)
Theorem start_app_spec (n : string) (p : profile_t) (r : spool_result) (l : apps_t) :
  table_wf l ->
  let '(res, l') := start_app n p r l in
  table_wf l' /\
  match find_app n l, app_construct n p r with
  | Some _, _ => res = Throw (node_throw already_started) /\ l' = l
  | None, Throw e => res = Throw (app_failed e) /\ l' = l
  | None, Ret a => res = Ret tt /\ list_apps l' ≡ₚ n :: list_apps l /\
                   forall m, find_app m l' = if String.eqb n m then Some a else find_app m l
  end.
Proof.
  intros [Hs Hn]. unfold start_app. destruct (find_app n l) as [a|] eqn:Ef; [done|].
  destruct (app_construct n p r) as [a|e]; [|done]. pose proof Ef as Hf. apply find_app_None in Hf.
  split; [split|].
  - by apply insert_app_sorted.
  - rewrite insert_app_perm. by constructor.
  - split; [done|]. split; [apply insert_app_perm|]. intros m. by apply insert_app_find.
Qed.

(** [pause_app] takes the application out of the table, but the pointer it hands to
    the background task is that of the next application in the table; for the last one
    it is read past the end. *)
Theorem pause_app_takes_next (n : string) (a : @app_t S Load) (l1 l2 : apps_t) :
  (n ∉ l1.*1) ->
  pause_app n (l1 ++ (n, a) :: l2) =
    (match l2 with (_, b) :: _ => Ret b | [] => Throw undefined_behaviour end, l1 ++ l2).
Proof.
  intros Hn. unfold pause_app.
  assert (find_app n (l1 ++ (n, a) :: l2) = Some a /\ erase_app n (l1 ++ (n, a) :: l2) = Some (l2, l1 ++ l2)) as [-> ->].
  { induction l1 as [|[k b] l1 IH]; simpl; [by rewrite String.eqb_refl|].
    apply not_elem_of_cons in Hn as [Hk Hn]. rewrite (proj2 (String.eqb_neq _ _)) by done.
    destruct (IH Hn) as [-> ->]. done. }
  by destruct l2 as [|[k b] l2].
Qed.
End facts.

(** ** Witnesses *)

Definition example_app (n : string) (l : list task) : @app_t Machine.machine_t machine_request :=
  mk_app n unlimited_profile (spooling_t true) l [] 0.

Lemma start_reported_witness :
  length (callbacks (app_run uuid_of (SL := machine_slave unlimited_profile)
            [Ready; RunTask None None true (Some None); Cancelled true] (∅, example_app "a" [])).2) = 2%nat.
Proof.
  pose proof (start_reported (SL := machine_slave unlimited_profile) uuid_of "a" unlimited_profile SpoolStarted ∅
                [Ready; RunTask None None true (Some None); Cancelled true] (example_app "a" []) eq_refl) as (bs & _ & _ & H).
  revert H. vm_compute. intros _. reflexivity.
Defined.

Lemma publish_after_cancel_witness :
  exists o, state (app_run uuid_of (SL := machine_slave unlimited_profile)
                     [Cancelled true; RunTask None None true None] (∅, example_app "a" [TPublish])).2 = running_t o.
Proof.
  apply (publish_after_cancel (SL := machine_slave unlimited_profile) uuid_of (∅, example_app "a" [TPublish]) true).
  reflexivity.
Defined.

Lemma start_app_witness :
  (start_app "b" unlimited_profile SpoolStarted [("a"%string, example_app "a" [])]).2
    = [("a"%string, example_app "a" []); ("b"%string, example_app "b" [])] /\
  table_wf (start_app "b" unlimited_profile SpoolStarted [("a"%string, example_app "a" [])]).2.
Proof.
  split; [vm_compute; reflexivity|].
  pose proof (start_app_spec "b" unlimited_profile SpoolStarted [("a"%string, example_app "a" [])]) as H.
  destruct (start_app "b" unlimited_profile SpoolStarted [("a"%string, example_app "a" [])]) as [res l'].
  apply H. split; simpl; [by repeat constructor|]. apply NoDup_singleton.
Defined.

Lemma pause_app_witness :
  pause_app "b" [("a"%string, example_app "a" []); ("b"%string, example_app "b" [])]
    = (Throw undefined_behaviour, [("a"%string, example_app "a" [])]).
Proof. apply (pause_app_takes_next "b" (example_app "b" []) [("a"%string, example_app "a" [])] []). set_solver. Defined.
