(* ===== verification/NodeService.v ===== *)
(** * The node service: its slots, its audit and its control streams

    [node/src/node.cpp] around the table of applications of [App.v]: the middleware that
    authorizes an event and writes the audit, the slots of the service, and the control
    streams, which keep the overseer of an application by a shared pointer.

    Overseers are named by serial numbers: [serials] gives that of the running state an
    application of the table has or will have, [detached] holds the overseers whose
    application is gone while a control stream keeps them.  The observer of an overseer is
    a reference to the state that created it, so that an overseer that outlives this state
    and tells its observer follows a dangling reference: the process dies.

    An application that has left the table is not followed further; what its event loop
    does before it ends is in [App.v]. *)

From S2P Require Import Prelude Profile Channel EngineMachine EngineTheorems Engine App.

Local Open Scope Z_scope.
Local Open Scope cpp_scope.

Section node.
Context {S Load Env : Type} `{SL : !Slave S Load Env}.
Context (gen : nat -> string).
(** [api::authorization::event_t::verify], which throws when access is denied *)
Context {Identity : Type} (verify : string -> Identity -> option error_code).
(** What the engine's errors are as codes *)
Context (code : engine_error -> error_code).

Abbreviation overseer_t := (@engine_t S Load).
Abbreviation app_t := (@app_t S Load).
Abbreviation apps_t := (list (string * app_t)).

(** ** Data *)

(** One line of the audit: the event, who asked, and the code it failed with *)
Record audit_t := mk_audit { au_event : string; au_identity : Identity; au_code : error_code }.

Record node_t := mk_node {
  apps : apps_t;
  services : gset string;
  serials : gmap string nat;
  next : nat;
  streams : gmap nat (string * nat);
  detached : gmap nat (profile_t * overseer_t);
  audit : list audit_t
}.

Definition set_apps x s := mk_node x (services s) (serials s) (next s) (streams s) (detached s) (audit s).
Definition set_services x s := mk_node (apps s) x (serials s) (next s) (streams s) (detached s) (audit s).
Definition set_serials x s := mk_node (apps s) (services s) x (next s) (streams s) (detached s) (audit s).
Definition set_next x s := mk_node (apps s) (services s) (serials s) x (streams s) (detached s) (audit s).
Definition set_streams x s := mk_node (apps s) (services s) (serials s) (next s) x (detached s) (audit s).
Definition set_detached x s := mk_node (apps s) (services s) (serials s) (next s) (streams s) x (audit s).
Definition set_audit x s := mk_node (apps s) (services s) (serials s) (next s) (streams s) (detached s) x.

Definition node_construct : node_t := mk_node [] ∅ ∅ 0 ∅ ∅ [].

(** What a handler throws; [crashed] is the end of the process. *)
Inductive failure :=
| system_error (ec : error_code)
| app_is_not_running
| invalid_state
| other_exception
| crashed.

Abbreviation N := (ST node_t failure).

(** Errors of [App.v] as the slots see them *)
Definition failure_of (e : node_failure) : failure :=
  match e with
  | node_throw ec => system_error ec
  | app_failed (spool_code ec) => system_error ec
  | app_failed logic_error => other_exception
  | undefined_behaviour => crashed
  end.

(** ** The middleware *)

(** The audit gets a line for every [std::system_error] of the check and of the handler,
    which goes on to the client. *)
Definition event_middleware {A} (event : string) (identity : Identity) (fn : N A) : N A :=
  st_catch
    (match verify event identity with
     | Some ec => st_throw (system_error ec)
     | None => fn
     end)
    (fun e => match e with
              | system_error ec => st_modify (fun s => set_audit (audit s ++ [mk_audit event identity ec]) s) ;;; st_throw e
              | _ => st_throw e
              end).

(** ** Lifetimes *)

Definition held (k : nat) (s : node_t) : bool :=
  bool_decide (Exists (fun x => x.2.2 = k) (map_to_list (streams s))).

(** The running state of an application is destroyed: its overseer goes with it unless a
    control stream keeps it. *)
Definition retire (k : nat) (p : profile_t) (o : option overseer_t) (s : node_t) : node_t :=
  match o with
  | Some o => if held k s then set_detached (<[k := (p, o)]> (detached s)) s else s
  | None => s
  end.

(** A serial number for the next running state of application [n] *)
Definition allot (n : string) (s : node_t) : node_t :=
  set_next (Datatypes.S (next s)) (set_serials (<[n := next s]> (serials s)) s).

Fixpoint replace_app (n : string) (a : app_t) (l : apps_t) : apps_t :=
  match l with
  | [] => []
  | (k, b) :: l => if String.eqb k n then (k, a) :: l else (k, b) :: replace_app n a l
  end.

(** ** The slots *)

Definition start (n : string) (p : profile_t) (r : spool_result) : N unit :=
  let! s := st_get in
  match start_app n p r (apps s) with
  | (Ret _, l) => st_modify (fun s => allot n (set_apps l s))
  | (Throw e, _) => st_throw (failure_of e)
  end.

(** The lambda that the slot passes as the callback of a start *)
Inductive reply := Closed | Aborted (ec : error_code).
Definition on_started (future : option error_code) : reply :=
  match future with None => Closed | Some ec => Aborted ec end.
(** What the deferred of the start of an application has been told *)
Definition start_replies (a : app_t) : list reply := on_started <$> callbacks a.

Definition start_slot (identity : Identity) (n : string) (p : profile_t) (r : spool_result) : N unit :=
  event_middleware "start_app" identity (start n p r).

(** The running state goes with its application. *)
Definition drop_app (remove_ok : bool) (n : string) (a : app_t) (l : apps_t) (s : node_t) : node_t :=
  let s := set_services (app_cancel remove_ok (services s, a)).1 (set_apps l s) in
  match serials s !! n with
  | Some k => set_serials (delete n (serials s)) (retire k (profile a) (overseer a) s)
  | None => s
  end.

(** The pointer in the table is the last one: the application is destroyed when it is
    erased, inside of the lock. *)
Definition pause (n : string) (remove_ok : bool) : N unit :=
  let! s := st_get in
  match pause_app n (apps s), find_app n (apps s) with
  | (Throw e, _), _ => st_throw (failure_of e)
  | (Ret _, l), Some a => st_modify (drop_app remove_ok n a l)
  | (Ret _, _), None => st_ret tt
  end.

Definition pause_slot (identity : Identity) (n : string) (remove_ok : bool) : N unit :=
  event_middleware "pause_app" identity (pause n remove_ok).

(** [node_t::overseer] *)
Definition get_overseer (n : string) : N overseer_t :=
  let! s := st_get in
  match find_app n (apps s) with
  | None => st_throw app_is_not_running
  | Some a => match overseer a with Some o => st_ret o | None => st_throw invalid_state end
  end.

(** [control_slot_t]: the stream [i] gets the overseer. *)
Definition control_slot (i : nat) (n : string) : N unit :=
  get_overseer n ;;;
  let! s := st_get in
  match serials s !! n, streams s !! i with
  | Some k, None => st_modify (fun s => set_streams (<[i := (n, k)]> (streams s)) s)
  | _, _ => st_ret tt
  end.

Definition set_overseer (n : string) (o : overseer_t) (s : node_t) : node_t :=
  match find_app n (apps s) with
  | Some a => set_apps (replace_app n (set_state (running_t o) a) (apps s)) s
  | None => s
  end.

(** What an overseer without its application does; telling the observer is the end. *)
Definition told (o : overseer_t) : nat * list string := (told_spawned o, told_despawned o).
Definition on_detached (k : nat) (f : profile_t -> overseer_t -> overseer_t) : N unit :=
  let! s := st_get in
  match detached s !! k with
  | None => st_ret tt
  | Some (p, o) =>
      if bool_decide (told (f p o) = told o)
      then st_modify (fun s => set_detached (<[k := (p, f p o)]> (detached s)) s)
      else st_throw crashed
  end.

(** A message of a control stream goes to the overseer it has kept. *)
Definition control_event (i : nat) (m : control_message) : N unit :=
  let! s := st_get in
  match streams s !! i with
  | None => st_ret tt
  | Some (n, k) =>
      if bool_decide (serials s !! n = Some k) then
        match find_app n (apps s) with
        | Some a => match overseer a with
                    | Some o => st_modify (set_overseer n (controlled gen (profile a) m o))
                    | None => st_ret tt
                    end
        | None => st_ret tt
        end
      else on_detached k (fun p o => controlled gen p m o)
  end.

(** The dispatch of a control stream is destroyed, and what only it kept. *)
Definition control_end (i : nat) : N unit :=
  let! s := st_get in
  match streams s !! i with
  | None => st_ret tt
  | Some (_, k) =>
      st_modify (fun s => set_streams (delete i (streams s)) s) ;;;
      st_modify (fun s => if held k s then s else set_detached (delete k (detached s)) s)
  end.

(** The slot of [enqueue] over [App.node_enqueue]: the error sent to the client, if any *)
Definition enqueue_slot (n : string) (r : request Load) (env env' : nat -> assign_env Env) : N (option error_code) :=
  let! s := st_get in
  match node_enqueue gen n r env env' code (apps s) with
  | None => st_throw invalid_state
  | Some (ec, o) => st_modify (fun s => match o with Some o => set_overseer n o s | None => s end) ;;; st_ret ec
  end.

(** Whether an event of an application destroys the state object it has *)
Definition resets (e : @app_event Load Env) (w : gset string * app_t) : bool :=
  match e with
  | Cancelled _ => true
  | RunTask engine_err insert_err remove_ok _ =>
      match loop w.2 with
      | [] => false
      | TCancel _ :: _ => true
      | TPublish :: _ =>
          match (running_construct (S:=S) (Load:=Load) engine_err insert_err remove_ok w).1 with
          | Ret _ => true
          | Throw e => is_error (default uncaught_publish_error e)
          end
      end
  | _ => false
  end.

Definition on_app (n : string) (e : @app_event Load Env) : N unit :=
  let! s := st_get in
  match find_app n (apps s), serials s !! n with
  | Some a, Some k =>
      let w := app_step gen e (services s, a) in
      st_modify (fun s => set_services w.1 (set_apps (replace_app n w.2 (apps s)) s)) ;;;
      st_when (resets e (services s, a)) (st_modify (fun s => allot n (retire k (profile a) (overseer a) s)))
  | _, _ => st_ret tt
  end.

(** [apps->clear()], under the lock *)
Fixpoint clear_apps (remove_ok : bool) (l : apps_t) (s : node_t) : node_t :=
  match l with
  | [] => set_apps [] s
  | x :: l => clear_apps remove_ok l (drop_app remove_ok x.1 x.2 l s)
  end.
Definition shutdown (remove_ok : bool) : N unit :=
  st_modify (fun s => clear_apps remove_ok (apps s) s).

(** ** Events *)

Inductive event :=
| StartApp (identity : Identity) (n : string) (p : profile_t) (r : spool_result)
| PauseApp (identity : Identity) (n : string) (remove_ok : bool)
| ListApps
| InfoApp (n : string)
| ControlApp (i : nat) (n : string)
| ControlEvent (i : nat) (m : control_message)
| ControlEnd (i : nat)
| EnqueueTo (n : string) (r : request Load) (env env' : nat -> assign_env Env)
| AppEvent (n : string) (e : @app_event Load Env)
| OverseerOp (k : nat) (o : @op Load Env)
| ContextShutdown (remove_ok : bool).

(** What the client of a request is told at once *)
Inductive answer := Done | Names (l : list string) | State (s : string) | Sent (ec : option error_code).

Definition info_slot (n : string) : N answer :=
  let! s := st_get in
  match node_info n (apps s) with
  | Some st => st_ret (State st)
  | None => st_throw app_is_not_running
  end.

Definition node_step (e : event) : N answer :=
  match e with
  | StartApp identity n p r => start_slot identity n p r ;;; st_ret Done
  | PauseApp identity n remove_ok => pause_slot identity n remove_ok ;;; st_ret Done
  | ListApps => st_gets (fun s => Names (list_apps (apps s)))
  | InfoApp n => info_slot n
  | ControlApp i n => control_slot i n ;;; st_ret Done
  | ControlEvent i m => control_event i m ;;; st_ret Done
  | ControlEnd i => control_end i ;;; st_ret Done
  | EnqueueTo n r env env' => let! ec := enqueue_slot n r env env' in st_ret (Sent ec)
  | AppEvent n e => on_app n e ;;; st_ret Done
  | OverseerOp k o => on_detached k (fun p st => (exec p gen o st).2) ;;; st_ret Done
  | ContextShutdown remove_ok => shutdown remove_ok ;;; st_ret Done
  end.

(** A run, with what each event is answered; a crash ends it. *)
Fixpoint node_run (es : list event) (s : node_t) : list (event * outcome failure answer) * node_t :=
  match es with
  | [] => ([], s)
  | e :: es =>
      match node_step e s with
      | (Throw crashed, s) => ([(e, Throw crashed)], s)
      | (r, s) => let '(rs, s) := node_run es s in ((e, r) :: rs, s)
      end
  end.
End node.

(** ** Facts *)

Section facts.
Context {S Load Env : Type} `{SL : !Slave S Load Env}.
Context (gen : nat -> string).
Context {Identity : Type} (verify : string -> Identity -> option error_code).
Context (code : engine_error -> error_code).
Abbreviation node_t := (@node_t S Load Identity).
Abbreviation app_t := (@app_t S Load).
Abbreviation apps_t := (list (string * app_t)).
Abbreviation event := (@event Load Env Identity).
Implicit Types (s : node_t) (a : app_t) (l : apps_t).

Lemma held_spec k s : held k s = true <-> exists i n, streams s !! i = Some (n, k).
Proof.
  unfold held. rewrite bool_decide_eq_true, Exists_exists. split.
  - intros ([i [n k']] & Hin%elem_of_map_to_list & ?); simpl in *. subst. eauto.
  - intros (i & n & Hi). exists (i, (n, k)). split; [by apply elem_of_map_to_list|done].
Qed.

(** *** The table *)

Lemma replace_app_names n a l : (replace_app n a l).*1 = l.*1.
Proof. induction l as [|[k b] l IH]; [done|]. simpl. destruct (String.eqb k n); rewrite !fmap_cons; simpl; [done|]. by rewrite IH. Qed.

Lemma replace_app_find n a m l :
  find_app m (replace_app n a l) = if String.eqb n m then (fun _ => a) <$> find_app m l else find_app m l.
Proof.
  induction l as [|[k b] l IH]; simpl; [by destruct (String.eqb n m)|].
  destruct (String.eqb_spec k n) as [->|Hn]; simpl.
  - by destruct (String.eqb_spec n m).
  - rewrite IH. destruct (String.eqb_spec k m) as [->|]; [|done]. destruct (String.eqb_spec n m); congruence.
Qed.

Lemma find_app_in n l : is_Some (find_app n l) <-> n ∈ l.*1.
Proof.
  rewrite <- not_eq_None_Some, find_app_None. split; [apply dec_stable|naive_solver].
Qed.

Lemma find_app_split n a l :
  find_app n l = Some a -> exists l1 l2, l = l1 ++ (n, a) :: l2 /\ n ∉ l1.*1.
Proof.
  induction l as [|[k b] l IH]; simpl; [done|]. destruct (String.eqb_spec k n) as [->|Hn]; intros H; simplify_eq.
  - exists [], l. split; [done|set_solver].
  - destruct (IH H) as (l1 & l2 & -> & Hl). exists ((k, b) :: l1), l2. split; [done|]. simpl. set_solver.
Qed.

(** What is left of a table without one of its applications *)
Definition without (n : string) (l l' : apps_t) : Prop :=
  NoDup (l'.*1) /\ (forall m, m ∈ l'.*1 <-> m ∈ l.*1 /\ m <> n) /\
  forall m, m <> n -> find_app m l' = find_app m l.

Lemma find_app_app m l1 l2 : find_app m (l1 ++ l2) = match find_app m l1 with Some a => Some a | None => find_app m l2 end.
Proof. induction l1 as [|[k b] l1 IH]; simpl; [done|]. by destruct (String.eqb k m). Qed.

Lemma without_middle n a l1 l2 : NoDup ((l1 ++ (n, a) :: l2).*1) -> without n (l1 ++ (n, a) :: l2) (l1 ++ l2).
Proof.
  rewrite !fmap_app, fmap_cons. simpl. intros H. pose proof H as H'. rewrite <- Permutation_middle in H.
  apply NoDup_cons in H as [Hn Hd]. unfold without. rewrite !fmap_app, fmap_cons. simpl. split; [done|]. split.
  - intros m. rewrite !elem_of_app, elem_of_cons. rewrite elem_of_app in Hn. naive_solver.
  - intros m Hm. rewrite !find_app_app. simpl. by rewrite (proj2 (String.eqb_neq n m)) by done.
Qed.

Lemma pause_app_without n l b l' a :
  NoDup (l.*1) -> find_app n l = Some a -> pause_app n l = (Ret b, l') -> without n l l'.
Proof.
  intros Hd Hf Hp. destruct (find_app_split _ _ _ Hf) as (l1 & l2 & -> & Hn).
  rewrite (pause_app_takes_next n a l1 l2 Hn) in Hp. simplify_eq. by apply (without_middle n a).
Qed.

(** *** The invariant *)

(** The overseer that stream [(n, k)] has kept: that of the application, or one whose
    application is gone *)
Definition keeps_overseer s (n : string) (k : nat) : Prop :=
  (serials s !! n = Some k /\ exists a, find_app n (apps s) = Some a /\ is_Some (overseer a)) \/
  (serials s !! n <> Some k /\ is_Some (detached s !! k)).

Record node_wf s : Prop := {
  nw_names : NoDup ((apps s).*1);
  nw_serials : forall n, is_Some (serials s !! n) <-> n ∈ (apps s).*1;
  nw_next : forall n k, serials s !! n = Some k -> (k < next s)%nat;
  nw_inj : forall n m k, serials s !! n = Some k -> serials s !! m = Some k -> n = m;
  nw_streams : forall i n k, streams s !! i = Some (n, k) -> (k < next s)%nat /\ keeps_overseer s n k;
  nw_detached : forall k, is_Some (detached s !! k) -> held k s = true /\ forall n, serials s !! n <> Some k
}.

Lemma node_wf_construct : node_wf node_construct.
Proof.
  split; simpl.
  - apply NoDup_nil_2.
  - intros n. rewrite lookup_empty. split; [by intros [? ?]|by intros ?%not_elem_of_nil].
  - intros n k. by rewrite lookup_empty.
  - intros n m k. by rewrite lookup_empty.
  - intros i n k. by rewrite lookup_empty.
  - intros k. rewrite lookup_empty. by intros [? ?].
Qed.

Lemma wf_set_services s sv : node_wf s -> node_wf (set_services sv s).
Proof. intros [H1 H2 H3 H4 H5 H6]. by split. Qed.
Lemma wf_set_audit s au : node_wf s -> node_wf (set_audit au s).
Proof. intros [H1 H2 H3 H4 H5 H6]. by split. Qed.

(** An application that goes on running may be replaced. *)
Lemma wf_replace s n a a' :
  node_wf s -> find_app n (apps s) = Some a -> (is_Some (overseer a) -> is_Some (overseer a')) ->
  node_wf (set_apps (replace_app n a' (apps s)) s).
Proof.
  intros [H1 H2 H3 H4 H5 H6] Hf Ha. split; simpl; try done.
  - by rewrite replace_app_names.
  - intros m. by rewrite replace_app_names.
  - intros i m k Hi. destruct (H5 i m k Hi) as [Hk [[Hs (b & Hb & Ho)]|Hd]]; split; try done; [left|by right].
    split; [done|]. simpl. rewrite replace_app_find. destruct (String.eqb_spec n m) as [->|]; [|by exists b].
    rewrite Hf. exists a'. split; [done|]. apply Ha. by simplify_eq.
Qed.

(** The fields that the destruction of a running state may change *)
Lemma retire_fields k p o s :
  apps (retire k p o s) = apps s /\ services (retire k p o s) = services s /\ serials (retire k p o s) = serials s /\
  next (retire k p o s) = next s /\ streams (retire k p o s) = streams s /\
  (forall j, is_Some (detached (retire k p o s) !! j) <->
             is_Some (detached s !! j) \/ j = k /\ held k s = true /\ is_Some o).
Proof.
  unfold retire. destruct o as [o|]; [destruct (held k s) eqn:E|]; simpl; repeat (split; [done|]); intros j.
  - destruct (decide (j = k)) as [->|]; [rewrite lookup_insert_eq|rewrite lookup_insert_ne by done]; naive_solver eauto.
  - naive_solver.
  - split; [by left|]. intros [?|(_ & _ & [? ?])]; done.
Qed.

(** The running state [k] of application [n] is destroyed, and the application gets the
    serial number [k'] for its next one, or leaves the table. *)
Lemma wf_reset s n a k (s' : node_t) :
  node_wf s -> find_app n (apps s) = Some a -> serials s !! n = Some k ->
  NoDup ((apps s').*1) -> (forall m, is_Some (serials s' !! m) <-> m ∈ (apps s').*1) ->
  (next s <= next s')%nat ->
  (forall m, m <> n -> serials s' !! m = serials s !! m /\ find_app m (apps s') = find_app m (apps s)) ->
  (serials s' !! n = None \/ serials s' !! n = Some (next s) /\ (next s < next s')%nat) ->
  streams s' = streams s ->
  (forall j, is_Some (detached s' !! j) <->
             is_Some (detached s !! j) \/ j = k /\ held k s = true /\ is_Some (overseer a)) ->
  node_wf s'.
Proof.
  intros [H1 H2 H3 H4 H5 H6] Hf Hk Hd Hn Hlt Hm Hnew Hst Hdet.
  assert (serials s' !! n <> Some k) as Hnk by (intros E; destruct Hnew as [?|[? ?]]; [congruence|]; specialize (H3 n k Hk); simplify_eq; lia).
  assert (forall m j, serials s' !! m = Some j -> (m <> n /\ serials s !! m = Some j) \/ (m = n /\ j = next s)) as Hold.
  { intros m j E. destruct (decide (m = n)) as [->|Hmn]; [right; destruct Hnew as [?|[? ?]]; by simplify_eq|].
    left. by rewrite <- (proj1 (Hm m Hmn)). }
  split; try done.
  - intros m j E. destruct (Hold m j E) as [[_ E']|[-> ->]]; [specialize (H3 m j E'); lia|].
    destruct Hnew as [?|[? ?]]; [congruence|done].
  - intros m m' j E E'. destruct (Hold m j E) as [[? Ej]|[-> ->]], (Hold m' _ E') as [[? Ej']|[? Ej']]; subst; try done.
    + by apply (H4 _ _ j).
    + specialize (H3 m _ Ej). lia.
    + specialize (H3 m' _ Ej'). lia.
  - rewrite Hst. intros i m j Hi. destruct (H5 i m j Hi) as [Hj Hkeep]. split; [lia|].
    assert (held j s = true) as Hh by (apply held_spec; eauto).
    destruct (decide (m = n)) as [->|Hmn].
    + right. destruct Hkeep as [[E (b & Hb & Ho)]|[E Hdj]].
      * rewrite Hk in E. simplify_eq. split; [done|]. apply Hdet. by right.
      * split; [|apply Hdet; by left]. intros E'. destruct (Hold n j E') as [[? _]|[_ ->]]; [done|lia].
    + destruct (Hm m Hmn) as [Es Ef]. destruct Hkeep as [[E (b & Hb & Ho)]|[E Hdj]].
      * left. rewrite Es. split; [done|]. exists b. by rewrite Ef.
      * right. rewrite Es. split; [done|]. apply Hdet. by left.
  - intros j Hj. apply Hdet in Hj as [Hj|(-> & Hh & _)].
    + destruct (H6 j Hj) as [Hh Hs]. split.
      * apply held_spec. rewrite Hst. by apply held_spec in Hh.
      * intros m E. destruct (Hold m j E) as [[_ E']|[-> ->]]; [by eapply Hs|].
        apply held_spec in Hh as (i & x & Hi). destruct (H5 i x _ Hi). lia.
    + split; [apply held_spec; rewrite Hst; by apply held_spec in Hh|].
      intros m E. destruct (Hold m k E) as [[Hne E']|[-> ->]]; [by apply Hne, (H4 _ _ k)|done].
Qed.

Lemma wf_drop s n a l' ok :
  node_wf s -> find_app n (apps s) = Some a -> without n (apps s) l' -> node_wf (drop_app ok n a l' s).
Proof.
  intros Hw Hf (Hd & Hn & Hm). pose proof Hw as [H1 H2 H3 H4 H5 H6].
  assert (is_Some (serials s !! n)) as [k Hk] by (apply H2, find_app_in; eauto).
  unfold drop_app. simpl. rewrite Hk.
  set (s1 := set_services _ (set_apps l' s)).
  destruct (retire_fields k (profile a) (overseer a) s1) as (Ea & _ & Es & En & Et & Ed).
  eapply (wf_reset s n a k); [done|done|done|..]; simpl; rewrite ?Ea, ?Es, ?En, ?Et; simpl; try done; try lia.
  - intros m. destruct (decide (m = n)) as [->|Hmn].
    + rewrite lookup_delete_eq, Hn. split; [by intros [? ?]|tauto].
    + rewrite lookup_delete_ne, H2, Hn by done. tauto.
  - intros m Hmn. rewrite lookup_delete_ne by done. by rewrite (Hm m Hmn).
  - left. by rewrite lookup_delete_eq.
Qed.

Lemma wf_renew s n a a' k sv :
  node_wf s -> find_app n (apps s) = Some a -> serials s !! n = Some k ->
  node_wf (allot n (retire k (profile a) (overseer a) (set_services sv (set_apps (replace_app n a' (apps s)) s)))).
Proof.
  intros Hw Hf Hk. pose proof Hw as [H1 H2 H3 H4 H5 H6].
  set (s1 := set_services _ _).
  destruct (retire_fields k (profile a) (overseer a) s1) as (Ea & _ & Es & En & Et & Ed).
  eapply (wf_reset s n a k); [done|done|done|..]; simpl; rewrite ?Ea, ?Es, ?En, ?Et; simpl; try done; try lia.
  - by rewrite replace_app_names.
  - intros m. rewrite replace_app_names. destruct (decide (m = n)) as [->|Hmn].
    + rewrite lookup_insert_eq. split; [intros _; apply H2; eauto|by eauto].
    + by rewrite lookup_insert_ne by done.
  - intros m Hmn. rewrite lookup_insert_ne by done. rewrite replace_app_find. by rewrite (proj2 (String.eqb_neq n m)) by done.
  - right. rewrite lookup_insert_eq. split; [done|lia].
Qed.

(** *** Every event keeps it *)

Lemma wf_start s n p r a l :
  node_wf s -> start_app n p r (apps s) = (Ret tt, l) -> find_app n (apps s) = None ->
  l = insert_app n a (apps s) -> node_wf (allot n (set_apps l s)).
Proof.
  intros [H1 H2 H3 H4 H5 H6] _ Hf ->. pose proof Hf as Hn. apply find_app_None in Hn.
  assert (serials s !! n = None) as Hs by (apply eq_None_not_Some; by rewrite H2).
  split; simpl.
  - rewrite insert_app_perm. by constructor.
  - intros m. rewrite insert_app_perm, elem_of_cons. destruct (decide (n = m)) as [->|Hm].
    + rewrite lookup_insert_eq. naive_solver.
    + rewrite lookup_insert_ne, H2 by done. naive_solver.
  - intros m k. rewrite lookup_insert_Some. intros [[-> <-]|[_ ?%H3]]; lia.
  - intros m m' k. rewrite !lookup_insert_Some. intros [[<- <-]|[? E]] [[<- E']|[? E']]; simplify_eq; try done; [by apply H3 in E'; lia|by apply H3 in E; lia|by eapply H4].
  - intros i m k Hi. destruct (H5 i m k Hi) as [Hk Hkeep]. split; [lia|]. unfold keeps_overseer in *; simpl.
    rewrite insert_app_find by done. destruct (String.eqb_spec n m) as [->|Hm].
    + right. rewrite lookup_insert_eq. destruct Hkeep as [[E _]|[_ ?]]; [congruence|]. split; [intros ?; simplify_eq; lia|done].
    + by rewrite lookup_insert_ne by done.
  - intros k Hk. destruct (H6 k Hk) as [Hh Hno]. split; [done|]. intros m. rewrite lookup_insert_Some.
    intros [[_ <-]|[_ ?]]; [|by eapply Hno]. apply held_spec in Hh as (i & x & Hi). destruct (H5 i x _ Hi). lia.
Qed.

Lemma start_app_ret n p r (l l' : apps_t) u :
  start_app n p r l = (Ret u, l') -> find_app n l = None /\ exists a, l' = insert_app n a l.
Proof.
  unfold start_app. destruct (find_app n l); [done|]. destruct (app_construct n p r); [|done].
  intros H. simplify_eq. eauto.
Qed.

Lemma keeps_middleware {A} ev id (m : ST node_t failure A) : keeps node_wf m -> keeps node_wf (event_middleware verify ev id m).
Proof.
  intros Hm. unfold event_middleware. apply keeps_catch.
  - destruct (verify ev id); [apply keeps_throw|done].
  - intros []; try apply keeps_throw. apply keeps_bind; [|intros _; apply keeps_throw]. apply keeps_modify. by intros; apply wf_set_audit.
Qed.

Lemma keeps_start n p r : keeps node_wf (start n p r).
Proof.
  intros s Hs. unfold start, st_bind, st_get. destruct (start_app n p r (apps s)) as [[[]|e] l] eqn:E; [|done].
  destruct (start_app_ret _ _ _ _ _ _ E) as [Hf [a Hl]]. simpl. by eapply wf_start.
Qed.

Lemma keeps_pause n ok : keeps node_wf (pause n ok).
Proof.
  intros s Hs. unfold pause, st_bind, st_get. destruct (pause_app n (apps s)) as [[b|e] l] eqn:E; [|done].
  destruct (find_app n (apps s)) as [a|] eqn:Ef; [|done]. simpl. apply wf_drop; [done|done|].
  eapply pause_app_without; [apply Hs|done|done].
Qed.

Lemma keeps_control_slot i n : keeps node_wf (control_slot i n).
Proof.
  intros s Hs. unfold control_slot, get_overseer, st_bind, st_get.
  destruct (find_app n (apps s)) as [a|] eqn:Ef; [|done]. destruct (overseer a) as [o|] eqn:Eo; [|done]. simpl.
  destruct (serials s !! n) as [k|] eqn:Ek; [|done]. destruct (streams s !! i) eqn:Ei; [done|]. simpl.
  destruct Hs as [H1 H2 H3 H4 H5 H6]. split; simpl; try done.
  - intros j m k'. rewrite lookup_insert_Some. intros [[_ ?]|[_ Hj]]; [simplify_eq|by apply (H5 j)].
    split; [by eapply H3|]. left. split; [done|]. exists a. by rewrite Eo.
  - intros k' Hk'. destruct (H6 k' Hk') as [Hh Hno]. split; [|done]. apply held_spec in Hh as (j & m & Hj).
    apply held_spec. exists j, m. simpl. rewrite lookup_insert_ne; [done|congruence].
Qed.

Lemma wf_set_overseer s n o :
  node_wf s -> node_wf (set_overseer n o s).
Proof.
  intros Hs. unfold set_overseer. destruct (find_app n (apps s)) as [a|] eqn:Ef; [|done].
  eapply wf_replace; [done|done|]. intros _. simpl. by eexists.
Qed.

Lemma keeps_on_detached k f : keeps node_wf (on_detached k f).
Proof.
  intros s Hs. unfold on_detached, st_bind, st_get. destruct (detached s !! k) as [[p o]|] eqn:Ed; [|done].
  case_bool_decide; [|done]. simpl. destruct Hs as [H1 H2 H3 H4 H5 H6].
  assert (forall j, is_Some (<[k := (p, f p o)]> (detached s) !! j) <-> is_Some (detached s !! j)) as Hd.
  { intros j. rewrite lookup_insert_is_Some'. split; [intros [<-|?]; [by eexists|done]|by right]. }
  split; simpl; try done.
  - intros i m j Hi. destruct (H5 i m j Hi) as [Hj [?|[? ?]]]; (split; [done|]); [by left|right]. simpl. by rewrite Hd.
  - intros j. rewrite Hd. apply H6.
Qed.

Lemma keeps_control_event i m : keeps node_wf (control_event gen i m).
Proof.
  intros s Hs. unfold control_event, st_bind, st_get. destruct (streams s !! i) as [[n k]|]; [|done].
  case_bool_decide; [|by apply keeps_on_detached].
  destruct (find_app n (apps s)) as [a|]; [|done]. destruct (overseer a); [|done]. by apply wf_set_overseer.
Qed.

Lemma keeps_control_end i : keeps node_wf (control_end i).
Proof.
  intros s Hs. unfold control_end, st_bind, st_get, st_modify. destruct (streams s !! i) as [[n k]|] eqn:Ei; [|done]. simpl.
  set (s1 := set_streams (delete i (streams s)) s). destruct Hs as [H1 H2 H3 H4 H5 H6].
  assert (forall j, held j s1 = true -> held j s = true) as Hh.
  { intros j. rewrite !held_spec. intros (x & m & Hx). simpl in Hx. apply lookup_delete_Some in Hx as [_ ?]. eauto. }
  assert (forall j, held j s = true -> j <> k -> held j s1 = true) as Hh'.
  { intros j (x & m & Hx)%held_spec Hj. apply held_spec. exists x, m. simpl. rewrite lookup_delete_ne; [done|congruence]. }
  destruct (held k s1) eqn:Ek; split; simpl; try done.
  - intros x m j. rewrite lookup_delete_Some. intros [_ Hx]. by apply (H5 x).
  - intros j Hj. destruct (H6 j Hj) as [Hhj Hno]. split; [|done]. destruct (decide (j = k)) as [->|]; [done|by apply Hh'].
  - intros x m j. rewrite lookup_delete_Some. intros [Hne Hx]. destruct (H5 x m j Hx) as [Hj [?|[? ?]]]; (split; [done|]); [by left|right].
    split; [done|]. simpl. rewrite lookup_delete_ne; [done|]. intros ->.
    assert (held j s1 = true); [|congruence]. apply held_spec. exists x, m. simpl. by rewrite lookup_delete_ne.
  - intros j Hj. apply lookup_delete_is_Some in Hj as [Hne Hj]. destruct (H6 j Hj) as [Hhj Hno]. split; [by apply Hh'|done].
Qed.

Lemma clear_apps_wf ok l : forall s, apps s = l -> node_wf s -> node_wf (clear_apps ok l s).
Proof.
  induction l as [|[n a] l IH]; simpl; intros s El Hs.
  - replace (set_apps [] s) with s; [done|]. rewrite <- El. by destruct s.
  - apply IH.
    + unfold drop_app, retire; simpl. repeat (break_match; simpl); done.
    + apply wf_drop; [done|by rewrite El; simpl; rewrite String.eqb_refl|].
      rewrite El. apply (without_middle n a []). destruct Hs as [H1 _ _ _ _ _]. by rewrite El in H1.
Qed.

(** An event that does not destroy the running state leaves an overseer. *)
Lemma app_step_running e sv a :
  resets e (sv, a) = false -> is_Some (overseer a) -> is_Some (overseer (app_step gen e (sv, a)).2).
Proof.
  destruct a as [n p st l c k]. destruct st as [ec|b|o]; simpl; try (intros _ [? ?]; done). intros Hr _.
  destruct e; simpl in *; try done.
  - unfold run_task; simpl. destruct l as [|[|] l]; try done. unfold publish, publish_failed.
    unfold running_construct, maybe_publish, publish_service, unpublish in *. simpl in *.
    repeat (break_match; simplify_eq/=; try done).
  - unfold spawned_notice, maybe_publish, publish_service. repeat (break_match; simpl); done.
  - unfold despawned_notice, maybe_unpublish, unpublish. repeat (break_match; simpl); done.
Qed.

Lemma keeps_on_app n e : keeps node_wf (on_app gen n e).
Proof.
  intros s Hs. unfold on_app, st_bind, st_get. destruct (find_app n (apps s)) as [a|] eqn:Ef; [|done].
  destruct (serials s !! n) as [k|] eqn:Ek; [|done]. simpl. destruct (resets e (services s, a)) eqn:Er; simpl.
  - by apply (wf_renew s n a).
  - apply wf_set_services. eapply wf_replace; [done|done|]. by apply app_step_running.
Qed.

Lemma node_keeps_step e : keeps node_wf (node_step gen verify code e).
Proof.
  destruct e; simpl; try (apply keeps_bind; [|intros; apply keeps_ret]).
  - apply keeps_middleware, keeps_start.
  - apply keeps_middleware, keeps_pause.
  - apply keeps_gets.
  - intros s Hs. unfold info_slot, st_bind, st_get. by destruct (node_info _ _).
  - apply keeps_control_slot.
  - apply keeps_control_event.
  - apply keeps_control_end.
  - intros s Hs. unfold enqueue_slot, st_bind, st_get. destruct (node_enqueue _ _ _ _ _ _ _) as [[ec [o|]]|]; simpl; [by apply wf_set_overseer|done|done].
  - apply keeps_on_app.
  - apply keeps_on_detached.
  - apply keeps_modify. intros s Hs. by apply clear_apps_wf.
Qed.

Lemma node_run_wf es : forall s, node_wf s -> node_wf (node_run gen verify code es s).2.
Proof.
  induction es as [|e es IH]; simpl; intros s Hs; [done|]. pose proof (node_keeps_step e s Hs) as He.
  destruct (node_step gen verify code e s) as [r s']; simpl in He. specialize (IH s' He).
  destruct (node_run gen verify code es s') as [rs s'']. by destruct r as [|[]].
Qed.

(** C30: Every control stream has an overseer to speak to, in every run of the service: that
    of the application it was opened for, as long as this runs, and afterwards the one it
    has kept; and no overseer outlives its application unless a control stream keeps it. *)
Theorem streams_hold_overseers (es : list event) :
  let s := (node_run gen verify code es node_construct).2 in
  (forall i n k, streams s !! i = Some (n, k) -> keeps_overseer s n k) /\
  (forall k, is_Some (detached s !! k) -> (exists i n, streams s !! i = Some (n, k)) /\ forall n, serials s !! n <> Some k).
Proof.
  intros s. destruct (node_run_wf es node_construct node_wf_construct) as [H1 H2 H3 H4 H5 H6]. fold s in H1, H2, H3, H4, H5, H6.
  split; [intros i n k Hi; by apply (H5 i)|]. intros k Hk. destruct (H6 k Hk) as [Hh ?]. by apply held_spec in Hh.
Qed.

(** Controlling the population tells the observers nothing. *)
Lemma control_population_told (p : profile_t) (count : Z) (o : @engine_t S Load) :
  told (control_population p gen count o).2 = told o.
Proof.
  set (I := fun st : @engine_t S Load => told st = told o).
  assert (keeps I (spawn p gen)) as Hspawn.
  { unfold spawn. keeps_walk; apply keeps_modify; try done. intros st. by destruct (pool st !! _). }
  assert (forall n z, keeps I (spawn_loop p gen n z)) as Hloop by (induction n; intros z; simpl; keeps_walk).
  assert (forall n, keeps I (seal_loop (S:=S) (Load:=Load) n)) as Hseal.
  { induction n; simpl; keeps_walk. by apply keeps_modify. }
  assert (keeps I (control_population p gen count)) as H; [|by apply (H o)].
  unfold control_population, rebalance_slaves. keeps_walk. by apply keeps_modify.
Qed.

Lemma slave_death_told (p : profile_t) ec id now now' (o : @engine_t S Load) :
  told (exec p gen (SlaveDeath ec id now now') o).2 <> told o.
Proof.
  assert (told_despawned (exec p gen (SlaveDeath ec id now now') o).2 = told_despawned o ++ [id]) as H.
  { simpl. unfold on_slave_death, st_when, st_bind, st_modify, st_ret, backoff. repeat (break_match; simpl in *; simplify_eq/=); done. }
  intros E. apply (f_equal snd) in E. simpl in E. simpl in H. rewrite E in H.
  apply (f_equal length) in H. rewrite length_app in H. simpl in H. lia.
Qed.

Lemma handshake_told (p : profile_t) id timer_ok starts x (o : @engine_t S Load) :
  pool o !! id = Some x -> (slave_activate timer_ok starts x).1 = Ret true ->
  told (exec p gen (Handshake id timer_ok starts) o).2 <> told o.
Proof.
  intros Hp Ha. simpl. unfold on_handshake, st_bind, st_get. rewrite Hp. destruct (slave_activate timer_ok starts x) as [r x']. simpl in Ha. subst r.
  unfold told. simpl. intros [= H]. lia.
Qed.

Lemma force_told (p : profile_t) id x (o : @engine_t S Load) :
  pool o !! id = Some x -> told (exec p gen (Despawn id force) o).2 <> told o.
Proof.
  intros Hp. simpl. unfold despawn, st_bind, st_get. rewrite Hp. unfold told. simpl. intros [= H]. apply (f_equal length) in H.
  rewrite length_app in H. simpl in H. lia.
Qed.

(** *** An overseer that its application has left *)

(** Stream [i] keeps overseer [k], of profile [p], and no application has it. *)
Record left_behind (i : nat) (n : string) (k : nat) (p : profile_t) (s : node_t) : Prop := {
  lb_stream : streams s !! i = Some (n, k);
  lb_overseer : exists o, detached s !! k = Some (p, o);
  lb_serials : forall m, serials s !! m <> Some k;
  lb_next : (k < next s)%nat
}.

Lemma left_retire i n k p k' p' o s : k' <> k -> left_behind i n k p s -> left_behind i n k p (retire k' p' o s).
Proof.
  intros Hk [H1 H2 H3 H4]. unfold retire. destruct o; [|done]. destruct (held k' s); [|done]. split; try done. simpl.
  by rewrite lookup_insert_ne.
Qed.

Lemma left_allot i n k p m s : left_behind i n k p s -> left_behind i n k p (allot m s).
Proof.
  intros [H1 H2 H3 H4]. split; simpl; try done; [|lia]. intros m'. rewrite lookup_insert_Some. intros [[_ ?]|[_ ?]]; [lia|by apply (H3 m')].
Qed.

Lemma left_drop i n k p ok m a l s : left_behind i n k p s -> left_behind i n k p (drop_app ok m a l s).
Proof.
  intros H. unfold drop_app. assert (left_behind i n k p (set_services (app_cancel ok (services s, a)).1 (set_apps l s))) as H'
    by (destruct H; by split).
  simpl. destruct (serials s !! m) as [k'|] eqn:Ek; [|done].
  assert (k' <> k) as Hk by (intros ->; by apply (lb_serials _ _ _ _ _ H m)).
  destruct (left_retire i n k p k' (profile a) (overseer a) _ Hk H') as [H1 H2 H3 H4]. split; try done.
  intros m'. simpl. rewrite lookup_delete_Some. intros [_ ?]. by apply (lb_serials _ _ _ _ _ H m').
Qed.

Lemma left_clear i n k p ok l : forall s, left_behind i n k p s -> left_behind i n k p (clear_apps ok l s).
Proof. induction l as [|[m a] l IH]; simpl; intros s H; [destruct H; by split|]. by apply IH, left_drop. Qed.

Lemma left_set_overseer i n k p m o s : left_behind i n k p s -> left_behind i n k p (set_overseer m o s).
Proof. intros H. unfold set_overseer. destruct (find_app m (apps s)); [|done]. destruct H; by split. Qed.

Lemma left_on_detached i n k p k' f : keeps (left_behind i n k p) (on_detached k' f).
Proof.
  intros s H. unfold on_detached, st_bind, st_get. destruct (detached s !! k') as [[p' o]|] eqn:Ed; [|done].
  case_bool_decide; [|done]. destruct H as [H1 [o' H2] H3 H4]. split; try done. simpl. destruct (decide (k' = k)) as [->|Hne].
  - exists (f p' o). rewrite lookup_insert_eq. congruence.
  - exists o'. by rewrite lookup_insert_ne.
Qed.

Lemma left_middleware {A} i n k p event identity (fn : ST node_t failure A) :
  keeps (left_behind i n k p) fn -> keeps (left_behind i n k p) (event_middleware verify event identity fn).
Proof.
  intros Hf. unfold event_middleware. apply keeps_catch; [destruct (verify event identity); [apply keeps_throw|done]|]. intros e. destruct e; try apply keeps_throw.
  apply keeps_bind; [|intros; apply keeps_throw]. apply keeps_modify. intros s []; by split.
Qed.

Lemma left_step i n k p e : e <> ControlEnd i -> keeps (left_behind i n k p) (node_step gen verify code e).
Proof.
  intros He. destruct e as [identity m q r|identity m ok| |m|j m|j c|j|m r env env'|m e|k' o|ok]; simpl;
    try (apply keeps_bind; [|intros; apply keeps_ret]).
  - apply left_middleware. intros s H. unfold start, st_bind, st_get. destruct (start_app _ _ _ _) as [[]]; [|done]. simpl.
    apply left_allot. destruct H; by split.
  - apply left_middleware. intros s H. unfold pause, st_bind, st_get. destruct (pause_app _ _) as [[]]; [|done].
    destruct (find_app _ _); [|done]. by apply left_drop.
  - apply keeps_gets.
  - intros s H. unfold info_slot, st_bind, st_get. by destruct (node_info _ _).
  - intros s H. unfold control_slot, get_overseer, st_bind, st_get. destruct (find_app _ _); [|done]. destruct (overseer _); [|done]. simpl.
    destruct (serials s !! m); [|done]. destruct (streams s !! j) eqn:Ej; [done|]. destruct H as [H1 H2 H3 H4]. split; try done.
    simpl. rewrite lookup_insert_ne; [done|congruence].
  - intros s H. unfold control_event, st_bind, st_get. destruct (streams s !! j) as [[m k']|]; [|done].
    case_bool_decide; [|by apply left_on_detached]. destruct (find_app _ _) as [a|]; [|done]. destruct (overseer a); [|done]. by apply left_set_overseer.
  - intros s [H1 H2 H3 H4]. unfold control_end, st_bind, st_get. destruct (streams s !! j) as [[m k']|] eqn:Ej; [|done]. simpl.
    assert (i <> j) as Hne by congruence. set (s1 := set_streams (delete j (streams s)) s).
    assert (streams s1 !! i = Some (n, k)) as Hi by (simpl; by rewrite lookup_delete_ne).
    destruct (held k' s1) eqn:Eh; split; try done. simpl. destruct H2 as [o H2]. exists o. rewrite lookup_delete_ne; [done|].
    intros ->. assert (held k s1 = true) by (apply held_spec; eauto). congruence.
  - intros s H. unfold enqueue_slot, st_bind, st_get. destruct (node_enqueue _ _ _ _ _ _ _) as [[ec [o|]]|]; simpl; [by apply left_set_overseer|done|done].
  - intros s H. unfold on_app, st_bind, st_get. destruct (find_app m (apps s)) as [a|]; [|done]. destruct (serials s !! m) as [k'|] eqn:Ek; [|done].
    simpl. assert (left_behind i n k p (set_services (app_step gen e (services s, a)).1 (set_apps (replace_app m (app_step gen e (services s, a)).2 (apps s)) s))) as H'
      by (destruct H; by split).
    destruct (resets e (services s, a)); [|done]. apply left_allot, left_retire; [|done]. intros ->. by apply (lb_serials _ _ _ _ _ H m).
  - apply left_on_detached.
  - apply keeps_modify. intros s. apply left_clear.
Qed.

Lemma left_run i n k p es : ControlEnd i ∉ es -> forall s, left_behind i n k p s -> left_behind i n k p (node_run gen verify code es s).2.
Proof.
  induction es as [|e es IH]; simpl; intros He s H; [done|]. rewrite not_elem_of_cons in He. destruct He as [He Hes].
  pose proof (left_step i n k p e (not_eq_sym He) s H) as H'. destruct (node_step gen verify code e s) as [r s']. simpl in H'.
  specialize (IH Hes s' H'). destruct (node_run gen verify code es s') as [rs s'']. by destruct r as [|[]].
Qed.

Lemma on_detached_quiet k f s p (o : @engine_t S Load) :
  detached s !! k = Some (p, o) -> told (f p o) = told o ->
  on_detached k f s = (Ret tt, set_detached (<[k := (p, f p o)]> (detached s)) s).
Proof. intros Hd Ht. unfold on_detached, st_bind, st_get. by rewrite Hd, bool_decide_eq_true_2. Qed.

Lemma on_detached_crash k f s p (o : @engine_t S Load) :
  detached s !! k = Some (p, o) -> told (f p o) <> told o -> on_detached k f s = (Throw crashed, s).
Proof. intros Hd Ht. unfold on_detached, st_bind, st_get. by rewrite Hd, bool_decide_eq_false_2. Qed.

(** *** The audit is written only *)

(** [m] neither reads nor writes the audit. *)
Definition frames {A} (m : ST node_t failure A) : Prop :=
  forall au s, m (set_audit au s) = ((m s).1, set_audit au (m s).2).

Lemma frames_bind {A B} (m : ST node_t failure A) (k : A -> ST node_t failure B) :
  frames m -> (forall x, frames (k x)) -> frames (st_bind m k).
Proof. intros Hm Hk au s. unfold st_bind. rewrite Hm. destruct (m s) as [[x|e] s']; [apply Hk|done]. Qed.
Lemma frames_ret {A} (x : A) : frames (st_ret x).
Proof. done. Qed.
Lemma frames_modify (f : node_t -> node_t) : (forall au s, f (set_audit au s) = set_audit au (f s)) -> frames (st_modify f).
Proof. intros Hf au s. unfold st_modify. by rewrite Hf. Qed.

Ltac frame := intros au s; unfold st_bind, st_get, st_when, st_modify, st_ret, st_throw; simpl; repeat (break_match; simpl); done.

Lemma frames_retire k p o au s : retire k p o (set_audit au s) = set_audit au (retire k p o s).
Proof. unfold retire. change (held k (set_audit au s)) with (held k s). destruct o; [destruct (held k s)|]; done. Qed.
Lemma frames_drop_app ok n a l au s : drop_app ok n a l (set_audit au s) = set_audit au (drop_app ok n a l s).
Proof.
  unfold drop_app. simpl. destruct (serials s !! n) as [k|]; [|done].
  change (set_services _ (set_apps l (set_audit au s))) with (set_audit au (set_services (app_cancel ok (services s, a)).1 (set_apps l s))).
  by rewrite frames_retire.
Qed.
Lemma frames_set_overseer n o au s : set_overseer n o (set_audit au s) = set_audit au (set_overseer n o s).
Proof. unfold set_overseer. simpl. by destruct (find_app n (apps s)). Qed.
Lemma frames_clear ok l au : forall s, clear_apps ok l (set_audit au s) = set_audit au (clear_apps ok l s).
Proof. induction l as [|x l IH]; intros s; simpl; [done|]. by rewrite frames_drop_app, IH. Qed.
Lemma frames_on_detached k f : frames (on_detached k f).
Proof. unfold on_detached. frame. Qed.

Definition is_guarded (e : event) : option (string * Identity) :=
  match e with
  | StartApp identity _ _ _ => Some ("start_app"%string, identity)
  | PauseApp identity _ _ => Some ("pause_app"%string, identity)
  | _ => None
  end.

Lemma frames_step e : is_guarded e = None -> frames (node_step gen verify code e).
Proof.
  destruct e; simpl; intros H; try discriminate H; try (apply frames_bind; [|intros; apply frames_ret]).
  - done.
  - unfold info_slot. frame.
  - unfold control_slot, get_overseer. frame.
  - intros au s. unfold control_event, st_bind, st_get. simpl. destruct (streams s !! i) as [[n k]|]; [|done].
    destruct (bool_decide _); [|apply frames_on_detached]. destruct (find_app n (apps s)) as [a|]; [|done].
    destruct (overseer a); [|done]. apply frames_modify. intros. apply frames_set_overseer.
  - intros au s. unfold control_end, st_bind, st_get, st_modify. simpl. destruct (streams s !! i) as [[n k]|]; [|done]. simpl.
    change (held k (set_streams _ (set_audit au s))) with (held k (set_streams (delete i (streams s)) s)). by destruct (held _ _).
  - intros au s. unfold enqueue_slot, st_bind, st_get. simpl. destruct (node_enqueue _ _ _ _ _ _ _) as [[ec [o|]]|]; simpl; [|done|done].
    unfold st_ret. by rewrite frames_set_overseer.
  - intros au s. unfold on_app, st_bind, st_get. simpl. destruct (find_app n (apps s)) as [a|]; [|done].
    destruct (serials s !! n) as [k|]; [|done]. simpl. destruct (resets _ _); [|done]. simpl. unfold st_modify.
    change (set_services _ _) with (set_audit au (set_services (app_step gen e (services s, a)).1
      (set_apps (replace_app n (app_step gen e (services s, a)).2 (apps s)) s))) at 1.
    by rewrite frames_retire.
  - apply frames_on_detached.
  - apply frames_modify. intros au s. simpl. by rewrite frames_clear.
Qed.

Lemma frames_start n p r : frames (start n p r).
Proof. unfold start. frame. Qed.
Lemma frames_pause n ok : frames (pause n ok).
Proof.
  intros au s. unfold pause, st_bind, st_get. simpl. destruct (pause_app n (apps s)) as [[b|e] l]; [|done].
  destruct (find_app n (apps s)) as [a|]; [|done]. apply frames_modify. intros. apply frames_drop_app.
Qed.

(** States that differ in their audits *)
Definition same s s' : Prop := set_audit [] s = set_audit [] s'.
#[export] Instance same_equiv : Equivalence same.
Proof. unfold same. split; [done|by intros ? ?|by intros ? ? ? -> ->]. Qed.

Lemma frames_same {A} (m : ST node_t failure A) s s' : frames m -> same s s' -> (m s).1 = (m s').1 /\ same (m s).2 (m s').2.
Proof.
  intros Hm Hs. assert (exists au, s' = set_audit au s) as [au ->].
  { exists (audit s'). unfold same, set_audit in *. destruct s, s'. cbn in *. injection Hs. intros. by subst. }
  rewrite Hm. split; reflexivity.
Qed.

Lemma middleware_same {A} ev id (m : ST node_t failure A) s s' :
  frames m -> same s s' ->
  (event_middleware verify ev id m s).1 = (event_middleware verify ev id m s').1 /\
  same (event_middleware verify ev id m s).2 (event_middleware verify ev id m s').2.
Proof.
  intros Hm Hs. unfold event_middleware, st_catch. destruct (verify ev id) as [ec|]; simpl; [by split|].
  destruct (frames_same m s s' Hm Hs) as [E1 E2]. destruct (m s) as [[a|[]] t], (m s') as [[a'|[]] t']; simpl in *; simplify_eq; try done.
Qed.

Lemma node_step_same e s s' : same s s' ->
  (node_step gen verify code e s).1 = (node_step gen verify code e s').1 /\
  same (node_step gen verify code e s).2 (node_step gen verify code e s').2.
Proof.
  intros Hs. destruct (is_guarded e) as [g|] eqn:Eg; [|by apply frames_same; [apply frames_step|]].
  destruct e; simplify_eq/=; unfold st_bind.
  - destruct (middleware_same "start_app" identity (start n p r) s s' (frames_start n p r) Hs) as [E1 E2]. unfold start_slot.
    destruct (event_middleware _ _ _ _ s) as [[] ?], (event_middleware _ _ _ _ s') as [[] ?]; simpl in *; by simplify_eq.
  - destruct (middleware_same "pause_app" identity (pause n remove_ok) s s' (frames_pause n remove_ok) Hs) as [E1 E2]. unfold pause_slot.
    destruct (event_middleware _ _ _ _ s) as [[] ?], (event_middleware _ _ _ _ s') as [[] ?]; simpl in *; by simplify_eq.
Qed.

(** The code an event is refused with *)
Definition refusal (e : event) : option error_code := is_guarded e ≫= fun g => verify g.1 g.2.
#[export] Instance permitted_dec e : Decision (refusal e = None) := decide _.

Lemma refused_step e s ec : refusal e = Some ec ->
  exists g, is_guarded e = Some g /\
    node_step gen verify code e s = (Throw (system_error ec), set_audit (audit s ++ [mk_audit g.1 g.2 ec]) s).
Proof.
  unfold refusal. destruct (is_guarded e) as [g|] eqn:Eg; [|done]. simpl. intros Hv. exists g. split; [done|].
  destruct e; simplify_eq/=; unfold start_slot, pause_slot, event_middleware, st_bind, st_catch; by rewrite Hv.
Qed.

Lemma run_purged es : forall s s', same s s' ->
  filter (fun x => refusal x.1 = None) (node_run gen verify code es s).1 =
    (node_run gen verify code (filter (fun e => refusal e = None) es) s').1 /\
  same (node_run gen verify code es s).2 (node_run gen verify code (filter (fun e => refusal e = None) es) s').2.
Proof.
  induction es as [|e es IH]; intros s s' Hs; [done|]. rewrite (filter_cons (fun e => refusal e = None)).
  destruct (decide (refusal e = None)) as [Hp|Hp].
  - simpl. destruct (node_step_same e s s' Hs) as [E1 E2].
    destruct (node_step gen verify code e s) as [r t], (node_step gen verify code e s') as [r' t']; simpl in *. subst r'.
    destruct (IH t t' E2) as [I1 I2]. destruct (node_run _ _ _ es t), (node_run _ _ _ (filter _ es) t'); simpl in *.
    destruct r as [x|[]]; simpl; rewrite filter_cons_True by done; by rewrite ?I1, ?filter_nil.
  - destruct (refusal e) as [ec|] eqn:Er; [|done]. simpl. destruct (refused_step e s ec Er) as (g & _ & ->).
    set (s1 := set_audit (audit s ++ [mk_audit g.1 g.2 ec]) s).
    assert (same s1 s') as Hs1 by (etransitivity; [|exact Hs]; done).
    destruct (IH s1 s' Hs1) as [I1 I2]. destruct (node_run _ _ _ es s1); simpl in *. rewrite filter_cons_False by (simpl; congruence). done.
Qed.

Lemma frames_audit {A} (m : ST node_t failure A) s : frames m -> audit (m s).2 = audit s.
Proof.
  intros Hm. specialize (Hm (audit s) s). assert (set_audit (audit s) s = s) as Es by (by destruct s).
  rewrite Es in Hm. rewrite Hm. done.
Qed.

Lemma middleware_audit {A} ev id (m : ST node_t failure A) s :
  frames m -> exists lines, audit (event_middleware verify ev id m s).2 = audit s ++ lines.
Proof.
  intros Hm. unfold event_middleware, st_catch. destruct (verify ev id) as [ec|]; simpl; [by eexists|].
  pose proof (frames_audit m s Hm) as E. destruct (m s) as [[x|[]] t]; simpl in *; rewrite E; eauto using app_nil_r;
    exists []; by rewrite app_nil_r.
Qed.

Lemma step_audit e s : exists lines, audit (node_step gen verify code e s).2 = audit s ++ lines.
Proof.
  destruct (is_guarded e) as [g|] eqn:Eg.
  - destruct e; simplify_eq/=; unfold st_bind.
    + destruct (middleware_audit "start_app" identity (start n p r) s (frames_start n p r)) as [lines Hl]. exists lines.
      unfold start_slot. destruct (event_middleware _ _ _ _ s) as [[] ?]; done.
    + destruct (middleware_audit "pause_app" identity (pause n remove_ok) s (frames_pause n remove_ok)) as [lines Hl]. exists lines.
      unfold pause_slot. destruct (event_middleware _ _ _ _ s) as [[] ?]; done.
  - exists []. rewrite app_nil_r. by apply frames_audit, frames_step.
Qed.

Lemma run_audit es : forall s, exists lines, audit (node_run gen verify code es s).2 = audit s ++ lines.
Proof.
  induction es as [|e es IH]; simpl; intros s; [exists []; by rewrite app_nil_r|].
  destruct (step_audit e s) as [lines Hl]. destruct (node_step _ _ _ e s) as [r t]; simpl in Hl. destruct (IH t) as [lines' Hl'].
  destruct (node_run _ _ _ es t) as [rs t']; simpl in Hl'. rewrite Hl, <- app_assoc in Hl'. destruct r as [|[]]; eauto.
Qed.

Lemma run_refusals es e ec x : refusal e = Some ec -> forall s,
  (e, x) ∈ (node_run gen verify code es s).1 ->
  x = Throw (system_error ec) /\ exists g, is_guarded e = Some g /\ mk_audit g.1 g.2 ec ∈ audit (node_run gen verify code es s).2.
Proof.
  intros Er. induction es as [|e' es IH]; simpl; intros s; [by intros ?%not_elem_of_nil|].
  destruct (node_step gen verify code e' s) as [r t] eqn:Es. specialize (IH t). pose proof (run_audit es t) as [lines Hl].
  assert (e = e' -> r = Throw (system_error ec) /\ exists g, is_guarded e = Some g /\ audit t = audit s ++ [mk_audit g.1 g.2 ec]) as Hhead.
  { intros <-. destruct (refused_step e s ec Er) as (g & Hg & Hst). rewrite Es in Hst. simplify_eq. eauto. }
  destruct (node_run gen verify code es t) as [rs t']; simpl in *.
  assert (forall y, (e, x) = (e', y) -> y = r -> x = Throw (system_error ec) /\ exists g, is_guarded e = Some g /\ mk_audit g.1 g.2 ec ∈ audit t') as Hh.
  { intros y [= <- <-] ->. destruct (Hhead eq_refl) as (-> & g & Hg & Ht). split; [done|]. exists g. split; [done|].
    rewrite Hl, Ht. set_solver. }
  destruct r as [r|[]]; simpl; (intros [Hin|Hin]%elem_of_cons; [try by eapply Hh|]); try by apply IH.
  - simplify_eq. by destruct (Hhead eq_refl) as [? _].
  - by apply not_elem_of_nil in Hin.
Qed.

(** C18: Requests without permission might as well not have been made: without them, every
    other event of the run is answered in the same way and the state of the service is
    the same but for the audit; each of them is answered with the error of the check and
    leaves a line of the audit. *)
Theorem refused_requests_purged (es : list event) (s : node_t) :
  let r := node_run gen verify code es s in
  let r' := node_run gen verify code (filter (fun e => refusal e = None) es) s in
  filter (fun x => refusal x.1 = None) r.1 = r'.1 /\ same r.2 r'.2 /\
  (forall e ec x, (e, x) ∈ r.1 -> refusal e = Some ec ->
    x = Throw (system_error ec) /\ exists g, is_guarded e = Some g /\ mk_audit g.1 g.2 ec ∈ audit r.2).
Proof.
  intros r r'. destruct (run_purged es s s) as [H1 H2]; [done|]. split; [done|]. split; [done|].
  intros e ec x Hin Hr. by apply (run_refusals es e ec x Hr s).
Qed.

(** An overseer that is left behind cannot tell anything. *)
Lemma left_ends i n k p s' : left_behind i n k p s' ->
  forall es, ControlEnd i ∉ es ->
    let s'' := (node_run gen verify code es s').2 in
    let ends e := (node_step gen verify code (OverseerOp k e) s'').1 = Throw crashed in
    exists o', detached s'' !! k = Some (p, o') /\
      (forall ec id now now', ends (SlaveDeath ec id now now')) /\
      (forall id x timer_ok starts, pool o' !! id = Some x -> (slave_activate timer_ok starts x).1 = Ret true -> ends (Handshake id timer_ok starts)) /\
      (forall id x, pool o' !! id = Some x -> ends (Despawn id force)).
Proof.
  intros Hl es He s'' ends. destruct (left_run i n k p es He s' Hl) as [_ [o' Hd'] _ _]. exists o'. split; [done|].
  assert (forall e, told (exec p gen e o').2 <> told o' -> ends e) as Hends.
  { intros e Ht. unfold ends, node_step, st_bind at 1. by rewrite (on_detached_crash k _ _ p o'). }
  split_and!; intros; apply Hends; [apply slave_death_told|by eapply handshake_told|by eapply force_told].
Qed.

(** C33: An application that is paused under a control stream is not stopped: its overseer
    goes on as it was and still takes the orders of the stream.  As long as the stream is
    not closed, whatever else the service is asked meanwhile, the overseer is there, and
    the next worker of it that dies, shakes hands or is despawned by force ends the
    process, because the observer refers to the destroyed state. *)
Theorem paused_application_crashes (s : node_t) (identity : Identity) (n : string) (a b : app_t) (l : apps_t)
    (o : @engine_t S Load) (i k : nat) (remove_ok : bool) :
  node_wf s -> verify "pause_app" identity = None ->
  pause_app n (apps s) = (Ret b, l) -> find_app n (apps s) = Some a -> overseer a = Some o ->
  streams s !! i = Some (n, k) -> serials s !! n = Some k ->
  let s' := (node_step gen verify code (PauseApp identity n remove_ok) s).2 in
  find_app n (apps s') = None /\ detached s' !! k = Some (profile a, o) /\
  (forall count, detached (node_step gen verify code (ControlEvent i (Chunk count)) s').2 !! k =
                 Some (profile a, (control_population (profile a) gen count o).2)) /\
  (forall es, ControlEnd i ∉ es ->
     let s'' := (node_run gen verify code es s').2 in
     let ends e := (node_step gen verify code (OverseerOp k e) s'').1 = Throw crashed in
     exists o', detached s'' !! k = Some (profile a, o') /\
       (forall ec id now now', ends (SlaveDeath ec id now now')) /\
       (forall id x timer_ok starts, pool o' !! id = Some x -> (slave_activate timer_ok starts x).1 = Ret true -> ends (Handshake id timer_ok starts)) /\
       (forall id x, pool o' !! id = Some x -> ends (Despawn id force))).
Proof.
  intros Hw Hv Hp Hf Ho Hi Hk s'.
  assert (held k s = true) as Hh by (apply held_spec; eauto).
  assert (s' = drop_app remove_ok n a l s) as Es.
  { unfold s'. simpl. unfold pause_slot, event_middleware, st_bind, st_catch. rewrite Hv. unfold pause, st_bind, st_get. by rewrite Hp, Hf. }
  clearbody s'. subst s'. unfold drop_app. simpl. rewrite Hk, Ho. unfold retire. simpl.
  change (held k (set_services _ _)) with (held k s). rewrite Hh. simpl.
  assert (detached s !! k = None) as Hd.
  { apply eq_None_not_Some. intros H. by apply (proj2 (nw_detached _ Hw k H) n). }
  assert (find_app n l = None) as Hl.
  { apply find_app_None. intros Hin. destruct (pause_app_without n _ _ _ _ (nw_names _ Hw) Hf Hp) as (_ & Hn & _). by apply Hn in Hin as [_ ?]. }
  split; [done|]. split; [by rewrite lookup_insert_eq|]. split.
  - intros count. unfold st_bind at 1, control_event, st_bind, st_get. cbn -[bool_decide on_detached]. rewrite Hi, lookup_delete_eq.
    rewrite bool_decide_eq_false_2 by done.
    erewrite on_detached_quiet; [|apply lookup_insert_eq|apply control_population_told]. cbn. by rewrite lookup_insert_eq.
  - apply (left_ends i n). split; simpl; [done| | |by apply (nw_next _ Hw n)].
    + exists o. by rewrite lookup_insert_eq.
    + intros m. rewrite lookup_delete_Some. intros [Hne Hm]. by apply Hne, (nw_inj _ Hw n m k).
Qed.
End facts.

(** ** Witnesses *)

Section witnesses.
Abbreviation slave := (machine_slave unlimited_profile).
Definition granted (event identity : string) : option error_code :=
  if String.eqb identity "guest" then Some (mk_ec system_category 13) else None.
Definition plain_code (e : engine_error) : error_code := mk_ec overseer_category 1.

Abbreviation example_event := (@event machine_request Machine.inject_env string).
Abbreviation example_run := (node_run (SL := slave) uuid_of granted plain_code).

(** Two applications, the first of them running and under control *)
Definition example_events : list example_event :=
  [StartApp "admin" "a" unlimited_profile SpoolStarted; StartApp "admin" "b" unlimited_profile SpoolStarted;
   AppEvent "a" Ready; AppEvent "a" (RunTask None None true None); ControlApp 7 "a"].

Definition controlled_node := (example_run example_events node_construct).2.

(** The service is asked for another application meanwhile. *)
Definition meanwhile : list example_event := [PauseApp "admin" "b" true; StartApp "admin" "a" unlimited_profile SpoolStarted].
Definition paused_node := (node_step (SL := slave) uuid_of granted plain_code (PauseApp "admin" "a" true) controlled_node).2.

Lemma paused_application_witness :
  (node_step (SL := slave) uuid_of granted plain_code (OverseerOp 2 (SlaveDeath (mk_ec slave_category 10) "w" 0 0))
     (example_run meanwhile paused_node).2).1 = Throw crashed.
Proof.
  destruct (paused_application_crashes (SL := slave) uuid_of granted plain_code controlled_node "admin" "a"
              (default (example_app "a" []) (find_app "a" (apps controlled_node)))
              (default (example_app "b" []) (find_app "b" (apps controlled_node)))
              (tail (apps controlled_node)) engine_construct 7%nat 2%nat true) as (_ & _ & _ & H).
  - apply (node_run_wf (SL := slave) uuid_of granted plain_code example_events _ node_wf_construct).
  - reflexivity.
  - vm_compute. reflexivity.
  - vm_compute. reflexivity.
  - vm_compute. reflexivity.
  - vm_compute. reflexivity.
  - vm_compute. reflexivity.
  - destruct (H meanwhile) as (o & _ & Hd & _); [|apply Hd].
    unfold meanwhile. intros E. apply elem_of_cons in E as [E|E]; [discriminate E|]. apply elem_of_cons in E as [E|E]; [discriminate E|]. by apply elem_of_nil in E.
Defined.

(** A guest's requests leave the service as it is. *)
Example guest_is_refused :
  let r := example_run (StartApp "guest" "c" unlimited_profile SpoolStarted :: example_events ++ [PauseApp "guest" "a" true]) node_construct in
  apps r.2 = apps controlled_node /\ length (audit r.2) = 2%nat.
Proof. vm_compute. split; reflexivity. Qed.
End witnesses.
