(* ===== verification/Isometrics.v ===== *)
(** * The sampler of isolate metrics: [node/src/node/isometrics.cpp]

    An engine may poll its isolate for the metrics of its workers.  The retriever asks
    for the workers of the pool and for those that have died since the last poll, keeps
    the last metrics of each, and adds them up for the application.

    What the isolate answers, the ids of the pool and the clock are arguments.  The counters
    are those of the process-wide hub of metrics, which makes one at zero the first time a
    name is asked for and keeps it: [hub] is what it holds, and a record of counters that is
    made again finds the values that were left.  A record has the values of its own counters
    beside, which [keep_worker] brings back to the hub; nothing else writes to the names of
    an application.  Counters are 64-bit and wrap around. *)

From Stdlib Require Import Ascii SpecFloat.
From stdpp Require Import sorting.
From S2P Require Import Prelude LogFilter Dynamic.

Local Open Scope Z_scope.

(** ** Data *)

Definition purgatory_queue_bound : Z := 8 * 1024.
Definition missed_updates_times : Z := 10.

Inductive aggregate_t := instant | aggregate.
#[export] Instance aggregate_eq_dec : EqDecision aggregate_t.
Proof. solve_decision. Defined.

Record counter_metric_t := mk_counter { aggregation : aggregate_t; c_value : Z; c_delta : Z }.
Record network_metrics_t := mk_network { rx_bytes : Z; tx_bytes : Z }.

Record worker_metrics_t := mk_worker {
  common_counters : gmap string counter_metric_t;
  gauges : gmap string double.t;
  network : gmap string network_metrics_t;
  update_stamp : Z;
  name_prefix : string
}.

Definition set_counters (c : gmap string counter_metric_t) (w : worker_metrics_t) : worker_metrics_t :=
  mk_worker c (gauges w) (network w) (update_stamp w) (name_prefix w).
Definition set_gauges (g : gmap string double.t) (w : worker_metrics_t) : worker_metrics_t :=
  mk_worker (common_counters w) g (network w) (update_stamp w) (name_prefix w).
Definition set_network (n : gmap string network_metrics_t) (w : worker_metrics_t) : worker_metrics_t :=
  mk_worker (common_counters w) (gauges w) n (update_stamp w) (name_prefix w).
Definition set_stamp (t : Z) (w : worker_metrics_t) : worker_metrics_t :=
  mk_worker (common_counters w) (gauges w) (network w) t (name_prefix w).

Inductive metric_type_t := type_counter | type_gauge | type_network.

Definition init_metrics_desc : list (string * (metric_type_t * aggregate_t)) :=
  [("cpu_load", (type_gauge, instant)); ("mem", (type_counter, instant)); ("uptime", (type_counter, aggregate));
   ("net", (type_network, aggregate))]%string.

(** The counters of the hub, by name *)
Definition hub_t := gmap string Z.

(** An accessor of [dynamic_t] for another alternative throws; the caller catches it. *)
Inductive bad_get := BadGet.

Abbreviation W := (ST worker_metrics_t bad_get).

Abbreviation stats_table := (gmap string worker_metrics_t).

Section hub.
Context (hub : hub_t).

Definition metric_path (prefix name : string) : string := (prefix ++ "." ++ name)%string.

(** [make_uint_counter]: the counter of that name, at zero when there was none *)
Definition make_uint_counter (prefix name : string) : Z := u64 (default 0 (hub !! metric_path prefix name)).

(** [worker_metrics_t::worker_metrics_t] *)
Definition worker_construct (prefix : string) (now : Z) : worker_metrics_t :=
  foldl (fun w d =>
    match d.2.1 with
    | type_counter => set_counters (<[d.1 := mk_counter d.2.2 (make_uint_counter prefix d.1) 0]> (common_counters w)) w
    | type_gauge => set_gauges (<[d.1 := double.zero]> (gauges w)) w
    | type_network => w
    end) (mk_worker ∅ ∅ ∅ now prefix) init_metrics_desc.

Definition worker_of (app_name id : string) (now : Z) : worker_metrics_t :=
  worker_construct (app_name ++ ".isolate." ++ id) now.

(** ** Processing of a response *)

Definition process_uint (name : string) (incoming : Z) : W nat :=
  (let! w := st_get in
   match common_counters w !! name with
   | None => st_ret 0%nat
   | Some r =>
       let delta := if decide (aggregation r = aggregate) then
                      if c_value r <=? incoming then incoming - c_value r else c_delta r
                    else c_delta r in
       st_modify (fun w => set_counters (<[name := mk_counter (aggregation r) incoming delta]> (common_counters w)) w) ;;;
       st_ret 1%nat
   end)%cpp.

Definition process_double (name : string) (value : double.t) : W nat :=
  (let! w := st_get in
   match gauges w !! name with
   | None => st_ret 0%nat
   | Some _ => st_modify (fun w => set_gauges (<[name := value]> (gauges w)) w) ;;; st_ret 1%nat
   end)%cpp.

Definition as_uint_or (v : dynamic_t) : W Z := match v with DUint z => st_ret z | _ => st_throw BadGet end.

Definition rx_name (name : string) : string := ("net." ++ name ++ ".rx_bytes")%string.
Definition tx_name (name : string) : string := ("net." ++ name ++ ".tx_bytes")%string.

Definition parse_network_record (name : string) (net : list (string * dynamic_t)) : W nat :=
  match object_at net "rx_bytes", object_at net "tx_bytes" with
  | Some rx, Some tx =>
      (st_modify (fun w => match network w !! name with
                           | Some _ => w
                           | None => set_network (<[name := mk_network
                                       (make_uint_counter (name_prefix w) (rx_name name)) (make_uint_counter (name_prefix w) (tx_name name))]>
                                       (network w)) w
                           end) ;;;
       let! r := as_uint_or rx in
       st_modify (fun w => set_network (alter (fun n => mk_network r (tx_bytes n)) name (network w)) w) ;;;
       let! t := as_uint_or tx in
       st_modify (fun w => set_network (alter (fun n => mk_network (rx_bytes n) t) name (network w)) w) ;;;
       st_ret 2%nat)%cpp
  | _, _ => st_ret 0%nat
  end.

Fixpoint process_object (value : list (string * dynamic_t)) : W nat :=
  match value with
  | [] => st_ret 0%nat
  | (name, DObject net) :: value =>
      (let! n := parse_network_record name net in let! m := process_object value in st_ret (n + m)%nat)%cpp
  | _ => st_throw BadGet
  end.

(** [value_processor_t]: by the alternative of the value *)
Definition process_value (name : string) (value : dynamic_t) : W nat :=
  match value with
  | DUint z => process_uint name z
  | DDouble f => process_double name f
  | DObject o => process_object o
  | _ => st_ret 0%nat
  end.

(** What is before the first dot *)
Fixpoint decay_metric_name (name : string) : string :=
  match name with
  | EmptyString => ""
  | String c s => if Ascii.eqb c "." then "" else String c (decay_metric_name s)
  end.

Definition metrics_mapping := (list (string * dynamic_t)).

Definition fill_one (metric : string * dynamic_t) (x : nat * worker_metrics_t) : nat * worker_metrics_t :=
  let nm := decay_metric_name metric.1 in
  if String.eqb nm "" then x
  else match process_value nm metric.2 x.2 with
       | (Ret n, w) => ((x.1 + n)%nat, w)
       | (Throw _, w) => (x.1, w)
       end.

Definition fill_metrics (metrics : metrics_mapping) (w : worker_metrics_t) : nat * worker_metrics_t :=
  foldl (fun x m => fill_one m x) (0%nat, w) metrics.

Definition response_type := (list (string * metrics_mapping)).

(** One turn of the loop of [process]; the ids whose metrics have not come for too long
    are kept to be logged. *)
Definition process_worker (app_name : string) (now : string -> Z) (faded_timeout : Z) (worker : string * metrics_mapping)
    (x : stats_table * list string) : stats_table * list string :=
  let id := worker.1 in
  if String.eqb id "" then x
  else
    let w := default (worker_of app_name id (now id)) (x.1 !! id) in
    let '(updated, w') := fill_metrics worker.2 w in
    if decide (updated = 0%nat) then
      (<[id := w']> x.1, if faded_timeout <? now id - update_stamp w' then x.2 ++ [id] else x.2)
    else (<[id := set_stamp (now id) w']> x.1, x.2).

(** The count it returns is never changed. *)
Definition process (app_name : string) (now : string -> Z) (faded_timeout : Z) (response : response_type) (table : stats_table) :
    Z * (stats_table * list string) :=
  (0, foldl (fun x wk => process_worker app_name now faded_timeout wk x) (table, []) response).

End hub.

(** What a record has stored in its counters *)
Definition keep_worker (w : worker_metrics_t) (h : hub_t) : hub_t :=
  let h := map_fold (fun name c h => <[metric_path (name_prefix w) name := c_value c]> h) h (common_counters w) in
  map_fold (fun name n h => <[metric_path (name_prefix w) (tx_name name) := tx_bytes n]>
    (<[metric_path (name_prefix w) (rx_name name) := rx_bytes n]> h)) h (network w).

(** ** Aggregation over the application *)

Record counter_sum_t := mk_sum { sum_values : Z; sum_deltas : Z }.
Record gauge_avg_t := mk_avg { avg_value : double.t; avg_count : Z }.
Record metrics_aggregate_proxy_t := mk_proxy { p_counters : gmap string counter_sum_t; p_gauges : gmap string gauge_avg_t }.

Definition proxy_construct : metrics_aggregate_proxy_t := mk_proxy ∅ ∅.

Definition add_counter (o : option counter_sum_t) (m : counter_metric_t) : counter_sum_t :=
  let s := default (mk_sum 0 0) o in
  mk_sum (u64 (sum_values s + c_value m)) (u64 (sum_deltas s + c_delta m)).
Definition add_gauge (o : option gauge_avg_t) (v : double.t) : gauge_avg_t :=
  let s := default (mk_avg double.zero 0) o in
  mk_avg (SFadd 53 1024 (avg_value s) v) (i32 (avg_count s + 1)).

(** [proxy + worker]: every metric of the worker is added under its name. *)
Definition proxy_add (p : metrics_aggregate_proxy_t) (w : worker_metrics_t) : metrics_aggregate_proxy_t :=
  mk_proxy
    (merge (fun o m => match m with Some m => Some (add_counter o m) | None => o end) (p_counters p) (common_counters w))
    (merge (fun o v => match v with Some v => Some (add_gauge o v) | None => o end) (p_gauges p) (gauges w)).

Definition accumulate (table : stats_table) : metrics_aggregate_proxy_t :=
  foldl proxy_add proxy_construct (map_to_list table).*2.

Definition update_counter (name : string) (desired : aggregate_t) (value : Z) (w : worker_metrics_t) : worker_metrics_t :=
  match common_counters w !! name with
  | Some r => if decide (aggregation r = desired)
              then set_counters (<[name := mk_counter (aggregation r) value (c_delta r)]> (common_counters w)) w else w
  | None => w
  end.
Definition update_gauge (name : string) (value : double.t) (w : worker_metrics_t) : worker_metrics_t :=
  match gauges w !! name with
  | Some _ => set_gauges (<[name := value]> (gauges w)) w
  | None => w
  end.

Definition average (a : gauge_avg_t) : double.t :=
  if avg_count a =? 0 then double.zero else SFdiv 53 1024 (avg_value a) (double.of_Z (avg_count a)).

(** [worker_metrics_t::assign] *)
Definition assign (p : metrics_aggregate_proxy_t) (w : worker_metrics_t) : worker_metrics_t :=
  if decide (p_counters p = ∅) then
    foldl (fun w d =>
      match d.2.1 with
      | type_counter => update_counter d.1 instant 0 w
      | type_gauge => update_gauge d.1 double.zero w
      | type_network => w
      end) w init_metrics_desc
  else
    let w := set_counters (merge (fun r s =>
               match r, s with
               | Some r, Some s =>
                   Some (mk_counter (aggregation r)
                     (match aggregation r with aggregate => u64 (c_value r + sum_deltas s) | instant => sum_values s end) (c_delta r))
               | r, _ => r
               end) (common_counters w) (p_counters p)) w in
    set_gauges (merge (fun g a => match g, a with Some _, Some a => Some (average a) | g, _ => g end) (gauges w) (p_gauges p)) w.

(** ** The retriever *)

(** The counters of the retrievers have the same names for all applications
    ("node.isolate.poll.metrics"): this is what one retriever has added to them since it was
    made, and the size that it stored last. *)
Record self_metrics_t := mk_self {
  uuids_requested : Z; uuids_recieved : Z; requests_send : Z; empty_requests : Z; responses_received : Z;
  receive_errors : Z; posmortem_queue_size : Z
}.

Record metrics_retriever_t := mk_retriever {
  app_name : string;
  poll_interval : Z;
  has_isolate : bool;
  purgatory : gset string;
  table : stats_table;
  app_aggregate_metrics : worker_metrics_t;
  self_metrics : self_metrics_t;
  armed : bool;                       (** the poll timer is pending *)
  queries : list (list string);       (** what the isolate has been asked *)
  metrics_hub : hub_t
}.

Definition retriever_construct (hub : hub_t) (name : string) (interval : Z) (isolate : bool) (now : Z) : metrics_retriever_t :=
  mk_retriever name interval isolate ∅ ∅ (worker_construct hub (name ++ ".isolate") now) (mk_self 0 0 0 0 0 0 0) false [] hub.

Definition ignite_poll (r : metrics_retriever_t) : metrics_retriever_t :=
  mk_retriever (app_name r) (poll_interval r) (has_isolate r) (purgatory r) (table r) (app_aggregate_metrics r) (self_metrics r)
    true (queries r) (metrics_hub r).

(** The observer of the pool calls it when a worker has died. *)
Definition add_post_mortem (id : string) (r : metrics_retriever_t) : metrics_retriever_t :=
  if purgatory_queue_bound <=? Z.of_nat (size (purgatory r)) then r
  else
    let pot := {[id]} ∪ purgatory r in
    let s := self_metrics r in
    mk_retriever (app_name r) (poll_interval r) (has_isolate r) pot (table r) (app_aggregate_metrics r)
      (mk_self (uuids_requested s) (uuids_recieved s) (requests_send s) (empty_requests s) (responses_received s)
         (receive_errors s) (Z.of_nat (size pot))) (armed r) (queries r) (metrics_hub r).

(** [boost::set_union] of two sorted ranges *)
Fixpoint set_union (l1 : list string) : list string -> list string :=
  fix go l2 :=
    match l1, l2 with
    | [], _ => l2
    | _, [] => l1
    | a :: l1', b :: l2' =>
        if String.ltb a b then a :: set_union l1' l2
        else if String.ltb b a then b :: go l2'
        else a :: set_union l1' l2'
    end.

Definition make_query (alive : list string) (pot : gset string) : list string :=
  set_union (merge_sort String.le alive) (merge_sort String.le (elements pot)).

(** [alive] are the ids of the pool, or [None] when the engine is gone; [cancelled] is the
    error code of the timer. *)
Definition poll_metrics (cancelled : bool) (alive : option (list string)) (r : metrics_retriever_t) : metrics_retriever_t :=
  let r := mk_retriever (app_name r) (poll_interval r) (has_isolate r) (purgatory r) (table r) (app_aggregate_metrics r)
             (self_metrics r) false (queries r) (metrics_hub r) in
  if cancelled then r
  else match alive with
       | None => r
       | Some alive =>
           if negb (has_isolate r) then ignite_poll r
           else
             let query := make_query alive (purgatory r) in
             let s := self_metrics r in
             ignite_poll (mk_retriever (app_name r) (poll_interval r) (has_isolate r) ∅
               (filter (fun x => x.1 ∈ query) (table r)) (app_aggregate_metrics r)
               (mk_self (u64 (uuids_requested s + Z.of_nat (length query))) (uuids_recieved s) (u64 (requests_send s + 1))
                  (if decide (query = []) then u64 (empty_requests s + 1) else empty_requests s) (responses_received s)
                  (receive_errors s) 0)
               (armed r) (queries r ++ [query]) (metrics_hub r))
       end.

(** [metrics_handle_t::on_data] *)
Definition on_data (data : response_type) (now : string -> Z) (r : metrics_retriever_t) : metrics_retriever_t :=
  let '(processed, (t, _)) := process (metrics_hub r) (app_name r) now (poll_interval r * missed_updates_times) data (table r) in
  let s := self_metrics r in
  let app := assign (accumulate t) (app_aggregate_metrics r) in
  mk_retriever (app_name r) (poll_interval r) (has_isolate r) (purgatory r) t app
    (mk_self (uuids_requested s) (u64 (uuids_recieved s + processed)) (requests_send s) (empty_requests s)
       (u64 (responses_received s + 1)) (receive_errors s) (posmortem_queue_size s)) (armed r) (queries r)
    (keep_worker app (foldl (fun h w => keep_worker w h) (metrics_hub r) (map_to_list t).*2)).

(** [metrics_handle_t::on_error] *)
Definition on_error (not_connected : bool) (r : metrics_retriever_t) : metrics_retriever_t :=
  if not_connected then r
  else
    let s := self_metrics r in
    mk_retriever (app_name r) (poll_interval r) (has_isolate r) (purgatory r) (table r) (app_aggregate_metrics r)
      (mk_self (uuids_requested s) (uuids_recieved s) (requests_send s) (empty_requests s) (responses_received s)
         (u64 (receive_errors s + 1)) (posmortem_queue_size s)) (armed r) (queries r) (metrics_hub r).

(** ** Polls *)

Lemma string_ltb_total a b : String.ltb a b = false -> String.ltb b a = false -> a = b.
Proof.
  unfold String.ltb. rewrite (String.compare_antisym b a). destruct (String.compare a b) eqn:E; simpl; intros; try discriminate.
  by apply String.compare_eq_iff.
Qed.

Lemma elem_of_set_union x l1 l2 : x ∈ set_union l1 l2 <-> x ∈ l1 \/ x ∈ l2.
Proof.
  revert l2. induction l1 as [|a l1 IH1]; intros l2; [destruct l2; set_solver|].
  induction l2 as [|b l2 IH2]; [set_solver|]. simpl.
  destruct (String.ltb a b) eqn:Eab; [rewrite elem_of_cons, IH1; set_solver|].
  destruct (String.ltb b a) eqn:Eba.
  - rewrite elem_of_cons. simpl in IH2. rewrite IH2. set_solver.
  - rewrite elem_of_cons, IH1, (string_ltb_total a b Eab Eba). set_solver.
Qed.

(** A poll asks for the workers of the pool and for those that have died since the
    last poll, and for no others; the dead ones are forgotten, the metrics kept are those
    of the workers asked for, and the next poll is scheduled. *)
Theorem poll_asks (alive : list string) (r : metrics_retriever_t) :
  has_isolate r = true ->
  let r' := poll_metrics false (Some alive) r in
  exists query, queries r' = queries r ++ [query] /\
    (forall id, id ∈ query <-> id ∈ alive \/ id ∈ purgatory r) /\
    purgatory r' = ∅ /\ armed r' = true /\
    (forall id w, table r' !! id = Some w <-> table r !! id = Some w /\ id ∈ query).
Proof.
  intros Hi r'. unfold r', poll_metrics. simpl. rewrite Hi. simpl. eexists. split; [done|].
  split_and!; [|done|done|].
  - intros id. unfold make_query. rewrite elem_of_set_union, !merge_sort_Permutation, elem_of_elements. done.
  - intros id w. by rewrite map_lookup_filter_Some.
Qed.

Inductive event :=
| Despawned (id : string)
| Polled (cancelled : bool) (alive : option (list string))
| Data (data : response_type) (now : string -> Z)
| Failed (not_connected : bool).

Definition step (r : metrics_retriever_t) (e : event) : metrics_retriever_t :=
  match e with
  | Despawned id => add_post_mortem id r
  | Polled c alive => poll_metrics c alive r
  | Data d now => on_data d now r
  | Failed nc => on_error nc r
  end.

Definition run (es : list event) (r : metrics_retriever_t) : metrics_retriever_t := foldl step r es.

(** *** Workers *)

(** The counters a worker has *)
Definition counter_kind (name : string) : option aggregate_t :=
  if String.eqb name "mem" then Some instant else if String.eqb name "uptime" then Some aggregate else None.

Definition worker_wf (w : worker_metrics_t) : Prop := forall name, aggregation <$> common_counters w !! name = counter_kind name.

Lemma worker_construct_wf h prefix now : worker_wf (worker_construct h prefix now).
Proof.
  intros name. unfold worker_construct, init_metrics_desc. simpl. unfold counter_kind.
  destruct (String.eqb_spec name "mem") as [->|H1]; [done|]. destruct (String.eqb_spec name "uptime") as [->|H2]; [done|].
  by rewrite !lookup_insert_ne, lookup_empty by congruence.
Qed.

(** The effect of one value on a counter *)
Definition bump (v : Z) (c : counter_metric_t) : counter_metric_t :=
  mk_counter (aggregation c) v
    (if decide (aggregation c = aggregate) then if c_value c <=? v then v - c_value c else c_delta c else c_delta c).

(** Calls that leave the counters alone *)
Definition spares (m : W nat) : Prop := forall w, common_counters (m w).2 = common_counters w.

Lemma parse_network_spares h name net : spares (parse_network_record h name net).
Proof.
  intros w. unfold parse_network_record. destruct (object_at net "rx_bytes") as [rx|], (object_at net "tx_bytes") as [tx|]; try done.
  unfold st_bind, st_modify, as_uint_or, st_ret, st_throw.
  destruct rx, tx; simpl; by destruct (network w !! name).
Qed.

Lemma process_object_spares h o : spares (process_object h o).
Proof.
  induction o as [|[name v] o IH]; intros w; [done|]. simpl. destruct v; try done.
  unfold st_bind. pose proof (parse_network_spares h name m w) as Hp. destruct (parse_network_record h name m w) as [[n|] w1]; simpl in Hp; [|done].
  specialize (IH w1). destruct (process_object h o w1) as [[k|] w2]; simpl in *; congruence.
Qed.

Lemma process_value_counter h name v nm w :
  common_counters (process_value h nm v w).2 !! name =
  match v with
  | DUint z => if decide (nm = name) then bump z <$> common_counters w !! name else common_counters w !! name
  | _ => common_counters w !! name
  end.
Proof.
  destruct v; simpl; try done.
  - unfold process_uint, st_bind, st_get. simpl. destruct (common_counters w !! nm) as [c|] eqn:E; simpl.
    + destruct (decide (nm = name)) as [<-|]; [by rewrite lookup_insert_eq, E|by rewrite lookup_insert_ne].
    + destruct (decide (nm = name)) as [<-|]; [by rewrite E|done].
  - unfold process_double, st_bind, st_get. simpl. by destruct (gauges w !! nm).
  - by rewrite process_object_spares.
Qed.

(** The values that a worker's metrics report for a counter *)
Definition reported (name : string) (ms : metrics_mapping) : list Z :=
  omap (fun m => match m.2 with DUint z => if decide (decay_metric_name m.1 = name) then Some z else None | _ => None end) ms.

Lemma fill_metrics_counter h name ms w :
  name <> ""%string ->
  common_counters (fill_metrics h ms w).2 !! name =
  foldl (fun c v => bump v <$> c) (common_counters w !! name) (reported name ms).
Proof.
  intros Hn. unfold fill_metrics. generalize 0%nat. revert w. induction ms as [|m ms IH]; intros w n; [done|].
  simpl. unfold fill_one at 2.
  destruct (String.eqb_spec (decay_metric_name m.1) "") as [E|E].
  - rewrite IH. f_equal. destruct m.2; try done. by rewrite decide_False by congruence.
  - pose proof (process_value_counter h name m.2 (decay_metric_name m.1) w) as Hp. simpl.
    destruct (process_value h (decay_metric_name m.1) m.2 w) as [[k|] w'] eqn:Ep; simpl in Hp; rewrite IH, Hp;
      destruct m.2; try done; by case_decide.
Qed.

Lemma process_value_kind h name v nm w :
  aggregation <$> common_counters (process_value h nm v w).2 !! name = aggregation <$> common_counters w !! name.
Proof.
  rewrite process_value_counter. destruct v; try done. case_decide; [|done]. by destruct (common_counters w !! name).
Qed.

Lemma fill_metrics_wf h ms w : worker_wf w -> worker_wf (fill_metrics h ms w).2.
Proof.
  unfold fill_metrics. generalize 0%nat. revert w. induction ms as [|m ms IH]; intros w n Hw; [done|]. simpl.
  unfold fill_one at 2. destruct (String.eqb _ ""); [by apply IH|]. simpl.
  pose proof (fun name => process_value_kind h name m.2 (decay_metric_name m.1) w) as Hk.
  destruct (process_value h (decay_metric_name m.1) m.2 w) as [[k|] w']; simpl in Hk; apply IH; intros name; by rewrite Hk.
Qed.

Definition value_of (name : string) (w : worker_metrics_t) : Z := from_option c_value 0 (common_counters w !! name).
Definition delta_of (name : string) (w : worker_metrics_t) : Z := from_option c_delta 0 (common_counters w !! name).
Definition total (name : string) (t : stats_table) : Z := msum (fun _ w => value_of name w) t.
Definition total_delta (name : string) (t : stats_table) : Z := msum (fun _ w => delta_of name w) t.

(** *** Sums over the workers *)

#[local] Arguments proxy_add : simpl never.

Lemma proxy_adds_counter name ws p :
  Forall (fun w => is_Some (common_counters w !! name)) ws -> ws <> [] ->
  let s := default (mk_sum 0 0) (p_counters p !! name) in
  p_counters (foldl proxy_add p ws) !! name =
    Some (mk_sum (u64 (sum_values s + zsum (value_of name) ws)) (u64 (sum_deltas s + zsum (delta_of name) ws))).
Proof.
  intros Hws. revert p. induction Hws as [|w ws [c Hc] Hws IH]; intros p Hne; [done|]. cbv zeta. simpl.
  assert (p_counters (proxy_add p w) !! name = Some (add_counter (p_counters p !! name) c)) as Hadd.
  { unfold proxy_add. simpl. rewrite lookup_merge, Hc. by destruct (p_counters p !! name). }
  assert (value_of name w = c_value c /\ delta_of name w = c_delta c) as [-> ->] by (unfold value_of, delta_of; by rewrite Hc).
  destruct ws as [|w' ws].
  - etransitivity; [exact Hadd|]. unfold add_counter. simpl. by rewrite !Z.add_0_r.
  - rewrite IH by done. rewrite Hadd. simpl. rewrite !u64_add_l. do 2 f_equal; f_equal; lia.
Qed.

Lemma msum_values {V} (f : V -> Z) (t : gmap string V) : msum (fun _ => f) t = zsum f (map_to_list t).*2.
Proof.
  unfold msum. generalize (map_to_list t). intros l. induction l as [|x l IH]; [done|]. rewrite fmap_cons. simpl. f_equal. exact IH.
Qed.

Lemma accumulate_counter name t :
  (forall id w, t !! id = Some w -> is_Some (common_counters w !! name)) -> t <> ∅ ->
  p_counters (accumulate t) !! name = Some (mk_sum (u64 (total name t)) (u64 (total_delta name t))).
Proof.
  intros Ht Hne. unfold accumulate. rewrite proxy_adds_counter.
  - unfold total, total_delta. by rewrite !msum_values.
  - apply Forall_forall. intros w ([id w'] & -> & Hin%elem_of_map_to_list)%list_elem_of_fmap. by apply (Ht id).
  - intros E. apply fmap_nil_inv in E. by apply map_to_list_empty_iff in E.
Qed.

Lemma assign_counter t app :
  (forall id w, t !! id = Some w -> worker_wf w) -> worker_wf app -> t <> ∅ ->
  worker_wf (assign (accumulate t) app) /\
  value_of "uptime" (assign (accumulate t) app) = u64 (value_of "uptime" app + total_delta "uptime" t) /\
  value_of "mem" (assign (accumulate t) app) = u64 (total "mem" t).
Proof.
  intros Ht Happ Hne.
  assert (forall name, is_Some (counter_kind name) -> forall id w, t !! id = Some w -> is_Some (common_counters w !! name)) as Hsome.
  { intros name Hk id w Hw. specialize (Ht id w Hw name). destruct (common_counters w !! name); [by eexists|].
    simpl in Ht. rewrite <- Ht in Hk. by destruct Hk. }
  pose proof (accumulate_counter "uptime" t (Hsome "uptime"%string ltac:(by eexists)) Hne) as Hu.
  pose proof (accumulate_counter "mem" t (Hsome "mem"%string ltac:(by eexists)) Hne) as Hm.
  unfold assign. rewrite decide_False by (intros E; by rewrite E, lookup_empty in Hu). cbv zeta.
  assert (exists cu, common_counters app !! "uptime"%string = Some cu /\ aggregation cu = aggregate) as (cu & Ecu & Hcu).
  { specialize (Happ "uptime"%string). destruct (common_counters app !! "uptime"%string) as [c|]; [|discriminate Happ].
    injection Happ as Hk. by exists c. }
  assert (exists cm, common_counters app !! "mem"%string = Some cm /\ aggregation cm = instant) as (cm & Ecm & Hcm).
  { specialize (Happ "mem"%string). destruct (common_counters app !! "mem"%string) as [c|]; [|discriminate Happ].
    injection Happ as Hk. by exists c. }
  split_and!.
  - intros name. simpl. rewrite <- (Happ name), lookup_merge. by destruct (common_counters app !! name), (p_counters (accumulate t) !! name).
  - unfold value_of. simpl. rewrite lookup_merge, Ecu, Hu. simpl. rewrite Hcu. unfold u64. by rewrite Zplus_mod_idemp_r.
  - unfold value_of. simpl. rewrite lookup_merge, Ecm, Hm. simpl. by rewrite Hcm.
Qed.

(** *** A response *)

Lemma process_worker_table h app now ft id ms x :
  id <> ""%string ->
  exists w, (process_worker h app now ft (id, ms) x).1 = <[id := w]> x.1 /\
    common_counters w = common_counters (fill_metrics h ms (default (worker_of h app id (now id)) (x.1 !! id))).2.
Proof.
  intros Hid. unfold process_worker. simpl. destruct (String.eqb_spec id "") as [|_]; [done|].
  destruct (fill_metrics h ms _) as [n w']. case_decide; eexists; (split; [reflexivity|done]).
Qed.

Definition process_all h app now ft (data : response_type) (t : stats_table) : stats_table := (process h app now ft data t).2.1.

Lemma process_all_cons h app now ft wk data t :
  process_all h app now ft (wk :: data) t = process_all h app now ft data (process_worker h app now ft wk (t, [])).1.
Proof.
  unfold process_all, process. simpl.
  assert (forall x y : stats_table * list string, x.1 = y.1 ->
    (foldl (fun x wk => process_worker h app now ft wk x) x data).1 = (foldl (fun x wk => process_worker h app now ft wk x) y data).1) as H.
  { clear. induction data as [|wk data IH]; intros x y Hxy; [done|]. simpl. apply IH. unfold process_worker. rewrite Hxy.
    destruct (String.eqb wk.1 ""); [done|]. destruct (fill_metrics _ _ _). by case_decide. }
  by apply H.
Qed.

(** The uptime known of a worker: that of its record, or what the hub holds under its name *)
Definition known_uptime (h : hub_t) (app : string) (t : stats_table) (id : string) : Z :=
  match t !! id with
  | Some w => value_of "uptime" w
  | None => make_uint_counter h (app ++ ".isolate." ++ id) "uptime"
  end.

(** The metrics of a worker report its uptime once, and it has not gone back. *)
Definition reports (h : hub_t) (app : string) (t : stats_table) (wk : string * metrics_mapping) : Prop :=
  wk.1 <> ""%string /\ exists v, reported "uptime" wk.2 = [v] /\ known_uptime h app t wk.1 <= v.

Lemma worker_of_uptime h app id now : value_of "uptime" (worker_of h app id now) = make_uint_counter h (app ++ ".isolate." ++ id) "uptime".
Proof. done. Qed.

Lemma process_worker_reports h app now ft wk t fd :
  (forall id w, t !! id = Some w -> worker_wf w) -> reports h app t wk ->
  exists w, (process_worker h app now ft wk (t, fd)).1 = <[wk.1 := w]> t /\ worker_wf w /\
    value_of "uptime" w - delta_of "uptime" w = known_uptime h app t wk.1.
Proof.
  destruct wk as [id ms]. intros Hwf [Hid (v & Hv & Hle)]. simpl in *.
  destruct (process_worker_table h app now ft id ms (t, fd) Hid) as (w & E & Hc). exists w. split; [done|].
  simpl in Hc. set (w0 := default (worker_of h app id (now id)) (t !! id)) in *.
  assert (worker_wf w0) as Hw0 by (unfold w0; destruct (t !! id) eqn:Et; [by eapply Hwf|apply worker_construct_wf]).
  assert (value_of "uptime" w0 = known_uptime h app t id) as Hval by (unfold w0, known_uptime; destruct (t !! id); [done|apply worker_of_uptime]).
  split; [intros name; rewrite Hc; by apply fill_metrics_wf|].
  unfold value_of at 1, delta_of. rewrite Hc, fill_metrics_counter, Hv by done. simpl.
  pose proof (Hw0 "uptime"%string) as Hk. unfold value_of in Hval. destruct (common_counters w0 !! "uptime"%string) as [c|]; [|discriminate Hk].
  injection Hk as Hk. simpl in *. rewrite decide_True by done. rewrite (proj2 (Z.leb_le (c_value c) v)) by lia. lia.
Qed.

(** Who is not in a response stays as it was. *)
Lemma process_all_other h app now ft data t id : id ∉ data.*1 -> process_all h app now ft data t !! id = t !! id.
Proof.
  revert t. induction data as [|[i ms] data IH]; intros t Hid; [done|]. rewrite fmap_cons, not_elem_of_cons in Hid. destruct Hid as [Hne Hid].
  rewrite process_all_cons, IH by done. destruct (String.eqb_spec i "") as [->|Hi]; [done|].
  destruct (process_worker_table h app now ft i ms (t, []) Hi) as (w & -> & _). by rewrite lookup_insert_ne by (simpl in Hne; congruence).
Qed.

(** What the workers of a response had before it, in terms of what they have after it *)
Lemma process_all_before h app now ft data t :
  (forall id w, t !! id = Some w -> worker_wf w) -> NoDup data.*1 -> Forall (reports h app t) data ->
  forall id w, id ∈ data.*1 -> process_all h app now ft data t !! id = Some w ->
  value_of "uptime" w - delta_of "uptime" w = known_uptime h app t id.
Proof.
  revert t. induction data as [|wk data IH]; intros t Hwf Hnd Hrep id w Hid Hw; [by apply elem_of_nil in Hid|].
  rewrite fmap_cons in *. apply NoDup_cons in Hnd as [Hnin Hnd]. inversion_clear Hrep as [|? ? Hr Hrep'].
  destruct (process_worker_reports h app now ft wk t [] Hwf Hr) as (w1 & E & Hw1 & Hb).
  rewrite process_all_cons, E in Hw. destruct (decide (id = wk.1)) as [->|Hne].
  - rewrite process_all_other, lookup_insert_eq in Hw by done. by injection Hw as <-.
  - assert (known_uptime h app (<[wk.1 := w1]> t) id = known_uptime h app t id) as <- by (unfold known_uptime; by rewrite lookup_insert_ne).
    apply elem_of_cons in Hid as [|Hid]; [done|]. apply (IH (<[wk.1 := w1]> t)); try done.
    + intros i w'. rewrite lookup_insert_Some. intros [[_ <-]|[_ H]]; [done|by eapply Hwf].
    + apply Forall_forall. intros wk' Hin. rewrite Forall_forall in Hrep'. destruct (Hrep' wk' Hin) as [Hne' (v & Hv & Hle)]. split; [done|]. exists v. split; [done|].
      unfold known_uptime in *. rewrite lookup_insert_ne; [done|]. intros Heq. apply Hnin. rewrite Heq. by apply list_elem_of_fmap_2.
Qed.

(** *** The retriever *)

Record retriever_wf (r : metrics_retriever_t) : Prop := {
  tw_table : forall id w, table r !! id = Some w -> worker_wf w;
  tw_app : worker_wf (app_aggregate_metrics r);
  tw_range : u64 (value_of "uptime" (app_aggregate_metrics r)) = value_of "uptime" (app_aggregate_metrics r);
  tw_pot : Z.of_nat (size (purgatory r)) <= purgatory_queue_bound;
  tw_gauge : posmortem_queue_size (self_metrics r) = Z.of_nat (size (purgatory r))
}.

Lemma process_all_wf h app now ft data t :
  (forall id w, t !! id = Some w -> worker_wf w) -> forall id w, process_all h app now ft data t !! id = Some w -> worker_wf w.
Proof.
  revert t. induction data as [|[id ms] data IH]; intros t Ht; [done|]. rewrite process_all_cons. apply IH.
  destruct (String.eqb_spec id "") as [->|Hid]; [done|].
  destruct (process_worker_table h app now ft id ms (t, []) Hid) as (w & -> & Hc). simpl in *.
  intros id' w'. rewrite lookup_insert_Some. intros [[_ <-]|[_ H]]; [|by eapply Ht].
  intros name. rewrite Hc. apply fill_metrics_wf. destruct (t !! id) eqn:E; [by eapply Ht|apply worker_construct_wf].
Qed.

Lemma update_gauge_counters name v w : common_counters (update_gauge name v w) = common_counters w.
Proof. unfold update_gauge. by destruct (gauges w !! name). Qed.

Lemma update_counter_spec name desired v w :
  worker_wf w -> worker_wf (update_counter name desired v w) /\
  forall n, n <> name \/ counter_kind name <> Some desired -> value_of n (update_counter name desired v w) = value_of n w.
Proof.
  intros Hw. unfold update_counter. destruct (common_counters w !! name) as [c|] eqn:E; [|done].
  destruct (decide (aggregation c = desired)) as [Ed|]; [|done]. split.
  - intros n. simpl. rewrite <- (Hw n). destruct (decide (n = name)) as [->|Hn]; [by rewrite lookup_insert_eq, E|by rewrite lookup_insert_ne].
  - intros n [Hn|Hn]; [unfold value_of; simpl; by rewrite lookup_insert_ne|].
    exfalso. apply Hn. rewrite <- (Hw name), E, <- Ed. done.
Qed.

Lemma assign_empty app : worker_wf app ->
  worker_wf (assign (accumulate ∅) app) /\ value_of "uptime" (assign (accumulate ∅) app) = value_of "uptime" app.
Proof.
  intros Happ. unfold assign. rewrite decide_True by (unfold accumulate; by rewrite map_to_list_empty).
  set (w1 := update_gauge "cpu_load" double.zero app).
  change (foldl _ app init_metrics_desc) with (update_counter "uptime" instant 0 (update_counter "mem" instant 0 w1)).
  assert (worker_wf w1) as H1 by (intros n; unfold w1; rewrite update_gauge_counters; apply Happ).
  destruct (update_counter_spec "mem" instant 0 w1 H1) as [H2 E2].
  destruct (update_counter_spec "uptime" instant 0 _ H2) as [H3 E3]. split; [done|].
  rewrite E3, E2 by (by left + by right). unfold value_of, w1. by rewrite update_gauge_counters.
Qed.

Lemma on_data_fields data now r :
  table (on_data data now r) = process_all (metrics_hub r) (app_name r) now (poll_interval r * missed_updates_times) data (table r) /\
  app_aggregate_metrics (on_data data now r) = assign (accumulate (table (on_data data now r))) (app_aggregate_metrics r).
Proof. unfold on_data, process_all. by destruct (process _ _ _ _ data (table r)) as [? []]. Qed.

Lemma step_wf_retriever r e : retriever_wf r -> retriever_wf (step r e).
Proof.
  intros [H1 H2 H3 H4 H5]. destruct e as [id|c alive|data now|nc]; simpl.
  - unfold add_post_mortem. destruct (Z.leb_spec purgatory_queue_bound (Z.of_nat (size (purgatory r)))); [by split|].
    split; simpl; try done. pose proof (size_union_alt {[id]} (purgatory r)) as Hs.
    assert (size ({[id]} ∪ purgatory r : gset string) <= S (size (purgatory r)))%nat; [|lia].
    etransitivity; [apply (subseteq_size _ (purgatory r ∪ {[id]})); set_solver|].
    rewrite size_union_alt. etransitivity; [apply Nat.add_le_mono_l, (subseteq_size _ {[id]}); set_solver|]. rewrite size_singleton. lia.
  - unfold poll_metrics. destruct c; [by split|]. destruct alive as [alive|]; [|by split]. simpl.
    destruct (has_isolate r); simpl; [|by split]. split; simpl; try done.
    intros id w [Hw _]%map_lookup_filter_Some. by eapply H1.
  - destruct (on_data_fields data now r) as [Et Ea].
    assert (forall id w, table (on_data data now r) !! id = Some w -> worker_wf w) as Ht by (rewrite Et; by apply process_all_wf).
    assert (worker_wf (app_aggregate_metrics (on_data data now r)) /\
      u64 (value_of "uptime" (app_aggregate_metrics (on_data data now r))) = value_of "uptime" (app_aggregate_metrics (on_data data now r))) as [Ha1 Ha2].
    { rewrite Ea. destruct (decide (table (on_data data now r) = ∅)) as [->|Hne].
      - destruct (assign_empty _ H2) as [Hw Hv]. split; [done|]. by rewrite Hv.
      - destruct (assign_counter _ _ Ht H2 Hne) as (Hw & Hu & _). split; [done|]. rewrite Hu. unfold u64. apply Zmod_mod. }
    split; try done; unfold on_data; destruct (process _ _ _ _ data (table r)) as [? []]; simpl; done.
  - unfold on_error. destruct nc; [by split|]. by split.
Qed.

Lemma run_wf_retriever h name interval isolate now es : retriever_wf (run es (retriever_construct h name interval isolate now)).
Proof.
  unfold run. assert (retriever_wf (retriever_construct h name interval isolate now)) as H0.
  { split; simpl; [by intros id w; rewrite lookup_empty|apply worker_construct_wf|unfold value_of; simpl; unfold make_uint_counter, u64; apply Zmod_mod|done|done]. }
  revert H0. generalize (retriever_construct h name interval isolate now). induction es as [|e es IH]; intros r Hr; [done|].
  by apply IH, step_wf_retriever.
Qed.

Lemma process_all_dom h app now ft data t :
  (forall wk, wk ∈ data -> wk.1 <> ""%string) ->
  forall id, is_Some (process_all h app now ft data t !! id) <-> is_Some (t !! id) \/ id ∈ data.*1.
Proof.
  revert t. induction data as [|[i ms] data IH]; intros t Hne id; [set_solver|]. rewrite process_all_cons.
  destruct (process_worker_table h app now ft i ms (t, [])) as (w & -> & _); [by apply (Hne (i, ms)); left|].
  rewrite IH by (intros wk Hwk; apply Hne; by right). simpl. rewrite elem_of_cons.
  destruct (decide (id = i)) as [->|Hid]; [rewrite lookup_insert_eq; naive_solver|]. rewrite lookup_insert_ne by done. naive_solver.
Qed.

Lemma msum_sub {K V} `{Countable K} (f g : K -> V -> Z) (m : gmap K V) :
  msum (fun k v => f k v - g k v) m = msum f m - msum g m.
Proof. unfold msum. induction (map_to_list m) as [|x l IH]; [done|]. simpl. lia. Qed.

(** The list of dead workers is bounded, whatever workers die and whenever polls come,
    and its size is what the retriever has stored, zero when it has stored nothing. *)
Theorem purgatory_bounded (h : hub_t) (name : string) (interval : Z) (isolate : bool) (now : Z) (es : list event) :
  let r := run es (retriever_construct h name interval isolate now) in
  Z.of_nat (size (purgatory r)) <= purgatory_queue_bound /\ posmortem_queue_size (self_metrics r) = Z.of_nat (size (purgatory r)).
Proof. intros r. destruct (run_wf_retriever h name interval isolate now es). done. Qed.

(** C37: the uptime of an application grows by what its workers have grown.  When a
    response reports every worker that is known, and no uptime has gone back, the counter
    of the application is increased, modulo 2^64, by the sum over the workers of what each
    has now less what it had: the value of its record, or for a worker that had no record
    the value of the counter that the hub has kept under its name, which is zero when the
    name is new and the value of a former record otherwise; and the memory of the
    application is the sum of theirs. *)
Theorem uptime_accumulates (h : hub_t) (name : string) (interval : Z) (isolate : bool) (t0 : Z) (es : list event)
    (data : response_type) (now : string -> Z) :
  let r := run es (retriever_construct h name interval isolate t0) in
  let r' := on_data data now r in
  let had := known_uptime (metrics_hub r) (app_name r) (table r) in
  NoDup data.*1 -> Forall (reports (metrics_hub r) (app_name r) (table r)) data ->
  (forall id, is_Some (table r !! id) -> id ∈ data.*1) -> data <> [] ->
  value_of "uptime" (app_aggregate_metrics r') =
    u64 (value_of "uptime" (app_aggregate_metrics r) + msum (fun id w => value_of "uptime" w - had id) (table r')) /\
  value_of "mem" (app_aggregate_metrics r') = u64 (total "mem" (table r')).
Proof.
  intros r r' had Hnd Hrep Hall Hne. pose proof (run_wf_retriever h name interval isolate t0 es : retriever_wf r) as [H1 H2 _ _ _].
  destruct (on_data_fields data now r) as [Et Ea]. fold r' in Et, Ea.
  assert (forall id w, table r' !! id = Some w -> worker_wf w) as Ht by (rewrite Et; by apply process_all_wf).
  assert (forall wk, wk ∈ data -> wk.1 <> ""%string) as Hids by (intros wk Hwk; rewrite Forall_forall in Hrep; by apply Hrep).
  pose proof (process_all_dom (metrics_hub r) (app_name r) now (poll_interval r * missed_updates_times) data (table r) Hids) as Hdom. rewrite <- Et in Hdom.
  assert (table r' <> ∅) as Hne'.
  { destruct data as [|wk data]; [done|]. intros E. destruct (proj2 (Hdom wk.1)) as [w Hw]; [right; left|]. by rewrite E, lookup_empty in Hw. }
  destruct (assign_counter (table r') (app_aggregate_metrics r) Ht H2 Hne') as (_ & Hu & Hm). rewrite Ea. split; [|done].
  rewrite Hu. do 2 f_equal. apply msum_ext. intros id w Hw. assert (id ∈ data.*1) as Hin.
  { destruct (proj1 (Hdom id)) as [Hin|Hin]; [by eexists|by apply Hall|done]. }
  rewrite Et in Hw. pose proof (process_all_before _ _ _ _ _ _ H1 Hnd Hrep id w Hin Hw). unfold had. lia.
Qed.

(** Increments are counted again.  A response that reports nothing, or nothing of some
    workers, still adds the last increment of every worker that is known to the counter of
    the application. *)
Theorem stale_increments_counted (h : hub_t) (name : string) (interval : Z) (isolate : bool) (t0 : Z) (es : list event) (now : string -> Z) :
  let r := run es (retriever_construct h name interval isolate t0) in
  let r' := on_data [] now r in
  table r <> ∅ ->
  table r' = table r /\
  value_of "uptime" (app_aggregate_metrics r') = u64 (value_of "uptime" (app_aggregate_metrics r) + total_delta "uptime" (table r)).
Proof.
  intros r r' Hne. pose proof (run_wf_retriever h name interval isolate t0 es : retriever_wf r) as [H1 H2 _ _ _].
  split; [done|]. by apply assign_counter.
Qed.

(** ** Witnesses *)

Definition one_worker : response_type := [("w", [("uptime.total", DUint 100); ("mem", DUint 7)])]%string.
Definition two_workers : response_type :=
  [("w", [("uptime.total", DUint 105); ("mem", DUint 7)]); ("v", [("uptime", DUint 3); ("cpu_load", DDouble double.zero)])]%string.
Definition sampled : metrics_retriever_t := run [Data one_worker (fun _ => 1)] (retriever_construct ∅ "app" 5 true 0).

Lemma poll_asks_witness :
  exists query, queries (poll_metrics false (Some ["b"; "a"]%string) (add_post_mortem "c" (retriever_construct ∅ "app" 5 true 0))) = [query] /\
    "c"%string ∈ query.
Proof.
  destruct (poll_asks ["b"; "a"]%string (add_post_mortem "c" (retriever_construct ∅ "app" 5 true 0))) as (query & Hq & Hin & _); [reflexivity|].
  exists query. split; [exact Hq|]. apply Hin. right. set_solver.
Defined.

(** A worker that is dropped and reported again goes on from the counter that it had, and so
    does an application that is started again. *)
Definition dropped : metrics_retriever_t := run [Polled false (Some [])] sampled.
Example counters_outlive_records :
  table dropped = ∅ /\ known_uptime (metrics_hub dropped) "app" (table dropped) "w" = 100 /\
  value_of "uptime" (app_aggregate_metrics (on_data [("w", [("uptime", DUint 130)])]%string (fun _ => 3) dropped)) = 130 /\
  value_of "uptime" (app_aggregate_metrics (retriever_construct (metrics_hub dropped) "app" 5 true 0)) = 100.
Proof. split_and!; vm_compute; reflexivity. Qed.

Lemma uptime_accumulates_witness :
  value_of "uptime" (app_aggregate_metrics (on_data two_workers (fun _ => 2) sampled)) = 108.
Proof.
  refine (eq_trans (proj1 (uptime_accumulates ∅ "app" 5 true 0 [Data one_worker (fun _ => 1)] two_workers (fun _ => 2) _ _ _ _)) _).
  - repeat constructor; set_solver.
  - repeat constructor; try done; eexists; (split; [reflexivity|vm_compute; discriminate]).
  - intros id [w Hw]. revert Hw. change (table (run _ _)) with (table sampled).
    assert (table sampled = {[ "w"%string := default (worker_construct ∅ "" 0) (table sampled !! "w"%string) ]}) as -> by (vm_compute; reflexivity).
    rewrite lookup_singleton_Some. intros [<- _]. left.
  - done.
  - vm_compute. reflexivity.
Defined.

Lemma stale_increments_witness :
  value_of "uptime" (app_aggregate_metrics sampled) = 100 /\
  value_of "uptime" (app_aggregate_metrics (on_data [] (fun _ => 2) sampled)) = 200.
Proof.
  split; [vm_compute; reflexivity|].
  refine (eq_trans (proj2 (stale_increments_counted ∅ "app" 5 true 0 [Data one_worker (fun _ => 1)] (fun _ => 2) _)) _); [|vm_compute; reflexivity].
  intros E. apply (f_equal (fun t => t !! "w"%string)) in E. vm_compute in E. discriminate E.
Defined.

(** ** Starting

    [metrics_retriever_t::make_and_ignite], called by the engine for the constructor of an
    overseer, which lives without a retriever when it gets a [cocaine::error_t].  An
    accessor of the configuration throws another exception, which is not caught there. *)

Inductive start_failure := component_not_registered | component_not_found | bad_config.

Definition metrics_poll_interval_s : Z := 5.

(** [isolate] is whether there is one, [node_config] the arguments of the service "node" *)
Definition make_and_ignite (h : hub_t) (name : string) (isolate : bool) (node_config : option dynamic_t) (now : Z)
  : outcome start_failure metrics_retriever_t :=
  if negb isolate then Throw component_not_registered
  else match node_config with
  | None => Throw component_not_found
  | Some args =>
      outcome_bind (access bad_config (as_object args)) (fun args =>
      outcome_bind (access bad_config (as_bool (field "isolate_metrics" (DBool false) args))) (fun should_start =>
      outcome_bind (access bad_config (as_uint (field "isolate_metrics_poll_period_s" (DUint metrics_poll_interval_s) args)))
        (fun poll_interval =>
      if should_start then Ret (ignite_poll (retriever_construct h name poll_interval isolate now))
      else Throw component_not_registered)))
  end.

(** [engine_t::start_isolate_metrics_poll]; [isolate] is what the repository gives for the
    isolate of the profile. *)
Definition start_isolate_metrics_poll (h : hub_t) (name : string) (isolate : outcome start_failure bool) (node_config : option dynamic_t) (now : Z)
  : outcome start_failure metrics_retriever_t :=
  outcome_bind isolate (fun isolate => make_and_ignite h name isolate node_config now).

(** The constructor of [overseer_t]: the retriever of its engine, or the exception that it
    does not catch *)
Definition overseer_poll (h : hub_t) (name : string) (isolate : outcome start_failure bool) (node_config : option dynamic_t) (now : Z)
  : outcome start_failure (option metrics_retriever_t) :=
  match start_isolate_metrics_poll h name isolate node_config now with
  | Ret r => Ret (Some r)
  | Throw bad_config => Throw bad_config
  | Throw _ => Ret None
  end.

(** [parse_error_record]: the code and the text of an error that an isolate reports; an
    exception of an accessor is eaten.  Nothing calls it: [process] takes every record for
    one of metrics. *)
Definition parse_error_record (record : metrics_mapping) : option (Z * string) :=
  match (match find_field "what" record with None => Some ""%string | Some v => as_string v end) with
  | None => None
  | Some message =>
      match find_field "code" record with
      | None => Some (0, message)
      | Some (DInt code) => Some (i32 code, message)
      | Some _ => None
      end
  end.

(** When the workers of an application are polled.  With an isolate and a configuration of
    the node service, the constructor of an overseer fails exactly when the two settings
    have not the types that they should have, and then also where polling is not asked for;
    it starts the timer exactly when polling is asked for, with five seconds as the default. *)
Theorem overseer_poll_spec (h : hub_t) (name : string) (args : list (string * dynamic_t)) (now : Z) :
  let asked := as_bool (field "isolate_metrics" (DBool false) args) in
  let period := as_uint (field "isolate_metrics_poll_period_s" (DUint 5) args) in
  (overseer_poll h name (Ret true) (Some (DObject args)) now = Throw bad_config <-> asked = None \/ period = None) /\
  (forall r, overseer_poll h name (Ret true) (Some (DObject args)) now = Ret (Some r) <->
     asked = Some true /\ exists p, period = Some p /\ r = ignite_poll (retriever_construct h name p true now)) /\
  (asked = Some false -> period <> None -> overseer_poll h name (Ret true) (Some (DObject args)) now = Ret None).
Proof.
  intros asked period. unfold overseer_poll, start_isolate_metrics_poll, make_and_ignite, metrics_poll_interval_s. simpl.
  fold asked period. destruct asked as [[]|], period as [p|]; simpl; split_and!; naive_solver.
Qed.

(** A setting of the wrong type stops every application, though polling is off by default. *)
Lemma overseer_poll_witness :
  overseer_poll ∅ "app" (Ret true) (Some (DObject [("isolate_metrics_poll_period_s", DInt 5)])) 0 = Throw bad_config.
Proof.
  destruct (overseer_poll_spec ∅ "app" [("isolate_metrics_poll_period_s", DInt 5)] 0) as (H & _ & _).
  apply H. by right.
Defined.
