(* ===== verification/External.v ===== *)
(** * The external isolate: [node/src/isolate/external.cpp]

    Workers are spooled and spawned by a daemon behind a connection.  Requests made before
    the context is prepared or while there is no connection are queued; when the connection
    is ready they are sent in order, when it fails they are refused, and a failed attempt
    seals the connection for a time that doubles.

    The network is the environment: every callback that may talk to the daemon carries the
    time and says which requests the session refuses with a [std::system_error], when the
    stream is forked or when the message is sent.  A null session is undefined behaviour in
    the code and the fault [NullSession] here.  The calls made on the handles, on the
    session and to connect are recorded in order. *)

From S2P Require Import Prelude LogFilter.

Local Open Scope Z_scope.
Local Open Scope cpp_scope.

(** ** Data *)

(** The arguments of the profile that the isolate reads, already converted. *)
Record args_t := mk_args {
  a_type : option string;
  a_host : option string;
  a_port : option Z;
  a_connect_timeout_ms : option Z;
  a_rest : list (string * dynamic_t)
}.

Definition string_map : Type := list (string * string).
Definition response_t : Type := list (string * list (string * dynamic_t)).

(** What the isolate is asked for: [spool], [spawn] and [metrics] and their arguments. *)
Inductive request_t :=
| RSpool
| RSpawn (path : string) (worker_args environment : string_map)
| RMetrics (query : list string).

(** [spool_load_t], [spawn_load_t], [metrics_load_t] with the flag of [spawn_dispatch_t];
    a stream is known by the connection it was forked from. *)
Record load_t := mk_load {
  request : request_t;
  cancelled : bool;
  stream : option nat;
  ready : bool
}.

Record exn := mk_exn { e_code : Z; e_what : string; e_text : string }.
Inductive stage := AtFork | AtSend.

(** What the environment does during a callback. *)
Record env := mk_env { now : Z; refuses : nat -> option (stage * exn) }.

(** Calls of the isolate, with the load whose handle or stream is called. *)
Inductive call :=
| Connect (t : Z) (host : string) (port timeout : Z)
| Detach (session : nat) (code : Z)
| SendSpool (session : nat) (args : args_t) (name : string) (id : nat)
| SendSpawn (session : nat) (args : args_t) (name path : string) (worker_args environment : string_map) (id : nat)
| SendMetrics (session : nat) (query : list string) (id : nat)
| SendCancel (session id : nat)
| SendKill (session id : nat)
| OnAbort (id : nat) (code : Z) (msg : string)
| OnReady (id : nat)
| OnTerminate (id : nat) (code : Z) (msg : string)
| OnData (id : nat) (data : string)
| OnMetrics (id : nat) (response : response_t)
| OnMetricsError (id : nat) (code : Z) (msg : string).

Inductive fault := NullSession | BadAddress.

Record inner_t := mk_inner {
  name : string;
  args : args_t;
  prepared : bool;
  connecting : bool;
  session : option nat;
  sessions : nat;               (** connections made so far *)
  last_failed_connect_time : Z;
  seal_time : Z;
  spool_queue : list nat;
  spawn_queue : list nat;
  posted : list nat;            (** loads whose task is in the queue of [io_context] *)
  loads : gmap nat load_t;
  created : nat;                (** loads created so far *)
  calls : list call;
  expired : bool                (** the last pointer to the object is gone *)
}.

Definition min_seal_time : Z := 1000.
Definition max_seal_time : Z := 1000000.

Definition set_prepared (b : bool) (s : inner_t) : inner_t :=
  mk_inner (name s) (args s) b (connecting s) (session s) (sessions s) (last_failed_connect_time s) (seal_time s)
    (spool_queue s) (spawn_queue s) (posted s) (loads s) (created s) (calls s) (expired s).
Definition set_connecting (b : bool) (s : inner_t) : inner_t :=
  mk_inner (name s) (args s) (prepared s) b (session s) (sessions s) (last_failed_connect_time s) (seal_time s)
    (spool_queue s) (spawn_queue s) (posted s) (loads s) (created s) (calls s) (expired s).
Definition set_session (o : option nat) (n : nat) (s : inner_t) : inner_t :=
  mk_inner (name s) (args s) (prepared s) (connecting s) o n (last_failed_connect_time s) (seal_time s)
    (spool_queue s) (spawn_queue s) (posted s) (loads s) (created s) (calls s) (expired s).
Definition set_seal (t d : Z) (s : inner_t) : inner_t :=
  mk_inner (name s) (args s) (prepared s) (connecting s) (session s) (sessions s) t d
    (spool_queue s) (spawn_queue s) (posted s) (loads s) (created s) (calls s) (expired s).
Definition set_queues (a b c : list nat) (s : inner_t) : inner_t :=
  mk_inner (name s) (args s) (prepared s) (connecting s) (session s) (sessions s) (last_failed_connect_time s) (seal_time s)
    a b c (loads s) (created s) (calls s) (expired s).
Definition set_load (id : nat) (l : load_t) (s : inner_t) : inner_t :=
  mk_inner (name s) (args s) (prepared s) (connecting s) (session s) (sessions s) (last_failed_connect_time s) (seal_time s)
    (spool_queue s) (spawn_queue s) (posted s) (<[id := l]> (loads s)) (created s) (calls s) (expired s).
Definition add_load (l : load_t) (s : inner_t) : inner_t :=
  mk_inner (name s) (args s) (prepared s) (connecting s) (session s) (sessions s) (last_failed_connect_time s) (seal_time s)
    (spool_queue s) (spawn_queue s) (posted s ++ [created s]) (<[created s := l]> (loads s)) (S (created s)) (calls s) (expired s).
Definition add_call (c : call) (s : inner_t) : inner_t :=
  mk_inner (name s) (args s) (prepared s) (connecting s) (session s) (sessions s) (last_failed_connect_time s) (seal_time s)
    (spool_queue s) (spawn_queue s) (posted s) (loads s) (created s) (calls s ++ [c]) (expired s).
Definition set_expired (s : inner_t) : inner_t :=
  mk_inner (name s) (args s) (prepared s) (connecting s) (session s) (sessions s) (last_failed_connect_time s) (seal_time s)
    (spool_queue s) (spawn_queue s) (posted s) (loads s) (created s) (calls s) true.

Definition M (A : Type) : Type := ST inner_t fault A.
Definition record (c : call) : M unit := st_modify (add_call c).

Definition set_stream (n : nat) (l : load_t) : load_t := mk_load (request l) (cancelled l) (Some n) (ready l).
Definition set_cancelled (l : load_t) : load_t := mk_load (request l) true (stream l) (ready l).
Definition set_ready (l : load_t) : load_t := mk_load (request l) (cancelled l) (stream l) true.

(** ** The connection *)

Section external.
(** [asio::ip::address::from_string] accepts the string *)
Context (valid_address : string -> bool).
(** [error::not_connected] *)
Context (not_connected : Z).

Definition connect (e : env) : M unit :=
  let! s := st_get in
  if connecting s then st_ret tt
  else if now e <? last_failed_connect_time s + seal_time s then st_ret tt
  else
    st_modify (set_connecting true);;;
    (match session s with
     | Some n => record (Detach n 0);;; st_modify (set_session None (sessions s))
     | None => st_ret tt
     end);;;
    let host := default "127.0.0.1"%string (a_host (args s)) in
    let port := default 29042 (a_port (args s)) mod 2 ^ 16 in
    if valid_address host then record (Connect (now e) host port (default 5000 (a_connect_timeout_ms (args s))))
    else st_throw BadAddress.

(** ** Sending a request *)

(** The session of the isolate refused the request: it is detached and a new connection is
    attempted. *)
Definition reconnect (e : env) (n : nat) (x : exn) : M unit :=
  record (Detach n (e_code x));;; connect e.

(** The stream of a load is forked, and kept when only the message is refused. *)
Definition fork (id : nat) (l : load_t) (n : nat) (refused : option (stage * exn)) : M unit :=
  match refused with
  | Some (AtFork, _) => st_ret tt
  | _ => st_modify (set_load id (set_stream n l))
  end.

Definition spool_load_apply (e : env) (id : nat) : M unit :=
  let! s := st_get in
  if expired s then st_ret tt else
  match loads s !! id with
  | Some l =>
      if cancelled l then st_ret tt else
      match session s with
      | None => st_throw NullSession
      | Some n =>
          fork id l n (refuses e id);;;
          match refuses e id with
          | None => record (SendSpool n (args s) (name s) id)
          | Some (_, x) => record (OnAbort id (e_code x) (e_text x));;; reconnect e n x
          end
      end
  | None => st_ret tt
  end.

Definition spawn_load_apply (e : env) (id : nat) : M unit :=
  let! s := st_get in
  if expired s then st_ret tt else
  match loads s !! id with
  | Some l =>
      if cancelled l then st_ret tt else
      match session s with
      | None => st_throw NullSession
      | Some n =>
          fork id l n (refuses e id);;;
          match refuses e id with
          | None =>
              match request l with
              | RSpawn path worker_args environment =>
                  record (SendSpawn n (args s) (name s) path worker_args environment id)
              | _ => st_ret tt
              end
          | Some (_, x) => record (OnTerminate id (e_code x) (e_what x));;; reconnect e n x
          end
      end
  | None => st_ret tt
  end.

Definition metrics_load_apply (e : env) (id : nat) (query : list string) : M unit :=
  let! s := st_get in
  match loads s !! id, session s with
  | Some l, Some n =>
      fork id l n (refuses e id);;;
      match refuses e id with
      | None => record (SendMetrics n query id)
      | Some (_, x) => record (OnMetricsError id (e_code x) (e_what x));;; reconnect e n x
      end
  | _, _ => st_throw NullSession
  end.

Fixpoint for_each (f : nat -> M unit) (l : list nat) : M unit :=
  match l with
  | [] => st_ret tt
  | i :: l => f i;;; for_each f l
  end.

(** ** The connection is ready, or has failed *)

Definition on_ready (e : env) : M unit :=
  let! s := st_get in
  st_modify (set_seal (last_failed_connect_time s) min_seal_time);;;
  if negb (prepared s) then st_ret tt
  else match session s with
       | None => st_ret tt
       | Some _ =>
           for_each (spool_load_apply e) (spool_queue s);;;
           st_modify (fun s => set_queues [] (spawn_queue s) (posted s) s);;;
           for_each (spawn_load_apply e) (spawn_queue s);;;
           st_modify (fun s => set_queues (spool_queue s) [] (posted s) s)
       end.

Definition could_not_connect : string := "could not connect to external dispatch".

Definition on_fail (e : env) (ec : Z) : M unit :=
  let! s := st_get in
  st_modify (set_seal (now e) (Z.min (seal_time s * 2) max_seal_time));;;
  for_each (fun id => record (OnAbort id ec could_not_connect)) (spool_queue s);;;
  st_modify (fun s => set_queues [] (spawn_queue s) (posted s) s);;;
  for_each (fun id => record (OnTerminate id ec could_not_connect)) (spawn_queue s);;;
  st_modify (fun s => set_queues (spool_queue s) [] (posted s) s).

(** The handler of [async_connect]; [in_time]: the timer was still pending. *)
Definition connected (e : env) (in_time : bool) (ec : Z) : M unit :=
  st_modify (set_connecting false);;;
  if in_time && (ec =? 0) then
    st_modify (fun s => set_session (Some (sessions s)) (S (sessions s)) s);;; on_ready e
  else on_fail e ec.

Definition on_prepared (e : env) : M unit := st_modify (set_prepared true);;; on_ready e.

(** ** Requests: the calls create the load and post a task *)

Definition submit (r : request_t) : M unit :=
  st_modify (add_load (mk_load r false None false)).

Definition spool (e : env) (id : nat) : M unit :=
  let! s := st_get in
  match session s, prepared s with
  | Some _, true => spool_load_apply e id
  | _, p => st_modify (set_queues (spool_queue s ++ [id]) (spawn_queue s) (posted s));;; st_when p (connect e)
  end.

Definition spawn (e : env) (id : nat) : M unit :=
  let! s := st_get in
  match session s, prepared s with
  | Some _, true => spawn_load_apply e id
  | _, p => st_modify (set_queues (spool_queue s) (spawn_queue s ++ [id]) (posted s));;; st_when p (connect e)
  end.

Definition metrics (e : env) (id : nat) (query : list string) : M unit :=
  let! s := st_get in
  match session s, prepared s with
  | Some _, true => metrics_load_apply e id query
  | _, p => record (OnMetricsError id not_connected "session not ready");;; st_when p (connect e)
  end.

Definition run_posted (e : env) : M unit :=
  let! s := st_get in
  match posted s with
  | [] => st_ret tt
  | id :: rest =>
      st_modify (set_queues (spool_queue s) (spawn_queue s) rest);;;
      match request <$> loads s !! id with
      | Some RSpool => spool e id
      | Some (RSpawn _ _ _) => spawn e id
      | Some (RMetrics query) => metrics e id query
      | None => st_ret tt
      end
  end.

(** ** Cancellation; [throws]: the stream refuses the message *)

Definition spool_load_cancel (throws : option exn) (id : nat) (l : load_t) : M unit :=
  if cancelled l then st_ret tt else
  st_modify (set_load id (set_cancelled l));;;
  match stream l, throws with
  | Some n, None => record (SendCancel n id)
  | Some _, Some x => record (OnAbort id (e_code x) (e_text x))
  | None, _ => st_ret tt
  end.

Definition spawn_load_cancel (throws : option exn) (id : nat) (l : load_t) : M unit :=
  if cancelled l then st_ret tt else
  st_modify (set_load id (set_cancelled l));;;
  match stream l, throws with
  | Some n, None => record (SendKill n id)
  | Some _, Some x => record (OnTerminate id (e_code x) (e_text x))
  | None, _ => st_ret tt
  end.

(** Through the pointer to the inner object; there is nothing to cancel a metrics request
    with. *)
Definition cancel (throws : option exn) (id : nat) : M unit :=
  let! s := st_get in
  if expired s then st_ret tt else
  match loads s !! id with
  | Some l => match request l with
              | RSpool => spool_load_cancel throws id l
              | RSpawn _ _ _ => spawn_load_cancel throws id l
              | RMetrics _ => st_ret tt
              end
  | None => st_ret tt
  end.

(** ** Messages of the daemon *)

Inductive message :=
| MValue (response : response_t)
| MError (code : Z) (msg : string)
| MChunk (chunk : string)
| MChoke
| MDiscard (code : Z).      (** the session is gone *)

Definition spool_dispatch (id : nat) (m : message) : M unit :=
  match m with
  | MValue _ => record (OnReady id)
  | MError code msg => record (OnAbort id code msg)
  | _ => st_ret tt
  end.

Definition spawn_dispatch_on_chunk (id : nat) (l : load_t) (chunk : string) : M unit :=
  if (chunk =? "")%string && negb (ready l) then record (OnReady id);;; st_modify (set_load id (set_ready l))
  else record (OnData id chunk).

Definition spawn_dispatch (id : nat) (l : load_t) (m : message) : M unit :=
  match m with
  | MChunk chunk => spawn_dispatch_on_chunk id l chunk
  | MChoke => record (OnTerminate id 0 "")
  | MError code msg => record (OnTerminate id code msg)
  | _ => st_ret tt
  end.

Definition metrics_dispatch (id : nat) (m : message) : M unit :=
  match m with
  | MValue response => record (OnMetrics id response)
  | MError code msg => record (OnMetricsError id code msg)
  | _ => st_ret tt
  end.

Definition on_message (id : nat) (m : message) : M unit :=
  let! s := st_get in
  match loads s !! id with
  | Some l => match stream l, request l with
              | Some _, RSpool => spool_dispatch id m
              | Some _, RSpawn _ _ _ => spawn_dispatch id l m
              | Some _, RMetrics _ => metrics_dispatch id m
              | None, _ => st_ret tt
              end
  | None => st_ret tt
  end.

(** ** Runs *)

(** The constructor fills in the type, and connects at once. *)
Definition inner_construct (n type : string) (a : args_t) : inner_t :=
  let t := default "" (a_type a) in
  mk_inner n (mk_args (Some (if (t =? "")%string then type else t)) (a_host a) (a_port a) (a_connect_timeout_ms a) (a_rest a))
    false false None 0 0 min_seal_time [] [] [] ∅ 0 [] false.

Definition external_construct (e : env) (n type : string) (a : args_t) : outcome fault unit * inner_t :=
  connect e (inner_construct n type a).

Inductive event :=
| Submit (r : request_t)
| Posted (e : env)
| Prepared (e : env)
| Connected (e : env) (in_time : bool) (ec : Z)
| Cancel (throws : option exn) (id : nat)
| Message (id : nat) (m : message)
| Expire.

(** A task or the handler of a connection keeps the object alive; when it is gone, only
    cancellations are left. *)
Definition step (ev : event) : M unit :=
  let! s := st_get in
  match ev with
  | Cancel throws id => cancel throws id
  | Message id m => on_message id m
  | Submit r => if expired s then st_ret tt else submit r
  | Posted e => if expired s then st_ret tt else run_posted e
  | Prepared e => if expired s then st_ret tt else on_prepared e
  | Connected e in_time ec => if expired s then st_ret tt else st_when (connecting s) (connected e in_time ec)
  | Expire => match posted s with [] => if connecting s then st_ret tt else st_modify set_expired | _ => st_ret tt end
  end.

Fixpoint run (es : list event) : M unit :=
  match es with
  | [] => st_ret tt
  | e :: es => step e;;; run es
  end.

(** ** Accounting of the requests *)

(** The calls that settle a request: it is sent, or its handle is told that it cannot be. *)
Definition settles (id : nat) (c : call) : bool :=
  match c with
  | SendSpool _ _ _ i | SendSpawn _ _ _ _ _ _ i | SendMetrics _ _ i => (i =? id)%nat
  | OnAbort i _ _ | OnTerminate i _ _ | OnMetricsError i _ _ => (i =? id)%nat
  | _ => false
  end.

Definition settled (id : nat) (s : inner_t) : nat := length (filter (fun c => settles id c = true) (calls s)).
Definition times (id : nat) (l : list nat) : nat := length (filter (fun i => i = id) l).
(** The tasks and the queues that hold the request. *)
Definition waiting (id : nat) (s : inner_t) : nat :=
  (times id (posted s) + times id (spool_queue s) + times id (spawn_queue s))%nat.

Lemma times_app id l l' : times id (l ++ l') = (times id l + times id l')%nat.
Proof. unfold times. by rewrite filter_app, length_app. Qed.
Lemma times_cons id i l : times id (i :: l) = ((if decide (i = id) then 1 else 0) + times id l)%nat.
Proof. unfold times. rewrite filter_cons. by case_decide. Qed.
Lemma times_nil id : times id [] = 0%nat.
Proof. done. Qed.
Lemma times_elem id l : id ∈ l -> (1 <= times id l)%nat.
Proof.
  induction 1 as [l|j i l ? IH]; rewrite times_cons; [rewrite decide_True by done; lia|lia].
Qed.

Lemma settled_add id c s : settled id (add_call c s) = (settled id s + if settles id c then 1 else 0)%nat.
Proof.
  unfold settled. simpl. rewrite filter_app, length_app. f_equal. unfold filter; simpl. by destruct (settles id c).
Qed.

(** What is known of a request: no load yet, or a load that is not cancelled. *)
Definition known (o : option request_t) (l : option load_t) : Prop :=
  match o, l with
  | None, None => True
  | Some r, Some l => cancelled l = false /\ request l = r
  | _, _ => False
  end.

(** Everything the accounting of [id] looks at. *)
Record view (o : option request_t) (id k : nat) (a b c : list nat) (x : bool) (n : nat) (s : inner_t) : Prop := {
  v_known : known o (loads s !! id);
  v_settled : settled id s = k;
  v_spool : spool_queue s = a;
  v_spawn : spawn_queue s = b;
  v_posted : posted s = c;
  v_expired : expired s = x;
  v_created : created s = n
}.

Section view.
Context (o : option request_t) (id k : nat) (a b c : list nat) (x : bool) (n : nat).

Lemma record_view cl : settles id cl = false -> keeps (view o id k a b c x n) (record cl).
Proof.
  intros Hc. apply keeps_modify. intros s []. split; try done. rewrite settled_add, Hc. lia.
Qed.
Lemma connect_view e : keeps (view o id k a b c x n) (connect e).
Proof.
  unfold connect. keeps_walk; try (apply record_view; done); apply keeps_modify; by intros s [].
Qed.
Lemma reconnect_view e m y : keeps (view o id k a b c x n) (reconnect e m y).
Proof. unfold reconnect. apply keeps_bind; [by apply record_view|intros; apply connect_view]. Qed.
Lemma set_load_view i l : i <> id -> keeps (view o id k a b c x n) (st_modify (set_load i l) : M unit).
Proof. intros Hi. apply keeps_modify. intros s []. split; try done. simpl. by rewrite lookup_insert_ne. Qed.
Lemma fork_view i l m y : i <> id -> keeps (view o id k a b c x n) (fork i l m y).
Proof. intros Hi. unfold fork. destruct y as [[[]]|]; auto using set_load_view with keeps. Qed.
End view.

#[local] Hint Resolve connect_view reconnect_view : keeps.
#[local] Hint Extern 1 (keeps _ (fork _ _ _ _)) => apply fork_view : keeps.
#[local] Hint Extern 1 (keeps _ (record _)) => apply record_view; simpl : keeps.
#[local] Hint Extern 1 (keeps _ (st_modify (set_load _ _))) => apply set_load_view : keeps.
#[local] Hint Extern 1 ((_ =? _)%nat = false) => apply Nat.eqb_neq : keeps.

(** Sending another request changes nothing for this one. *)
Lemma spool_apply_view o id k a b c x n e i : i <> id -> keeps (view o id k a b c x n) (spool_load_apply e i).
Proof. intros Hi. unfold spool_load_apply. keeps_walk. Qed.
Lemma spawn_apply_view o id k a b c x n e i : i <> id -> keeps (view o id k a b c x n) (spawn_load_apply e i).
Proof. intros Hi. unfold spawn_load_apply. keeps_walk. Qed.
Lemma metrics_apply_view o id k a b c x n e i q : i <> id -> keeps (view o id k a b c x n) (metrics_load_apply e i q).
Proof. intros Hi. unfold metrics_load_apply. keeps_walk. Qed.

Definition is_spawn (o : option request_t) : Prop := exists p w v, o = Some (RSpawn p w v).

(** A call whose effect on the request [id] is to settle it. *)
Definition settling (o : option request_t) (id : nat) (m : M unit) : Prop :=
  forall k a b c n s s', view o id k a b c false n s -> m s = (Ret tt, s') -> view o id (S k) a b c false n s'.

Lemma bind_Ret_inv {A} (m : M A) (f : A -> M unit) s s' :
  st_bind m f s = (Ret tt, s') -> exists y t, m s = (Ret y, t) /\ f y t = (Ret tt, s').
Proof. unfold st_bind. destruct (m s) as [[y|] t]; [eauto|done]. Qed.

Lemma keeps_Ret {A} (P : inner_t -> Prop) (m : M A) s y t : keeps P m -> P s -> m s = (Ret y, t) -> P t.
Proof. intros Hm Hs E. specialize (Hm s Hs). by rewrite E in Hm. Qed.

(** Recording a settling call, then anything that looks away. *)
Lemma settle_then o id k a b c x n cl (m : M unit) s s' :
  settles id cl = true -> (forall k, keeps (view o id k a b c x n) m) -> view o id k a b c x n s ->
  (record cl;;; m) s = (Ret tt, s') -> view o id (S k) a b c x n s'.
Proof.
  intros Hc Hm [] H. eapply keeps_Ret; [apply Hm| |exact H]. split; try done. rewrite settled_add, Hc. lia.
Qed.
Lemma settle_last o id k a b c x n cl s s' :
  settles id cl = true -> view o id k a b c x n s -> record cl s = (Ret tt, s') -> view o id (S k) a b c x n s'.
Proof.
  intros Hc Hv H. apply (settle_then _ _ _ _ _ _ _ _ cl (st_ret tt) s); [done| |done|exact H]. intros. apply keeps_ret.
Qed.

(** Forking its own stream keeps what is known of the load. *)
Lemma fork_self o id k a b c x n l m y s s' :
  loads s !! id = Some l -> view o id k a b c x n s -> fork id l m y s = (Ret tt, s') -> view o id k a b c x n s'.
Proof.
  intros Hl [Hk]. rewrite Hl in Hk. destruct o as [r|]; [|done]. unfold fork.
  destruct y as [[[]]|]; intros H; injection H as <-; split; simpl; try done; by rewrite ?lookup_insert_eq, ?Hl.
Qed.

(** A load that is applied is settled, whether the session takes it or not. *)
Lemma sent_settles o id k a b c x n e l m (sent : call) (failed : exn -> call) s s' :
  settles id sent = true -> (forall y, settles id (failed y) = true) ->
  loads s !! id = Some l -> view o id k a b c x n s ->
  (fork id l m (refuses e id);;;
   match refuses e id with None => record sent | Some (_, y) => record (failed y);;; reconnect e m y end) s = (Ret tt, s') ->
  view o id (S k) a b c x n s'.
Proof.
  intros H1 H2 Hl Hv H. apply bind_Ret_inv in H as ([] & t & Hf & H).
  pose proof (fork_self _ _ _ _ _ _ _ _ _ _ _ _ _ Hl Hv Hf) as Ht. destruct (refuses e id) as [[? y]|].
  - eapply settle_then; [apply H2|intros; apply reconnect_view|exact Ht|exact H].
  - eapply settle_last; [apply H1|exact Ht|exact H].
Qed.

Lemma spool_apply_settles e id r : settling (Some r) id (spool_load_apply e id).
Proof.
  intros k a b c n s s' Hv H. pose proof Hv as [Hk _ _ _ _ Hx _]. unfold spool_load_apply, st_bind at 1, st_get in H.
  rewrite Hx in H. destruct (loads s !! id) as [l|] eqn:Hl; [|done]. destruct Hk as [Hk _]. rewrite Hk in H.
  destruct (session s) as [m|]; [|done].
  eapply (sent_settles _ _ _ _ _ _ _ _ _ _ _ (SendSpool m (args s) (name s) id) (fun y => OnAbort id (e_code y) (e_text y)));
    [..|exact Hl|exact Hv|exact H]; intros; apply Nat.eqb_refl.
Qed.

Lemma spawn_apply_settles e id o : is_spawn o -> settling o id (spawn_load_apply e id).
Proof.
  intros (p & w & v & ->) k a b c n s s' Hv H. pose proof Hv as [Hk _ _ _ _ Hx _]. unfold spawn_load_apply, st_bind at 1, st_get in H.
  rewrite Hx in H. destruct (loads s !! id) as [l|] eqn:Hl; [|done]. destruct Hk as [Hk Hr]. rewrite Hk, Hr in H.
  destruct (session s) as [m|]; [|done].
  eapply (sent_settles _ _ _ _ _ _ _ _ _ _ _ (SendSpawn m (args s) (name s) p w v id) (fun y => OnTerminate id (e_code y) (e_what y)));
    [..|exact Hl|exact Hv|exact H]; intros; apply Nat.eqb_refl.
Qed.

Lemma metrics_apply_settles e id r q : settling (Some r) id (metrics_load_apply e id q).
Proof.
  intros k a b c n s s' Hv H. unfold metrics_load_apply, st_bind at 1, st_get in H.
  destruct (loads s !! id) as [l|] eqn:Hl; [|done]. destruct (session s) as [m|]; [|done].
  eapply (sent_settles _ _ _ _ _ _ _ _ _ _ _ (SendMetrics m q id) (fun y => OnMetricsError id (e_code y) (e_what y)));
    [..|exact Hl|exact Hv|exact H]; intros; apply Nat.eqb_refl.
Qed.

(** A loop over a queue settles the request as many times as the queue holds it. *)
Lemma for_each_settles (f : nat -> M unit) o id a b c n l : forall k s s',
  (forall i k, i <> id -> keeps (view o id k a b c false n) (f i)) -> (id ∈ l -> settling o id (f id)) ->
  view o id k a b c false n s -> for_each f l s = (Ret tt, s') -> view o id (k + times id l) a b c false n s'.
Proof.
  induction l as [|i l IH]; intros k s s' Hf Hs Hv H.
  - injection H as <-. rewrite times_nil. by replace (k + 0)%nat with k by lia.
  - cbn [for_each] in H. apply bind_Ret_inv in H as ([] & t & Hi & H). rewrite times_cons.
    assert (id ∈ l -> settling o id (f id)) as Hs' by (intros; apply Hs; set_solver).
    destruct (decide (i = id)) as [->|Hne].
    + replace (k + (1 + times id l))%nat with (S k + times id l)%nat by lia.
      eapply IH; [exact Hf|exact Hs'| |exact H]. eapply Hs; [set_solver|exact Hv|exact Hi].
    + eapply IH; [exact Hf|exact Hs'| |exact H]. eapply keeps_Ret; [by apply Hf|exact Hv|exact Hi].
Qed.

(** *** The balance of a request *)

(** A request that exists is waiting once or settled once; one that does not is nowhere. *)
Record balanced (o : option request_t) (id : nat) (s : inner_t) : Prop := {
  b_known : known o (loads s !! id);
  b_count : (waiting id s + settled id s)%nat = match o with Some _ => 1%nat | None => 0%nat end;
  b_spawn : id ∈ spawn_queue s -> is_spawn o;
  b_created : match o with Some _ => (id < created s)%nat | None => (created s <= id)%nat end
}.

Lemma balanced_view o id s :
  balanced o id s -> view o id (settled id s) (spool_queue s) (spawn_queue s) (posted s) (expired s) (created s) s.
Proof. by intros []. Qed.

(** A call after which the view has these components leaves the balance as they say. *)
Lemma view_balanced o id k a b c x n s :
  view o id k a b c x n s ->
  (times id c + times id a + times id b + k)%nat = match o with Some _ => 1%nat | None => 0%nat end ->
  (id ∈ b -> is_spawn o) -> match o with Some _ => (id < n)%nat | None => (n <= id)%nat end -> balanced o id s.
Proof.
  intros [H1 H2 H3 H4 H5 H6 H7] Hc Hb Hn. split; [done| |by rewrite H4|by rewrite H7]. unfold waiting. by rewrite H2, H3, H4, H5.
Qed.

(** What is queued has been asked for. *)
Lemma waiting_known o id s : balanced o id s -> (1 <= waiting id s)%nat -> exists r, o = Some r.
Proof. intros [_ Hc _ _] Hw. destruct o as [r|]; [by exists r|lia]. Qed.

Lemma set_queues_view o id k a b c x n a' b' c' s :
  view o id k a b c x n s -> view o id k a' b' c' x n (set_queues a' b' c' s).
Proof. by intros []. Qed.

(** Both loops over the queues, which are emptied behind them. *)
Lemma drain_balanced (f g : nat -> M unit) o id s s' :
  (forall i k a b c n, i <> id -> keeps (view o id k a b c false n) (f i)) ->
  (forall i k a b c n, i <> id -> keeps (view o id k a b c false n) (g i)) ->
  (forall r, o = Some r -> settling o id (f id)) -> (is_spawn o -> settling o id (g id)) ->
  balanced o id s -> expired s = false ->
  (for_each f (spool_queue s);;; st_modify (fun s => set_queues [] (spawn_queue s) (posted s) s);;;
   for_each g (spawn_queue s);;; st_modify (fun s => set_queues (spool_queue s) [] (posted s) s)) s = (Ret tt, s') ->
  balanced o id s'.
Proof.
  intros Hf Hg Hsf Hsg Hb Hx H. pose proof (balanced_view _ _ _ Hb) as Hv. rewrite Hx in Hv.
  apply bind_Ret_inv in H as ([] & t1 & H1 & H). apply bind_Ret_inv in H as ([] & t2 & H2 & H).
  apply bind_Ret_inv in H as ([] & t3 & H3 & H). injection H2 as <-. injection H as <-.
  eapply for_each_settles in H1; [|by intros; apply Hf| |exact Hv].
  2:{ intros Hin. destruct (waiting_known _ _ _ Hb) as [r Hr]; [|by apply (Hsf r)].
      apply times_elem in Hin. unfold waiting. lia. }
  pose proof H1 as [_ _ _ Hq Hp _ _]. apply (set_queues_view _ _ _ _ _ _ _ _ [] (spawn_queue t1) (posted t1)) in H1.
  rewrite Hq, Hp in H1 at 1. eapply for_each_settles in H3; [|by intros; apply Hg|intros Hin; by apply Hsg, Hb|exact H1].
  pose proof H3 as [_ _ Hq' _ Hp' _ _]. destruct Hb as [_ Hc _ Hn]. unfold waiting in Hc.
  eapply view_balanced; [by eapply set_queues_view| |set_solver|exact Hn]. rewrite Hq', Hp', !times_nil. lia.
Qed.

Create HintDb balance.
(** The fields of the connection do not matter to the balance. *)
Lemma balanced_seal o id t d s : balanced o id s -> balanced o id (set_seal t d s).
Proof. by intros []. Qed.
Lemma balanced_connecting o id b s : balanced o id s -> balanced o id (set_connecting b s).
Proof. by intros []. Qed.
Lemma balanced_session o id n m s : balanced o id s -> balanced o id (set_session n m s).
Proof. by intros []. Qed.
Lemma balanced_prepared o id b s : balanced o id s -> balanced o id (set_prepared b s).
Proof. by intros []. Qed.
Lemma balanced_expired o id s : balanced o id s -> balanced o id (set_expired s).
Proof. by intros []. Qed.
#[local] Hint Resolve balanced_seal balanced_connecting balanced_session balanced_prepared balanced_expired : balance.

Lemma on_ready_balanced e o id s s' :
  balanced o id s -> expired s = false -> on_ready e s = (Ret tt, s') -> balanced o id s'.
Proof.
  intros Hb Hx H. unfold on_ready, st_bind at 1, st_get in H. apply bind_Ret_inv in H as ([] & t & H1 & H).
  injection H1 as <-. destruct (prepared s); [|injection H as <-; by auto with balance].
  destruct (session s) as [m|]; [|injection H as <-; by auto with balance].
  apply (drain_balanced (spool_load_apply e) (spawn_load_apply e) _ _ (set_seal (last_failed_connect_time s) min_seal_time s));
    [..|done|exact H]; auto using spool_apply_view, spawn_apply_view, spawn_apply_settles with balance.
  intros r ->. apply spool_apply_settles.
Qed.

Lemma on_fail_balanced e ec o id s s' :
  balanced o id s -> expired s = false -> on_fail e ec s = (Ret tt, s') -> balanced o id s'.
Proof.
  intros Hb Hx H. unfold on_fail, st_bind at 1, st_get in H. apply bind_Ret_inv in H as ([] & t & H1 & H).
  injection H1 as <-.
  eapply (drain_balanced (fun id => record (OnAbort id ec could_not_connect)) (fun id => record (OnTerminate id ec could_not_connect))
            _ _ (set_seal (now e) (Z.min (seal_time s * 2) max_seal_time) s)); [..|exact H]; auto with balance.
  1-2: intros; apply record_view; by apply Nat.eqb_neq.
  1-2: intros; intros ? ? ? ? ? ? ? Hv E; eapply settle_last; [|exact Hv|exact E]; apply Nat.eqb_refl.
Qed.

Lemma connected_balanced e in_time ec o id s s' :
  balanced o id s -> expired s = false -> connected e in_time ec s = (Ret tt, s') -> balanced o id s'.
Proof.
  intros Hb Hx H. unfold connected in H. apply bind_Ret_inv in H as ([] & t & H1 & H). injection H1 as <-.
  destruct (in_time && (ec =? 0)).
  - apply bind_Ret_inv in H as ([] & t & H1 & H). injection H1 as <-.
    eapply on_ready_balanced; [| |exact H]; [auto with balance|exact Hx].
  - eapply on_fail_balanced; [| |exact H]; [auto with balance|exact Hx].
Qed.

Lemma on_prepared_balanced e o id s s' :
  balanced o id s -> expired s = false -> on_prepared e s = (Ret tt, s') -> balanced o id s'.
Proof.
  intros Hb Hx H. unfold on_prepared in H. apply bind_Ret_inv in H as ([] & t & H1 & H). injection H1 as <-.
  eapply on_ready_balanced; [| |exact H]; [auto with balance|exact Hx].
Qed.

(** A task settles its load, or moves it to the queues [a'] and [b']. *)
Lemma task_balanced e o id i rest a' b' (apply : M unit) s s' :
  balanced o id s -> expired s = false -> posted s = i :: rest ->
  (times id a' + times id b' = times id (spool_queue s) + times id (spawn_queue s) + times id [i])%nat ->
  (id ∈ b' -> is_spawn o) ->
  (i <> id -> forall k, keeps (view o id k (spool_queue s) (spawn_queue s) rest false (created s)) apply) ->
  (i = id -> settling o id apply) ->
  match session s, prepared s with
  | Some _, true => apply
  | _, p => st_modify (set_queues a' b' rest);;; st_when p (connect e)
  end (set_queues (spool_queue s) (spawn_queue s) rest s) = (Ret tt, s') -> balanced o id s'.
Proof.
  intros Hb Hx Hp Hq Hsp Hf Hs H. pose proof (balanced_view _ _ _ Hb) as Hv. rewrite Hx in Hv.
  eapply set_queues_view in Hv. destruct Hb as [_ Hc Hsp' Hn]. unfold waiting in Hc. rewrite Hp, times_cons in Hc.
  rewrite times_cons, times_nil in Hq.
  assert (forall p, (st_modify (set_queues a' b' rest);;; st_when p (connect e))
            (set_queues (spool_queue s) (spawn_queue s) rest s) = (Ret tt, s') -> balanced o id s') as Hmove.
  { intros p H'. apply bind_Ret_inv in H' as ([] & t & H1 & H'). injection H1 as <-.
    eapply keeps_Ret in H'; [|apply keeps_when, connect_view|by eapply set_queues_view].
    eapply view_balanced; [exact H'|lia|done|done]. }
  destruct (session s) as [m|]; [|by apply Hmove in H]. destruct (prepared s); [|by apply Hmove in H].
  destruct (decide (i = id)) as [->|Hne].
  - eapply Hs in H; [|done|exact Hv]. eapply view_balanced; [exact H|lia|done|done].
  - eapply keeps_Ret in H; [|by apply Hf|exact Hv]. eapply view_balanced; [exact H|lia|done|done].
Qed.

Lemma metrics_balanced e o id i q rest s s' :
  balanced o id s -> expired s = false -> posted s = i :: rest -> (i = id -> exists r, o = Some r) ->
  metrics e i q (set_queues (spool_queue s) (spawn_queue s) rest s) = (Ret tt, s') -> balanced o id s'.
Proof.
  intros Hb Hx Hp Ho H. pose proof (balanced_view _ _ _ Hb) as Hv. rewrite Hx in Hv.
  eapply set_queues_view in Hv. destruct Hb as [_ Hc Hsp Hn]. unfold waiting in Hc. rewrite Hp, times_cons in Hc.
  destruct (decide (i = id)) as [->|Hne].
  - destruct (Ho eq_refl) as [r ->].
    assert (settling (Some r) id (metrics e id q)) as Hm; [|eapply view_balanced; [eapply Hm; [exact Hv|exact H]|lia|done|done]].
    intros k' a' b' c' n' t t' Ht E. unfold metrics, st_bind at 1, st_get in E.
    destruct (session t); [destruct (prepared t); [by eapply metrics_apply_settles|]|];
      (eapply settle_then; [| |exact Ht|exact E]; [apply Nat.eqb_refl|intros; apply keeps_when, connect_view]).
  - assert (forall k' a' b' c', keeps (view o id k' a' b' c' false (created s)) (metrics e i q)) as Hm.
    { intros. unfold metrics. keeps_walk. by apply metrics_apply_view. }
    eapply view_balanced; [eapply keeps_Ret; [apply Hm|exact Hv|exact H]|lia|done|done].
Qed.

Lemma run_posted_balanced e o id s s' :
  balanced o id s -> expired s = false -> run_posted e s = (Ret tt, s') -> balanced o id s'.
Proof.
  intros Hb Hx H. unfold run_posted, st_bind at 1, st_get in H. destruct (posted s) as [|i rest] eqn:Hp; [by injection H as <-|].
  apply bind_Ret_inv in H as ([] & t & H1 & H). injection H1 as <-.
  assert (i = id -> exists r, o = Some r) as Ho.
  { intros ->. apply (waiting_known _ _ _ Hb). unfold waiting. rewrite Hp, times_cons, decide_True by done. lia. }
  assert (forall r, request <$> loads s !! i = Some r -> i = id -> o = Some r) as Hr.
  { intros r Hr ->. destruct (Ho eq_refl) as [r' ->]. pose proof (b_known _ _ _ Hb) as Hk.
    destruct (loads s !! id); [|done]. destruct Hk. simpl in *. congruence. }
  destruct (request <$> loads s !! i) as [[|p w v|q]|] eqn:Er; [| |by eapply metrics_balanced|].
  - apply (task_balanced e o id i rest (spool_queue s ++ [i]) (spawn_queue s) (spool_load_apply e i) s s' Hb Hx Hp); [..|exact H].
    + rewrite times_app. lia.
    + apply Hb.
    + intros. by apply spool_apply_view.
    + intros ->. rewrite (Hr _ eq_refl eq_refl). apply spool_apply_settles.
  - apply (task_balanced e o id i rest (spool_queue s) (spawn_queue s ++ [i]) (spawn_load_apply e i) s s' Hb Hx Hp); [..|exact H].
    + rewrite times_app. lia.
    + rewrite elem_of_app, list_elem_of_singleton. intros [Hin| ->]; [by apply Hb|]. rewrite (Hr _ eq_refl eq_refl). by eexists _, _, _.
    + intros. by apply spawn_apply_view.
    + intros ->. apply spawn_apply_settles. rewrite (Hr _ eq_refl eq_refl). by eexists _, _, _.
  - destruct (loads s !! i) as [l|] eqn:El; [done|]. destruct (decide (i = id)) as [->|Hne].
    + destruct (Ho eq_refl) as [r ->]. destruct Hb as [Hk _ _ _]. by rewrite El in Hk.
    + injection H as <-. destruct Hb as [Hk Hc Hsp Hn]. split; try done. unfold waiting in *. simpl. rewrite Hp, times_cons in Hc.
      rewrite decide_False in Hc by done. exact Hc.
Qed.

Lemma submit_balanced r o id s s' :
  balanced o id s -> id <> created s -> submit r s = (Ret tt, s') -> balanced o id s'.
Proof.
  intros [Hk Hc Hsp Hn] Hne H. injection H as <-. split; simpl.
  - by rewrite lookup_insert_ne.
  - unfold waiting, settled in *. simpl. rewrite times_app, times_cons, times_nil, decide_False by done. lia.
  - done.
  - destruct o; lia.
Qed.

(** The request that is being made. *)
Lemma submit_self r s s' : balanced None (created s) s -> submit r s = (Ret tt, s') -> balanced (Some r) (created s) s'.
Proof.
  intros [Hk Hc Hsp Hn] H. injection H as <-. split; simpl; [by rewrite lookup_insert_eq| | |lia].
  - unfold waiting, settled in *. simpl. rewrite times_app, times_cons, times_nil, decide_True by done. lia.
  - intros Hin. apply times_elem in Hin. unfold waiting in Hc. lia.
Qed.

Definition untouched (id : nat) (ev : event) : bool :=
  match ev with
  | Cancel _ i | Message i _ => negb (i =? id)%nat
  | _ => true
  end.

Lemma cancel_view o id k a b c x n throws i : i <> id -> keeps (view o id k a b c x n) (cancel throws i).
Proof. intros Hi. unfold cancel, spool_load_cancel, spawn_load_cancel. keeps_walk. Qed.

Lemma on_message_view o id k a b c x n i m : i <> id -> keeps (view o id k a b c x n) (on_message i m).
Proof.
  intros Hi. unfold on_message, spool_dispatch, spawn_dispatch, spawn_dispatch_on_chunk, metrics_dispatch. keeps_walk.
Qed.

(** Without a load, nothing happens to it. *)
Lemma no_load_quiet id s : loads s !! id = None ->
  (forall throws, cancel throws id s = (Ret tt, s)) /\ (forall m, on_message id m s = (Ret tt, s)).
Proof.
  intros Hl. split; intros; unfold cancel, on_message, st_bind, st_get; rewrite Hl; [by destruct (expired s)|done].
Qed.

Lemma touched_balanced o id (f : nat -> M unit) i s s' :
  (forall k a b c x n, i <> id -> keeps (view o id k a b c x n) (f i)) ->
  (o = None -> f id s = (Ret tt, s)) -> (i <> id \/ o = None) ->
  balanced o id s -> f i s = (Ret tt, s') -> balanced o id s'.
Proof.
  intros Hf Hn Hi Hb H. destruct (decide (i = id)) as [->|Hne].
  - destruct Hi as [|Ho]; [done|]. rewrite (Hn Ho) in H. by injection H as <-.
  - pose proof (balanced_view _ _ _ Hb) as Hv. eapply keeps_Ret in H; [|by apply Hf|exact Hv].
    destruct Hb as [_ Hc Hsp Hcr]. eapply view_balanced; [exact H|exact Hc|done|done].
Qed.

Lemma step_balanced ev o id s s' :
  balanced o id s -> untouched id ev = true \/ o = None -> (forall r, ev = Submit r -> id <> created s) ->
  step ev s = (Ret tt, s') -> balanced o id s'.
Proof.
  intros Hb Hu Hid H. unfold step, st_bind, st_get in H.
  assert (o = None -> loads s !! id = None) as Hno.
  { intros ->. pose proof (b_known _ _ _ Hb). by destruct (loads s !! id). }
  destruct ev as [r|e|e|e t ec|throws i|i m|]; try (destruct (expired s) eqn:Hx; [by injection H as <-|]).
  - eapply submit_balanced; [exact Hb|by eapply Hid|exact H].
  - by eapply run_posted_balanced.
  - by eapply on_prepared_balanced.
  - destruct (connecting s); simpl in H; [by eapply connected_balanced|by injection H as <-].
  - eapply (touched_balanced _ _ (cancel throws)); [intros; by apply cancel_view|intros; by apply no_load_quiet, Hno| |exact Hb|exact H].
    simpl in Hu. by rewrite negb_true_iff, Nat.eqb_neq in Hu.
  - eapply (touched_balanced _ _ (fun i => on_message i m)); [intros; by apply on_message_view|intros; by apply no_load_quiet, Hno| |exact Hb|exact H].
    simpl in Hu. by rewrite negb_true_iff, Nat.eqb_neq in Hu.
  - destruct (posted s); [destruct (connecting s)|]; injection H as <-; auto with balance.
Qed.

(** *** The state of the connection *)

(** A connection in progress has no session; a session of a prepared context has no queue
    before it; the seal is between its bounds; the address is one that was accepted. *)
Record external_wf (s : inner_t) : Prop := {
  w_connecting : connecting s = true -> session s = None;
  w_queues : session s <> None -> prepared s = true -> spool_queue s = [] /\ spawn_queue s = [];
  w_seal : min_seal_time <= seal_time s <= max_seal_time;
  w_address : valid_address (default "127.0.0.1"%string (a_host (args s))) = true
}.

(** While the queues are being emptied, the second clause does not hold yet. *)
Record half_wf (s : inner_t) : Prop := {
  h_connecting : connecting s = true -> session s = None;
  h_seal : min_seal_time <= seal_time s <= max_seal_time;
  h_address : valid_address (default "127.0.0.1"%string (a_host (args s))) = true
}.

Lemma wf_half s : external_wf s -> half_wf s.
Proof. by intros []. Qed.

(** A property of the connection: sending requests and connecting keep it. *)
Record stable (P : inner_t -> Prop) : Prop := {
  st_record : forall c, keeps P (record c);
  st_load : forall id l, keeps P (st_modify (set_load id l) : M unit);
  st_connect : forall e, keeps P (connect e)
}.

Section stable.
Context (P : inner_t -> Prop) (HP : stable P).
#[local] Hint Extern 1 (keeps P _) => solve [apply (st_record _ HP) | apply (st_load _ HP) | apply (st_connect _ HP)] : keeps.

Lemma spool_apply_stable e id : keeps P (spool_load_apply e id).
Proof. unfold spool_load_apply, reconnect, fork. keeps_walk. Qed.
Lemma spawn_apply_stable e id : keeps P (spawn_load_apply e id).
Proof. unfold spawn_load_apply, reconnect, fork. keeps_walk. Qed.
Lemma metrics_apply_stable e id q : keeps P (metrics_load_apply e id q).
Proof. unfold metrics_load_apply, reconnect, fork. keeps_walk. Qed.
Lemma cancel_stable throws id : keeps P (cancel throws id).
Proof. unfold cancel, spool_load_cancel, spawn_load_cancel. keeps_walk. Qed.
Lemma on_message_stable id m : keeps P (on_message id m).
Proof. unfold on_message, spool_dispatch, spawn_dispatch, spawn_dispatch_on_chunk, metrics_dispatch. keeps_walk. Qed.
Lemma for_each_keeps (f : nat -> M unit) l : (forall i, keeps P (f i)) -> keeps P (for_each f l).
Proof. intros Hf. induction l as [|i l IH]; simpl; [apply keeps_ret|apply keeps_bind; auto]. Qed.
End stable.

Lemma half_stable : stable half_wf.
Proof.
  split; [intros; apply keeps_modify; by intros s []..|]. intros e s Hs. pose proof Hs as [Hc Hl Ha].
  unfold connect, st_bind, st_get. destruct (connecting s) eqn:Ec; [done|].
  destruct (now e <? _); [done|]. simpl. destruct (session s) eqn:Es; simpl; rewrite Ha; split; simpl; done.
Qed.

Lemma wf_stable : stable external_wf.
Proof.
  split; [intros; apply keeps_modify; by intros s []..|]. intros e s Hs. pose proof Hs as [Hc Hq Hl Ha].
  unfold connect, st_bind, st_get. destruct (connecting s) eqn:Ec; [done|].
  destruct (now e <? _); [done|]. simpl. destruct (session s) eqn:Es; simpl; rewrite Ha; split; simpl; done.
Qed.

Lemma spool_queue_stable q : stable (fun t => spool_queue t = q).
Proof.
  split; [intros; by apply keeps_modify..|]. intros e. unfold connect. keeps_walk; by apply keeps_modify.
Qed.

(** The two loops leave no queue behind. *)
Lemma drain_wf (f g : nat -> M unit) a b s s' :
  (forall P i, stable P -> keeps P (f i)) -> (forall P i, stable P -> keeps P (g i)) -> half_wf s ->
  (for_each f a;;; st_modify (fun s => set_queues [] (spawn_queue s) (posted s) s);;;
   for_each g b;;; st_modify (fun s => set_queues (spool_queue s) [] (posted s) s)) s = (Ret tt, s') -> external_wf s'.
Proof.
  intros Hf Hg Hs H. apply bind_Ret_inv in H as ([] & t1 & H1 & H). apply bind_Ret_inv in H as ([] & t2 & H2 & H).
  apply bind_Ret_inv in H as ([] & t3 & H3 & H). injection H2 as <-. injection H as <-.
  assert (half_wf t1) as Ht1 by (eapply keeps_Ret; [apply for_each_keeps|exact Hs|exact H1]; auto using half_stable).
  assert (half_wf t3) as []
    by (eapply keeps_Ret; [apply for_each_keeps| |exact H3]; [auto using half_stable|by destruct Ht1]).
  split; try done. intros _ _. split; [|done].
  eapply (keeps_Ret (fun t => spool_queue t = [])) in H3; [done|apply for_each_keeps; auto using spool_queue_stable|done].
Qed.

Lemma on_ready_wf e s s' : half_wf s -> on_ready e s = (Ret tt, s') -> external_wf s'.
Proof.
  intros [Hc Hl Ha] H. unfold on_ready, st_bind at 1, st_get in H. apply bind_Ret_inv in H as ([] & t & H1 & H). injection H1 as <-.
  assert (half_wf (set_seal (last_failed_connect_time s) min_seal_time s)) as Ht by by (split; simpl).
  destruct (prepared s) eqn:Ep; [|injection H as <-; split; simpl; try done; congruence].
  destruct (session s) as [m|] eqn:Es; [|injection H as <-; split; simpl; try done; congruence].
  eapply drain_wf; [| |exact Ht|exact H]; intros; [by apply spool_apply_stable|by apply spawn_apply_stable].
Qed.

Lemma on_fail_wf e ec s s' : half_wf s -> on_fail e ec s = (Ret tt, s') -> external_wf s'.
Proof.
  intros [Hc Hl Ha] H. unfold on_fail, st_bind at 1, st_get in H. apply bind_Ret_inv in H as ([] & t & H1 & H). injection H1 as <-.
  eapply (drain_wf (fun id => record (OnAbort id ec could_not_connect)) (fun id => record (OnTerminate id ec could_not_connect)));
    [..|exact H]; [intros P i HP; apply HP..|].
  split; simpl; try done. unfold min_seal_time, max_seal_time in *. lia.
Qed.

Lemma connected_wf e in_time ec s s' : external_wf s -> connecting s = true -> connected e in_time ec s = (Ret tt, s') -> external_wf s'.
Proof.
  intros [Hc Hq Hl Ha] Hcon H. unfold connected in H. apply bind_Ret_inv in H as ([] & t & H1 & H). injection H1 as <-.
  destruct (in_time && (ec =? 0)).
  - apply bind_Ret_inv in H as ([] & t & H1 & H). injection H1 as <-. eapply on_ready_wf; [|exact H]. by split.
  - eapply on_fail_wf; [|exact H]. by split.
Qed.

(** A task finds a session, or queues its load. *)
Lemma task_wf e (apply : M unit) a b c s s' :
  keeps external_wf apply -> external_wf s ->
  match session s, prepared s with
  | Some _, true => apply
  | _, p => st_modify (set_queues a b c);;; st_when p (connect e)
  end s = (Ret tt, s') -> external_wf s'.
Proof.
  intros Hap Hs H. assert (forall p, session s = None \/ prepared s = false ->
    (st_modify (set_queues a b c);;; st_when p (connect e)) s = (Ret tt, s') -> external_wf s') as Hmove.
  { intros p Hsp H'. apply bind_Ret_inv in H' as ([] & t & H1 & H'). injection H1 as <-.
    eapply keeps_Ret; [apply keeps_when, (st_connect _ wf_stable)| |exact H']. destruct Hs as [Hc Hq Hl Ha]. split; simpl; try done.
    intros H1 H2. destruct Hsp; congruence. }
  destruct (session s) as [m|] eqn:Es; [destruct (prepared s) eqn:Ep|].
  - by eapply keeps_Ret in H.
  - eapply Hmove; [by right|exact H].
  - eapply Hmove; [by left|exact H].
Qed.

Lemma run_posted_wf e s s' : external_wf s -> run_posted e s = (Ret tt, s') -> external_wf s'.
Proof.
  intros Hs H. unfold run_posted, st_bind at 1, st_get in H. destruct (posted s) as [|i rest]; [by injection H as <-|].
  apply bind_Ret_inv in H as ([] & t & H1 & H). injection H1 as <-.
  assert (external_wf (set_queues (spool_queue s) (spawn_queue s) rest s)) as Ht by by destruct Hs.
  destruct (request <$> loads s !! i) as [[|p w v|q]|]; [| | |by injection H as <-].
  - eapply (task_wf e (spool_load_apply e i)); [apply spool_apply_stable, wf_stable|exact Ht|exact H].
  - eapply (task_wf e (spawn_load_apply e i)); [apply spawn_apply_stable, wf_stable|exact Ht|exact H].
  - eapply keeps_Ret; [|exact Ht|exact H]. unfold metrics.
    pose proof wf_stable as HW. pose proof (metrics_apply_stable _ HW e i q) as Hm. destruct HW as [HW1 _ HW3].
    keeps_walk; auto.
Qed.

Lemma step_wf ev s s' : external_wf s -> step ev s = (Ret tt, s') -> external_wf s'.
Proof.
  intros Hs H. unfold step, st_bind at 1, st_get in H.
  destruct ev as [r|e|e|e t ec|throws i|i m|]; try (destruct (expired s) eqn:Hx; [by injection H as <-|]).
  - injection H as <-. by destruct Hs.
  - by eapply run_posted_wf.
  - unfold on_prepared in H. apply bind_Ret_inv in H as ([] & u & H1 & H). injection H1 as <-.
    eapply on_ready_wf; [|exact H]. by destruct Hs.
  - destruct (connecting s) eqn:Ec; simpl in H; [by eapply connected_wf|by injection H as <-].
  - by eapply keeps_Ret in H; [|apply cancel_stable, wf_stable|exact Hs].
  - by eapply keeps_Ret in H; [|apply on_message_stable, wf_stable|exact Hs].
  - destruct (posted s); [destruct (connecting s)|]; injection H as <-; by destruct Hs.
Qed.

(** *** Runs *)

Lemma created_stable n : stable (fun t => created t = n).
Proof. split; [intros; by apply keeps_modify..|]. intros e. unfold connect. keeps_walk; by apply keeps_modify. Qed.

Lemma step_created ev s s' :
  step ev s = (Ret tt, s') -> created s' = (created s + if expired s then 0 else match ev with Submit _ => 1 | _ => 0 end)%nat.
Proof.
  set (n := created s). intros H. assert (created s = n) as Hn by done. clearbody n.
  pose proof (created_stable n) as Hst. pose proof Hst as [HR HL HC].
  pose proof (spool_apply_stable _ Hst) as H1. pose proof (spawn_apply_stable _ Hst) as H2. pose proof (metrics_apply_stable _ Hst) as H3.
  unfold step, st_bind at 1, st_get in H.
  assert (forall e, keeps (fun t => created t = n) (on_ready e)) as Hr.
  { intros e. unfold on_ready. keeps_walk; try (by apply keeps_modify); by apply for_each_keeps. }
  destruct ev as [r|e|e|e t ec|throws i|i m|]; try (destruct (expired s) eqn:Hx; [injection H as <-; lia|]).
  - injection H as <-. simpl. lia.
  - eapply (keeps_Ret (fun t => created t = n)) in H; [simpl in H; lia| |exact Hn]. unfold run_posted, spool, spawn, metrics.
    keeps_walk; auto; by apply keeps_modify.
  - eapply (keeps_Ret (fun t => created t = n)) in H; [simpl in H; lia| |exact Hn]. unfold on_prepared. keeps_walk; auto; by apply keeps_modify.
  - eapply (keeps_Ret (fun t => created t = n)) in H; [simpl in H; lia| |exact Hn]. unfold connected, on_fail.
    keeps_walk; auto; try (by apply keeps_modify); by apply for_each_keeps.
  - eapply (keeps_Ret (fun t => created t = n)) in H; [|by apply cancel_stable|exact Hn]. simpl in H. destruct (expired s); lia.
  - eapply (keeps_Ret (fun t => created t = n)) in H; [|by apply on_message_stable|exact Hn]. simpl in H. destruct (expired s); lia.
  - destruct (posted s); [destruct (connecting s)|]; injection H as <-; simpl; destruct (expired s); lia.
Qed.

(** Every request not made yet is nowhere. *)
Definition unmade (s : inner_t) : Prop := forall id, (created s <= id)%nat -> balanced None id s.

Lemma step_unmade ev s s' : unmade s -> step ev s = (Ret tt, s') -> unmade s'.
Proof.
  intros Hu H id Hid. pose proof (step_created _ _ _ H) as Hc. destruct (expired s) eqn:Hx.
  - destruct ev as [r| | | | | |]; [|eapply step_balanced; [| | |exact H]; [apply Hu; lia|by right|by intros ? [=]]..].
    unfold step, st_bind, st_get in H. rewrite Hx in H. injection H as <-. by apply Hu.
  - eapply step_balanced; [apply Hu; lia|by right| |exact H]. intros r ->. lia.
Qed.

Lemma run_unmade es : forall s s', unmade s -> external_wf s -> run es s = (Ret tt, s') -> unmade s' /\ external_wf s'.
Proof.
  induction es as [|ev es IH]; intros s s' Hu Hs H; [by injection H as <-|]. cbn [run] in H.
  apply bind_Ret_inv in H as ([] & t & H1 & H). eapply IH; [by eapply step_unmade|by eapply step_wf|exact H].
Qed.

Lemma run_request_balanced es : forall r id s s', balanced (Some r) id s -> external_wf s -> forallb (untouched id) es = true ->
  run es s = (Ret tt, s') -> balanced (Some r) id s' /\ external_wf s'.
Proof.
  induction es as [|ev es IH]; intros r id s s' Hb Hs Hes H; [by injection H as <-|]. cbn [run] in H. simpl in Hes.
  apply andb_true_iff in Hes as [He Hes]. apply bind_Ret_inv in H as ([] & t & H1 & H).
  eapply IH; [|by eapply step_wf|done|exact H]. eapply step_balanced; [exact Hb|by left| |exact H1].
  intros ? ->. pose proof (b_created _ _ _ Hb). simpl in *. lia.
Qed.

Lemma inner_construct_wf n type a : valid_address (default "127.0.0.1"%string (a_host a)) = true -> external_wf (inner_construct n type a).
Proof. intros Ha. split; simpl; done. Qed.

Lemma construct_unmade n type a : unmade (inner_construct n type a).
Proof. intros id _. split; simpl; [done|done|set_solver|lia]. Qed.

(** The isolate exists only if its constructor did not throw; the clock is past the seal
    that a time of zero would make. *)
Lemma external_construct_good e n type a s :
  min_seal_time <= now e -> external_construct e n type a = (Ret tt, s) -> external_wf s /\ unmade s.
Proof.
  intros Hnow H. unfold external_construct in H.
  assert (valid_address (default "127.0.0.1"%string (a_host a)) = true) as Ha.
  { unfold connect, st_bind, st_get in H. simpl in H. destruct (Z.ltb_spec (now e) (0 + min_seal_time)); [lia|].
    simpl in H. by destruct (valid_address _). }
  split; [by eapply keeps_Ret in H; [|apply (st_connect _ wf_stable)|apply inner_construct_wf]|].
  intros id Hid. pose proof (construct_unmade n type a id ltac:(simpl; lia)) as Hb. pose proof (balanced_view _ _ _ Hb) as Hv.
  eapply keeps_Ret in H; [|apply connect_view|exact Hv]. destruct Hb as [_ Hc Hsp Hcr]. by eapply view_balanced.
Qed.

(** C13: no request to the isolate is lost or handled twice.  Whatever happened before, a
    request made of a live isolate is from then on, until its owner cancels it or the
    daemon answers, in exactly one of these states: it waits, in one place, or it has been
    settled once, sent to the daemon or refused to its handle.  It does not wait behind a
    ready connection for longer than it takes to run its task. *)
Theorem request_fate (e : env) (n type : string) (a : args_t) (s0 s1 s2 : inner_t) (es1 es2 : list event) (r : request_t) :
  min_seal_time <= now e -> external_construct e n type a = (Ret tt, s0) ->
  run es1 s0 = (Ret tt, s1) -> expired s1 = false -> forallb (untouched (created s1)) es2 = true ->
  run (Submit r :: es2) s1 = (Ret tt, s2) ->
  let id := created s1 in
  (waiting id s2 + settled id s2 = 1)%nat /\
  (session s2 <> None -> prepared s2 = true -> id ∉ posted s2 -> settled id s2 = 1%nat).
Proof.
  intros Hnow H0 H1 Hx Hes H2 id. destruct (external_construct_good _ _ _ _ _ Hnow H0) as [Hw Hu].
  destruct (run_unmade _ _ _ Hu Hw H1) as [Hu1 Hw1]. cbn [run] in H2. apply bind_Ret_inv in H2 as ([] & t & Ht & H2).
  assert (balanced (Some r) id t) as Hb.
  { apply (submit_self r s1); [by apply Hu1|]. unfold step, st_bind, st_get in Ht. by rewrite Hx in Ht. }
  destruct (run_request_balanced _ _ _ _ _ Hb (step_wf _ _ _ Hw1 Ht) Hes H2) as [[_ Hc _ _] Hw2]. split; [exact Hc|].
  intros Hs Hp Hn. destruct (w_queues _ Hw2 Hs Hp) as [Ha Hb']. unfold waiting in Hc. rewrite Ha, Hb' in Hc.
  rewrite !times_nil in Hc. replace (times id (posted s2)) with 0%nat in Hc; [lia|].
  clear -Hn. induction (posted s2) as [|i l IH]; [done|]. rewrite times_cons, decide_False by set_solver. apply IH. set_solver.
Qed.

(** *** Returning *)

(** The session takes every queued request. *)
Definition quiet (ev : event) : Prop :=
  match ev with
  | Prepared e | Connected e _ _ => forall id, refuses e id = None
  | _ => True
  end.

Lemma connect_returns e s : valid_address (default "127.0.0.1"%string (a_host (args s))) = true -> exists t, connect e s = (Ret tt, t).
Proof.
  intros Ha. unfold connect, st_bind, st_get. destruct (connecting s); [by eexists|]. destruct (now e <? _); [by eexists|].
  simpl. destruct (session s); simpl; rewrite Ha; by eexists.
Qed.

#[local] Arguments connect : simpl never.
Ltac connects :=
  match goal with
  | Ha : valid_address _ = true |- context [connect ?e ?t] =>
      let u := fresh in let Hu := fresh in destruct (connect_returns e t) as [u Hu]; [exact Ha|rewrite Hu; by eexists]
  end.

(** With a session, applying a load returns, and keeps the session if it was taken. *)
Definition applies (e : env) (id : nat) (m : M unit) : Prop :=
  forall s, half_wf s -> session s <> None -> exists t, m s = (Ret tt, t) /\ (refuses e id = None -> session t <> None).

Lemma spool_applies e id : applies e id (spool_load_apply e id).
Proof.
  intros s [_ _ Ha] Hs. unfold spool_load_apply, fork, reconnect, record, st_bind at 1, st_get.
  destruct (expired s); [by eexists|]. destruct (loads s !! id) as [l|]; [|by eexists]. destruct (cancelled l); [by eexists|].
  destruct (session s) as [m|] eqn:Es; [|done]. destruct (refuses e id) as [[[] x]|]; cbn.
  1-2: connects.
  eexists. split; [done|]. simpl. congruence.
Qed.
Lemma spawn_applies e id : applies e id (spawn_load_apply e id).
Proof.
  intros s [_ _ Ha] Hs. unfold spawn_load_apply, fork, reconnect, record, st_bind at 1, st_get.
  destruct (expired s); [by eexists|]. destruct (loads s !! id) as [l|]; [|by eexists]. destruct (cancelled l); [by eexists|].
  destruct (session s) as [m|] eqn:Es; [|done]. destruct (refuses e id) as [[[] x]|]; cbn.
  1-2: connects.
  destruct (request l); (eexists; split; [done|]; simpl; congruence).
Qed.

Lemma for_each_applies (f : nat -> M unit) e l : (forall i, refuses e i = None) -> (forall i, applies e i (f i)) -> (forall i, keeps half_wf (f i)) ->
  forall s, half_wf s -> session s <> None -> exists t, for_each f l s = (Ret tt, t) /\ half_wf t /\ session t <> None.
Proof.
  intros Hq Hf Hk. induction l as [|i l IH]; intros s Hs Hn; [by exists s|].
  destruct (Hf i s Hs Hn) as (t & Ht & Hn'). cbn [for_each]. rewrite (st_bind_Ret _ _ _ _ _ Ht).
  apply IH; [by eapply keeps_Ret|by apply Hn'].
Qed.

Lemma on_ready_returns e s : (forall i, refuses e i = None) -> half_wf s -> exists t, on_ready e s = (Ret tt, t).
Proof.
  intros Hq [Hc Hl Ha]. unfold on_ready, st_bind at 1, st_get. unfold st_bind at 1, st_modify at 1.
  destruct (prepared s); [|by eexists]. destruct (session s) as [m|] eqn:Es; [|by eexists]. simpl.
  destruct (for_each_applies (spool_load_apply e) e (spool_queue s) Hq (spool_applies e) (spool_apply_stable _ half_stable e)
    (set_seal (last_failed_connect_time s) min_seal_time s)) as (t & Ht & Hht & Hst); [by (split; simpl; try done; rewrite ?Es)|simpl; congruence|].
  rewrite (st_bind_Ret _ _ _ _ _ Ht). unfold st_bind at 1, st_modify at 1.
  destruct (for_each_applies (spawn_load_apply e) e (spawn_queue s) Hq (spawn_applies e) (spawn_apply_stable _ half_stable e)
    (set_queues [] (spawn_queue t) (posted t) t)) as (u & Hu & _ & _); [by destruct Hht|done|].
  rewrite (st_bind_Ret _ _ _ _ _ Hu). by eexists.
Qed.

Lemma for_each_record (f : nat -> call) l : forall s, exists t, for_each (fun i => record (f i)) l s = (Ret tt, t).
Proof. induction l as [|i l IH]; intros s; [by eexists|]. apply (IH (add_call (f i) s)). Qed.

Lemma on_fail_returns e ec s : exists t, on_fail e ec s = (Ret tt, t).
Proof.
  unfold on_fail, st_bind at 1, st_get. unfold st_bind at 1, st_modify at 1.
  destruct (for_each_record (fun id => OnAbort id ec could_not_connect) (spool_queue s)
    (set_seal (now e) (Z.min (seal_time s * 2) max_seal_time) s)) as [t Ht].
  rewrite (st_bind_Ret _ _ _ _ _ Ht). unfold st_bind at 1, st_modify at 1.
  destruct (for_each_record (fun id => OnTerminate id ec could_not_connect) (spawn_queue s)
    (set_queues [] (spawn_queue t) (posted t) t)) as [u Hu].
  rewrite (st_bind_Ret _ _ _ _ _ Hu). by eexists.
Qed.

Lemma task_returns e id (apply : M unit) a b c s :
  applies e id apply -> half_wf s -> exists t, match session s, prepared s with
  | Some _, true => apply
  | _, p => st_modify (set_queues a b c);;; st_when p (connect e)
  end s = (Ret tt, t).
Proof.
  intros Hap Hs. assert (forall p, exists t, (st_modify (set_queues a b c);;; st_when p (connect e)) s = (Ret tt, t)) as Hq.
  { intros [|]; [|by eexists]. destruct (connect_returns e (set_queues a b c s)) as [t Ht]; [apply Hs|]. exists t. exact Ht. }
  destruct (session s) eqn:Es; [|apply Hq]. destruct (prepared s); [|apply Hq].
  destruct (Hap s Hs) as (t & Ht & _); [congruence|]. by exists t.
Qed.

Lemma metrics_returns e id q s : half_wf s -> is_Some (loads s !! id) -> exists t, metrics e id q s = (Ret tt, t).
Proof.
  intros [_ _ Ha] [l Hl]. unfold metrics, st_bind at 1, st_get. unfold metrics_load_apply, fork, reconnect, record.
  destruct (session s) as [m|] eqn:Es; [destruct (prepared s)|]; cbn; rewrite ?Hl, ?Es; cbn; [|by eexists|].
  - destruct (refuses e id) as [[[] x]|]; cbn; [connects|connects|by eexists].
  - destruct (prepared s); cbn; [connects|by eexists].
Qed.

Lemma run_posted_returns e s : half_wf s -> exists t, run_posted e s = (Ret tt, t).
Proof.
  intros Hs. unfold run_posted, st_bind at 1, st_get. destruct (posted s) as [|i rest]; [by eexists|].
  unfold st_bind at 1, st_modify at 1. assert (half_wf (set_queues (spool_queue s) (spawn_queue s) rest s)) as Ht by by destruct Hs.
  destruct (loads s !! i) as [l|] eqn:El; simpl; [|by eexists]. destruct (request l) as [|p w v|q].
  - apply (task_returns e i); [apply spool_applies|exact Ht].
  - apply (task_returns e i); [apply spawn_applies|exact Ht].
  - apply metrics_returns; [exact Ht|by exists l].
Qed.

Lemma step_returns ev s : quiet ev -> external_wf s -> exists t, step ev s = (Ret tt, t).
Proof.
  intros Hq Hs. pose proof (wf_half _ Hs) as Hh. unfold step, st_bind at 1, st_get.
  destruct ev as [r|e|e|e t ec|throws i|i m|]; try (destruct (expired s); [by eexists|]).
  - by eexists.
  - by apply run_posted_returns.
  - apply on_ready_returns; [exact Hq|]. by destruct Hh.
  - destruct (connecting s) eqn:Ec; [|by eexists]. simpl. unfold connected, st_bind at 1, st_modify at 1.
    pose proof (w_connecting _ Hs Ec). destruct (t && (ec =? 0)); [|apply on_fail_returns]. apply on_ready_returns; [exact Hq|].
    destruct Hh. by split.
  - unfold cancel, spool_load_cancel, spawn_load_cancel, st_bind at 1, st_get. destruct (expired s); [by eexists|].
    destruct (loads s !! i) as [l|]; [|by eexists].
    destruct (request l); [..|by eexists]; (destruct (cancelled l); [by eexists|]; simpl; destruct (stream l), throws; by eexists).
  - unfold on_message, st_bind at 1, st_get. destruct (loads s !! i) as [l|]; [|by eexists].
    destruct (stream l), (request l), m; simpl; try (by eexists). unfold spawn_dispatch_on_chunk.
    destruct (_ && _); by eexists.
  - destruct (posted s); [destruct (connecting s)|]; by eexists.
Qed.

(** The isolate keeps running when the daemon takes what has been queued.  The constructor
    is accepted only with an address that can be parsed; after it, for any order of
    requests, tasks, connections, failures, cancellations and messages, and even if the
    session refuses requests outside the queues, no callback dereferences a null session or
    throws. *)
Theorem quiet_runs_return (e : env) (n type : string) (a : args_t) (s0 : inner_t) (es : list event) :
  min_seal_time <= now e -> external_construct e n type a = (Ret tt, s0) -> Forall quiet es ->
  exists s, run es s0 = (Ret tt, s) /\ external_wf s.
Proof.
  intros Hnow H0 Hes. destruct (external_construct_good _ _ _ _ _ Hnow H0) as [Hw _]. clear H0 Hnow. revert s0 Hw.
  induction Hes as [|ev es Hev _ IH]; intros s Hs; [by exists s|]. destruct (step_returns ev s Hev Hs) as [t Ht].
  cbn [run]. rewrite (st_bind_Ret _ _ _ _ _ Ht). apply IH. by eapply step_wf.
Qed.

(** ** What the code does not mean to do *)

(** A connection that is attempted takes the session away. *)
Lemma connect_open e s :
  connecting s = false -> last_failed_connect_time s + seal_time s <= now e ->
  valid_address (default "127.0.0.1"%string (a_host (args s))) = true ->
  exists t, connect e s = (Ret tt, t) /\ session t = None /\ loads t = loads s /\ expired t = expired s.
Proof.
  intros Hc Hn Ha. unfold connect, st_bind, st_get. rewrite Hc. destruct (Z.ltb_spec (now e) (last_failed_connect_time s + seal_time s)); [lia|].
  simpl. destruct (session s) eqn:Es; simpl; rewrite Ha; by eexists.
Qed.

Lemma refused_apply e i l n at_ x s :
  expired s = false -> loads s !! i = Some l -> cancelled l = false -> session s = Some n -> refuses e i = Some (at_, x) ->
  connecting s = false -> last_failed_connect_time s + seal_time s <= now e ->
  valid_address (default "127.0.0.1"%string (a_host (args s))) = true ->
  exists t, spool_load_apply e i s = (Ret tt, t) /\ session t = None /\ expired t = false /\
    forall j, j <> i -> loads t !! j = loads s !! j.
Proof.
  intros Hx Hi Hci Hs Hr Hc Hn Ha. unfold spool_load_apply, st_bind at 1, st_get. rewrite Hx, Hi, Hci, Hs, Hr.
  unfold fork, reconnect, record.
  destruct at_; cbn; match goal with |- context [connect e ?t] => destruct (connect_open e t Hc Hn Ha) as (u & Hu & H1 & H2 & H3) end;
    rewrite Hu; exists u; rewrite H2, H3; (split_and!; [done|done|done|]); intros j Hj; simpl; by rewrite ?lookup_insert_ne.
Qed.

Lemma null_apply e j l s :
  expired s = false -> loads s !! j = Some l -> cancelled l = false -> session s = None -> spool_load_apply e j s = (Throw NullSession, s).
Proof. intros Hx Hj Hc Hs. unfold spool_load_apply, st_bind, st_get. by rewrite Hx, Hj, Hc, Hs. Qed.

(** A request that the session refuses while the queue is being sent brings the process
    down when another one is queued behind it: the refusal resets the session to connect
    anew, and the loop goes on with a null session. *)
Theorem refused_in_queue_crashes (e : env) (s : inner_t) (i j : nat) (rest : list nat) (li lj : load_t) (at_ : stage) (x : exn) :
  external_wf s -> connecting s = true -> prepared s = true -> expired s = false ->
  spool_queue s = i :: j :: rest -> i <> j ->
  loads s !! i = Some li -> cancelled li = false -> loads s !! j = Some lj -> cancelled lj = false ->
  refuses e i = Some (at_, x) -> last_failed_connect_time s + min_seal_time <= now e ->
  fst (step (Connected e true 0) s) = Throw NullSession.
Proof.
  intros [_ _ _ Ha] Hc Hp Hx Hq Hne Hi Hci Hj Hcj Hr Hnow.
  unfold step, st_bind at 1, st_get. rewrite Hx, Hc. unfold st_when, connected, st_bind at 1, st_modify at 1. simpl.
  unfold st_bind at 1, st_modify at 1, on_ready, st_bind at 1, st_get, st_bind at 1, st_modify at 1. simpl.
  rewrite Hp. simpl. rewrite Hq. cbn [for_each].
  set (s1 := set_seal _ _ _). destruct (refused_apply e i li (sessions s) at_ x s1 Hx Hi Hci eq_refl Hr eq_refl Hnow Ha) as (t & Ht & H1 & H2 & H3).
  assert (loads t !! j = Some lj) as Hj' by (rewrite H3 by done; exact Hj).
  pose proof (null_apply e j lj t H2 Hj' Hcj H1) as Hn.
  erewrite st_bind_Throw; [done|]. rewrite (st_bind_Ret _ _ _ _ _ Ht). by erewrite st_bind_Throw.
Qed.

(** A request made while the connection is sealed waits for the next request: no timer
    lifts the seal. *)
Definition is_posted (ev : event) : bool := match ev with Posted _ => true | _ => false end.

(** Prepared, not connected and not connecting: only a task can change that. *)
Record stalled (a b : list nat) (s : inner_t) : Prop := {
  sl_prepared : prepared s = true;
  sl_session : session s = None;
  sl_connecting : connecting s = false;
  sl_spool : spool_queue s = a;
  sl_spawn : spawn_queue s = b
}.

Lemma step_stalled ev a b s s' : is_posted ev = false -> stalled a b s -> step ev s = (Ret tt, s') -> stalled a b s'.
Proof.
  intros Hev Hs H. pose proof Hs as [Hp Hn Hc Ha Hb]. unfold step, st_bind at 1, st_get in H.
  destruct ev as [r|e|e|e t ec|throws i|i m|]; try done; try (destruct (expired s) eqn:Hx; [by injection H as <-|]).
  - by injection H as <-.
  - unfold on_prepared, on_ready, st_bind, st_modify, st_get in H. simpl in H. rewrite Hn in H. by injection H as <-.
  - rewrite Hc in H. by injection H as <-.
  - eapply keeps_Ret in H; [exact H| |exact Hs]. unfold cancel, spool_load_cancel, spawn_load_cancel, record.
    keeps_walk; apply keeps_modify; by intros u [].
  - eapply keeps_Ret in H; [exact H| |exact Hs].
    unfold on_message, spool_dispatch, spawn_dispatch, spawn_dispatch_on_chunk, metrics_dispatch, record.
    keeps_walk; apply keeps_modify; by intros u [].
  - rewrite Hc in H. destruct (posted s); by injection H as <-.
Qed.

(** A request made while the connection is sealed is queued and nothing is scheduled to
    take it from there: until the task of another request runs, it stays in the queue and its
    handle hears nothing, however much time passes and whatever else happens. *)
Theorem sealed_request_waits (e : env) (s s1 s2 : inner_t) (id : nat) (rest : list nat) (l : load_t) (es : list event) :
  prepared s = true -> session s = None -> connecting s = false -> expired s = false ->
  posted s = id :: rest -> loads s !! id = Some l -> request l = RSpool ->
  now e < last_failed_connect_time s + seal_time s ->
  run [Posted e] s = (Ret tt, s1) -> forallb (fun ev => negb (is_posted ev)) es = true -> run es s1 = (Ret tt, s2) ->
  calls s1 = calls s /\ spool_queue s1 = spool_queue s ++ [id] /\ id ∈ spool_queue s2 /\ connecting s2 = false.
Proof.
  intros Hp Hn Hc Hx Hq Hl Hr Hnow H1 Hes H2.
  assert (s1 = set_queues (spool_queue s ++ [id]) (spawn_queue s) rest (set_queues (spool_queue s) (spawn_queue s) rest s)) as E.
  { unfold run, step, run_posted, st_bind at 1 2 3, st_get in H1. rewrite Hx, Hq in H1. unfold st_bind, st_modify in H1.
    rewrite Hl in H1. simpl in H1. rewrite Hr in H1. unfold spool, st_bind, st_get in H1. simpl in H1. rewrite Hn, Hp in H1.
    unfold st_when, connect, st_bind, st_get, st_modify in H1. simpl in H1. rewrite Hc in H1.
    destruct (Z.ltb_spec (now e) (last_failed_connect_time s + seal_time s)); [|lia]. by injection H1 as <-. }
  split; [by rewrite E|]. split; [by rewrite E|].
  assert (stalled (spool_queue s ++ [id]) (spawn_queue s) s1) as Hs by (rewrite E; by split). clear E H1.
  assert (stalled (spool_queue s ++ [id]) (spawn_queue s) s2) as [_ _ H3 H4 _]; [|rewrite H4; set_solver].
  revert s1 Hs H2. induction es as [|ev es IH]; intros u Hu H2; [by injection H2 as <-|]. simpl in Hes.
  apply andb_true_iff in Hes as [Hev Hes]. cbn [run] in H2. apply bind_Ret_inv in H2 as ([] & t & Ht & H2).
  apply (IH Hes t); [|exact H2]. by eapply step_stalled; [apply negb_true_iff| |].
Qed.
End external.

(** ** Witnesses *)

Definition any_address (_ : string) : bool := true.
Definition open_env (t : Z) : env := mk_env t (fun _ => None).
Definition broken_env (t : Z) (id : nat) (at_ : stage) : env :=
  mk_env t (fun i => if (i =? id)%nat then Some (at_, mk_exn 32 "broken pipe" "[32] broken pipe") else None).
Definition plain_args : args_t := mk_args None None None None [].
Definition fresh : inner_t := snd (external_construct any_address (open_env 5000) "app" "process" plain_args).
Definition after (es : list event) (s : inner_t) : inner_t := snd (run any_address 57 es s).

(** A connection that is made after its timer has fired is refused with no error. *)
Example late_connection_refused_without_error :
  calls (after [Submit RSpool; Posted (open_env 5001); Connected (open_env 10001) false 0] fresh) =
  [Connect 5000 "127.0.0.1" 29042 5000; OnAbort 0 0 could_not_connect].
Proof. reflexivity. Qed.

(** A request whose message is refused keeps its stream: its handle is told twice when the
    cancellation cannot be sent either. *)
Example aborted_twice :
  calls (after [Prepared (open_env 5001); Connected (open_env 5002) true 0; Submit RSpool; Posted (broken_env 7000 0 AtSend);
                Cancel (Some (mk_exn 32 "broken pipe" "[32] broken pipe")) 0] fresh) =
  [Connect 5000 "127.0.0.1" 29042 5000; OnAbort 0 32 "[32] broken pipe"; Detach 0 32; Detach 0 0;
   Connect 7000 "127.0.0.1" 29042 5000; OnAbort 0 32 "[32] broken pipe"].
Proof. reflexivity. Qed.

(** The first empty chunk of a worker says that it has been spawned, the next ones are data. *)
Example first_empty_chunk :
  calls (after [Prepared (open_env 5001); Connected (open_env 5002) true 0; Submit (RSpawn "w" [] []); Posted (open_env 5003);
                Message 0 (MChunk "log"); Message 0 (MChunk ""); Message 0 (MChunk ""); Message 0 MChoke] fresh) =
  [Connect 5000 "127.0.0.1" 29042 5000; SendSpawn 0 (mk_args (Some "process"%string) None None None []) "app" "w" [] [] 0;
   OnData 0 "log"; OnReady 0; OnData 0 ""; OnTerminate 0 0 ""].
Proof. reflexivity. Qed.

Definition before_request : list event := [Submit RSpool; Posted (open_env 5001); Connected (open_env 5002) true 110].
Definition after_request : list event :=
  [Posted (open_env 5003); Prepared (open_env 5004); Submit (RMetrics []); Posted (open_env 9000); Connected (open_env 9001) true 0].

Lemma request_fate_witness :
  let s1 := after before_request fresh in
  let s2 := after (Submit (RSpawn "w" [] []) :: after_request) s1 in
  (waiting (created s1) s2 + settled (created s1) s2 = 1)%nat /\ settled (created s1) s2 = 1%nat.
Proof.
  destruct (request_fate any_address 57 (open_env 5000) "app" "process" plain_args fresh (after before_request fresh)
    (after (Submit (RSpawn "w" [] []) :: after_request) (after before_request fresh)) before_request after_request (RSpawn "w" [] []))
    as [H1 H2]; [vm_compute; congruence|vm_compute; reflexivity..|].
  split; [exact H1|]. apply H2; [vm_compute; congruence|vm_compute; reflexivity|]. apply (bool_decide_unpack _). vm_compute. exact I.
Defined.

Lemma quiet_runs_witness :
  exists s, run any_address 57 (before_request ++ Submit RSpool :: after_request) fresh = (Ret tt, s) /\ external_wf any_address s.
Proof.
  apply (quiet_runs_return any_address 57 (open_env 5000) "app" "process" plain_args fresh); [vm_compute; congruence|vm_compute; reflexivity|].
  repeat constructor.
Defined.

Definition two_queued : inner_t :=
  after [Prepared (open_env 5001); Submit RSpool; Submit RSpool; Posted (open_env 5002); Posted (open_env 5003)] fresh.

Lemma refused_in_queue_witness : fst (step any_address 57 (Connected (broken_env 5004 0 AtFork) true 0) two_queued) = Throw NullSession.
Proof.
  eapply (refused_in_queue_crashes any_address 57 (broken_env 5004 0 AtFork) two_queued 0 1 []); try (vm_compute; reflexivity); try (vm_compute; congruence).
  split; vm_compute; [done|done|split; congruence|done].
Defined.

Definition sealed : inner_t :=
  after [Prepared (open_env 5001); Connected (open_env 5002) true 111; Submit RSpool] fresh.

Lemma sealed_request_witness :
  let s1 := after [Posted (open_env 5003)] sealed in
  let s2 := after [Submit RSpool; Prepared (open_env 900000); Message 0 MChoke] s1 in
  calls s1 = calls sealed /\ spool_queue s1 = spool_queue sealed ++ [0%nat] /\ 0%nat ∈ spool_queue s2 /\ connecting s2 = false.
Proof.
  apply (sealed_request_waits any_address 57 (open_env 5003) sealed _ _ 0 [] (mk_load RSpool false None false)
    [Submit RSpool; Prepared (open_env 900000); Message 0 MChoke]); vm_compute; reflexivity.
Defined.
