(* ===== verification/ProcessIsolate.v ===== *)
(** * The process isolate: [node/src/isolate/process.cpp], [fetcher.cpp], [process/archive.cpp]
    and [process/cgroup.cpp]

    An application is deployed by unpacking its archive into a directory; a worker is a
    forked process, whose output is read by a fetcher through a pipe and which is killed
    and collected by a terminator.

    The operating system and the libraries are the environment: what a system call
    answers is an argument, or follows from a model of the one child whose pid the
    terminator has, as POSIX documents it.  Calls are recorded in order. *)

From S2P Require Import Prelude LogFilter.

Local Open Scope Z_scope.
Local Open Scope cpp_scope.

(** ** The fetcher *)

Inductive read_result := ReadOk (data : string) | ReadAborted | ReadEof | ReadFailed (code : Z).

Record fetcher_t := mk_fetcher {
  f_open : bool;              (** the descriptor of the watcher *)
  f_fd : Z;
  f_pending : nat;            (** reads under way *)
  f_output : list string      (** what the handle was given *)
}.

Definition buffer_size : nat := 4096.

Definition fetcher_construct : fetcher_t := mk_fetcher false (-1) 0 [].

Definition fetcher_watch (f : fetcher_t) : fetcher_t := mk_fetcher (f_open f) (f_fd f) (S (f_pending f)) (f_output f).

(** [error]: the descriptor could not be assigned. *)
Definition fetcher_assign (fd : Z) (error : option Z) (f : fetcher_t) : outcome Z fetcher_t :=
  match error with
  | Some code => Throw code
  | None => Ret (fetcher_watch (mk_fetcher true fd (f_pending f) (f_output f)))
  end.

(** A failure to close is logged. *)
Definition fetcher_close (f : fetcher_t) : fetcher_t :=
  if f_open f then mk_fetcher false (f_fd f) (f_pending f) (f_output f) else f.

Definition fetcher_on_read (r : read_result) (f : fetcher_t) : fetcher_t :=
  let f := mk_fetcher (f_open f) (f_fd f) (pred (f_pending f)) (f_output f) in
  match r with
  | ReadOk data => fetcher_watch (mk_fetcher (f_open f) (f_fd f) (f_pending f) (f_output f ++ [data]))
  | ReadAborted | ReadEof | ReadFailed _ => f
  end.

Inductive fetcher_event := FRead (r : read_result) | FClose.

(** A handler runs only for a read that is under way. *)
Definition fetcher_step (f : fetcher_t) (e : fetcher_event) : fetcher_t :=
  match e with
  | FRead r => if (f_pending f =? 0)%nat then f else fetcher_on_read r f
  | FClose => fetcher_close f
  end.

Definition fetcher_run (es : list fetcher_event) (f : fetcher_t) : fetcher_t := foldl fetcher_step f es.

(** ** The terminator *)

Inductive child_t := Running | Exited | Reaped.
Inductive signal := SIGTERM | SIGKILL.
#[export] Instance child_eq_dec : EqDecision child_t.
Proof. solve_decision. Defined.

(** The handler that the timer is armed for. *)
Inductive timer_stage := KillTimer | GcTimer.

Inductive syscall :=
| Signal (to : child_t) (s : signal)    (** the state of the process that has the pid *)
| SignalGroup (s : signal)              (** a pid of zero: every process of the group *)
| WaitGroup
| ArmTimer (seconds : Z) (h : timer_stage)
| CloseFetcher.

Record terminator_t := mk_terminator {
  pid : Z;
  timeout_kill : Z;
  timer : option timer_stage;
  owned : bool;                 (** the isolate's client has the handle *)
  destroyed : bool;
  child : child_t;
  stubborn : bool;              (** the child survives SIGTERM *)
  syscalls : list syscall
}.

Definition timeout_gc : Z := 5.

Definition terminator_construct (p kill : Z) (s : bool) : terminator_t :=
  mk_terminator p (u32 kill) None true false Running s [].

Inductive terminator_fault := BadWeakPtr | Blocked.
Definition T (A : Type) : Type := ST terminator_t terminator_fault A.

Definition set_pid (p : Z) (t : terminator_t) : terminator_t :=
  mk_terminator p (timeout_kill t) (timer t) (owned t) (destroyed t) (child t) (stubborn t) (syscalls t).
Definition set_timer (h : option timer_stage) (t : terminator_t) : terminator_t :=
  mk_terminator (pid t) (timeout_kill t) h (owned t) (destroyed t) (child t) (stubborn t) (syscalls t).
Definition set_child (c : child_t) (t : terminator_t) : terminator_t :=
  mk_terminator (pid t) (timeout_kill t) (timer t) (owned t) (destroyed t) c (stubborn t) (syscalls t).
Definition set_owned (o d : bool) (t : terminator_t) : terminator_t :=
  mk_terminator (pid t) (timeout_kill t) (timer t) o d (child t) (stubborn t) (syscalls t).
Definition add_syscall (c : syscall) (t : terminator_t) : terminator_t :=
  mk_terminator (pid t) (timeout_kill t) (timer t) (owned t) (destroyed t) (child t) (stubborn t) (syscalls t ++ [c]).

(** [waitpid(pid, &status, WNOHANG)]; [group] is the answer for a pid of zero. *)
Definition waitpid_nohang (group : Z) : T Z :=
  let! t := st_get in
  if pid t =? 0 then st_modify (add_syscall WaitGroup);;; st_ret group
  else match child t with
       | Running => st_ret 0
       | Exited => st_modify (set_child Reaped);;; st_ret (pid t)
       | Reaped => st_ret (-1)
       end.

(** [waitpid(pid, &status, 0)] does not come back while the child runs. *)
Definition waitpid_blocking : T Z :=
  let! t := st_get in
  match child t with
  | Running => st_throw Blocked
  | Exited => st_modify (set_child Reaped);;; st_ret (pid t)
  | Reaped => st_ret (-1)
  end.

(** [kill(pid, s)]; [denied]: the system refuses. *)
Definition kill (denied : bool) (s : signal) : T Z :=
  let! t := st_get in
  if pid t =? 0 then st_modify (add_syscall (SignalGroup s));;; st_ret 0
  else if denied then st_ret (-1)
  else
    st_modify (add_syscall (Signal (child t) s));;;
    match child t, s with
    | Reaped, _ => st_ret (-1)
    | Running, SIGKILL => st_modify (set_child Exited);;; st_ret 0
    | Running, SIGTERM => st_when (negb (stubborn t)) (st_modify (set_child Exited));;; st_ret 0
    | Exited, _ => st_ret 0
    end.

Definition arm (seconds : Z) (h : timer_stage) : T unit :=
  st_modify (fun t => set_timer (Some h) (add_syscall (ArmTimer seconds h) t)).

(** Arming binds [shared_from_this]: [shared] says that a [shared_ptr] owns the object. *)
Definition arm_shared (shared : bool) (seconds : Z) (h : timer_stage) : T unit :=
  if shared then arm seconds h else st_throw BadWeakPtr.

Definition cancel (shared : bool) (group : Z) (denied : bool) : T unit :=
  let! r := waitpid_nohang group in
  if r =? -1 then st_ret tt
  else if r =? 0 then
    let! _ := kill denied SIGTERM in
    let! t := st_get in
    arm_shared shared (timeout_kill t) KillTimer
  else st_modify (set_pid 0).

Definition on_kill_timer (aborted : bool) (group : Z) (denied : bool) : T unit :=
  if aborted then st_ret tt else
  let! r := waitpid_nohang group in
  if r =? -1 then st_ret tt
  else if r =? 0 then
    let! _ := kill denied SIGKILL in arm timeout_gc GcTimer
  else st_modify (set_pid 0).

Definition on_gc_action (aborted : bool) (group : Z) : T unit :=
  if aborted then st_ret tt else
  let! r := waitpid_nohang group in
  if r =? -1 then st_ret tt
  else if r =? 0 then arm timeout_gc GcTimer
  else st_modify (set_pid 0).

Definition terminator_destroy (denied : bool) : T unit :=
  let! t := st_get in
  st_when (negb (pid t =? 0))
    (let! r := waitpid_nohang 0 in
     st_when (r =? 0)
       (let! k := kill denied SIGKILL in
        st_when (k =? 0) (let! _ := waitpid_blocking in st_ret tt)));;;
  st_modify (add_syscall CloseFetcher).

Inductive terminator_event :=
| Exits                                        (** the child ends by itself *)
| Cancel (group : Z) (denied : bool)
| Fires (aborted : bool) (group : Z) (denied : bool)
| Drop.                                        (** the client lets the handle go *)

(** The object is destroyed when nobody has it: neither the client nor, when it is shared,
    the handler of its timer. *)
Definition release (denied : bool) : T unit :=
  let! t := st_get in
  if owned t || destroyed t || (match timer t with Some _ => true | None => false end) then st_ret tt
  else st_modify (set_owned false true);;; terminator_destroy denied.

Definition terminator_step (shared denied_at_end : bool) (e : terminator_event) : T unit :=
  let! t := st_get in
  match e with
  | Exits => match child t with Running => st_modify (set_child Exited) | _ => st_ret tt end
  | Cancel group denied => if owned t then cancel shared group denied else st_ret tt
  | Fires aborted group denied =>
      match timer t with
      | Some h =>
          st_modify (set_timer None);;;
          (match h with
           | KillTimer => on_kill_timer aborted group denied
           | GcTimer => on_gc_action aborted group
           end);;;
          release denied_at_end
      | None => st_ret tt
      end
  | Drop => if owned t then st_modify (set_owned false (destroyed t));;; release denied_at_end else st_ret tt
  end.

Fixpoint terminator_run (shared denied_at_end : bool) (es : list terminator_event) : T unit :=
  match es with
  | [] => st_ret tt
  | e :: es => terminator_step shared denied_at_end e;;; terminator_run shared denied_at_end es
  end.

(** *** Facts of the fetcher *)

(** The data read before the first read that fails. *)
Fixpoint delivered (es : list fetcher_event) : list string :=
  match es with
  | FRead (ReadOk data) :: es => data :: delivered es
  | FRead _ :: _ | [] => []
  | FClose :: es => delivered es
  end.

Fixpoint ended (es : list fetcher_event) : bool :=
  match es with
  | FRead (ReadOk _) :: es => ended es
  | FRead _ :: _ => true
  | FClose :: es => ended es
  | [] => false
  end.

Lemma fetcher_idle es f : f_pending f = 0%nat -> f_output (fetcher_run es f) = f_output f /\ f_pending (fetcher_run es f) = 0%nat.
Proof.
  revert f. induction es as [|e es IH]; intros f Hf; [done|]. simpl. destruct e as [r|]; simpl.
  - rewrite Hf. by apply IH.
  - unfold fetcher_close. destruct (f_open f); [exact (IH (mk_fetcher _ _ _ _) Hf)|by apply IH].
Qed.

(** The output of a worker is delivered completely and in order.  From the moment the
    pipe is assigned, the handle is given exactly the data of the reads before the first
    one that fails; until then one read is under way, never two, and afterwards none. *)
Theorem fetcher_delivers (fd : Z) (es : list fetcher_event) (f : fetcher_t) :
  fetcher_assign fd None fetcher_construct = Ret f ->
  f_output (fetcher_run es f) = delivered es /\ f_pending (fetcher_run es f) = (if ended es then 0 else 1)%nat.
Proof.
  intros [= <-]. change (delivered es) with ([] ++ delivered es). unfold fetcher_watch. simpl.
  assert (forall o out, let f := mk_fetcher o fd 1 out in
    f_output (fetcher_run es f) = out ++ delivered es /\ f_pending (fetcher_run es f) = (if ended es then 0 else 1)%nat) as H;
    [|apply (H true [])].
  induction es as [|e es IH]; intros o out; simpl; [by rewrite app_nil_r|].
  destruct e as [[data| | |code]|]; simpl.
  - destruct (IH o (out ++ [data])) as [H1 H2]. rewrite <-app_assoc in H1. done.
  - rewrite app_nil_r. exact (fetcher_idle es (mk_fetcher _ _ _ _) eq_refl).
  - rewrite app_nil_r. exact (fetcher_idle es (mk_fetcher _ _ _ _) eq_refl).
  - rewrite app_nil_r. exact (fetcher_idle es (mk_fetcher _ _ _ _) eq_refl).
  - unfold fetcher_close. simpl. destruct o; apply IH.
Qed.

(** *** Facts of the terminator *)

(** A call that reaches only the worker: no process group, no pid that was collected. *)
Definition proper (c : syscall) : Prop :=
  match c with
  | Signal Reaped _ | SignalGroup _ | WaitGroup => False
  | _ => True
  end.

Record terminator_wf (t : terminator_t) : Prop := {
  tw_pid : pid t <> -1;
  tw_zero : pid t = 0 -> child t = Reaped;
  tw_live : pid t <> 0 -> destroyed t = false -> child t <> Reaped;
  tw_timer : timer t <> None -> pid t <> 0 /\ destroyed t = false;
  tw_owned : owned t = true -> destroyed t = false;
  tw_calls : Forall proper (syscalls t)
}.

(** The pattern of all three handlers: collect the child, or go on if it still runs. *)
Lemma collect_cases g (m : T unit) t :
  terminator_wf t -> pid t <> 0 -> destroyed t = false ->
  let r := (let! r := waitpid_nohang g in if r =? -1 then st_ret tt else if r =? 0 then m else st_modify (set_pid 0)) t in
  (child t = Running /\ r = m t) \/
  (child t = Exited /\ r = (Ret tt, set_pid 0 (set_child Reaped t))).
Proof.
  intros Hw Hp Hd. unfold waitpid_nohang, st_bind, st_get, st_ret. destruct (Z.eqb_spec (pid t) 0); [done|].
  destruct (child t) eqn:Ec; [by left| |by destruct (tw_live _ Hw Hp Hd)]. right. split; [done|]. simpl.
  destruct (Z.eqb_spec (pid t) (-1)); [by destruct (tw_pid _ Hw)|]. by destruct (Z.eqb_spec (pid t) 0).
Qed.

Lemma collected_wf t : terminator_wf t -> timer t = None -> terminator_wf (set_pid 0 (set_child Reaped t)).
Proof. intros [] Ht. split; simpl; done || congruence. Qed.

(** A signal to a worker that runs. *)
Lemma kill_running d s t :
  terminator_wf t -> pid t <> 0 -> child t = Running ->
  exists k t', kill d s t = (Ret k, t') /\ terminator_wf t' /\
    (timer t', owned t', destroyed t', pid t') = (timer t, owned t, destroyed t, pid t) /\ child t' <> Reaped /\
    (d = false -> s = SIGKILL -> k = 0 /\ child t' = Exited) /\ (d = true -> k = -1).
Proof.
  intros Hw Hp Hc. unfold kill, st_bind, st_get. destruct (Z.eqb_spec (pid t) 0); [done|].
  destruct d; [exists (-1), t; rewrite Hc; by split_and!|].
  assert (Forall proper (syscalls t ++ [Signal Running s])) as Hs by (apply Forall_app; split; [apply Hw|by repeat constructor]).
  simpl. rewrite Hc. destruct Hw. destruct s; simpl; [destruct (stubborn t); simpl|];
    (eexists _, _; split; [reflexivity|]; split; [split; simpl; rewrite ?Hc; done || congruence|]; split_and!; simpl; rewrite ?Hc; done).
Qed.

Lemma arm_well_formed seconds h t : terminator_wf t -> pid t <> 0 -> destroyed t = false ->
  terminator_wf (set_timer (Some h) (add_syscall (ArmTimer seconds h) t)).
Proof. intros [] Hp Hd. split; simpl; try done. apply Forall_app. by repeat constructor. Qed.

(** A handler leaves a well-formed state, or finds that nobody shares the object. *)
Definition fine (shared : bool) (r : outcome terminator_fault unit * terminator_t) : Prop :=
  terminator_wf r.2 /\ destroyed r.2 = false /\ match r.1 with Ret _ => True | Throw f => f = BadWeakPtr /\ shared = false end.

Lemma cancel_fine shared g d t :
  terminator_wf t -> pid t <> 0 -> timer t = None -> destroyed t = false -> fine shared (cancel shared g d t).
Proof.
  intros Hw Hp Ht Hd. unfold cancel.
  destruct (collect_cases g (let! _ := kill d SIGTERM in let! t := st_get in arm_shared shared (timeout_kill t) KillTimer) t Hw Hp Hd)
    as [[Hc ->]|[Hc ->]]; [|split; [by apply collected_wf|by split]].
  destruct (kill_running d SIGTERM t Hw Hp Hc) as (k & t' & Hk & Hw' & [= H1 H2 H3 H4] & _). rewrite (st_bind_Ret _ _ _ _ _ Hk).
  unfold st_bind, st_get, arm_shared. destruct shared; (split; [|split; [simpl; congruence|done]]); [|done]. simpl. apply arm_well_formed; congruence || done.
Qed.

(** The handlers of the timer, which is no longer armed. *)
Lemma on_kill_timer_fine shared a g d t :
  terminator_wf t -> pid t <> 0 -> timer t = None -> destroyed t = false -> fine shared (on_kill_timer a g d t).
Proof.
  intros Hw Hp Ht Hd. unfold on_kill_timer. destruct a; [by split_and!|].
  destruct (collect_cases g (let! _ := kill d SIGKILL in arm timeout_gc GcTimer) t Hw Hp Hd)
    as [[Hc ->]|[Hc ->]]; [|split; [by apply collected_wf|by split]].
  destruct (kill_running d SIGKILL t Hw Hp Hc) as (k & t' & Hk & Hw' & [= H1 H2 H3 H4] & _). rewrite (st_bind_Ret _ _ _ _ _ Hk).
  split; [|split; [simpl; congruence|done]]. simpl. apply arm_well_formed; congruence || done.
Qed.

Lemma on_gc_action_fine shared a g t :
  terminator_wf t -> pid t <> 0 -> timer t = None -> destroyed t = false -> fine shared (on_gc_action a g t).
Proof.
  intros Hw Hp Ht Hd. unfold on_gc_action. destruct a; [by split_and!|].
  destruct (collect_cases g (arm timeout_gc GcTimer) t Hw Hp Hd) as [[Hc ->]|[Hc ->]]; [|split; [by apply collected_wf|by split]].
  split; [|done]. simpl. by apply arm_well_formed.
Qed.

(** The destructor leaves no zombie, unless the system refuses the signal. *)
Definition buried (d : bool) (t : terminator_t) : Prop := destroyed t = true -> d = false -> child t = Reaped.

Lemma close_wf t : terminator_wf t -> terminator_wf (add_syscall CloseFetcher t).
Proof. intros []. split; simpl; try done. apply Forall_app. by repeat constructor. Qed.

Lemma destroy_fine d t :
  terminator_wf t -> timer t = None -> owned t = false -> destroyed t = false ->
  exists t', terminator_destroy d (set_owned false true t) = (Ret tt, t') /\ terminator_wf t' /\ buried d t' /\ owned t' = false.
Proof.
  intros Hw Ht Ho Hd. assert (terminator_wf (set_owned false true t)) as Hw' by (destruct Hw; split; simpl; done || by rewrite Ht).
  unfold terminator_destroy, st_bind at 1, st_get. simpl. destruct (Z.eqb_spec (pid t) 0) as [Hp|Hp]; simpl.
  { eexists. split; [reflexivity|]. split; [by apply close_wf|]. split; [|done]. intros _ _. simpl. by apply Hw. }
  unfold waitpid_nohang at 1, st_bind, st_get. simpl. destruct (Z.eqb_spec (pid t) 0); [done|].
  destruct (child t) eqn:Ec; [| |by destruct (tw_live _ Hw Hp Hd)]; simpl.
  - unfold kill, st_bind, st_get. simpl. destruct (Z.eqb_spec (pid t) 0); [done|].
    destruct d; simpl; [eexists; split; [reflexivity|]; split; [by apply close_wf|by split]|]. rewrite Ec. simpl.
    eexists. split; [reflexivity|]. split; [|done].
    destruct Hw'. split; simpl; try done. repeat (apply Forall_app; split); by repeat constructor.
  - destruct (Z.eqb_spec (pid t) 0); [done|]. simpl. eexists. split; [reflexivity|]. split; [|done].
    apply close_wf. destruct Hw'. by split.
Qed.

Lemma release_fine d t : terminator_wf t -> buried d t ->
  exists t', release d t = (Ret tt, t') /\ terminator_wf t' /\ buried d t'.
Proof.
  intros Hw Hb. unfold release, st_bind at 1, st_get.
  destruct (owned t) eqn:Ho; [by exists t|]. destruct (destroyed t) eqn:Hd; [by exists t|].
  destruct (timer t) eqn:Ht; [by exists t|]. simpl. unfold st_bind, st_modify.
  destruct (destroy_fine d t Hw Ht Ho Hd) as (t' & H1 & H2 & H3 & _). by exists t'.
Qed.

(** At most [n] more cancellations come; before the last one nothing has been collected. *)
Record life (d : bool) (n : nat) (t : terminator_t) : Prop := {
  l_wf : terminator_wf t;
  l_buried : buried d t;
  l_before : n <> 0%nat -> timer t = None /\ pid t <> 0
}.

Definition cancel_count (e : terminator_event) : nat := match e with Cancel _ _ => 1 | _ => 0 end.
Definition cancels (es : list terminator_event) : nat := foldr (fun e n => cancel_count e + n)%nat 0%nat es.

Definition good (shared d : bool) (n : nat) (r : outcome terminator_fault unit * terminator_t) : Prop :=
  terminator_wf r.2 /\ match r.1 with Ret _ => life d n r.2 | Throw f => f = BadWeakPtr /\ shared = false end.

Lemma keeps_pid_release d t t' : release d t = (Ret tt, t') -> pid t' = pid t /\ timer t' = timer t.
Proof.
  set (P := fun u => pid u = pid t /\ timer u = timer t). intros H. assert (keeps P (release d)) as Hk.
  { unfold release, terminator_destroy, waitpid_nohang, kill, waitpid_blocking. keeps_walk; by apply keeps_modify. }
  specialize (Hk t (conj eq_refl eq_refl)). by rewrite H in Hk.
Qed.

Lemma good_ret shared d n t : terminator_wf t -> buried d t -> (n <> 0%nat -> timer t = None /\ pid t <> 0) ->
  good shared d n (st_ret tt t).
Proof. by intros. Qed.

Lemma exits_wf t : terminator_wf t -> child t = Running -> terminator_wf (set_child Exited t).
Proof. intros [] Hc. split; simpl; try done. intros Hz. specialize (tw_zero0 Hz). congruence. Qed.

Lemma step_good shared d e n t :
  life d (cancel_count e + n) t -> (cancel_count e + n <= 1)%nat -> good shared d n (terminator_step shared d e t).
Proof.
  intros [Hw Hb Hn] Hle. unfold terminator_step, st_bind at 1, st_get. destruct e as [|g dn|a g dn|]; simpl in Hn, Hle.
  - destruct (child t) eqn:Ec; [|by split..]. pose proof (exits_wf t Hw Ec) as Hw'. split; [done|]. simpl.
    split; [done| |done]. intros H1 H2. simpl in *. specialize (Hb H1 H2). congruence.
  - assert (n = 0%nat) as -> by lia. destruct (owned t) eqn:Ho; [|apply good_ret; [done|done|lia]]. destruct (Hn ltac:(done)) as [Ht Hp].
    destruct (cancel_fine shared g dn t Hw Hp Ht (tw_owned _ Hw Ho)) as (H1 & H2 & H3). split; [done|].
    destruct (cancel shared g dn t) as [[[]|] t']; [|done]. split; [done| |done]. intros H. simpl in *. congruence.
  - destruct (timer t) as [h|] eqn:Ht; [|apply good_ret; [done|done|intros H; split; [done|by apply Hn]]]. destruct (tw_timer _ Hw) as [Hp Hd]; [congruence|].
    assert (n = 0%nat) as -> by (destruct n; [done|]; destruct (Hn ltac:(lia)); congruence).
    assert (terminator_wf (set_timer None t)) as Hw' by (destruct Hw; by split).
    assert (fine true ((match h with KillTimer => on_kill_timer a g dn | GcTimer => on_gc_action a g end) (set_timer None t))) as Hf
      by (destruct h; [by apply on_kill_timer_fine|by apply on_gc_action_fine]).
    revert Hf. set (m := match h with KillTimer => _ | GcTimer => _ end). intros Hf.
    unfold st_bind, st_modify. destruct (m (set_timer None t)) as [[[]|f] t'].
    + destruct Hf as (H1 & H2 & _). simpl in *. destruct (release_fine d t' H1) as (u & Hu & H3 & H4); [by intros H; congruence|].
      rewrite Hu. split; [done|]. by split.
    + by destruct Hf as (_ & _ & _ & ?).
  - destruct (owned t) eqn:Ho; [|by apply good_ret]. unfold st_bind, st_modify.
    assert (terminator_wf (set_owned false (destroyed t) t)) as Hw' by (destruct Hw; by split).
    destruct (release_fine d _ Hw') as (u & Hu & H3 & H4); [by intros H; apply Hb|]. rewrite Hu. split; [done|]. split; [done|done|].
    intros H. simpl. destruct (keeps_pid_release _ _ _ Hu) as [E1 E2]. rewrite E1, E2. by apply Hn.
Qed.

Lemma run_good shared d es : forall t, (cancels es <= 1)%nat -> life d (cancels es) t ->
  good shared d 0 (terminator_run shared d es t).
Proof.
  induction es as [|e es IH]; intros t Hc Hl; [split; [apply Hl|by destruct Hl]|].
  assert (good shared d (cancels es) (terminator_step shared d e t)) as [H1 H2].
  { by apply step_good. }
  cbn [terminator_run]. unfold st_bind. destruct (terminator_step shared d e t) as [[[]|f] t']; simpl in *; [|by split].
  apply IH; [|done]. simpl in Hc. lia.
Qed.


(** The steps towards a worker that does not end: SIGTERM, SIGKILL after the timeout of the
    profile, and a last look five seconds later. *)
Lemma termination_chain p k g d :
  0 < p ->
  let r := terminator_run true d [Cancel g false; Fires false g false; Fires false g false; Drop] (terminator_construct p k true) in
  r.1 = Ret tt /\ child r.2 = Reaped /\ destroyed r.2 = true /\
  syscalls r.2 = [Signal Running SIGTERM; ArmTimer (u32 k) KillTimer; Signal Running SIGKILL; ArmTimer 5 GcTimer; CloseFetcher].
Proof. intros Hp. destruct p; [lia|by destruct d|lia]. Qed.

(** Cancelling the handle of a running worker terminates the server: the isolate
    returns the terminator in a [unique_ptr], and [cancel], which may not throw, asks for a
    [shared_ptr] of it to arm its timer. *)
Theorem cancel_terminates_server (denied_at_end denied stubborn : bool) (p kill_timeout group : Z) :
  0 < p -> (terminator_run false denied_at_end [Cancel group denied] (terminator_construct p kill_timeout stubborn)).1 = Throw BadWeakPtr.
Proof. intros Hp. destruct p; [lia|by destruct denied, stubborn|lia]. Qed.

(** A second cancellation after the worker was collected is for the process group: its
    processes, the server among them, get SIGTERM. *)
Example cancelled_twice :
  syscalls (terminator_run true false [Exits; Cancel 0 false; Cancel 0 false] (terminator_construct 42 5 false)).2 =
  [WaitGroup; SignalGroup SIGTERM; ArmTimer 5 KillTimer].
Proof. reflexivity. Qed.

(** ** Witnesses *)

Lemma fetcher_delivers_witness :
  let f := fetcher_run [FRead (ReadOk "a"); FClose; FRead (ReadOk "b"); FRead ReadAborted; FRead (ReadOk "c")] (mk_fetcher true 3 1 []) in
  f_output f = ["a"; "b"]%string /\ f_pending f = 0%nat.
Proof.
  exact (fetcher_delivers 3 [FRead (ReadOk "a"); FClose; FRead (ReadOk "b"); FRead ReadAborted; FRead (ReadOk "c")] (mk_fetcher true 3 1 []) eq_refl).
Defined.


Lemma cancel_terminates_witness : (terminator_run false false [Cancel 0 false] (terminator_construct 42 5 false)).1 = Throw BadWeakPtr.
Proof. apply (cancel_terminates_server false false false 42 5 0). lia. Defined.
