(* ===== verification/ProcessSpawn.v ===== *)
(** * Starting processes: [node/src/isolate/process.cpp], [process/archive.cpp] and
    [process/cgroup.cpp]

    [process_t] deploys the archive of an application and forks its workers.  [fork]
    returns twice: the model has the parent's side and the child's side, over tables of
    open descriptors, as the system keeps them.  The libraries for paths, archives and
    control groups are the environment: paths are joined by parameters, what the archive
    holds and which calls fail are arguments. *)

From S2P Require Import Prelude LogFilter ProcessIsolate.

Local Open Scope Z_scope.
Local Open Scope cpp_scope.

(** ** Descriptors *)

Inductive file_t := PipeRead | PipeWrite | OtherFile (n : nat).
Record descriptor_t := mk_descriptor { file : file_t; cloexec : bool }.
Abbreviation fds_t := (gmap Z descriptor_t).

(** [dup2]: the copy is not closed by [execve]. *)
Definition dup2 (old new : Z) (fds : fds_t) : fds_t :=
  match fds !! old with
  | Some d => if old =? new then fds else <[new := mk_descriptor (file d) false]> fds
  | None => fds
  end.

(** [execve] keeps what is not marked. *)
Definition after_exec (fds : fds_t) : fds_t := filter (fun x : Z * descriptor_t => cloexec x.2 = false) fds.

(** [closefrom_dir]: the names that are numbers from 3 on; [None] is a directory that is not
    there, for which it throws. *)
Definition closefrom_dir (listing : option (list (option Z))) (fds : fds_t) : option fds_t :=
  names ← listing;
  Some (foldl (fun fds fd => delete fd fds) fds (filter (fun fd => 3 <= fd) (omap id names))).

(** The exception is reported and the child goes on. *)
Definition close_all (listing : option (list (option Z))) (fds : fds_t) : fds_t :=
  default fds (closefrom_dir listing fds).

(** ** Spawning *)

(** The bytes before the first zero, which is where a C string ends. *)
Fixpoint c_str (s : string) : string :=
  match s with
  | EmptyString => EmptyString
  | String c s => if Ascii.eqb c Ascii.zero then EmptyString else String c (c_str s)
  end.

Abbreviation string_map := (list (string * string)).

(** How the child ends: another program, or [_Exit(EXIT_FAILURE)]. *)
Inductive child_fate :=
| Executed (target : string) (argv envp : list string) (fds : fds_t)
| ExitFailure.

(** What the system answers to the child. *)
Record child_env := mk_child_env {
  ce_listing : option (list (option Z));  (** the directory of its descriptors *)
  ce_attach : Z;                          (** joining the control group *)
  ce_chdir : bool;                        (** the working directory is there *)
  ce_environ : list string;               (** the environment of the server *)
  ce_exec : bool                          (** the program can be executed *)
}.

Record process_t := mk_process {
  m_name : string;
  m_working_directory : string;
  m_kill_timeout : Z
}.

Inductive spawn_result :=
| PipeFailed (errno : Z) (fds : fds_t)
| ForkFailed (errno : Z) (fds : fds_t)
| AssignFailed (errno : Z) (fds : fds_t)
| Parent (fds : fds_t) (ready_posted : bool) (fetcher : fetcher_t) (terminator : terminator_t)
| Child (fate : child_fate).

Section process.
(** [boost::filesystem::path] *)
Context (is_absolute : string -> bool) (append : string -> string -> string).

Definition process_construct (name : string) (spool : option string) (kill_timeout : option Z) : process_t :=
  mk_process name (append (default "/var/spool/cocaine"%string spool) name) (default 5 kill_timeout).

Definition target_of (p : process_t) (path : string) : string :=
  if is_absolute path then path else append (m_working_directory p) path.

Definition argv_of (p : process_t) (path : string) (args : string_map) : list string :=
  c_str (target_of p path) :: concat (map (fun kv => [c_str kv.1; c_str kv.2]) args).

Definition envp_of (environ : list string) (environment : string_map) : list string :=
  environ ++ map (fun kv => c_str (kv.1 ++ "=" ++ kv.2)%string) environment.

Definition spawn_child (p : process_t) (path : string) (args environment : string_map) (e : child_env) (r w : Z) (fds : fds_t)
    : child_fate :=
  let fds := delete r fds in
  let fds := dup2 w 2 (dup2 w 1 fds) in
  let fds := close_all (ce_listing e) fds in
  if negb (ce_attach e =? 0) then ExitFailure
  else if negb (ce_chdir e) then ExitFailure
  else if ce_exec e then
    Executed (c_str (target_of p path)) (argv_of p path args) (envp_of (ce_environ e) environment) (after_exec fds)
  else ExitFailure.

Definition spawn_parent (p : process_t) (stubborn : bool) (assign_error : option Z) (pid r w : Z) (fds : fds_t) : spawn_result :=
  let fds := delete w fds in
  match fetcher_assign r assign_error fetcher_construct with
  | Throw errno => AssignFailed errno fds
  | Ret f => Parent fds true f (terminator_construct pid (m_kill_timeout p) stubborn)
  end.

(** [pipe] answers with two descriptors, which are marked at once; [fork] with the pid in
    the parent, zero in the child. *)
Definition spawn (p : process_t) (path : string) (args environment : string_map) (e : child_env) (stubborn : bool)
    (pipe : outcome Z (Z * Z)) (fork : outcome Z Z) (assign_error : option Z) (fds : fds_t) : spawn_result :=
  match pipe with
  | Throw errno => PipeFailed errno fds
  | Ret (r, w) =>
      let fds := <[w := mk_descriptor PipeWrite true]> (<[r := mk_descriptor PipeRead true]> fds) in
      match fork with
      | Throw errno => ForkFailed errno (delete w (delete r fds))
      | Ret pid =>
          if 0 <? pid then spawn_parent p stubborn assign_error pid r w fds
          else Child (spawn_child p path args environment e r w fds)
      end
  end.

(** ** Archives *)

(** An entry as the archive library reads it: its blocks end with the end of the entry or
    with an error. *)
Record entry_t := mk_entry {
  e_path : string;
  e_hardlink : option string;
  e_size : Z;
  e_blocks : list (outcome Z (Z * string))
}.

(** Calls of the writer *)
Inductive write_call :=
| WriteHeader (path : string) (hardlink : option string)
| WriteData (offset : Z) (data : string)
| FinishEntry.

Record disk_t := mk_disk {
  removed : list string;            (** what was removed before *)
  written : list write_call;
  answers : list (option Z)         (** errors of the calls to come *)
}.

Definition D (A : Type) : Type := ST disk_t Z A.

(** A call is made, then its answer is looked at. *)
Definition write (c : write_call) : D unit :=
  let! d := st_get in
  st_modify (fun d => mk_disk (removed d) (written d ++ [c]) (tail (answers d)));;;
  match head (answers d) with
  | Some (Some errno) => st_throw errno
  | _ => st_ret tt
  end.

Fixpoint extract (blocks : list (outcome Z (Z * string))) : D unit :=
  match blocks with
  | [] => st_ret tt
  | Throw errno :: _ => st_throw errno
  | Ret (offset, data) :: blocks => write (WriteData offset data);;; extract blocks
  end.

Fixpoint unpack (prefix : string) (source : list (outcome Z entry_t)) : D unit :=
  match source with
  | [] => st_ret tt
  | Throw errno :: _ => st_throw errno
  | Ret e :: source =>
      write (WriteHeader (append prefix (e_path e)) (append prefix <$> e_hardlink e));;;
      st_when (0 <? e_size e) (extract (e_blocks e));;;
      write FinishEntry;;;
      unpack prefix source
  end.

(** [children]: what is in the directory, if there is one. *)
Definition deploy (prefix : string) (children : option (list string)) (source : list (outcome Z entry_t)) : D unit :=
  st_modify (fun d => mk_disk (removed d ++ default [] children) (written d) (answers d));;;
  unpack prefix source.

(** [spool]: the answer is posted only after the archive has been unpacked; an exception
    goes to the caller. *)
Definition spool (p : process_t) (storage : outcome Z (outcome Z (list (outcome Z entry_t)))) (children : option (list string))
    : D bool :=
  match storage with
  | Throw errno | Ret (Throw errno) => st_throw errno
  | Ret (Ret source) => deploy (m_working_directory p) children source;;; st_ret true
  end.

End process.

(** ** Control groups *)

Inductive cgroup_call :=
| AddController (name : string)
| AddBool (parameter : string) (b : bool)
| AddInt64 (parameter : string) (z : Z)
| AddUint64 (parameter : string) (z : Z)
| AddString (parameter : string) (s : string)
| CreateCgroup
| FreeCgroup
| DeleteCgroup.

(** [cgroup_configurator_t]; other kinds of values throw [invalid_argument]. *)
Definition configure (parameter : string) (v : dynamic_t) : option cgroup_call :=
  match v with
  | DBool b => Some (AddBool parameter b)
  | DInt z => Some (AddInt64 parameter z)
  | DUint z => Some (AddUint64 parameter z)
  | DString s => Some (AddString parameter (c_str s))
  | _ => None
  end.

(** The exception is caught for each parameter. *)
Fixpoint configure_all (o : list (string * dynamic_t)) : list cgroup_call :=
  match o with
  | [] => []
  | (parameter, v) :: o => option_list (configure parameter v) ++ configure_all o
  end.

Fixpoint controllers (args : list (string * dynamic_t)) : list cgroup_call :=
  match args with
  | [] => []
  | (type, DObject []) :: args => controllers args
  | (type, DObject o) :: args => AddController type :: configure_all o ++ controllers args
  | _ :: args => controllers args
  end.

(** [rv_init], [rv_create]: what the library answers. *)
Definition init_cgroups (rv_init rv_create : Z) (args : list (string * dynamic_t)) : outcome Z unit * list cgroup_call :=
  if negb (rv_init =? 0) then (Throw rv_init, [])
  else
    let log := controllers args ++ [CreateCgroup] in
    if negb (rv_create =? 0) then (Throw rv_create, log ++ [FreeCgroup]) else (Ret tt, log).

(** A failure to delete is logged. *)
Definition destroy_cgroups : list cgroup_call := [DeleteCgroup; FreeCgroup].

(** ** Facts *)

Lemma foldl_delete_lookup (ks : list Z) : forall (m : fds_t) i,
  foldl (fun m k => delete k m) m ks !! i = if decide (i ∈ ks) then None else m !! i.
Proof.
  induction ks as [|k ks IH]; intros m i; simpl; [done|]. rewrite IH.
  destruct (decide (i ∈ ks)); [by rewrite decide_True by set_solver|].
  destruct (decide (i = k)) as [->|Hne]; [rewrite lookup_delete_eq, decide_True by set_solver; done|].
  rewrite lookup_delete_ne, decide_False by set_solver. done.
Qed.

(** Every descriptor of the child is in the listing of its directory. *)
Definition complete (listing : option (list (option Z))) (fds : fds_t) : Prop :=
  match listing with
  | Some names => forall fd d, fds !! fd = Some d -> Some fd ∈ names
  | None => False
  end.

Lemma close_all_lookup listing fds fd :
  close_all listing fds !! fd = fds !! fd \/ (close_all listing fds !! fd = None /\ 3 <= fd).
Proof.
  destruct listing as [names|]; [|by left]. unfold close_all, closefrom_dir. cbn. rewrite foldl_delete_lookup.
  destruct (decide _) as [[H _]%list_elem_of_filter|]; [by right|by left].
Qed.

Lemma close_all_complete listing fds fd : complete listing fds -> 3 <= fd -> close_all listing fds !! fd = None.
Proof.
  destruct listing as [names|]; [|done]. unfold close_all, closefrom_dir. cbn. intros Hc Hfd. rewrite foldl_delete_lookup.
  destruct (decide _) as [|Hn]; [done|]. destruct (fds !! fd) as [d|] eqn:Ed; [|done]. destruct Hn.
  apply list_elem_of_filter. split; [done|]. apply list_elem_of_omap. exists (Some fd). split; [|done]. by eapply Hc.
Qed.

(** The table of the child before it closes what it does not need. *)
Definition child_fds (w : Z) (fds : fds_t) : fds_t :=
  <[2 := mk_descriptor PipeWrite false]> (<[1 := mk_descriptor PipeWrite false]> (<[w := mk_descriptor PipeWrite true]> fds)).

Lemma child_fds_dup r w fds :
  r <> w -> fds !! r = None -> fds !! w = None -> is_Some (fds !! 1) -> is_Some (fds !! 2) ->
  dup2 w 2 (dup2 w 1 (delete r (<[w := mk_descriptor PipeWrite true]> (<[r := mk_descriptor PipeRead true]> fds)))) = child_fds w fds.
Proof.
  intros Hne Hr Hw [d1 H1] [d2 H2]. rewrite delete_insert_ne by done. rewrite delete_insert_id by done.
  unfold dup2 at 2. rewrite lookup_insert_eq. destruct (Z.eqb_spec w 1) as [->|Hw1]; [congruence|].
  unfold dup2. rewrite lookup_insert_ne by done. rewrite lookup_insert_eq. destruct (Z.eqb_spec w 2) as [->|Hw2]; [congruence|done].
Qed.

Lemma after_exec_lookup fds fd d : after_exec fds !! fd = Some d <-> fds !! fd = Some d /\ cloexec d = false.
Proof. unfold after_exec. by rewrite map_lookup_filter_Some. Qed.

Section facts.
Context (is_absolute : string -> bool) (append : string -> string -> string).

(** Who holds which end of the pipe.  When a process is forked, the server keeps the end
    to read, and the fetcher reads from it; the program that the child becomes writes to
    the pipe as its output and its errors, holds no other end of it, and has no other
    descriptor but its input when the directory of its descriptors can be listed, and only
    those meant to be inherited when it cannot. *)
Theorem spawn_descriptors (p : process_t) (path : string) (args environment : string_map) (e : child_env) (stubborn : bool)
    (r w : Z) (fork : outcome Z Z) (fds : fds_t) :
  r <> w -> fds !! r = None -> fds !! w = None -> is_Some (fds !! 1) -> is_Some (fds !! 2) ->
  (forall fd d, fds !! fd = Some d -> file d <> PipeRead /\ file d <> PipeWrite) ->
  match spawn is_absolute append p path args environment e stubborn (Ret (r, w)) fork None fds with
  | Parent fds' ready f t =>
      fds' = <[r := mk_descriptor PipeRead true]> fds /\ ready = true /\ f_fd f = r /\ f_pending f = 1%nat /\ fork = Ret (pid t)
  | Child (Executed _ _ _ fds') =>
      (forall fd d, fds' !! fd = Some d -> file d <> PipeRead /\ (file d = PipeWrite <-> fd = 1 \/ fd = 2)) /\
      is_Some (fds' !! 1) /\ is_Some (fds' !! 2) /\
      (forall fd d, fds' !! fd = Some d -> fd = 1 \/ fd = 2 \/ fds !! fd = Some d /\ cloexec d = false) /\
      (complete (ce_listing e) (child_fds w fds) -> forall fd, 3 <= fd -> fds' !! fd = None)
  | Child ExitFailure => True
  | ForkFailed _ fds' => fds' = fds
  | AssignFailed _ _ | PipeFailed _ _ => False
  end.
Proof.
  intros Hne Hr Hw H1 H2 Hpipe. unfold spawn. destruct fork as [pid'|errno].
  2:{ rewrite delete_insert_ne by done. rewrite (delete_insert_id fds r) by done. by rewrite delete_insert_id. }
  destruct (0 <? pid'); [unfold spawn_parent; simpl; rewrite delete_insert_id by (by rewrite lookup_insert_ne); done|].
  unfold spawn_child. rewrite child_fds_dup by done. destruct (negb (ce_attach e =? 0)); [done|].
  destruct (negb (ce_chdir e)); [done|]. destruct (ce_exec e); [|done].
  assert (forall fd d, after_exec (close_all (ce_listing e) (child_fds w fds)) !! fd = Some d ->
    child_fds w fds !! fd = Some d /\ cloexec d = false) as Hall.
  { intros fd d [Hd Hc]%after_exec_lookup. split; [|done]. destruct (close_all_lookup (ce_listing e) (child_fds w fds) fd) as [<-|[Hn _]]; [done|congruence]. }
  assert (forall fd, fd = 1 \/ fd = 2 -> after_exec (close_all (ce_listing e) (child_fds w fds)) !! fd = Some (mk_descriptor PipeWrite false)) as Hout.
  { intros fd Hfd. apply after_exec_lookup. split; [|done].
    destruct (close_all_lookup (ce_listing e) (child_fds w fds) fd) as [->|[_ ?]]; [|lia]. unfold child_fds.
    destruct Hfd as [-> | ->]; by rewrite ?lookup_insert_ne, lookup_insert_eq by done. }
  assert (forall fd d, child_fds w fds !! fd = Some d -> cloexec d = false ->
    (fd = 1 \/ fd = 2) /\ file d = PipeWrite \/ fds !! fd = Some d) as Hcases.
  { intros fd d Hd Hc. unfold child_fds in Hd. apply lookup_insert_Some in Hd as [[<- <-]|[_ Hd]]; [left; auto|].
    apply lookup_insert_Some in Hd as [[<- <-]|[_ Hd]]; [left; auto|]. apply lookup_insert_Some in Hd as [[<- <-]|[_ Hd]]; [done|by right]. }
  split_and!.
  - intros fd d Hd. pose proof Hd as [Hd' Hc]%Hall. destruct (Hcases _ _ Hd' Hc) as [[Hfd ->]|Hf]; [by split; [|split]|].
    destruct (Hpipe _ _ Hf) as [Hp1 Hp2]. split; [exact Hp1|]. split; [intros ?; by destruct Hp2|]. intros Hfd. rewrite (Hout _ Hfd) in Hd. by injection Hd as <-.
  - rewrite Hout by auto. done.
  - rewrite Hout by auto. done.
  - intros fd d [Hd Hc]%Hall. destruct (Hcases _ _ Hd Hc) as [[[-> | ->] _]|Hf]; auto.
  - intros Hcomp fd Hfd. destruct (after_exec _ !! fd) as [d|] eqn:Ed; [|done]. apply after_exec_lookup in Ed as [Ed _].
    by rewrite close_all_complete in Ed.
Qed.

(** *** Archives *)

(** The calls that unpacking an archive means, and the error that ends it, if the archive
    cannot be read to its end. *)
Fixpoint block_calls (blocks : list (outcome Z (Z * string))) : list write_call * option Z :=
  match blocks with
  | [] => ([], None)
  | Throw errno :: _ => ([], Some errno)
  | Ret (offset, data) :: blocks => (WriteData offset data :: (block_calls blocks).1, (block_calls blocks).2)
  end.

Fixpoint archive_calls (prefix : string) (source : list (outcome Z entry_t)) : list write_call * option Z :=
  match source with
  | [] => ([], None)
  | Throw errno :: _ => ([], Some errno)
  | Ret e :: source =>
      let data := if 0 <? e_size e then block_calls (e_blocks e) else ([], None) in
      let header := WriteHeader (append prefix (e_path e)) (append prefix <$> e_hardlink e) in
      match data.2 with
      | Some errno => (header :: data.1, Some errno)
      | None => (header :: data.1 ++ FinishEntry :: (archive_calls prefix source).1, (archive_calls prefix source).2)
      end
  end.

(** Making the calls one by one, until one fails. *)
Fixpoint attempt (calls : list write_call) (err : option Z) : D unit :=
  match calls with
  | [] => match err with Some errno => st_throw errno | None => st_ret tt end
  | c :: calls => write c;;; attempt calls err
  end.

Lemma bind_ext (m : D unit) (f g : unit -> D unit) d : (forall d', f tt d' = g tt d') -> st_bind m f d = st_bind m g d.
Proof. intros H. unfold st_bind. destruct (m d) as [[[]|] d']; [apply H|done]. Qed.

Lemma attempt_app a b err d : attempt (a ++ b) err d = (attempt a None;;; attempt b err) d.
Proof.
  revert d. induction a as [|c a IH]; intros d; [done|]. simpl. unfold st_bind. destruct (write c d) as [[[]|] d']; [apply IH|done].
Qed.

Lemma attempt_error_app a errno d (m : D unit) : (attempt a (Some errno);;; m) d = attempt a (Some errno) d.
Proof.
  revert d. induction a as [|c a IH]; intros d; [done|]. simpl. unfold st_bind in *. destruct (write c d) as [[[]|] d']; [apply IH|done].
Qed.

Lemma extract_attempt blocks d : extract blocks d = attempt (block_calls blocks).1 (block_calls blocks).2 d.
Proof.
  revert d. induction blocks as [|[[offset data]|errno] blocks IH]; intros d; [done| |done]. simpl. unfold st_bind.
  destruct (write _ d) as [[[]|] d']; [apply IH|done].
Qed.

Lemma unpack_attempt prefix source d : unpack append prefix source d = attempt (archive_calls prefix source).1 (archive_calls prefix source).2 d.
Proof.
  revert d. induction source as [|[e|errno] source IH]; intros d; [done| |done]. cbn [unpack archive_calls].
  set (data := if 0 <? e_size e then block_calls (e_blocks e) else ([], None)).
  assert (forall (m : D unit) d, (st_when (0 <? e_size e) (extract (e_blocks e));;; m) d = (attempt data.1 data.2;;; m) d) as Hdata.
  { intros m d'. unfold st_bind, data. destruct (0 <? e_size e); [|done]. cbn [st_when]. by rewrite extract_attempt. }
  transitivity ((write (WriteHeader (append prefix (e_path e)) (append prefix <$> e_hardlink e));;; attempt data.1 data.2;;;
    write FinishEntry;;; unpack append prefix source) d).
  { apply bind_ext. intros d'. apply Hdata. }
  destruct data.2 as [errno|] eqn:Ed; cbn [fst snd attempt]; apply bind_ext; intros d'; [apply attempt_error_app|].
  rewrite attempt_app. apply bind_ext. intros d''. cbn [attempt]. by apply bind_ext.
Qed.

Lemma attempt_spec calls err : forall d,
  let r := attempt calls err d in
  removed r.2 = removed d /\
  (exists done rest, calls = done ++ rest /\ written r.2 = written d ++ done /\ (r.1 = Ret tt -> rest = [])) /\
  (r.1 = Ret tt <-> err = None /\ Forall (fun a => a = None) (take (length calls) (answers d))).
Proof.
  induction calls as [|c calls IH]; intros d.
  - simpl. destruct err; simpl; (split; [done|]; split; [exists [], []; by split_and!; rewrite ?app_nil_r|]); [split; [done|by intros [? _]]|by split].
  - set (d' := mk_disk (removed d) (written d ++ [c]) (tail (answers d))).
    destruct (head (answers d)) as [[errno|]|] eqn:Ea.
    { assert (attempt (c :: calls) err d = (Throw errno, d')) as -> by (unfold attempt, write, st_bind, st_get, st_modify; by rewrite Ea).
      split; [done|]. split; [exists [c], calls; split; [done|split; [done|by intros [=]]]|]. split; [by intros [=]|].
      intros [_ H]. destruct (answers d); [done|]. injection Ea as ->. by apply Forall_cons in H as [? _]. }
    all: assert (attempt (c :: calls) err d = attempt calls err d') as -> by (unfold attempt, write, st_bind, st_get, st_modify; by rewrite Ea);
      destruct (IH d') as (H1 & (dn & rest & H2 & H3 & H4) & H5); (split; [exact H1|]); split;
      [exists (c :: dn), rest; split; [simpl; congruence|]; split; [by rewrite H3; simpl; rewrite <-app_assoc|exact H4]|].
    + rewrite H5. subst d'. simpl. destruct (answers d); [done|]. injection Ea as ->. simpl. rewrite Forall_cons. naive_solver.
    + rewrite H5. subst d'. simpl. destruct (answers d); [|done]. simpl. rewrite ?take_nil. naive_solver.
Qed.

(** What deploying an archive does.  The old content of the directory is removed; then
    every entry is written under the directory, header, data and end, in the order of the
    archive, and the first call that fails is the last one.  Deployment succeeds exactly
    when the archive can be read to its end and no call fails, and then all of it has been
    written. *)
Theorem deploy_extracts (prefix : string) (children : option (list string)) (source : list (outcome Z entry_t)) (as_ : list (option Z)) :
  let r := deploy append prefix children source (mk_disk [] [] as_) in
  let calls := (archive_calls prefix source).1 in
  removed r.2 = default [] children /\
  (exists rest, calls = written r.2 ++ rest) /\
  (r.1 = Ret tt <-> (archive_calls prefix source).2 = None /\ Forall (fun a => a = None) (take (length calls) as_)) /\
  (r.1 = Ret tt -> written r.2 = calls).
Proof.
  assert (deploy append prefix children source (mk_disk [] [] as_) =
    attempt (archive_calls prefix source).1 (archive_calls prefix source).2 (mk_disk (default [] children) [] as_)) as -> by apply unpack_attempt.
  destruct (attempt_spec (archive_calls prefix source).1 (archive_calls prefix source).2 (mk_disk (default [] children) [] as_))
    as (H1 & (dn & rest & H2 & H3 & H4) & H5). cbn [app removed written answers] in *.
  split; [exact H1|]. split; [exists rest; congruence|]. split; [exact H5|]. intros Hr. rewrite H3. rewrite (H4 Hr), app_nil_r in H2. congruence.
Qed.

End facts.

(** Only the values that a control group can take are given to it; the others do not keep
    them from being given. *)
Lemma configure_all_spec o c :
  c ∈ configure_all o <-> exists parameter v, (parameter, v) ∈ o /\ configure parameter v = Some c.
Proof.
  induction o as [|[parameter v] o IH]; simpl.
  - split; [set_solver|]. intros (? & ? & H & _). set_solver.
  - rewrite elem_of_app, IH. split.
    + intros [H|(q & u & H1 & H2)]; [|exists q, u; set_solver]. exists parameter, v. split; [set_solver|].
      destruct (configure parameter v); set_solver.
    + intros (q & u & [[= -> ->]|H]%elem_of_cons & H2); [left; rewrite H2; set_solver|right; eauto].
Qed.

(** ** Witnesses *)

Definition slash_join (a b : string) : string := (a ++ "/" ++ b)%string.
Definition a_process : process_t := mk_process "app" "/var/spool/cocaine/app" 5.
Definition server_fds : fds_t :=
  <[0 := mk_descriptor (OtherFile 0) false]> (<[1 := mk_descriptor (OtherFile 1) false]>
    (<[2 := mk_descriptor (OtherFile 2) false]> (<[7 := mk_descriptor (OtherFile 7) false]> ∅))).

(** The program and its environment; a variable of the server comes before that of the
    worker with the same name. *)
Example spawn_example :
  spawn (fun _ => false) slash_join a_process "worker" [("--uuid", "u")] [("HOME", "/")]%string
    (mk_child_env (Some [Some 0; Some 1; Some 2; Some 3; Some 4; Some 7; None]) 0 true ["HOME=/root"]%string true) false (Ret (3, 4)) (Ret 0) None server_fds =
  Child (Executed "/var/spool/cocaine/app/worker" ["/var/spool/cocaine/app/worker"; "--uuid"; "u"] ["HOME=/root"; "HOME=/"]
    (<[0 := mk_descriptor (OtherFile 0) false]> (<[1 := mk_descriptor PipeWrite false]> (<[2 := mk_descriptor PipeWrite false]> ∅))))%string.
Proof. vm_compute. reflexivity. Qed.

Lemma spawn_descriptors_witness :
  match spawn (fun _ => false) slash_join a_process "worker" [] [] (mk_child_env None 0 true [] true) false (Ret (3, 4)) (Ret 42) None server_fds with
  | Parent fds' ready f t =>
      fds' = <[3 := mk_descriptor PipeRead true]> server_fds /\ ready = true /\ f_fd f = 3 /\ f_pending f = 1%nat /\ Ret 42 = @Ret Z Z (pid t)
  | _ => False
  end.
Proof.
  exact (spawn_descriptors (fun _ => false) slash_join a_process "worker" [] [] (mk_child_env None 0 true [] true) false 3 4 (Ret 42) server_fds
    ltac:(lia) eq_refl eq_refl ltac:(by eexists) ltac:(by eexists)
    ltac:(intros fd d Hd; unfold server_fds in Hd; repeat (apply lookup_insert_Some in Hd as [[_ <-]|[_ Hd]]; [done|]); done)).
Defined.
