(* ===== verification/Http.v ===== *)
(** * HTTP requests of the docker plugin: [docker/http.cpp] and the transport of
    [docker/docker_client.cpp]

    Headers, requests and responses; endpoints and how a connection to one is made; a
    request carried out by the curl library.

    What the libraries do is the environment: the comparison of header names is a class
    with the laws of an equivalence, ports are printed and parsed by parameters, the
    events of the loop that connects and the answers of the transfers are arguments. *)

From Stdlib Require Import Ascii.
From S2P Require Import Prelude.

Local Open Scope string_scope.
Local Open Scope Z_scope.
Local Open Scope cpp_scope.

(** [boost::iequals] *)
Class IEquals (iequals : string -> string -> bool) : Prop := {
  iequals_refl : forall a, iequals a a = true;
  iequals_sym : forall a b, iequals a b = iequals b a;
  iequals_trans : forall a b c, iequals a b = true -> iequals b c = iequals a c
}.

(** ** Headers *)

Abbreviation headers_vector_t := (list (string * string)).

Section headers.
Context (iequals : string -> string -> bool) `{!IEquals iequals}.

Fixpoint headers (h : headers_vector_t) (key : string) : list string :=
  match h with
  | [] => []
  | (k, v) :: h => if iequals k key then v :: headers h key else headers h key
  end.

Fixpoint header (h : headers_vector_t) (key : string) : option string :=
  match h with
  | [] => None
  | (k, v) :: h => if iequals k key then Some v else header h key
  end.

Definition add_header (key value : string) (h : headers_vector_t) : headers_vector_t := (h ++ [(key, value)])%list.

Fixpoint other_headers (key : string) (h : headers_vector_t) : headers_vector_t :=
  match h with
  | [] => []
  | (k, v) :: h => if negb (iequals k key) then (k, v) :: other_headers key h else other_headers key h
  end.

Definition reset_headers (key : string) (values : list string) (h : headers_vector_t) : headers_vector_t :=
  (other_headers key h ++ map (pair key) values)%list.

Definition reset_header (key value : string) (h : headers_vector_t) : headers_vector_t :=
  add_header key value (other_headers key h).

End headers.

Record http_request_t := mk_request {
  method : string;
  uri : string;
  http_version : string;
  request_headers : headers_vector_t;
  request_body : string
}.

Record http_response_t := mk_response {
  code : Z;
  response_headers : headers_vector_t;
  response_body : string
}.

(** ** Callbacks of the transfer *)

(** [isspace] in the C locale *)
Definition isspace (c : Ascii.ascii) : bool :=
  let n := Ascii.nat_of_ascii c in (n =? 32)%nat || ((9 <=? n)%nat && (n <=? 13)%nat).

Fixpoint skip_spaces (l : list Ascii.ascii) : list Ascii.ascii :=
  match l with
  | c :: l' => if isspace c then skip_spaces l' else l
  | [] => []
  end.

(** From both ends of the range *)
Definition strip (s : string) : string :=
  String.string_of_list_ascii (rev (skip_spaces (rev (skip_spaces (String.list_ascii_of_string s))))).

(** [std::find]: what is before the character, and what is after it if it is there. *)
Fixpoint find_char (c : Ascii.ascii) (s : string) : string * option string :=
  match s with
  | EmptyString => (EmptyString, None)
  | String a s => if Ascii.eqb a c then (EmptyString, Some s) else (String a (find_char c s).1, (find_char c s).2)
  end.

Definition newline : Ascii.ascii := Ascii.ascii_of_nat 10.

Definition header_callback (line : string) (r : http_response_t) : http_response_t :=
  match find_char ":"%char line with
  | (field, Some rest) =>
      mk_response (code r) (add_header (strip field) (strip (find_char newline rest).1) (response_headers r)) (response_body r)
  | (_, None) => r
  end.

Definition write_callback (data : string) (r : http_response_t) : http_response_t :=
  mk_response (code r) (response_headers r) (response_body r ++ data).

(** ** Endpoints *)

Inductive endpoint_t :=
| unix_endpoint (path : string)
| tcp_endpoint (host : string) (port : Z).

Section endpoints.
(** [boost::lexical_cast] between [uint16_t] and strings *)
Context (print_port : Z -> string) (parse_port : string -> option Z).

(** The rest of a string after a prefix *)
Fixpoint after_prefix (p s : string) : option string :=
  match p, s with
  | EmptyString, _ => Some s
  | String a p, String b s => if Ascii.eqb a b then after_prefix p s else None
  | _, _ => None
  end.

(** [None] is the exception: a bad format. *)
Definition from_string (endpoint : string) : option endpoint_t :=
  match after_prefix "tcp://" endpoint with
  | Some rest =>
      match find_char ":"%char rest with
      | (host, Some port) => tcp_endpoint host <$> parse_port port
      | (_, None) => None
      end
  | None => unix_endpoint <$> after_prefix "unix://" endpoint
  end.

Definition is_tcp (e : endpoint_t) : bool := match e with tcp_endpoint _ _ => true | unix_endpoint _ => false end.

Definition to_string (e : endpoint_t) : string :=
  match e with
  | tcp_endpoint host port => "tcp://" ++ host ++ ":" ++ print_port port
  | unix_endpoint path => "unix://" ++ path
  end.

(** ** Connecting

    The handlers run in a loop of their own until one of them stops it. *)

Inductive pending_t := Resolving | Connecting (next_endpoint : nat).

Record connector_t := mk_connector {
  socket : option nat;               (** the endpoint to which it is connected, or is to be *)
  error : Z;
  endpoints : list string;
  pending : option pending_t;
  stopped : bool;
  exit_with_timeout : bool
}.

Definition connector_construct : connector_t := mk_connector None 0 [] (Some Resolving) false false.

(** [boost::asio::error::operation_aborted] *)
Context (operation_aborted : Z).

Definition resolve_handler (ec : Z) (eps : list string) (c : connector_t) : connector_t :=
  if ec =? operation_aborted then mk_connector (socket c) ec (endpoints c) None (stopped c) (exit_with_timeout c)
  else if negb (ec =? 0) then mk_connector (socket c) ec (endpoints c) None true (exit_with_timeout c)
  else match eps with
       | [] => mk_connector (socket c) ec (endpoints c) None true (exit_with_timeout c)
       | _ => mk_connector (Some 0%nat) ec eps (Some (Connecting 1)) (stopped c) (exit_with_timeout c)
       end.

Definition connect_handler (ec : Z) (next_endpoint : nat) (c : connector_t) : connector_t :=
  if ec =? operation_aborted then mk_connector (socket c) (error c) (endpoints c) None (stopped c) (exit_with_timeout c)
  else if ec =? 0 then mk_connector (socket c) (error c) (endpoints c) None true (exit_with_timeout c)
  else if (next_endpoint <? length (endpoints c))%nat then
    mk_connector (Some next_endpoint) (error c) (endpoints c) (Some (Connecting (S next_endpoint))) (stopped c) (exit_with_timeout c)
  else mk_connector None ec (endpoints c) None true (exit_with_timeout c).

Definition timeout_handler (ec : Z) (c : connector_t) : connector_t :=
  if ec =? 0 then mk_connector (socket c) (error c) (endpoints c) (pending c) true true else c.

Inductive loop_event := Resolved (ec : Z) (eps : list string) | Connected (ec : Z) | TimerFired (ec : Z).

(** A handler runs only for what is pending. *)
Definition loop_step (c : connector_t) (e : loop_event) : connector_t :=
  if stopped c then c else
  match e, pending c with
  | Resolved ec eps, Some Resolving => resolve_handler ec eps c
  | Connected ec, Some (Connecting next) => connect_handler ec next c
  | TimerFired ec, _ => timeout_handler ec c
  | _, _ => c
  end.

Inductive connect_error := TimedOut | SystemError (ec : Z).

(** The end of [connect], when the loop has been left *)
Definition connect_result (c : connector_t) : outcome connect_error nat :=
  if exit_with_timeout c then Throw TimedOut
  else match socket c with Some i => Ret i | None => Throw (SystemError (error c)) end.

Definition tcp_connect (es : list loop_event) : outcome connect_error nat :=
  connect_result (foldl loop_step connector_construct es).

(** A socket of the file system has one endpoint: an error of it is kept, and thrown at the
    end. *)
Definition local_connect (timed_out : bool) (ec : Z) : outcome connect_error nat :=
  if timed_out then Throw TimedOut else if ec =? 0 then Ret 0%nat else Throw (SystemError ec).

(** ** Transfers *)

(** The method of curl that carries the request; what is written on the first line is the
    custom request. *)
Inductive mode_t := HttpGet | HttpPost (fields : string) | NoBody.

Record sent_t := mk_sent {
  s_url : string;
  s_mode : mode_t;
  s_custom_request : option string;
  s_header_lines : list string
}.

Record reply_t := mk_reply {
  r_connect : outcome connect_error nat;
  r_curl : Z;
  r_code : Z;
  r_header_lines : list string;
  r_chunks : list string
}.

Inductive transfer_error := ConnectFailed (e : connect_error) | CurlFailed (ec : Z) | NoReply.

Record wire_t := mk_wire { sent : list sent_t; replies : list reply_t }.

Definition X (A : Type) : Type := ST wire_t transfer_error A.

Definition url_of (e : endpoint_t) (r : http_request_t) : string :=
  match e with
  | tcp_endpoint host port => "http://" ++ host ++ ":" ++ print_port port ++ uri r
  | unix_endpoint _ => "http://" ++ "127.0.0.1" ++ uri r
  end.

Definition header_line (h : string * string) : string := h.1 ++ ": " ++ h.2.

Definition received (r : reply_t) (response : http_response_t) : http_response_t :=
  let response := foldl (fun x l => header_callback l x) response (r_header_lines r) in
  let response := foldl (fun x d => write_callback d x) response (r_chunks r) in
  mk_response (r_code r) (response_headers response) (response_body response).

(** A connection is made, and the request sent; the response is filled even when curl
    reports an error. *)
Definition perform (e : endpoint_t) (mode : mode_t) (response : http_response_t) (request : http_request_t)
    : X (nat * http_response_t) :=
  let! w := st_get in
  match replies w with
  | [] => st_throw NoReply
  | r :: rest =>
      st_modify (fun w => mk_wire (sent w) rest);;;
      match r_connect r with
      | Throw x => st_throw (ConnectFailed x)
      | Ret connection =>
          st_modify (fun w => mk_wire (sent w ++ [mk_sent (url_of e request) mode
            (if (method request =? "")%string then None else Some (method request)) (map header_line (request_headers request))])%list (replies w));;;
          if r_curl r =? 0 then st_ret (connection, received r response) else st_throw (CurlFailed (r_curl r))
      end
  end.

Definition get (e : endpoint_t) (response : http_response_t) (request : http_request_t) : X (nat * http_response_t) :=
  perform e HttpGet response request.
Definition post (e : endpoint_t) (response : http_response_t) (request : http_request_t) : X (nat * http_response_t) :=
  perform e (HttpPost (request_body request)) response request.
Definition head (e : endpoint_t) (response : http_response_t) (request : http_request_t) : X (nat * http_response_t) :=
  perform e NoBody response request.

End endpoints.

(** ** Facts *)

Section header_facts.
Context (iequals : string -> string -> bool) `{HI : !IEquals iequals}.

Lemma other_headers_headers key h k' :
  headers iequals (other_headers iequals key h) k' = if iequals key k' then [] else headers iequals h k'.
Proof using HI.
  induction h as [|[k v] h IH]; simpl; [by destruct (iequals key k')|].
  destruct (iequals k key) eqn:Ek; simpl; rewrite IH.
  - rewrite <-(iequals_trans k key k' Ek). by destruct (iequals key k').
  - destruct (iequals k k') eqn:E; [|done]. destruct (iequals key k') eqn:E'; [|done].
    rewrite iequals_sym in E'. rewrite (iequals_trans k k' key E) in E'. congruence.
Qed.

Lemma headers_app h h' k : headers iequals (h ++ h')%list k = (headers iequals h k ++ headers iequals h' k)%list.
Proof. induction h as [|[k' v] h IH]; simpl; [done|]. destruct (iequals k' k); simpl; by rewrite IH. Qed.

(** The first of the headers with a name *)
Lemma header_first h k : header iequals h k = List.hd_error (headers iequals h k).
Proof. induction h as [|[k' v] h IH]; simpl; [done|]. by destruct (iequals k' k). Qed.

Lemma headers_paired key values k' :
  headers iequals (map (pair key) values) k' = if iequals key k' then values else [].
Proof. induction values as [|v l IH]; simpl; [by destruct (iequals key k')|]. rewrite IH. by destruct (iequals key k'). Qed.

(** Headers are a map from names, compared without regard to case, to lists of values:
    resetting a header replaces all values under its name, in any case, by the new one, and
    adding one appends it; the values under other names stay. *)
Theorem headers_spec (key value k : string) (values : list string) (h : headers_vector_t) :
  headers iequals (reset_header iequals key value h) k = (if iequals key k then [value] else headers iequals h k) /\
  headers iequals (reset_headers iequals key values h) k = (if iequals key k then values else headers iequals h k) /\
  headers iequals (add_header key value h) k = (headers iequals h k ++ if iequals key k then [value] else [])%list /\
  header iequals h k = List.hd_error (headers iequals h k).
Proof using HI.
  unfold reset_header, reset_headers, add_header. rewrite !headers_app, other_headers_headers, headers_paired. simpl.
  split; [by destruct (iequals key k); rewrite ?app_nil_r|]. split; [by destruct (iequals key k); rewrite ?app_nil_r|].
  split; [done|]. apply header_first.
Qed.

End header_facts.

(** *** Lines *)

Lemma find_char_app c a b : (find_char c a).2 = None -> find_char c (a ++ String c b) = (a, Some b).
Proof.
  induction a as [|x a IH]; string_simpl; simpl; [by rewrite Ascii.eqb_refl|]. destruct (Ascii.eqb x c); [done|]. intros H. by rewrite IH.
Qed.

Lemma find_char_none c a : (find_char c a).2 = None -> (find_char c a).1 = a.
Proof. induction a as [|x a IH]; simpl; [done|]. destruct (Ascii.eqb x c); [done|]. intros H. simpl. by rewrite IH. Qed.

(** A name or a value that a line can carry: no space at its ends. *)
Definition tight (s : string) : Prop := strip s = s.

Lemma skip_spaces_cons a l : isspace a = true -> skip_spaces (a :: l) = skip_spaces l.
Proof. simpl. by intros ->. Qed.

Lemma list_of_app a b : String.list_ascii_of_string (a ++ b) = (String.list_ascii_of_string a ++ String.list_ascii_of_string b)%list.
Proof. induction a as [|c a IH]; string_simpl; simpl; [done|]. by rewrite IH. Qed.

Lemma strip_space s : strip (String " " s) = strip s.
Proof. done. Qed.

Lemma skip_spaces_snoc l a : isspace a = true -> rev (skip_spaces (rev (skip_spaces (l ++ [a])))) = rev (skip_spaces (rev (skip_spaces l))).
Proof.
  intros Ha. assert (skip_spaces (l ++ [a]) = match skip_spaces l with [] => [] | _ => skip_spaces l ++ [a] end)%list as ->.
  { induction l as [|b l IH]; simpl; [by rewrite Ha|]. destruct (isspace b); [exact IH|done]. }
  destruct (skip_spaces l) as [|b l'] eqn:E; [done|]. by rewrite rev_unit, skip_spaces_cons.
Qed.

Lemma strip_carriage s : strip (s ++ String (Ascii.ascii_of_nat 13) EmptyString) = strip s.
Proof. unfold strip. rewrite list_of_app. simpl. by rewrite skip_spaces_snoc. Qed.

Lemma find_none_app c a b : (find_char c a).2 = None -> (find_char c b).2 = None -> (find_char c (a ++ b)).2 = None.
Proof. intros Ha Hb. induction a as [|x a IH]; string_simpl; simpl in *; [done|]. by destruct (Ascii.eqb x c); [|apply IH]. Qed.

Definition crlf : string := String (Ascii.ascii_of_nat 13) (String newline EmptyString).

Record clean (h : string * string) : Prop := {
  cl_name : tight h.1;
  cl_value : tight h.2;
  cl_colon : (find_char ":"%char h.1).2 = None;
  cl_newline : (find_char newline h.2).2 = None
}.

Lemma header_line_parsed h r :
  clean h -> header_callback (header_line h ++ crlf) r = mk_response (code r) (response_headers r ++ [h])%list (response_body r).
Proof.
  intros [H1 H2 H3 H4]. destruct h as [k v]. unfold header_callback, header_line. simpl in *.
  rewrite !string_app_assoc. string_simpl. rewrite find_char_app by done.
  change (String " " (v ++ crlf)) with (String " " v ++ (String (Ascii.ascii_of_nat 13) EmptyString ++ String newline EmptyString)).
  rewrite <-string_app_assoc. change (String newline EmptyString) with (String newline "").
  rewrite find_char_app by (apply find_none_app; [exact H4|done]). cbn [fst].
  rewrite strip_carriage, strip_space. unfold add_header. unfold tight in *. by rewrite H1, H2.
Qed.

(** A header that is written can be read back.  The lines in which a request prints its
    headers are parsed by the callback of a response to the same headers, in the same
    order, when no name has a colon, no value a newline, and none a space at its ends. *)
Theorem header_lines_roundtrip (hs : headers_vector_t) (r : http_response_t) :
  Forall clean hs ->
  foldl (fun x l => header_callback l x) r (map (fun h => header_line h ++ crlf) hs) =
  mk_response (code r) (response_headers r ++ hs)%list (response_body r).
Proof.
  intros H. revert r. induction H as [|h hs Hh _ IH]; intros r; simpl; [rewrite app_nil_r; by destruct r|].
  rewrite header_line_parsed by done. rewrite IH. simpl. by rewrite <-app_assoc.
Qed.

(** *** Endpoints *)

Lemma after_prefix_app p s : after_prefix p (p ++ s) = Some s.
Proof. induction p as [|a p IH]; string_simpl; simpl; [done|]. by rewrite Ascii.eqb_refl. Qed.

(** An endpoint that is printed is parsed back, when its host has no colon and its port
    is a 16-bit number. *)
Theorem endpoint_roundtrip (print_port : Z -> string) (parse_port : string -> option Z) (e : endpoint_t) :
  (forall p, 0 <= p < 2 ^ 16 -> parse_port (print_port p) = Some p) ->
  match e with tcp_endpoint host port => (find_char ":"%char host).2 = None /\ 0 <= port < 2 ^ 16 | unix_endpoint _ => True end ->
  from_string parse_port (to_string print_port e) = Some e.
Proof.
  intros Hport He. destruct e as [path|host port]; [done|]. destruct He as [Hh Hp]. unfold from_string, to_string.
  rewrite after_prefix_app. change (":" ++ print_port port) with (String ":"%char (print_port port)).
  rewrite find_char_app by done. by rewrite Hport.
Qed.

(** *** Connecting *)

(** The first endpoint that can be connected to *)
Fixpoint first_ok (i : nat) (errors : list Z) : option nat :=
  match errors with
  | [] => None
  | ec :: errors => if ec =? 0 then Some i else first_ok (S i) errors
  end.

Lemma stopped_stays (aborted : Z) es c : stopped c = true -> foldl (loop_step aborted) c es = c.
Proof. induction es as [|e es IH]; intros Hc; simpl; [done|]. assert (loop_step aborted c e = c) as -> by (unfold loop_step; by rewrite Hc). by apply IH. Qed.

Lemma connecting_runs aborted ec0 eps errors : forall i,
  Forall (fun ec => ec <> aborted) errors -> (i + length errors = length eps)%nat -> errors <> [] ->
  connect_result (foldl (loop_step aborted) (mk_connector (Some i) ec0 eps (Some (Connecting (S i))) false false) (map Connected errors)) =
  match first_ok i errors with Some j => Ret j | None => Throw (SystemError (List.last errors 0)) end.
Proof.
  induction errors as [|ec errors IH]; intros i Ha Hl Hne; [done|]. apply Forall_cons in Ha as [Hec Ha]. cbn [map foldl].
  unfold loop_step at 2. simpl. unfold connect_handler. destruct (Z.eqb_spec ec aborted); [done|].
  destruct (Z.eqb_spec ec 0) as [->|Hz]; [by rewrite stopped_stays|]. cbn [endpoints first_ok length] in *.
  destruct errors as [|ec' errors].
  - simpl in Hl. destruct (Nat.ltb_spec (S i) (length eps)); [lia|]. done.
  - destruct (Nat.ltb_spec (S i) (length eps)) as [_|]; [|simpl in Hl; lia]. cbn [stopped socket error exit_with_timeout].
    rewrite IH; [done|done|simpl in *; lia|done].
Qed.

(** Connecting tries the addresses of the host in order.  When the name has been
    resolved and the timer does not fire, the connection is to the first address that
    accepts it; when none does, the error is that of the last one. *)
Theorem tcp_connect_spec (operation_aborted : Z) (eps : list string) (errors : list Z) :
  operation_aborted <> 0 -> Forall (fun ec => ec <> operation_aborted) errors -> length errors = length eps -> eps <> [] ->
  tcp_connect operation_aborted (Resolved 0 eps :: map Connected errors) =
  match first_ok 0 errors with Some j => Ret j | None => Throw (SystemError (List.last errors 0)) end.
Proof.
  intros H0 Ha Hl Hne. unfold tcp_connect. cbn [foldl]. unfold loop_step at 2, connector_construct. simpl. unfold resolve_handler.
  destruct (Z.eqb_spec 0 operation_aborted); [congruence|]. cbn [negb Z.eqb]. destruct eps as [|a eps]; [done|].
  apply connecting_runs; [done|done|]. by destruct errors.
Qed.

(** When the name has no addresses, the error that is thrown says that there is none. *)
Example no_addresses aborted : aborted <> 0 -> tcp_connect aborted [Resolved 0 []] = Throw (SystemError 0).
Proof.
  intros H. unfold tcp_connect. cbn [foldl]. unfold loop_step, connector_construct. cbn [stopped pending]. unfold resolve_handler.
  destruct (Z.eqb_spec 0 aborted); [congruence|done].
Qed.

(** ** Witnesses *)

Definition lower (c : Ascii.ascii) : Ascii.ascii :=
  let n := Ascii.nat_of_ascii c in if (65 <=? n)%nat && (n <=? 90)%nat then Ascii.ascii_of_nat (n + 32) else c.
Definition ascii_iequals (a b : string) : bool :=
  bool_decide (map lower (String.list_ascii_of_string a) = map lower (String.list_ascii_of_string b)).

#[export] Instance ascii_IEquals : IEquals ascii_iequals.
Proof.
  split; unfold ascii_iequals.
  - intros a. by apply bool_decide_eq_true.
  - intros a b. by apply bool_decide_ext.
  - intros a b c H%bool_decide_eq_true. by rewrite H.
Qed.

Lemma header_lines_roundtrip_witness :
  foldl (fun x l => header_callback l x) (mk_response 0 [] "")
    (map (fun h => header_line h ++ crlf) [("Content-Type", "application/json"); ("Host", "a:b")]) =
  mk_response 0 [("Content-Type", "application/json"); ("Host", "a:b")] "".
Proof.
  apply (header_lines_roundtrip [("Content-Type", "application/json"); ("Host", "a:b")] (mk_response 0 [] "")).
  repeat constructor.
Defined.

Lemma headers_spec_witness :
  headers ascii_iequals (reset_header ascii_iequals "Host" "b" [("HOST", "a"); ("X", "c")]) "host" = ["b"].
Proof. destruct (headers_spec ascii_iequals "Host" "b" "host" [] [("HOST", "a"); ("X", "c")]) as [H _]. exact H. Defined.

Lemma tcp_connect_witness :
  tcp_connect 125 (Resolved 0 ["a"; "b"; "c"] :: map Connected [111; 0; 0]) = Ret 1%nat.
Proof.
  apply (tcp_connect_spec 125 ["a"; "b"; "c"] [111; 0; 0]); [done|by repeat constructor|done|done].
Defined.
