(* ===== verification/Docker.v ===== *)
(** * The docker isolate: [docker/docker_client.cpp] and [docker/isolate.cpp]

    Containers are managed by requests to the Docker daemon, built on [Http.v].  The JSON
    library is the environment: documents are data, printing and parsing are parameters,
    and so is what is left of a value that is moved into a document.  A failed assertion of
    that library, as for a member of what is no object, is the fault [Crash]; everything
    else that is thrown carries its text or code. *)

From Stdlib Require Import Ascii.
From S2P Require Import Prelude Http ProcessIsolate.

Local Open Scope string_scope.
Local Open Scope Z_scope.
Local Open Scope cpp_scope.

Inductive json :=
| JNull
| JBool (b : bool)
| JInt (z : Z)
| JString (s : string)
| JArray (l : list json)
| JObject (m : list (string * json)).

Inductive docker_error :=
| RuntimeError (what : string)
| TransferError (e : transfer_error)
| OutOfRange
| AssignError (ec : Z)
| ErrorT (e : docker_error)        (** [cocaine::error_t] with the text of [e] *)
| Crash.

(** What the handles of the isolate's client are told *)
Inductive handle_call := SpoolReady | SpoolAbort (ec : Z) | SpawnReady.

(** ** Configuration *)

(** The arguments of the profile, already converted *)
Record docker_config := mk_config {
  c_endpoint : endpoint_t;
  c_runtime_path : option string;
  c_registry : option string;
  c_repository : option string;
  c_capabilities : option (list string);
  c_network_mode : option string;
  c_memory_limit : option Z;
  c_memory_swap : option Z;
  c_cpu_shares : option Z
}.

Record docker_t := mk_docker {
  m_endpoint : endpoint_t;
  m_runtime_path : string;
  m_image : string;
  m_tag : string;
  m_do_pool : bool;
  m_run_config : list (string * json);
  m_network_mode : string;
  m_additional_capabilities : json
}.

Definition with_slash (o : option string) : string := match o with Some s => s ++ "/" | None => "" end.

Definition docker_construct (runtime name : string) (c : docker_config) : docker_t :=
  let registry := match c_registry c with Some r => if (r =? "<default>")%string then "" else r ++ "/" | None => "" end in
  let image := registry ++ with_slash (c_repository c) ++ name in
  let runtime_path := default runtime (c_runtime_path c) in
  let network_mode := default "bridge" (c_network_mode c) in
  mk_docker (c_endpoint c) runtime_path image "" (match c_registry c with Some _ => true | None => false end)
    [("Hostname", JString ""); ("User", JString "");
     ("Memory", JInt (default 0 (c_memory_limit c))); ("MemorySwap", JInt (default 0 (c_memory_swap c)));
     ("CpuShares", JInt (default 0 (c_cpu_shares c)));
     ("AttachStdin", JBool false); ("AttachStdout", JBool false); ("AttachStderr", JBool false);
     ("PortSpecs", JNull); ("Tty", JBool false); ("OpenStdin", JBool false); ("StdinOnce", JBool false);
     ("Env", JArray []); ("Cmd", JArray []); ("Dns", JNull); ("Image", JString image);
     ("Volumes", JObject [(runtime_path, JObject [])]); ("WorkingDir", JString "/"); ("NetworkMode", JString network_mode)]
    network_mode
    match c_capabilities c with Some l => JArray (map JString l) | None => JNull end.

(** [document[key] = value] for a key that is there *)
Fixpoint set_member (key : string) (v : json) (o : list (string * json)) : list (string * json) :=
  match o with
  | [] => []
  | (k, u) :: o => if (k =? key)%string then (k, v) :: o else (k, u) :: set_member key v o
  end.

Fixpoint member (o : list (string * json)) (key : string) : option json :=
  match o with
  | [] => None
  | (k, v) :: o => if (k =? key)%string then Some v else member o key
  end.

(** ** State *)

Record world_t := mk_world { wire : wire_t; isolate : docker_t; calls : list handle_call }.
Definition W (A : Type) : Type := ST world_t docker_error A.

Definition set_isolate (d : docker_t) (w : world_t) : world_t := mk_world (wire w) d (calls w).
Definition tell (c : handle_call) : W unit := st_modify (fun w => mk_world (wire w) (isolate w) (calls w ++ [c])).

(** A transfer inside the isolate's state *)
Definition lift {A} (m : X A) : W A := fun w =>
  match m (wire w) with
  | (Ret a, x) => (Ret a, mk_world x (isolate w) (calls w))
  | (Throw e, x) => (Throw (TransferError e), mk_world x (isolate w) (calls w))
  end.

Section docker.
(** [boost::iequals]; [lexical_cast] and [format] of numbers *)
Context (iequals : string -> string -> bool) (print_number : Z -> string).
(** [rapidjson]: writing; parsing, to a null document when it fails; parsing one document
    after another from a text, each with its error flag; what is left of a value that is
    moved *)
Context (write_json : json -> string) (parse_json : string -> json) (parse_stream : string -> list (option json))
  (moved : json -> json).
(** [boost::filesystem] *)
Context (filename remove_filename : string -> string) (join : string -> string -> string).

(** ** Requests *)

Definition api_version : string := "/v1.14".

Definition make_post (url : string) (value : json) : http_request_t :=
  match value with
  | JNull => mk_request "POST" url "1.0" [] ""
  | _ =>
      let body := write_json value in
      mk_request "POST" url "1.0"
        (reset_header iequals "Content-Length" (print_number (Z.of_nat (String.length body)))
           (reset_header iequals "Content-Type" "application/json" [])) body
  end.

Definition make_get (url : string) : http_request_t := mk_request "GET" url "1.0" [] "".
Definition make_del (url : string) : http_request_t := mk_request "DELETE" url "1.0" [] "".

Definition no_response : http_response_t := mk_response 0 [] "".
Definition good (low high code : Z) : bool := (low <=? code) && (code <? high).

Definition the_post (request : http_request_t) : W (nat * http_response_t) :=
  let! w := st_get in lift (post print_number (m_endpoint (isolate w)) no_response request).
Definition the_get (request : http_request_t) : W (nat * http_response_t) :=
  let! w := st_get in lift (get print_number (m_endpoint (isolate w)) no_response request).
Definition the_head (request : http_request_t) : W (nat * http_response_t) :=
  let! w := st_get in lift (head print_number (m_endpoint (isolate w)) no_response request).

(** ** Containers *)

Definition start (id : string) (args : json) : W unit :=
  let! r := the_post (make_post (api_version ++ "/containers/" ++ id ++ "/start") args) in
  if good 200 400 (code r.2) then st_ret tt else st_throw (RuntimeError ("Unable to start container " ++ id)).

Definition kill (id : string) : W unit :=
  let! r := the_post (make_post (api_version ++ "/containers/" ++ id ++ "/kill") JNull) in
  if good 200 400 (code r.2) then st_ret tt else st_throw (RuntimeError ("Unable to kill container " ++ id)).

Definition stop (id : string) (timeout : Z) : W unit :=
  let! r := the_post (make_post (api_version ++ "/containers/" ++ id ++ "/stop?t=" ++ print_number timeout) JNull) in
  if good 200 400 (code r.2) then st_ret tt else st_throw (RuntimeError ("Unable to stop container " ++ id)).

Definition remove (id : string) (volumes : bool) : W unit :=
  let! r := the_get (make_del (api_version ++ "/containers/" ++ id ++ "?v=" ++ print_number (if volumes then 1 else 0))) in
  if good 200 300 (code r.2) then st_ret tt else st_throw (RuntimeError ("Unable to remove container " ++ id)).

Definition attach (id : string) : W nat :=
  let! r := the_head (make_post (api_version ++ "/containers/" ++ id ++ "/attach?logs=1&stream=1&stdout=1&stderr=1") JNull) in
  if good 200 300 (code r.2) then st_ret r.1 else st_throw (RuntimeError ("Unable to attach container " ++ id)).

(** ** The client *)

Definition inspect_image (image : string) : W json :=
  let! r := the_get (make_get (api_version ++ "/images/" ++ image ++ "/json")) in
  if good 200 300 (code r.2) then st_ret (parse_json (response_body r.2))
  else if good 400 500 (code r.2) then st_ret JNull
  else st_throw (RuntimeError "Unable to inspect an image").

(** The arguments of the request: the second turn of the loop reads the first pair again. *)
Definition pull_arguments (image tag : string) : string :=
  let args := ("fromImage", image) :: (if (tag =? "")%string then [] else [("tag", tag)]) in
  let first := match args with (k, v) :: _ => k ++ "=" ++ v | [] => "" end in
  match args with
  | [] => ""
  | _ :: rest => first ++ String.concat "" (map (fun _ => "&" ++ first) rest)
  end.

Fixpoint check_statuses (statuses : list (option json)) : W unit :=
  match statuses with
  | [] => st_ret tt
  | None :: _ => st_throw (RuntimeError "Unable to create an image")
  | Some (JObject o) :: statuses =>
      match member o "error" with
      | Some _ => st_throw (RuntimeError "Unable to create an image")
      | None => check_statuses statuses
      end
  | Some _ :: statuses => check_statuses statuses
  end.

Definition pull_image (image tag : string) : W unit :=
  let! r := the_post (make_post (api_version ++ "/images/create?" ++ pull_arguments image tag) JNull) in
  if good 200 300 (code r.2) then check_statuses (parse_stream (response_body r.2))
  else st_throw (RuntimeError "Unable to create an image").

(** The warnings are logged as strings. *)
Definition warnings_ok (o : list (string * json)) : bool :=
  match member o "Warnings" with
  | Some (JArray l) => forallb (fun v => match v with JString _ => true | _ => false end) l
  | _ => true
  end.

Definition create_container (args : json) : W string :=
  let! r := the_post (make_post (api_version ++ "/containers/create") args) in
  if good 200 300 (code r.2) then
    match parse_json (response_body r.2) with
    | JObject o =>
        match member o "Id" with
        | None => st_throw (RuntimeError "Unable to create a container")
        | Some id =>
            if negb (warnings_ok o) then st_throw Crash
            else match id with JString id => st_ret id | _ => st_throw Crash end
        end
    | _ => st_throw Crash
    end
  else st_throw (RuntimeError "Unable to create a container").

(** ** [container_handle_t] *)

Record handle_t := mk_handle { h_id : string; h_connection : option nat; h_fetcher : fetcher_t; h_terminated : bool }.

Definition handle_construct (id : string) : handle_t := mk_handle id None fetcher_construct false.

Definition handle_attach (assign_error : option Z) (h : handle_t) : W handle_t :=
  let! connection := attach (h_id h) in
  match fetcher_assign (Z.of_nat connection) assign_error (h_fetcher h) with
  | Ret f => st_ret (mk_handle (h_id h) (Some connection) f (h_terminated h))
  | Throw ec => st_throw (AssignError ec)
  end.

(** [try { m } catch(...) { }]; a failed assertion is no exception. *)
Definition ignore (m : W unit) : W unit :=
  st_catch m (fun e => match e with Crash => st_throw Crash | _ => st_ret tt end).

(** [test_and_set] sets the flag and returns what it was. *)
Definition handle_cancel (h : handle_t) : W handle_t :=
  if h_terminated h then
    ignore (kill (h_id h));;;
    ignore (remove (h_id h) false);;;
    st_ret (mk_handle (h_id h) (h_connection h) (fetcher_close (h_fetcher h)) true)
  else st_ret (mk_handle (h_id h) (h_connection h) (h_fetcher h) true).

Definition handle_destroy (h : handle_t) : W unit := handle_cancel h;;; st_ret tt.

(** ** [docker_t] *)

(** Only [std::system_error] is caught: the failures of curl are, those of [connect] are of
    boost or plain runtime errors, and are not. *)
Definition spool : W unit :=
  let! w := st_get in
  if m_do_pool (isolate w) then
    st_catch (pull_image (m_image (isolate w)) (m_tag (isolate w));;; tell SpoolReady)
      (fun e => match e with TransferError (CurlFailed ec) => tell (SpoolAbort ec) | _ => st_throw e end)
  else st_ret tt.

Definition env_of (environment : list (string * string)) : json :=
  JArray (map (fun kv => JString (kv.1 ++ "=" ++ kv.2)) environment).

Definition cmd_of (d : docker_t) (path : string) (args : list (string * string)) : json :=
  JArray (JString path :: concat (map (fun kv =>
    [JString kv.1; JString (if (kv.1 =? "--endpoint")%string then join (m_runtime_path d) (filename kv.2) else kv.2)]) args)).

Fixpoint arg (args : list (string * string)) (key : string) : option string :=
  match args with
  | [] => None
  | (k, v) :: args => if (k =? key)%string then Some v else arg args key
  end.

Definition set_run_config (o : list (string * json)) (d : docker_t) : docker_t :=
  mk_docker (m_endpoint d) (m_runtime_path d) (m_image d) (m_tag d) (m_do_pool d) o (m_network_mode d) (m_additional_capabilities d).
Definition set_capabilities (v : json) (d : docker_t) : docker_t :=
  mk_docker (m_endpoint d) (m_runtime_path d) (m_image d) (m_tag d) (m_do_pool d) (m_run_config d) (m_network_mode d) v.

Definition start_args (d : docker_t) (socket_dir : string) : json :=
  JObject [("Binds", JArray [JString (socket_dir ++ ":" ++ m_runtime_path d)]);
           ("CapAdd", m_additional_capabilities d); ("NetworkMode", JString (m_network_mode d))].

(** An exception destroys the handle on its way. *)
Definition guarded {A} (h : handle_t) (m : W A) : W A :=
  st_catch m (fun e => match e with Crash => st_throw Crash | _ => handle_destroy h;;; st_throw e end).

Definition spawn_container (path : string) (args environment : list (string * string)) (assign_error : option Z) : W handle_t :=
  st_modify (fun w => set_isolate (set_run_config
    (set_member "Cmd" (cmd_of (isolate w) path args) (set_member "Env" (env_of environment) (m_run_config (isolate w)))) (isolate w)) w);;;
  let! w := st_get in
  let! id := create_container (JObject (m_run_config (isolate w))) in
  let h := handle_construct id in
  guarded h
    match arg args "--endpoint" with
    | None => st_throw OutOfRange
    | Some endpoint =>
        let! w := st_get in
        let v := start_args (isolate w) (remove_filename endpoint) in
        st_modify (fun w => set_isolate (set_capabilities (moved (m_additional_capabilities (isolate w))) (isolate w)) w);;;
        start id v;;;
        let! h := handle_attach assign_error h in
        tell SpawnReady;;;
        st_ret h
    end.

Definition spawn (path : string) (args environment : list (string * string)) (assign_error : option Z) : W handle_t :=
  st_catch (spawn_container path args environment assign_error)
    (fun e => match e with Crash => st_throw Crash | _ => st_throw (ErrorT e) end).

(** ** Facts *)

Definition sent_of (e : endpoint_t) (mode : mode_t) (r : http_request_t) : sent_t :=
  mk_sent (url_of print_number e r) mode (if (method r =? "")%string then None else Some (method r)) (map header_line (request_headers r)).
Definition posted (e : endpoint_t) (r : http_request_t) : sent_t := sent_of e (HttpPost (request_body r)) r.

(** What the daemon has made of a request, given its answer: a connection was made, so
    that the request was sent; a response came; it accepts; it names a container. *)
Definition connected (r : option reply_t) : nat :=
  match r with Some r => if returns (r_connect r) then 1 else 0 | None => 0 end.
Definition transferred (r : option reply_t) : option (nat * http_response_t) :=
  match r with
  | Some r => match r_connect r with Ret c => if r_curl r =? 0 then Some (c, received r no_response) else None | Throw _ => None end
  | None => None
  end.
Definition accepts (low high : Z) (r : option reply_t) : bool :=
  match transferred r with Some x => good low high (code x.2) | None => false end.
Definition created_id (r : option reply_t) : option string :=
  match transferred r with
  | Some x =>
      if good 200 300 (code x.2) then
        match parse_json (response_body x.2) with
        | JObject o => match member o "Id" with Some (JString id) => if warnings_ok o then Some id else None | _ => None end
        | _ => None
        end
      else None
  | None => None
  end.

(** A call that changes nothing but the wire, on which it puts this request if there is a
    connection; its result is as the next answer says. *)
Definition asks {A} (e : endpoint_t) (q : sent_t) (P : option reply_t -> outcome docker_error A -> Prop) (m : W A) : Prop :=
  forall w, m_endpoint (isolate w) = e ->
    let r := replies (wire w) !! 0%nat in
    isolate (m w).2 = isolate w /\ calls (m w).2 = calls w /\
    sent (wire (m w).2) = (sent (wire w) ++ take (connected r) [q])%list /\
    replies (wire (m w).2) = tail (replies (wire w)) /\ P r (m w).1.

Definition hears (r : option reply_t) (x : outcome docker_error (nat * http_response_t)) : Prop :=
  match x with Ret a => transferred r = Some a | Throw _ => transferred r = None end.

Lemma asks_perform e mode r :
  asks e (sent_of e mode r) hears (let! w := st_get in lift (perform print_number (m_endpoint (isolate w)) mode no_response r)).
Proof.
  intros w He. unfold st_bind, st_get, lift, perform, st_bind, st_get, st_modify. rewrite He.
  destruct (replies (wire w)) as [|[[x|x] rc cd hl ck] rest] eqn:Er; cbn [r_connect r_curl].
  - simpl. by rewrite Er, app_nil_r.
  - destruct (rc =? 0) eqn:Ec; simpl; rewrite ?Ec; by split_and!.
  - simpl. by rewrite app_nil_r.
Qed.

(** A check of what was returned, or another quiet continuation *)
Lemma asks_then {A B} e q (P : _ -> _ -> Prop) (Q : _ -> _ -> Prop) (m : W A) (k : A -> W B) :
  asks e q P m -> (forall a w, (k a w).2 = w) ->
  (forall r a w, P r (Ret a) -> Q r (k a w).1) -> (forall r x, P r (Throw x) -> Q r (Throw x)) ->
  asks e q Q (let! a := m in k a).
Proof.
  intros Hm Hk HR HT w He. destruct (Hm w He) as (H1 & H2 & H3 & H4 & H5). unfold st_bind. destruct (m w) as [[a|x] w']; simpl in *.
  - rewrite Hk. split_and!; try done. by apply HR.
  - split_and!; try done. by apply HT.
Qed.

Ltac quiet := intros; repeat case_match; done.

(** The three requests of a spawn and their answers *)
Definition names (r : option reply_t) (x : outcome docker_error string) : Prop :=
  created_id r = match x with Ret id => Some id | Throw _ => None end.
Definition permits {A} (low high : Z) (r : option reply_t) (x : outcome docker_error A) : Prop := accepts low high r = returns x.

Lemma asks_create e v : asks e (posted e (make_post (api_version ++ "/containers/create") v)) names (create_container v).
Proof.
  unfold names, created_id. eapply asks_then; [apply asks_perform|quiet| |]; simpl.
  - intros r x w ->. destruct (good 200 300 (code x.2)); [|done]. destruct (parse_json _) as [| | | | |o]; try done.
    destruct (member o "Id") as [i|]; [|done]. destruct (warnings_ok o); by destruct i.
  - by intros r x ->.
Qed.
Lemma asks_start e id v :
  asks e (posted e (make_post (api_version ++ "/containers/" ++ id ++ "/start") v)) (permits 200 400) (start id v).
Proof.
  unfold permits, accepts. eapply asks_then; [apply asks_perform|quiet| |]; simpl; [|by intros r x ->].
  intros r x w ->. by destruct (good _ _ _).
Qed.
Definition attach_request (id : string) : http_request_t :=
  make_post (api_version ++ "/containers/" ++ id ++ "/attach?logs=1&stream=1&stdout=1&stderr=1") JNull.
Lemma asks_attach e id : asks e (sent_of e NoBody (attach_request id)) (permits 200 300) (attach id).
Proof.
  unfold permits, accepts. eapply asks_then; [apply asks_perform|quiet| |]; simpl; [|by intros r x ->].
  intros r x w ->. by destruct (good _ _ _).
Qed.
Lemma asks_handle_attach e a h :
  asks e (sent_of e NoBody (attach_request (h_id h)))
    (fun r x => returns x = accepts 200 300 r && negb (bool_decide (is_Some a))) (handle_attach a h).
Proof.
  unfold handle_attach. eapply asks_then; [apply asks_attach|quiet| |]; unfold permits.
  - intros r c w ->. simpl. unfold fetcher_assign. by destruct a.
  - by intros r x ->.
Qed.

(** The handle is destroyed without a request. *)
Lemma destroy_quiet h w : h_terminated h = false -> handle_destroy h w = (Ret tt, w).
Proof. intros H. unfold handle_destroy, handle_cancel, st_bind. by rewrite H. Qed.

(** What a spawned worker asks the daemon for *)
Definition configured (d : docker_t) (path : string) (args environment : list (string * string)) : docker_t :=
  set_run_config (set_member "Cmd" (cmd_of d path args) (set_member "Env" (env_of environment) (m_run_config d))) d.
Definition create_request (d : docker_t) : http_request_t := make_post (api_version ++ "/containers/create") (JObject (m_run_config d)).
Definition start_request (d : docker_t) (id endpoint : string) : http_request_t :=
  make_post (api_version ++ "/containers/" ++ id ++ "/start") (start_args d (remove_filename endpoint)).
Definition spawn_requests (d : docker_t) (id endpoint : string) : list sent_t :=
  [posted (m_endpoint d) (create_request d); posted (m_endpoint d) (start_request d id endpoint);
   sent_of (m_endpoint d) NoBody (attach_request id)].

Lemma guarded_same {A} h (m : W A) w : h_terminated h = false -> guarded h m w = m w.
Proof.
  intros Hh. unfold guarded, st_catch. destruct (m w) as [[a|x] w']; [done|].
  destruct x; unfold st_bind; rewrite ?destroy_quiet by done; done.
Qed.

Lemma handle_attach_same a h w h' w' : handle_attach a h w = (Ret h', w') ->
  h_id h' = h_id h /\ h_terminated h' = h_terminated h /\ is_Some (h_connection h') /\ f_pending (h_fetcher h') = S (f_pending (h_fetcher h)).
Proof.
  unfold handle_attach, st_bind. destruct (attach (h_id h) w) as [[c|] w1]; [|done].
  unfold fetcher_assign. destruct a; [done|]. intros [= <- <-]. by split_and!.
Qed.

(** What becomes of a spawn, given the answers of the daemon: how many requests are sent,
    which container is created, and whether the worker is there.  [assign_error] is the
    error of taking over the connection that was attached. *)
Record verdict_t := mk_verdict { v_requests : nat; v_id : string; v_done : bool }.
Definition verdict (rs : list reply_t) (args : list (string * string)) (assign_error : option Z) : verdict_t :=
  match created_id (rs !! 0%nat) with
  | None => mk_verdict (connected (rs !! 0%nat)) "" false
  | Some id =>
      match arg args "--endpoint" with
      | None => mk_verdict 1 id false
      | Some _ =>
          if accepts 200 400 (rs !! 1%nat) then
            if accepts 200 300 (rs !! 2%nat) then mk_verdict 3 id (negb (bool_decide (is_Some assign_error)))
            else mk_verdict (2 + connected (rs !! 2%nat)) id false
          else mk_verdict (1 + connected (rs !! 1%nat)) id false
      end
  end.

(** A spawn as the verdict says *)
Definition spawned (d : docker_t) (args : list (string * string)) (a : option Z) (w : world_t)
    (r : outcome docker_error handle_t * world_t) : Prop :=
  let v := verdict (replies (wire w)) args a in
  sent (wire r.2) = (sent (wire w) ++ take (v_requests v) (spawn_requests d (v_id v) (default "" (arg args "--endpoint"))))%list /\
  calls r.2 = (calls w ++ if v_done v then [SpawnReady] else [])%list /\
  match r.1 with
  | Ret h =>
      v_done v = true /\ h_id h = v_id v /\ h_terminated h = false /\ is_Some (h_connection h) /\ f_pending (h_fetcher h) = 1%nat /\
      m_additional_capabilities (isolate r.2) = moved (m_additional_capabilities d)
  | Throw _ => v_done v = false
  end.

Lemma accepts_connected low high r : accepts low high r = true -> connected r = 1%nat.
Proof. unfold accepts, transferred, connected. destruct r as [r|]; [|done]. by destruct (r_connect r). Qed.
Lemma created_connected r id : created_id r = Some id -> connected r = 1%nat.
Proof. unfold created_id, transferred, connected. destruct r as [r|]; [|done]. by destruct (r_connect r). Qed.

Lemma lookup_tail {A} (l : list A) k : tail l !! k = l !! S k.
Proof. by destruct l. Qed.

Lemma spawn_container_spawned path args environment a w :
  spawned (configured (isolate w) path args environment) args a w (spawn_container path args environment a w).
Proof.
  destruct (spawn_container path args environment a w) as [res wf] eqn:E. revert E.
  unfold spawn_container, st_bind at 1, st_modify at 1. unfold st_bind at 1, st_get at 1.
  set (d := set_run_config _ (isolate w)). change (configured (isolate w) path args environment) with d.
  set (w0 := set_isolate d w). cbn beta iota. unfold st_bind at 1.
  destruct (asks_create (m_endpoint d) (JObject (m_run_config (isolate w0))) w0 eq_refl) as (H1 & H2 & H3 & H4 & H5).
  change (isolate w0) with d in *. change (calls w0) with (calls w) in *. change (wire w0) with (wire w) in *.
  unfold names in H5. unfold spawned, verdict. cbv zeta.
  assert (forall r (q : sent_t) l, take (connected r) [q] = take (connected r) (q :: l)) as Htake.
  { intros r q l. unfold connected. destruct r as [r|]; [|done]. by destruct (returns (r_connect r)). }
  destruct (create_container (JObject (m_run_config d)) w0) as [[id|x] w1]; cbn [fst snd] in *; rewrite H5.
  2:{ intros [= <- <-]. cbn [fst snd v_requests v_id v_done]. rewrite H3, H2, app_nil_r. split_and!; try done. f_equal. apply Htake. }
  pose proof (created_connected _ _ H5) as C1. rewrite C1 in H3.
  rewrite guarded_same by done. destruct (arg args "--endpoint") as [endpoint|] eqn:Ea.
  2:{ intros [= <- <-]. cbn [fst snd v_requests v_id v_done]. by rewrite H3, H2, app_nil_r. }
  unfold st_bind at 1, st_get at 1. unfold st_bind at 1, st_modify at 1. rewrite H1.
  set (w2 := set_isolate _ w1). unfold st_bind at 1.
  destruct (asks_start (m_endpoint d) id (start_args d (remove_filename endpoint)) w2 eq_refl) as (H6 & H7 & H8 & H9 & H10).
  change (wire w2) with (wire w1) in *. change (calls w2) with (calls w1) in *. rewrite H4, lookup_tail in H8, H10.
  rewrite H4 in H9. unfold permits in H10. rewrite H10.
  destruct (start id (start_args d (remove_filename endpoint)) w2) as [[[]|x] w3]; cbn [fst snd returns] in *.
  2:{ intros [= <- <-]. cbn [fst snd v_requests v_id v_done default]. rewrite H8, H7, H2, H3, app_nil_r, <- app_assoc.
      split_and!; try done. f_equal. simpl. f_equal. apply Htake. }
  pose proof (accepts_connected _ _ _ H10) as C2. rewrite C2 in H8. unfold st_bind at 1.
  destruct (asks_handle_attach (m_endpoint d) a (handle_construct id) w3 ltac:(by rewrite H6)) as (H11 & H12 & H13 & H14 & H15).
  rewrite H9, !lookup_tail in H13, H15.
  destruct (handle_attach a (handle_construct id) w3) as [[h|x] w4] eqn:E4; cbn [fst snd returns] in *.
  - symmetry in H15. apply andb_true_iff in H15 as [A3 A4]. rewrite A3. pose proof (accepts_connected _ _ _ A3) as C3. rewrite C3 in H13.
    destruct (handle_attach_same _ _ _ _ _ E4) as (B1 & B2 & B3 & B4). unfold tell, st_bind, st_modify, st_ret. intros [= <- <-].
    cbn [fst snd wire calls isolate v_requests v_id v_done default].
    rewrite A4, H13, H8, H3, H12, H7, H2, H11, H6, B1, B2, B4, <-!app_assoc. by split_and!.
  - intros [= <- <-]. cbn [fst snd]. rewrite H13, H8, H3, H12, H7, H2, <-!app_assoc.
    destruct (accepts 200 300 (replies (wire w) !! 2%nat)) eqn:A3; cbn [v_done v_requests v_id default].
    + pose proof (accepts_connected _ _ _ A3) as C3. rewrite C3. simpl in H15. rewrite <- H15, app_nil_r. by split_and!.
    + rewrite app_nil_r. by split_and!.
Qed.

Lemma spawn_spawned path args environment a w :
  spawned (configured (isolate w) path args environment) args a w (spawn path args environment a w).
Proof.
  pose proof (spawn_container_spawned path args environment a w) as H. unfold spawn, st_catch.
  destruct (spawn_container path args environment a w) as [[h|x] w']; [exact H|]. by destruct x.
Qed.


(** A container outlives its handle.  The flag of [cancel] is tested the wrong way
    round: letting go of the handle, which is all that the slaves do, sends nothing, so
    that no container is ever killed or removed; neither is one whose start or attachment
    was refused.  Only a handle that has been cancelled before removes its container. *)
Theorem container_outlives_handle (path : string) (args environment : list (string * string)) (assign_error : option Z) (w : world_t) :
  let d := configured (isolate w) path args environment in
  (exists id endpoint n,
    sent (wire ((let! h := spawn path args environment assign_error in handle_destroy h) w).2) =
    (sent (wire w) ++ take n (spawn_requests d id endpoint))%list) /\
  forall h, h_terminated h = false ->
    sent (wire (handle_destroy h w).2) = sent (wire w) /\
    (let! h := handle_cancel h in handle_destroy h) w = (ignore (kill (h_id h));;; ignore (remove (h_id h) false)) w.
Proof.
  split.
  - pose proof (spawn_spawned path args environment assign_error w) as H. unfold st_bind.
    destruct (spawn path args environment assign_error w) as [[h|x] w'].
    + destruct H as (H1 & _ & _ & _ & H2 & _). cbn [fst snd] in *. rewrite destroy_quiet by done. by eexists _, _, _.
    + destruct H as (H1 & _). by eexists _, _, _.
  - intros h Hh. rewrite destroy_quiet by done. split; [done|]. unfold handle_destroy, handle_cancel at 1. rewrite Hh.
    unfold st_bind, st_ret, handle_cancel. cbn [h_terminated h_id]. unfold st_bind, st_ret.
    destruct (ignore (kill (h_id h)) w) as [[[]|] w1]; [|done]. by destruct (ignore (remove (h_id h) false) w1) as [[[]|] w2].
Qed.

(** The capabilities of the profile are moved into the request of the first worker; with
    what a move leaves, as documented, the workers after it get none. *)
Lemma capabilities_once path args environment a w h w' :
  (forall v, moved v = JNull) -> spawn path args environment a w = (Ret h, w') -> m_additional_capabilities (isolate w') = JNull.
Proof.
  intros Hm E. pose proof (spawn_spawned path args environment a w) as H. rewrite E in H.
  destruct H as (_ & _ & _ & _ & _ & _ & _ & H). cbn [snd] in H. rewrite H. apply Hm.
Qed.

(** The tag is never asked for. *)
Lemma tag_ignored image tag : tag <> "" ->
  pull_arguments image tag = "fromImage" ++ "=" ++ image ++ "&" ++ "fromImage" ++ "=" ++ image.
Proof.
  intros H. unfold pull_arguments. destruct (String.eqb_spec tag ""); [done|]. cbn [map String.concat]. by rewrite string_app_assoc.
Qed.

Lemma check_statuses_quiet l w : (check_statuses l w).2 = w /\ forall e, (check_statuses l w).1 = Throw e -> exists what, e = RuntimeError what.
Proof.
  induction l as [|[v|] l IH]; simpl; [by split|destruct v; try exact IH; destruct (member m "error"); [|exact IH]|]; (split; [done|]; intros e [= <-]; by eexists).
Qed.

Lemma the_post_error q w : forall e, (the_post q w).1 = Throw e -> exists x, e = TransferError x.
Proof.
  intros e. unfold the_post, lift, st_bind, st_get. destruct (post _ _ _ _ _) as [[?|x] ?]; [done|]. intros [= <-]. by eexists.
Qed.

(** What [spool] tells its handle when there is a registry *)
Lemma spool_calls (w : world_t) :
  m_do_pool (isolate w) = true ->
  match (spool w).1 with
  | Ret _ => exists c, calls (spool w).2 = (calls w ++ [c])%list /\ (c = SpoolReady \/ exists ec, c = SpoolAbort ec)
  | Throw e =>
      calls (spool w).2 = calls w /\ ((exists what, e = RuntimeError what) \/ (exists x, e = TransferError (ConnectFailed x)) \/ e = TransferError NoReply)
  end.
Proof.
  assert (spool w = if m_do_pool (isolate w) then st_catch (pull_image (m_image (isolate w)) (m_tag (isolate w));;; tell SpoolReady)
      (fun e => match e with TransferError (CurlFailed ec) => tell (SpoolAbort ec) | _ => st_throw e end) w else (Ret tt, w)) as ->
    by (unfold spool, st_bind at 1, st_get; by destruct (m_do_pool (isolate w))).
  intros ->. unfold st_catch, pull_image, st_bind.
  set (q := make_post _ JNull). destruct (asks_perform (m_endpoint (isolate w)) (HttpPost (request_body q)) q w eq_refl) as (_ & H2 & _).
  change (let! w := st_get in lift (perform print_number (m_endpoint (isolate w)) (HttpPost (request_body q)) no_response q))
    with (the_post q) in H2.
  pose proof (the_post_error q w) as Hx.
  destruct (the_post q w) as [[r|e] w1]; simpl in *.
  - destruct (good 200 300 (code r.2)).
    + pose proof (check_statuses_quiet (parse_stream (response_body r.2)) w1) as [H3 H4].
      destruct (check_statuses (parse_stream (response_body r.2)) w1) as [[[]|e] w2]; simpl in *; subst w2.
      * exists SpoolReady. unfold tell, st_modify. cbn. by rewrite H2; split; [|left].
      * destruct (H4 e eq_refl) as [what ->]. cbn. split; [done|left; by eexists].
    + cbn. split; [done|left; by eexists].
  - destruct (Hx e eq_refl) as [[x|ec|] ->].
    + cbn. split; [done|right; left; by eexists].
    + exists (SpoolAbort ec). cbn. rewrite H2. split; [done|right; by eexists].
    + cbn. split; [done|by right; right].
Qed.

(** When a client that spools hears an answer.  Without a registry it hears nothing,
    ever; with one it hears that the image is there, or the error of curl; but when the
    daemon cannot be connected to, or answers that the image cannot be pulled, an exception
    leaves [spool] and the client hears nothing again. *)
Theorem spool_answers (w : world_t) :
  let r := spool w in
  (m_do_pool (isolate w) = false -> r = (Ret tt, w)) /\
  (m_do_pool (isolate w) = true ->
   match r.1 with
   | Ret _ => exists c, calls r.2 = (calls w ++ [c])%list /\ (c = SpoolReady \/ exists ec, c = SpoolAbort ec)
   | Throw e =>
       calls r.2 = calls w /\ ((exists what, e = RuntimeError what) \/ (exists x, e = TransferError (ConnectFailed x)) \/ e = TransferError NoReply)
   end).
Proof.
  cbv zeta. split; [|apply spool_calls]. intros E. unfold spool, st_bind, st_get. by rewrite E.
Qed.
End docker.

(** ** Examples *)

Definition accepted (code : Z) (fd : nat) (body : string) : reply_t := mk_reply (Ret fd) 0 code [] [body].
Definition the_config : docker_config :=
  mk_config (unix_endpoint "/var/run/docker.sock") (Some "/run/cocaine") (Some "registry:5000") None (Some ["NET_ADMIN"]) None None None None.
Definition toy_parse (_ : string) : json := JObject [("Id", JString "c1"); ("Warnings", JNull)].
Definition toy_print (_ : Z) : string := "0".

Definition toy_spawn (replies : list reply_t) : outcome docker_error handle_t * world_t :=
  spawn ascii_iequals toy_print (fun _ => "{}") toy_parse (fun _ => JNull) (fun p => p) (fun _ => "/tmp") (fun a b => a ++ "/" ++ b)
    "worker" [("--endpoint", "/tmp/app.sock")] [] None
    (mk_world (mk_wire [] replies) (docker_construct "/run" "app" the_config) []).

Example spawned_worker :
  (toy_spawn [accepted 201 3 ""; accepted 204 4 ""; accepted 200 5 ""]).1 =
  Ret (mk_handle "c1" (Some 5%nat) (mk_fetcher true 5 1 []) false).
Proof. vm_compute. reflexivity. Qed.

Example spawned_urls :
  map s_url (sent (wire (toy_spawn [accepted 201 3 ""; accepted 204 4 ""; accepted 200 5 ""]).2)) =
  ["http://127.0.0.1/v1.14/containers/create"; "http://127.0.0.1/v1.14/containers/c1/start";
   "http://127.0.0.1/v1.14/containers/c1/attach?logs=1&stream=1&stdout=1&stderr=1"].
Proof. vm_compute. reflexivity. Qed.

(** A container whose start is refused stays. *)
Example refused_start :
  let r := toy_spawn [accepted 201 3 ""; accepted 500 4 ""] in
  r.1 = Throw (ErrorT (RuntimeError "Unable to start container c1")) /\ length (sent (wire r.2)) = 2%nat.
Proof. vm_compute. done. Qed.

Example image_of_registry : m_image (docker_construct "/run" "app" the_config) = "registry:5000/app".
Proof. reflexivity. Qed.
