(* ===== verification/VicodynPeer.v ===== *)
(** * Peers of the Vicodyn gateway: [vicodyn/src/vicodyn/peer.cpp]

    A peer is the connection to the node service of another host; [peers_t] is the
    table of peers by uuid and of the hosts on which each application runs.

    Connecting is asynchronous.  The model keeps what is pending for a peer: the wait of
    its reconnection timer, the handlers of that timer already queued, and the connection
    attempts, each with its own timer.  A completion handler is an event with what asio
    reports as its arguments. *)

From S2P Require Import Prelude.

Local Open Scope Z_scope.

Section peer.
Context {endpoint : Type} `{EqDecision endpoint}.

(** ** [peer_t] *)

(** A call of [connect]: its timer, waiting or expired with its handler queued, and
    whether [async_connect] is still to complete. *)
Record attempt := mk_attempt { waits : bool; expired : bool; socket : bool }.

Record peer_t := mk_peer {
  uuid : string;
  endpoints : list endpoint;
  x_cocaine_cluster : string;
  session : option nat;
  connecting : bool;
  last_active : Z;
  timer : bool;             (** the reconnection timer is waiting *)
  queued : nat;             (** its handlers in the event loop *)
  attempts : list attempt;
  detached : list nat       (** sessions closed by the peer *)
}.

Definition set_session (s : option nat) (p : peer_t) : peer_t :=
  mk_peer (uuid p) (endpoints p) (x_cocaine_cluster p) s (connecting p) (last_active p) (timer p) (queued p)
    (attempts p) (detached p).
Definition set_connecting (b : bool) (p : peer_t) : peer_t :=
  mk_peer (uuid p) (endpoints p) (x_cocaine_cluster p) (session p) b (last_active p) (timer p) (queued p)
    (attempts p) (detached p).
Definition set_active (t : Z) (p : peer_t) : peer_t :=
  mk_peer (uuid p) (endpoints p) (x_cocaine_cluster p) (session p) (connecting p) t (timer p) (queued p)
    (attempts p) (detached p).
Definition set_timer (b : bool) (n : nat) (p : peer_t) : peer_t :=
  mk_peer (uuid p) (endpoints p) (x_cocaine_cluster p) (session p) (connecting p) (last_active p) b n
    (attempts p) (detached p).
Definition set_attempts (l : list attempt) (p : peer_t) : peer_t :=
  mk_peer (uuid p) (endpoints p) (x_cocaine_cluster p) (session p) (connecting p) (last_active p) (timer p)
    (queued p) l (detached p).
Definition set_detached (l : list nat) (p : peer_t) : peer_t :=
  mk_peer (uuid p) (endpoints p) (x_cocaine_cluster p) (session p) (connecting p) (last_active p) (timer p)
    (queued p) (attempts p) l.

Definition peer_construct (u : string) (e : list endpoint) (cluster : string) (now : Z) : peer_t :=
  mk_peer u e cluster None false now false 0 [] [].

Definition connected (p : peer_t) : bool := bool_decide (is_Some (session p)).

Definition detach (p : peer_t) : peer_t :=
  match session p with
  | Some s => set_session None (set_detached (detached p ++ [s]) p)
  | None => p
  end.

(** A new expiry time cancels the wait before it. *)
Definition schedule_reconnect (p : peer_t) : peer_t :=
  if connecting p then p
  else set_connecting true (let p := detach p in set_timer true (queued p) p).

Definition connect (p : peer_t) : peer_t :=
  let p := set_connecting true p in
  set_attempts (attempts p ++ [mk_attempt true false true]) p.

(** The handler of the timer of an attempt *)
Definition on_connect_timer (p : peer_t) : peer_t := schedule_reconnect (set_connecting false p).

(** What [async_connect] and [engine().attach] give: an error with whether the iterator
    is at the end, or a socket, for which attaching gives a session or throws. *)
Inductive connect_result :=
| Failed (at_end : bool)
| Attached (session : nat) (now : Z)
| AttachThrew.

(** The handler of [async_connect], once its timer has been cancelled in time *)
Definition on_connect (r : connect_result) (p : peer_t) : peer_t :=
  match r with
  | Failed true => schedule_reconnect (set_connecting false p)
  | Failed false => p
  | Attached s now => set_active now (set_session (Some s) (set_connecting false p))
  | AttachThrew => schedule_reconnect p
  end.

(** [open_stream]: [send_ok] is false when forking the session or sending throws. *)
Definition open_stream (now : Z) (send_ok : bool) (p : peer_t) : bool * peer_t :=
  match session p with
  | None => (false, schedule_reconnect p)
  | Some _ => (send_ok, set_active now p)
  end.

(** ** Events of a peer *)

Inductive event :=
| ScheduleReconnect
| OpenStream (now : Z) (send_ok : bool)
| TimerExpires | RunTimer
| AttemptExpires (i : nat) | RunAttemptTimer (i : nat)
| Connected (i : nat) (r : connect_result).

Definition step (e : event) (p : peer_t) : peer_t :=
  match e with
  | ScheduleReconnect => schedule_reconnect p
  | OpenStream now ok => (open_stream now ok p).2
  | TimerExpires => if timer p then set_timer false (S (queued p)) p else p
  | RunTimer => match queued p with O => p | S n => connect (set_timer (timer p) n p) end
  | AttemptExpires i =>
      match attempts p !! i with
      | Some a => if waits a then set_attempts (<[i := mk_attempt false true (socket a)]> (attempts p)) p else p
      | None => p
      end
  | RunAttemptTimer i =>
      match attempts p !! i with
      | Some a => if expired a
                  then on_connect_timer (set_attempts (<[i := mk_attempt (waits a) false (socket a)]> (attempts p)) p)
                  else p
      | None => p
      end
  | Connected i r =>
      match attempts p !! i with
      | Some a =>
          if socket a then
            let p := set_attempts (<[i := mk_attempt false (expired a) false]> (attempts p)) p in
            if waits a then on_connect r p else p
          else p
      | None => p
      end
  end.

Definition run (es : list event) (p : peer_t) : peer_t := foldl (fun p e => step e p) p es.

(** ** A peer keeps trying *)

Definition pending (a : attempt) : Prop := waits a = true \/ expired a = true.

(** Something will run on its own. *)
Definition in_progress (p : peer_t) : Prop :=
  timer p = true \/ (0 < queued p)%nat \/ Exists pending (attempts p).

(** A peer is connected or is trying to be; a peer that tries has something under way. *)
Record peer_wf (p : peer_t) : Prop := {
  idle_connected : connecting p = false -> is_Some (session p);
  trying : connecting p = true -> in_progress p
}.

(** asio reports a failure of all endpoints with the end iterator; attaching succeeds. *)
Definition fair (e : event) : bool :=
  match e with Connected _ (Failed b) => b | Connected _ AttachThrew => false | _ => true end.

Lemma schedule_wf p : (connecting p = true -> in_progress p) -> peer_wf (schedule_reconnect p).
Proof.
  intros H. unfold schedule_reconnect. destruct (connecting p) eqn:E.
  - split; [by rewrite E|auto].
  - split; simpl; [done|]. intros _. by left.
Qed.

Lemma exists_insert (P : attempt -> Prop) i a l :
  (i < length l)%nat -> P a -> Exists P (<[i := a]> l).
Proof.
  intros Hi Ha. apply Exists_exists. exists a. split; [|done].
  apply list_elem_of_lookup. exists i. by apply list_lookup_insert_eq.
Qed.

Lemma exists_insert_other (P : attempt -> Prop) i a b l :
  l !! i = Some b -> ~ P b -> Exists P l -> Exists P (<[i := a]> l).
Proof.
  intros Hi Hb (x & Hx & HP)%Exists_exists. apply list_elem_of_lookup in Hx as [j Hj].
  apply Exists_exists. exists x. split; [|done]. apply list_elem_of_lookup. exists j.
  rewrite list_lookup_insert_ne; [done|]. intros ->. by simplify_eq.
Qed.

Lemma peer_step_wf e p : fair e = true -> peer_wf p -> peer_wf (step e p).
Proof.
  intros Hf [Hi Ht]. destruct e as [|now ok| | |i|i|i r]; simpl.
  - by apply schedule_wf.
  - unfold open_stream. destruct (session p) as [s|] eqn:Es; simpl; [|by apply schedule_wf].
    split; simpl; [eauto|]. exact Ht.
  - destruct (timer p) eqn:Et; [|by split]. split; simpl; [exact Hi|]. intros _. right; left; simpl; lia.
  - destruct (queued p) as [|n] eqn:Eq; [by split|]. split; simpl; [done|]. intros _. right; right.
    apply Exists_app. right. constructor. by left.
  - destruct (attempts p !! i) as [a|] eqn:Ea; [|by split]. destruct (waits a) eqn:Ew; [|by split].
    split; simpl; [exact Hi|]. intros _. right; right. apply exists_insert; [by eapply lookup_lt_Some|]. by right.
  - destruct (attempts p !! i) as [a|] eqn:Ea; [|by split]. destruct (expired a) eqn:Ew; [|by split].
    by apply schedule_wf.
  - destruct (attempts p !! i) as [a|] eqn:Ea; [|by split]. destruct (socket a); [|by split].
    destruct (waits a) eqn:Ew.
    + destruct r as [[]|s now|]; simpl in *; [by apply schedule_wf|done| |done]. split; simpl; [eauto|done].
    + split; simpl; [exact Hi|]. intros Hc. destruct (Ht Hc) as [?|[?|Hx]]; [by left|by right; left|].
      right; right. destruct (expired a) eqn:Ex; [apply exists_insert; [by eapply lookup_lt_Some|by right]|].
      eapply exists_insert_other; eauto. intros [?|?]; congruence.
Qed.

(** A peer never gives up.  From its first [connect], whatever requests come and
    timers and attempts complete, in any order, a peer that is not connected has a timer
    or an attempt under way that leads to the next attempt; provided that attaching a
    connected socket does not throw and that asio reports the failure of all endpoints
    with the end iterator. *)
Theorem peer_keeps_trying (u : string) (e : list endpoint) (cluster : string) (now : Z) (es : list event) :
  Forall (fun ev => fair ev = true) es ->
  let p := run es (connect (peer_construct u e cluster now)) in
  (connecting p = false -> is_Some (session p)) /\ (connecting p = true -> in_progress p).
Proof.
  intros Hes p. enough (peer_wf p) as [] by done. subst p.
  assert (peer_wf (connect (peer_construct u e cluster now))) as H0.
  { split; simpl; [done|]. intros _. right; right. constructor. by left. }
  revert H0. generalize (connect (peer_construct u e cluster now)).
  induction Hes as [|ev es Hev _ IH]; intros p Hp; [done|]. simpl. by apply IH, peer_step_wf.
Qed.

(** Nothing of the peer is under way. *)
Definition stuck (p : peer_t) : Prop :=
  session p = None /\ connecting p = true /\ timer p = false /\ queued p = 0%nat /\
  Forall (fun a => waits a = false /\ expired a = false) (attempts p).

Lemma stuck_step ev p : stuck p -> stuck (step ev p).
Proof.
  intros (Hs & Hc & Ht & Hq & Ha). assert (stuck p) as Hp by done.
  destruct ev as [|now ok| | |i|i|i r]; simpl.
  - unfold schedule_reconnect. by rewrite Hc.
  - unfold open_stream, schedule_reconnect. by rewrite Hs, Hc.
  - by rewrite Ht.
  - by rewrite Hq.
  - destruct (attempts p !! i) as [a|] eqn:E; [|done]. by destruct (Forall_lookup_1 _ _ _ _ Ha E) as [-> _].
  - destruct (attempts p !! i) as [a|] eqn:E; [|done]. by destruct (Forall_lookup_1 _ _ _ _ Ha E) as [_ ->].
  - destruct (attempts p !! i) as [a|] eqn:E; [|done]. destruct (Forall_lookup_1 _ _ _ _ Ha E) as [-> Hx].
    destruct (socket a); [|done]. split_and!; try done. simpl. apply Forall_insert; [done|]. by rewrite Hx.
Qed.

(** When attaching the socket throws, the handler asks for a reconnection while
    [connecting] is still set, so none is scheduled: a peer with no other attempt under
    way is never connected again, whatever happens to it. *)
Theorem attach_failure_sticks (p : peer_t) (i : nat) (es : list event) :
  session p = None -> connecting p = true -> timer p = false -> queued p = 0%nat ->
  attempts p !! i = Some (mk_attempt true false true) ->
  (forall j a, attempts p !! j = Some a -> j <> i -> waits a = false /\ expired a = false) ->
  session (run es (step (Connected i AttachThrew) p)) = None.
Proof.
  intros Hs Hc Ht Hq Hi Ho.
  assert (stuck (step (Connected i AttachThrew) p)) as H.
  { simpl. rewrite Hi. simpl. unfold schedule_reconnect. simpl. rewrite Hc. split_and!; try done. simpl.
    apply Forall_lookup. intros j a Hj. apply list_lookup_insert_Some in Hj as [(-> & <- & _)|[Hn Hj]]; [done|].
    by apply (Ho j). }
  revert H. generalize (step (Connected i AttachThrew) p). clear.
  induction es as [|ev es IH]; intros p Hp; [apply Hp|]. simpl. by apply IH, stuck_step.
Qed.

(** ** [peers_t] *)

(** The peers are shared: tables hold addresses of a heap. *)
Record peers_t := mk_peers {
  heap : gmap nat peer_t;
  peers : gmap string nat;
  apps : gmap string (gset string);
  fresh : nat
}.

Definition peers_construct : peers_t := mk_peers ∅ ∅ ∅ 0.

Definition new_peer (u : string) (e : list endpoint) (cluster : string) (now : Z) (d : peers_t) : nat * peers_t :=
  (fresh d, mk_peers (<[fresh d := connect (peer_construct u e cluster now)]> (heap d))
              (<[u := fresh d]> (peers d)) (apps d) (S (fresh d))).

Definition peer_at (u : string) (d : peers_t) : option (nat * peer_t) :=
  match peers d !! u with
  | Some a => match heap d !! a with Some p => Some (a, p) | None => None end
  | None => None
  end.

Definition register_peer (u : string) (e : list endpoint) (cluster : string) (now : Z) (d : peers_t)
  : nat * peers_t :=
  match peer_at u d with
  | None => new_peer u e cluster now d
  | Some (a, p) => if decide (e = endpoints p) then (a, d) else new_peer u e cluster now d
  end.

Definition erase_peer (u : string) (d : peers_t) : peers_t :=
  mk_peers (heap d) (delete u (peers d)) (apps d) (fresh d).

(** [data.apps[name]] adds an empty set. *)
Definition app_set (name : string) (d : peers_t) : gset string := default ∅ (apps d !! name).

Definition register_app (u name : string) (d : peers_t) : peers_t :=
  mk_peers (heap d) (peers d) (<[name := {[u]} ∪ app_set name d]> (apps d)) (fresh d).

Definition erase_app (u name : string) (d : peers_t) : peers_t :=
  mk_peers (heap d) (peers d) (<[name := app_set name d ∖ {[u]}]> (apps d)) (fresh d).

(** [erase]: the loop [for(auto pair : data.apps)] erases from copies of the sets, which
    leaves the table as it is. *)
Definition erase (u : string) (d : peers_t) : peers_t :=
  let d := erase_peer u d in
  mk_peers (heap d) (delete u (peers d)) (apps d) (fresh d).

(** Every peer of the table is alive, under its own uuid. *)
Record peers_wf (d : peers_t) : Prop := {
  pw_peers : forall u a, peers d !! u = Some a -> exists p, heap d !! a = Some p /\ uuid p = u;
  pw_fresh : forall a, is_Some (heap d !! a) -> (a < fresh d)%nat
}.

Lemma new_peer_wf u e cluster now d : peers_wf d -> peers_wf (new_peer u e cluster now d).2.
Proof.
  intros [Hp Hf]. split; simpl.
  - intros v a. destruct (decide (u = v)) as [->|Hn].
    + rewrite lookup_insert_eq. intros [= <-]. exists (connect (peer_construct v e cluster now)).
      by rewrite lookup_insert_eq.
    + rewrite lookup_insert_ne by done. intros Ha. destruct (Hp v a Ha) as (p & Hh & <-). exists p. split; [|done].
      rewrite lookup_insert_ne; [done|]. intros <-. pose proof (Hf (fresh d) ltac:(eauto)). lia.
  - intros a [p Ha]. destruct (decide (fresh d = a)) as [<-|Hn]; [lia|].
    rewrite lookup_insert_ne in Ha by done. pose proof (Hf a ltac:(eauto)). lia.
Qed.

(** The peers an operation of the table leaves are still well formed. *)
Lemma register_peer_wf u e cluster now d : peers_wf d -> peers_wf (register_peer u e cluster now d).2.
Proof.
  intros Hd. unfold register_peer. destruct (peer_at u d) as [[a p]|]; [|by apply new_peer_wf].
  case_decide; [done|]. by apply new_peer_wf.
Qed.

Lemma erase_peer_wf u d : peers_wf d -> peers_wf (erase_peer u d).
Proof.
  intros [Hp Hf]. split; simpl; [|done]. intros v a Ha. apply lookup_delete_Some in Ha as [_ Ha]. eauto.
Qed.

Lemma apps_wf x d : peers_wf d -> peers_wf (mk_peers (heap d) (peers d) x (fresh d)).
Proof. by intros []. Qed.
End peer.

(** ** Witnesses *)

(** The first attempt fails on all endpoints, the timer expires, the second succeeds. *)
Lemma peer_keeps_trying_witness :
  let p := run [Connected 0 (Failed true); TimerExpires; RunTimer]
             (connect (peer_construct "u" [1%nat] "" 0)) in
  connecting p = true /\ in_progress p.
Proof.
  split; [reflexivity|].
  apply (peer_keeps_trying "u" [1%nat] "" 0 [Connected 0 (Failed true); TimerExpires; RunTimer]);
    [repeat constructor|reflexivity].
Defined.

Lemma attach_failure_sticks_witness :
  session (run [ScheduleReconnect; TimerExpires; RunTimer; OpenStream 5 true]
             (step (Connected 0 AttachThrew) (connect (peer_construct "u" [1%nat] "" 0)))) = None.
Proof.
  apply (attach_failure_sticks (connect (peer_construct "u" [1%nat] "" 0)) 0); try reflexivity.
  intros [|j] a Hj Hne; [done|]. simpl in Hj. by destruct j.
Defined.
