(* ===== verification/VicodynProxy.v ===== *)
(** * The Vicodyn proxy: [vicodyn/src/vicodyn/proxy.cpp]

    A request of a client is forwarded to a worker on some peer; its stream goes both
    ways through [vicodyn_dispatch_t], which keeps what the client has sent until the
    first answer, so that the request can be sent again to another peer.  The balancer
    is [vicodyn/src/vicodyn/balancer/simple.cpp], the record of the request
    [request_context.cpp].

    The streams are lists of the messages sent.  Whether the next send succeeds is read
    from [fate]: a send that fails throws its error and sends nothing.  The peer the
    balancer chooses for a retry is an argument of the handler. *)

From S2P Require Import Prelude Channel VicodynPeer.

Local Open Scope Z_scope.
Local Open Scope cpp_scope.

Abbreviation headers_t := (list (string * string)).

Inductive message := Chunk (h : headers_t) (data : string) | Choke (h : headers_t) | Error (h : headers_t) (ec : error_code).

Definition is_chunk (m : message) : bool := match m with Chunk _ _ => true | _ => false end.

(** ** State *)

(** [safe_stream_t]; [stream] is the number of the forward stream. *)
Record safe_stream_t := mk_safe { closed : bool; stream : option nat }.

(** A stream opened on a peer: the invocation and what was sent after it. *)
Record forward_t := mk_forward { to_peer : nat; invocation : headers_t * string; sent : list message }.

Record buffer_t := mk_buffer {
  enqueue_frame : string;
  enqueue_headers : headers_t;
  chunks : list string;
  chunk_headers : list headers_t;
  choke_sent : bool;
  choke_headers : headers_t;
  buffering_enabled : bool
}.

Record request_context_t := mk_context {
  used_peers : list nat;
  retry_counter : nat;
  logged : bool;                        (** the flag [closed] *)
  written : list (option error_code)    (** log lines: finished, or failed with a code *)
}.

(** What the dispatch acts on *)
Record world_t := mk_world {
  streams : list forward_t;
  replies : list message;      (** what was sent to the client *)
  reconnects : list nat;       (** peers asked to reconnect *)
  erased : list nat;           (** peers from which the balancer has erased the application *)
  fate : list (option error_code)
}.

Record dispatch_t := mk_dispatch {
  peer : nat;
  backward_stream : safe_stream_t;
  forward_stream : safe_stream_t;
  buffer : buffer_t;
  request_context : request_context_t;
  world : world_t
}.

Definition set_peer (x : nat) (d : dispatch_t) : dispatch_t :=
  mk_dispatch x (backward_stream d) (forward_stream d) (buffer d) (request_context d) (world d).
Definition set_backward (x : safe_stream_t) (d : dispatch_t) : dispatch_t :=
  mk_dispatch (peer d) x (forward_stream d) (buffer d) (request_context d) (world d).
Definition set_forward (x : safe_stream_t) (d : dispatch_t) : dispatch_t :=
  mk_dispatch (peer d) (backward_stream d) x (buffer d) (request_context d) (world d).
Definition set_buffer (x : buffer_t) (d : dispatch_t) : dispatch_t :=
  mk_dispatch (peer d) (backward_stream d) (forward_stream d) x (request_context d) (world d).
Definition set_context (x : request_context_t) (d : dispatch_t) : dispatch_t :=
  mk_dispatch (peer d) (backward_stream d) (forward_stream d) (buffer d) x (world d).
Definition set_world (x : world_t) (d : dispatch_t) : dispatch_t :=
  mk_dispatch (peer d) (backward_stream d) (forward_stream d) (buffer d) (request_context d) x.

Abbreviation D := (ST dispatch_t error_code).

Definition on_world (f : world_t -> world_t) : D unit := st_modify (fun d => set_world (f (world d)) d).
Definition add_reply (m : message) (w : world_t) : world_t :=
  mk_world (streams w) (replies w ++ [m]) (reconnects w) (erased w) (fate w).
Definition add_sent (k : nat) (m : message) (w : world_t) : world_t :=
  mk_world (alter (fun s => mk_forward (to_peer s) (invocation s) (sent s ++ [m])) k (streams w))
    (replies w) (reconnects w) (erased w) (fate w).
Definition add_stream (s : forward_t) (w : world_t) : world_t :=
  mk_world (streams w ++ [s]) (replies w) (reconnects w) (erased w) (fate w).
Definition add_reconnect (p : nat) (w : world_t) : world_t :=
  mk_world (streams w) (replies w) (reconnects w ++ [p]) (erased w) (fate w).
Definition add_erased (p : nat) (w : world_t) : world_t :=
  mk_world (streams w) (replies w) (reconnects w) (erased w ++ [p]) (fate w).
Definition set_fate (l : list (option error_code)) (w : world_t) : world_t :=
  mk_world (streams w) (replies w) (reconnects w) (erased w) l.

(** The next send: it succeeds, or throws. *)
Definition try_send : D unit :=
  let! f := st_gets (fun d => fate (world d)) in
  on_world (set_fate (tail f)) ;;;
  match f with Some ec :: _ => st_throw ec | _ => st_ret tt end.

(** ** [safe_stream_t] *)

Definition forward_send (m : message) : D bool :=
  let! s := st_gets forward_stream in
  match stream s with
  | Some k =>
      if closed s then st_ret false else
      try_send ;;;
      on_world (add_sent k m) ;;;
      st_when (negb (is_chunk m)) (st_modify (set_forward (mk_safe true (Some k)))) ;;;
      st_ret true
  | None => st_ret false
  end.

Definition backward_send (m : message) : D bool :=
  let! s := st_gets backward_stream in
  match stream s with
  | Some k =>
      if closed s then st_ret false else
      try_send ;;;
      on_world (add_reply m) ;;;
      st_when (negb (is_chunk m)) (st_modify (set_backward (mk_safe true (Some k)))) ;;;
      st_ret true
  | None => st_ret false
  end.

(** ** [request_context_t] *)

Definition mark_used_peer (p : nat) : D unit :=
  st_modify (fun d => let c := request_context d in
    set_context (mk_context (used_peers c ++ [p]) (retry_counter c) (logged c) (written c)) d).
Definition register_retry : D unit :=
  st_modify (fun d => let c := request_context d in
    set_context (mk_context (used_peers c) (S (retry_counter c)) (logged c) (written c)) d).
Definition write (r : option error_code) : D unit :=
  st_modify (fun d => let c := request_context d in
    if logged c then d
    else set_context (mk_context (used_peers c) (retry_counter c) true (written c ++ [r])) d).
Definition finish : D unit := write None.
Definition fail (ec : error_code) : D unit := write (Some ec).

Definition peer_use_count (p : nat) (c : request_context_t) : nat := length (filter (eq p) (used_peers c)).

(** ** The simple balancer *)

(** [overseer_errors::queue_is_full] *)
Definition queue_is_full : error_code := mk_ec overseer_category 1.

Section dispatch.
(** [dispatch_errors::not_connected] and the code of an [error_t] without one, both of
    the core library; the balancer's [retry_count]. *)
Context (not_connected uncaught_error : error_code) (retry_count : nat).

Definition is_recoverable (ec : error_code) : bool :=
  bool_decide (ec = queue_is_full) || bool_decide (ec = not_running) || bool_decide (ec = not_connected).

Definition balancer_on_error (ec : error_code) : D unit :=
  let! p := st_gets peer in
  st_when (bool_decide (ec = not_running)) (on_world (add_erased p)).

(** ** [vicodyn_dispatch_t] *)

Definition schedule_reconnect : D unit := let! p := st_gets peer in on_world (add_reconnect p).

(** [choke_sent] is not initialised by the constructor: [garbage] is what it holds. *)
Definition dispatch_construct (garbage : bool) (p : nat) (f : list (option error_code)) : dispatch_t :=
  mk_dispatch p (mk_safe false (Some 0%nat)) (mk_safe false None)
    (mk_buffer "" [] [] [] garbage [] true) (mk_context [p] 0 false []) (mk_world [] [] [] [] f).

(** [forward_stream = safe_stream_t(peer->open_stream(...))] *)
Definition open_forward : D unit :=
  try_send ;;;
  let! d := st_get in
  on_world (add_stream (mk_forward (peer d) (enqueue_headers (buffer d), enqueue_frame (buffer d)) [])) ;;;
  st_modify (set_forward (mk_safe false (Some (length (streams (world d)))))).

Fixpoint replay (l : list (headers_t * string)) : D unit :=
  match l with
  | [] => st_ret tt
  | (h, c) :: l => forward_send (Chunk h c) ;;; replay l
  end.

Definition retry_unsafe (choice : option nat) : D unit :=
  register_retry ;;;
  let! d := st_get in
  if negb (buffering_enabled (buffer d)) then st_throw uncaught_error else
  if (retry_count <? retry_counter (request_context d))%nat then st_throw uncaught_error else
  match choice with
  | None => st_throw uncaught_error
  | Some p =>
      st_modify (set_peer p) ;;;
      mark_used_peer p ;;;
      open_forward ;;;
      replay (zip (chunk_headers (buffer d)) (chunks (buffer d))) ;;;
      (if choke_sent (buffer d) then let! _ := forward_send (Choke (choke_headers (buffer d))) in st_ret tt
       else st_ret tt)
  end.

Definition enqueue_unsafe (h : headers_t) (event : string) (choice : option nat) : D unit :=
  st_modify (fun d => let b := buffer d in
    set_buffer (mk_buffer event h (chunks b) (chunk_headers b) (choke_sent b) (choke_headers b)
                  (buffering_enabled b)) d) ;;;
  st_catch open_forward (fun _ =>
    schedule_reconnect ;;;
    st_catch (retry_unsafe choice) (fun ec =>
      let! _ := backward_send (Error [] ec) in st_ret tt)).

Definition disable_buffering : D unit :=
  st_modify (fun d => let b := buffer d in
    set_buffer (mk_buffer "" [] [] [] (choke_sent b) (choke_headers b) false) d).

Definition on_client_disconnection : D unit :=
  let! _ := forward_send (Error [] not_connected) in st_ret tt.

Definition on_forward_chunk (h : headers_t) (data : string) : D unit :=
  st_modify (fun d => let b := buffer d in
    set_buffer (mk_buffer (enqueue_frame b) (enqueue_headers b) (chunks b ++ [data]) (chunk_headers b ++ [h])
                  (choke_sent b) (choke_headers b) (buffering_enabled b)) d) ;;;
  let! _ := forward_send (Chunk h data) in st_ret tt.

Definition on_forward_choke (h : headers_t) : D unit :=
  st_modify (fun d => let b := buffer d in
    set_buffer (mk_buffer (enqueue_frame b) (enqueue_headers b) (chunks b) (chunk_headers b) true h
                  (buffering_enabled b)) d) ;;;
  let! _ := forward_send (Choke h) in st_ret tt.

Definition on_forward_error (h : headers_t) (ec : error_code) : D unit :=
  let! _ := forward_send (Error h ec) in st_ret tt.

(** The middlewares of the forward dispatch: nothing is done without a forward stream;
    an error of the handler is sent back to the client. *)
Definition check_stream (m : D unit) : D unit :=
  let! s := st_gets forward_stream in
  match stream s with None => st_ret tt | Some _ => m end.
Definition catcher (m : D unit) : D unit :=
  st_catch m (fun ec => backward_send (Error [] ec) ;;; schedule_reconnect).

Definition on_backward_chunk (h : headers_t) (data : string) : D unit :=
  disable_buffering ;;;
  st_catch (let! _ := backward_send (Chunk h data) in st_ret tt) (fun _ => on_client_disconnection).

Definition on_backward_error (h : headers_t) (ec : error_code) (choice : option nat) : D unit :=
  balancer_on_error ec ;;;
  if is_recoverable ec then
    st_catch (retry_unsafe choice) (fun e => let! _ := backward_send (Error [] e) in st_ret tt)
  else
    st_catch (let! _ := backward_send (Error h ec) in st_ret tt) (fun _ => on_client_disconnection) ;;;
    fail ec.

Definition on_backward_choke (h : headers_t) : D unit :=
  st_catch (let! _ := backward_send (Choke h) in st_ret tt) (fun _ => on_client_disconnection) ;;;
  finish.

Definition on_backward_discard (ec : error_code) : D unit :=
  st_catch (let! _ := backward_send (Error [] ec) in st_ret tt) (fun _ => st_ret tt).

(** ** Events *)

Inductive event :=
| ForwardChunk (h : headers_t) (data : string)
| ForwardChoke (h : headers_t)
| ForwardError (h : headers_t) (ec : error_code)
| ForwardDiscard
| BackwardChunk (h : headers_t) (data : string)
| BackwardError (h : headers_t) (ec : error_code) (choice : option nat)
| BackwardChoke (h : headers_t)
| BackwardDiscard (ec : error_code).

Definition handle (e : event) : D unit :=
  match e with
  | ForwardChunk h data => check_stream (catcher (on_forward_chunk h data))
  | ForwardChoke h => check_stream (catcher (on_forward_choke h))
  | ForwardError h ec => check_stream (catcher (on_forward_error h ec))
  | ForwardDiscard => on_client_disconnection
  | BackwardChunk h data => on_backward_chunk h data
  | BackwardError h ec choice => on_backward_error h ec choice
  | BackwardChoke h => on_backward_choke h
  | BackwardDiscard ec => on_backward_discard ec
  end.

Definition step (e : event) (d : dispatch_t) : dispatch_t := (handle e d).2.
Definition run (es : list event) (d : dispatch_t) : dispatch_t := foldl (fun d e => step e d) d es.

(** The slot of [proxy_t]: the dispatch after its [enqueue]. *)
Definition proxy_enqueue (garbage : bool) (p : nat) (h : headers_t) (event : string) (choice : option nat)
    (f : list (option error_code)) : dispatch_t :=
  (enqueue_unsafe h event choice (dispatch_construct garbage p f)).2.
End dispatch.

(** ** Messages end once *)

(** Only the last message may end the stream. *)
Fixpoint ends_once (l : list message) : bool :=
  match l with
  | [] => true
  | [m] => true
  | m :: l => is_chunk m && ends_once l
  end.

Definition all_chunks (l : list message) : bool := forallb is_chunk l.

Lemma all_chunks_snoc l m : all_chunks (l ++ [m]) = all_chunks l && is_chunk m.
Proof. unfold all_chunks. rewrite forallb_app. simpl. by rewrite andb_true_r. Qed.

Lemma ends_once_snoc l m : all_chunks l = true -> ends_once (l ++ [m]) = true.
Proof.
  induction l as [|x l IH]; [done|]. simpl. intros [Hx Hl]%andb_true_iff.
  destruct l as [|y l]; simpl in *; rewrite Hx; [done|]. by apply IH.
Qed.

Lemma all_chunks_ends_once l : all_chunks l = true -> ends_once l = true.
Proof.
  induction l as [|x l IH]; [done|]. simpl. intros [Hx Hl]%andb_true_iff. destruct l; [done|].
  rewrite Hx. by apply IH.
Qed.

(** ** The invariant of a dispatch *)

Record dispatch_wf (d : dispatch_t) : Prop := {
  dw_backward : is_Some (stream (backward_stream d));
  dw_replies : ends_once (replies (world d)) = true;
  dw_open : closed (backward_stream d) = false -> all_chunks (replies (world d)) = true;
  dw_sent : Forall (fun f => ends_once (sent f) = true) (streams (world d));
  dw_forward : forall k, stream (forward_stream d) = Some k ->
    exists f, streams (world d) !! k = Some f /\
      (closed (forward_stream d) = false -> all_chunks (sent f) = true);
  dw_buffer : length (chunks (buffer d)) = length (chunk_headers (buffer d));
  dw_logged : logged (request_context d) = false -> written (request_context d) = [];
  dw_written : (length (written (request_context d)) <= 1)%nat
}.

Lemma keeps_try_send (I : dispatch_t -> Prop) :
  (forall d l, I d -> I (set_world (set_fate l (world d)) d)) -> keeps I try_send.
Proof.
  intros HI d Hd. unfold try_send, st_bind, st_gets, on_world, st_modify.
  destruct (fate (world d)) as [|[ec|] l]; simpl; auto.
Qed.

Lemma wf_fate d l : dispatch_wf d -> dispatch_wf (set_world (set_fate l (world d)) d).
Proof. by intros []. Qed.

Lemma wf_forward_send m : keeps dispatch_wf (forward_send m).
Proof.
  intros d Hd. unfold forward_send. rewrite (st_bind_Ret _ _ d (forward_stream d) d) by done.
  destruct (stream (forward_stream d)) as [k|] eqn:Ek; [|done]. destruct (closed (forward_stream d)) eqn:Ec; [done|].
  destruct (keeps_try_send dispatch_wf wf_fate d Hd) as []. unfold st_bind at 1.
  destruct (try_send d) as [[[]|ec] d'] eqn:Et; cbn [snd] in *; [|by split].
  assert (forward_stream d' = forward_stream d) as Ef.
  { revert Et. unfold try_send, st_bind, st_gets, on_world, st_modify.
    destruct (fate (world d)) as [|[?|] ?]; intros [= <-]; done. }
  rewrite <- Ef in Ek, Ec. destruct (dw_forward0 k Ek) as (f & Hf & Ha).
  unfold on_world, st_modify, st_bind, st_when, st_ret, add_sent.
  assert (Forall (fun f => ends_once (sent f) = true)
            (alter (fun s => mk_forward (to_peer s) (invocation s) (sent s ++ [m])) k (streams (world d')))) as Hall.
  { apply Forall_lookup. intros j g Hj. destruct (decide (j = k)) as [->|Hn].
    - rewrite list_lookup_alter_eq, Hf in Hj. injection Hj as <-. apply ends_once_snoc. auto.
    - rewrite list_lookup_alter_ne in Hj by done. by eapply Forall_lookup_1 in dw_sent0. }
  assert (alter (fun s => mk_forward (to_peer s) (invocation s) (sent s ++ [m])) k (streams (world d')) !! k
          = Some (mk_forward (to_peer f) (invocation f) (sent f ++ [m]))) as Hk.
  { by rewrite list_lookup_alter_eq, Hf. }
  destruct (is_chunk m) eqn:Em; simpl; split; simpl; auto; intros j Hj.
  - rewrite Ek in Hj. injection Hj as <-. eexists. split; [exact Hk|]. intros _. simpl.
    rewrite all_chunks_snoc, Em, Ha; done.
  - injection Hj as <-. eexists. split; [exact Hk|done].
Qed.

Lemma wf_backward_send m : keeps dispatch_wf (backward_send m).
Proof.
  intros d Hd. unfold backward_send. rewrite (st_bind_Ret _ _ d (backward_stream d) d) by done.
  destruct (stream (backward_stream d)) as [k|] eqn:Ek; [|done]. destruct (closed (backward_stream d)) eqn:Ec; [done|].
  destruct (keeps_try_send dispatch_wf wf_fate d Hd) as []. unfold st_bind at 1.
  destruct (try_send d) as [[[]|ec] d'] eqn:Et; cbn [snd] in *; [|by split].
  assert (backward_stream d' = backward_stream d) as Ef.
  { revert Et. unfold try_send, st_bind, st_gets, on_world, st_modify.
    destruct (fate (world d)) as [|[?|] ?]; intros [= <-]; done. }
  rewrite <- Ef in Ec. unfold on_world, st_modify, st_bind, st_when, st_ret, add_reply.
  destruct (is_chunk m) eqn:Em; simpl; split; simpl; auto; try done; try by apply ends_once_snoc; auto.
  intros _. rewrite all_chunks_snoc, Em, dw_open0; done.
Qed.

#[export] Hint Resolve wf_forward_send wf_backward_send : keeps.

(** Writes that leave the streams alone *)
Lemma wf_peer p : keeps dispatch_wf (st_modify (set_peer p) : D unit).
Proof. apply keeps_modify. by intros d []. Qed.
Lemma wf_mark p : keeps dispatch_wf (mark_used_peer p).
Proof. apply keeps_modify. by intros d []. Qed.
Lemma wf_register : keeps dispatch_wf register_retry.
Proof. apply keeps_modify. by intros d []. Qed.
Lemma wf_log r : keeps dispatch_wf (write r).
Proof.
  apply keeps_modify. intros d Hd. cbv beta zeta. destruct (logged (request_context d)) eqn:E; [done|]. destruct Hd.
  split; simpl; auto; [done|]. by rewrite dw_logged0.
Qed.
Lemma wf_reconnect : keeps dispatch_wf schedule_reconnect.
Proof. unfold schedule_reconnect, on_world. keeps_walk. apply keeps_modify. by intros d []. Qed.
Lemma wf_disable : keeps dispatch_wf disable_buffering.
Proof. apply keeps_modify. by intros d []. Qed.
Lemma wf_balancer ec : keeps dispatch_wf (balancer_on_error ec).
Proof. unfold balancer_on_error, on_world. keeps_walk. apply keeps_modify. by intros d []. Qed.
#[export] Hint Resolve wf_peer wf_mark wf_register wf_log wf_reconnect wf_disable wf_balancer : keeps.

Lemma wf_open_forward : keeps dispatch_wf open_forward.
Proof.
  intros d Hd. unfold open_forward. destruct (keeps_try_send dispatch_wf wf_fate d Hd) as [].
  unfold st_bind at 1. destruct (try_send d) as [[[]|ec] d']; cbn [snd] in *; [|by split].
  unfold st_bind, st_get, on_world, st_modify, add_stream. simpl. split; simpl; auto.
  - apply Forall_app. split; [done|]. by constructor.
  - intros k [= <-]. eexists. split; [by apply list_lookup_middle|done].
Qed.
Lemma wf_replay l : keeps dispatch_wf (replay l).
Proof. induction l as [|[h c] l IH]; simpl; keeps_walk. Qed.
#[export] Hint Resolve wf_open_forward wf_replay : keeps.

Section facts.
Context (not_connected uncaught_error : error_code) (retry_count : nat).
Abbreviation step := (step not_connected uncaught_error retry_count).
Abbreviation run := (run not_connected uncaught_error retry_count).
Abbreviation retry_unsafe := (retry_unsafe uncaught_error retry_count).
Abbreviation proxy_enqueue := (proxy_enqueue uncaught_error retry_count).

Lemma wf_retry choice : keeps dispatch_wf (retry_unsafe choice).
Proof. unfold VicodynProxy.retry_unsafe. keeps_walk. Qed.
Local Hint Resolve wf_retry : keeps.

Lemma wf_disconnection : keeps dispatch_wf (on_client_disconnection not_connected).
Proof. unfold on_client_disconnection. keeps_walk. Qed.
Local Hint Resolve wf_disconnection : keeps.

Lemma wf_step e d : dispatch_wf d -> dispatch_wf (step e d).
Proof.
  revert d. refine (_ : keeps dispatch_wf (handle not_connected uncaught_error retry_count e)).
  destruct e; simpl; unfold check_stream, catcher, on_forward_chunk, on_forward_choke, on_forward_error,
    on_backward_chunk, on_backward_error, on_backward_choke, on_backward_discard, finish, fail; keeps_walk;
    apply keeps_modify; intros d []; split; simpl; auto. rewrite !length_app. simpl. lia.
Qed.

Lemma wf_enqueue garbage p h ev choice f : dispatch_wf (proxy_enqueue garbage p h ev choice f).
Proof.
  unfold VicodynProxy.proxy_enqueue.
  assert (keeps dispatch_wf (enqueue_unsafe uncaught_error retry_count h ev choice)) as Hk.
  { unfold enqueue_unsafe. keeps_walk. apply keeps_modify. by intros d []. }
  apply Hk. split; simpl; eauto; done.
Qed.

(** C23: whatever the client and the workers send, in any interleaving, with any failure
    of the connections and any number of retries, the client's stream and every stream
    to a worker carry at most one closing message, as their last one, and the outcome
    of the request is logged at most once. *)
Theorem streams_end_once (garbage : bool) (p : nat) (h : headers_t) (ev : string) (choice : option nat)
    (f : list (option error_code)) (es : list event) :
  let d := run es (proxy_enqueue garbage p h ev choice f) in
  ends_once (replies (world d)) = true /\
  Forall (fun s => ends_once (sent s) = true) (streams (world d)) /\
  (length (written (request_context d)) <= 1)%nat.
Proof.
  intros d. enough (dispatch_wf d) as [] by done. unfold d. clear d.
  pose proof (wf_enqueue garbage p h ev choice f) as H0. revert H0.
  generalize (proxy_enqueue garbage p h ev choice f).
  induction es as [|e es IH]; intros d Hd; [done|]. simpl. by apply IH, wf_step.
Qed.

(** ** Retries are bounded *)

Definition bounded (d : dispatch_t) : Prop :=
  (length (streams (world d)) <= S (min (retry_counter (request_context d)) retry_count))%nat.

(** Steps that open no stream, count no retry and do not touch the buffering *)
Definition quiet (d d' : dispatch_t) : Prop :=
  length (streams (world d')) = length (streams (world d)) /\
  retry_counter (request_context d') = retry_counter (request_context d) /\
  buffering_enabled (buffer d') = buffering_enabled (buffer d).

(** A property of those alone, kept by [retry_unsafe] and [disable_buffering] *)
Section frame.
Context (P : dispatch_t -> Prop) (P_frame : forall d d', quiet d d' -> P d -> P d').
Context (P_retry : forall choice, keeps P (retry_unsafe choice)) (P_disable : keeps P disable_buffering).

Lemma frame_modify f : (forall d, quiet d (f d)) -> keeps P (st_modify f : D unit).
Proof. intros Hf. apply keeps_modify. intros d Hd. by apply (P_frame d). Qed.
Lemma frame_try_send : keeps P try_send.
Proof. apply keeps_try_send. intros d l Hd. by apply (P_frame d). Qed.
Local Hint Resolve frame_try_send P_retry P_disable : keeps.
Local Ltac frame_walk := repeat first [ progress keeps_walk | apply frame_modify; intros d; split_and!; simpl;
                                         rewrite ?length_alter; done ].

Lemma frame_forward_send m : keeps P (forward_send m).
Proof. unfold forward_send, on_world. frame_walk. Qed.
Lemma frame_backward_send m : keeps P (backward_send m).
Proof. unfold backward_send, on_world. frame_walk. Qed.
Local Hint Resolve frame_forward_send frame_backward_send : keeps.

Lemma frame_log r : keeps P (write r).
Proof.
  apply frame_modify. intros d. cbv beta zeta. by destruct (logged (request_context d)).
Qed.
Local Hint Resolve frame_log : keeps.

Lemma frame_step e d : P d -> P (step e d).
Proof.
  revert d. refine (_ : keeps P (handle not_connected uncaught_error retry_count e)).
  destruct e; simpl; unfold check_stream, catcher, on_forward_chunk, on_forward_choke, on_forward_error,
    on_backward_chunk, on_backward_error, on_backward_choke, on_backward_discard, on_client_disconnection,
    schedule_reconnect, balancer_on_error, on_world, finish, fail; frame_walk.
Qed.

Lemma frame_run es d : P d -> P (run es d).
Proof. revert d. induction es as [|e es IH]; intros d Hd; [done|]. simpl. by apply IH, frame_step. Qed.
End frame.

(** At most [k] streams, after [c] retries *)
Definition at_most (k c : nat) (d : dispatch_t) : Prop :=
  (length (streams (world d)) <= k)%nat /\ retry_counter (request_context d) = c.

Lemma at_most_frame k c d d' : quiet d d' -> at_most k c d -> at_most k c d'.
Proof. intros (E1 & E2 & _) [H1 H2]. split; [by rewrite E1|by rewrite E2]. Qed.

Lemma open_at_most k c d : at_most k c d -> at_most (S k) c (open_forward d).2.
Proof.
  intros H. unfold open_forward. pose proof (frame_try_send _ (at_most_frame k c) d H) as H1. unfold st_bind at 1.
  destruct (try_send d) as [[[]|ec] d']; cbn [snd] in *.
  - destruct H1 as [H1 H2]. split; simpl; [|done]. rewrite length_app; simpl. lia.
  - destruct H1. split; [lia|done].
Qed.

Lemma retry_at_most k choice d :
  let c := S (retry_counter (request_context d)) in
  at_most k (retry_counter (request_context d)) d ->
  at_most (if (retry_count <? c)%nat then k else S k) c (retry_unsafe choice d).2.
Proof.
  intros c [Hk _]. unfold VicodynProxy.retry_unsafe. erewrite st_bind_Ret by reflexivity. cbv zeta.
  set (d1 := set_context _ d). assert (at_most k c d1) as H1 by done. erewrite st_bind_Ret by reflexivity.
  assert (at_most (if (retry_count <? c)%nat then k else S k) c d1) as H1'.
  { split; [|done]. destruct (_ <? _)%nat; simpl; lia. }
  destruct (negb _); [done|]. change (retry_counter (request_context d1)) with c.
  destruct (retry_count <? c)%nat; [done|]. destruct choice as [p|]; [|done].
  do 2 (erewrite st_bind_Ret by reflexivity). set (d2 := set_context _ _).
  pose proof (open_at_most k c d2 H1) as H2. unfold st_bind at 1. destruct (open_forward d2) as [[[]|ec] d3]; [|done].
  cbn [snd] in H2. revert d3 H2. refine (_ : keeps (at_most (S k) c) _).
  pose proof (frame_forward_send _ (at_most_frame (S k) c)) as Hs.
  assert (forall l, keeps (at_most (S k) c) (replay l)) as Hr.
  { induction l as [|[h x] l IH]; simpl; keeps_walk. }
  keeps_walk.
Qed.

Lemma retry_bounded choice : keeps bounded (retry_unsafe choice).
Proof.
  intros d Hd. unfold bounded in Hd.
  destruct (retry_at_most (length (streams (world d))) choice d) as [H1 H2]; [done|].
  unfold bounded. rewrite H2. destruct (Nat.ltb_spec retry_count (S (retry_counter (request_context d)))); lia.
Qed.

Lemma enqueue_bounded garbage p h ev choice f : bounded (proxy_enqueue garbage p h ev choice f).
Proof.
  unfold VicodynProxy.proxy_enqueue, enqueue_unsafe. erewrite st_bind_Ret by reflexivity. cbv zeta.
  set (d := set_buffer _ _). unfold st_catch at 1.
  assert (at_most 0 0 d) as H0 by (split; simpl; [lia|done]).
  destruct (open_forward d) as [[[]|ec] d1] eqn:Eo.
  - pose proof (open_at_most 0 0 d H0) as [H1 H2]. rewrite Eo in H1, H2. unfold bounded. cbn [snd] in *. lia.
  - assert (at_most 0 0 d1) as H1.
    { revert Eo. unfold open_forward, st_bind at 1. pose proof (frame_try_send _ (at_most_frame 0 0) d H0) as H1.
      destruct (try_send d) as [[[]|?] ?]; [done|]. by intros [= _ <-]. }
    erewrite st_bind_Ret by reflexivity. set (d2 := set_world _ d1). assert (at_most 0 0 d2) as H2 by done.
    unfold st_catch. pose proof (retry_at_most 0 choice d2) as H3. destruct H2 as [H2 H2']. rewrite H2' in H3.
    specialize (H3 ltac:(done)).
    destruct (VicodynProxy.retry_unsafe _ _ _ d2) as [[[]|e] d3]; cbn [snd] in H3.
    + destruct H3 as [H3 H4]. unfold bounded. cbn [snd]. rewrite H4. destruct (Nat.ltb_spec retry_count 1); lia.
    + assert (at_most (if (retry_count <? 1)%nat then 0 else 1) 1 ((let! _ := backward_send (Error [] e) in st_ret tt) d3).2)
        as [H4 H5].
      { revert d3 H3. refine (_ : keeps _ _). pose proof (frame_backward_send _ (at_most_frame (if (retry_count <? 1)%nat then 0 else 1) 1)).
        keeps_walk. }
      unfold bounded. rewrite H5. destruct (Nat.ltb_spec retry_count 1); lia.
Qed.

(** A request is sent to workers a bounded number of times: whatever fails, at most
    one stream more than the balancer's [retry_count] is opened, and no stream is opened
    for more than the number of retries. *)
Theorem retries_bounded (garbage : bool) (p : nat) (h : headers_t) (ev : string) (choice : option nat)
    (f : list (option error_code)) (es : list event) :
  let d := run es (proxy_enqueue garbage p h ev choice f) in
  (length (streams (world d)) <= S (min (retry_counter (request_context d)) retry_count))%nat.
Proof.
  intros d. unfold d. apply (frame_run bounded); [|apply retry_bounded| |apply enqueue_bounded].
  - intros d1 d2 (E1 & E2 & _). unfold bounded. by rewrite E1, E2.
  - by apply keeps_modify.
Qed.

(** Once part of an answer has gone to the client, the request is never sent to
    another worker: no later event opens a stream. *)
Theorem no_retry_after_answer (h : headers_t) (data : string) (es : list event) (d : dispatch_t) :
  length (streams (world (run (BackwardChunk h data :: es) d))) = length (streams (world d)).
Proof.
  set (frozen := fun d' => buffering_enabled (buffer d') = false /\
                           length (streams (world d')) = length (streams (world d))).
  assert (forall a b, quiet a b -> frozen a -> frozen b) as Hf.
  { intros a b (E1 & _ & E3) [H1 H2]. split; [by rewrite E3|by rewrite E1]. }
  enough (frozen (run (BackwardChunk h data :: es) d)) as [_ H] by done.
  change (run (BackwardChunk h data :: es) d) with (run es (step (BackwardChunk h data) d)).
  apply (frame_run frozen Hf).
  - intros choice d1 [H1 H2]. unfold VicodynProxy.retry_unsafe.
    do 2 (erewrite st_bind_Ret by reflexivity). cbv zeta. cbn [buffer set_context]. by rewrite H1.
  - apply keeps_modify. by intros d1 [].
  - unfold VicodynProxy.step; simpl. unfold on_backward_chunk. erewrite st_bind_Ret by reflexivity. cbv zeta.
    set (d1 := set_buffer _ d). assert (frozen d1) as H1 by done. clearbody d1. revert d1 H1. refine (_ : keeps frozen _).
    pose proof (frame_backward_send _ Hf). pose proof (frame_forward_send _ Hf).
    unfold on_client_disconnection. keeps_walk.
Qed.

(** ** A retry sends again what the client has sent *)

Definition not_answer (e : event) : bool := match e with BackwardChunk _ _ => false | _ => true end.
Definition client_chunks (es : list event) : list (headers_t * string) :=
  omap (fun e => match e with ForwardChunk h c => Some (h, c) | _ => None end) es.
Fixpoint client_choke (es : list event) (last : option headers_t) : option headers_t :=
  match es with
  | [] => last
  | ForwardChoke h :: es => client_choke es (Some h)
  | _ :: es => client_choke es last
  end.

(** The buffer with the invocation, the chunks and the choke of a client *)
Definition buffered (h : headers_t) (ev : string) (cs : list (headers_t * string)) (choke : option headers_t)
    (b : buffer_t) : Prop :=
  enqueue_frame b = ev /\ enqueue_headers b = h /\ zip (chunk_headers b) (chunks b) = cs /\
  length (chunk_headers b) = length (chunks b) /\ choke_sent b = bool_decide (is_Some choke) /\
  (forall x, choke = Some x -> choke_headers b = x) /\ buffering_enabled b = true.

Definition tracked (Q : buffer_t -> Prop) (d : dispatch_t) : Prop :=
  Q (buffer d) /\ is_Some (stream (forward_stream d)).

Lemma tracked_try_send Q : keeps (tracked Q) try_send.
Proof. apply keeps_try_send. by intros d l []. Qed.
Local Ltac track := repeat first
  [ progress keeps_walk | apply tracked_try_send | apply keeps_modify; intros ? []; by split; simpl; eauto ].
Lemma tracked_forward_send Q m : keeps (tracked Q) (forward_send m).
Proof. unfold forward_send, on_world. track. Qed.
Lemma tracked_backward_send Q m : keeps (tracked Q) (backward_send m).
Proof. unfold backward_send, on_world. track. Qed.
Local Hint Resolve tracked_try_send tracked_forward_send tracked_backward_send : keeps.
Lemma tracked_retry Q choice : keeps (tracked Q) (retry_unsafe choice).
Proof.
  unfold VicodynProxy.retry_unsafe, register_retry, mark_used_peer, open_forward, on_world.
  assert (forall l, keeps (tracked Q) (replay l)) by (induction l as [|[h x] l IH]; simpl; keeps_walk).
  track.
Qed.
Local Hint Resolve tracked_retry : keeps.
Lemma tracked_log Q r : keeps (tracked Q) (write r).
Proof. apply keeps_modify. intros d [? ?]. cbv zeta. by destruct (logged (request_context d)). Qed.
Local Hint Resolve tracked_log : keeps.

(** A handler that first changes the buffer *)
Lemma tracked_after (Q R : buffer_t -> Prop) f (m : D unit) d :
  (forall b, Q b -> R (f b)) -> keeps (tracked R) m -> tracked Q d ->
  tracked R (check_stream (catcher (st_modify (fun d => set_buffer (f (buffer d)) d) ;;; m)) d).2.
Proof.
  intros Hf Hm [HQ [k Hk]]. unfold check_stream. erewrite st_bind_Ret by reflexivity. cbv beta. rewrite Hk.
  unfold catcher, st_catch. erewrite st_bind_Ret by reflexivity.
  assert (tracked R (set_buffer (f (buffer d)) d)) as H1 by (split; simpl; eauto).
  specialize (Hm _ H1). destruct (m _) as [[[]|ec] d1]; [done|]. cbn [snd] in Hm.
  revert d1 Hm. refine (_ : keeps (tracked R) _). unfold schedule_reconnect, on_world. track.
Qed.

Lemma buffered_step h ev cs choke e d :
  not_answer e = true -> tracked (buffered h ev cs choke) d ->
  tracked (buffered h ev (cs ++ client_chunks [e]) (client_choke [e] choke)) (step e d).
Proof.
  intros Hn Hd. destruct e as [x c|x|x ec| |x c|x ec ch|x|ec]; try done; unfold VicodynProxy.step; simpl.
  - unfold on_forward_chunk.
    apply (tracked_after (buffered h ev cs choke) _ (fun b => mk_buffer (enqueue_frame b) (enqueue_headers b) (chunks b ++ [c])
             (chunk_headers b ++ [x]) (choke_sent b) (choke_headers b) (buffering_enabled b))); [|track|done].
    intros b (? & ? & Hz & Hl & ? & ? & ?). split_and!; simpl; try done.
    + rewrite zip_with_app by done. by rewrite Hz.
    + rewrite !length_app. simpl. lia.
  - rewrite app_nil_r. unfold on_forward_choke.
    apply (tracked_after (buffered h ev cs choke) _ (fun b => mk_buffer (enqueue_frame b) (enqueue_headers b) (chunks b)
             (chunk_headers b) true x (buffering_enabled b))); [|track|done].
    intros b (? & ? & ? & ? & ? & ? & ?). split_and!; simpl; try done. by intros ? [= ->].
  - rewrite app_nil_r. revert d Hd. refine (_ : keeps _ _).
    unfold check_stream, catcher, on_forward_error, schedule_reconnect, on_world. track.
  - rewrite app_nil_r. revert d Hd. refine (_ : keeps _ _). unfold on_client_disconnection. track.
  - rewrite app_nil_r. revert d Hd. refine (_ : keeps _ _).
    unfold on_backward_error, balancer_on_error, on_client_disconnection, fail, on_world. track.
  - rewrite app_nil_r. revert d Hd. refine (_ : keeps _ _).
    unfold on_backward_choke, on_client_disconnection, finish. track.
  - rewrite app_nil_r. revert d Hd. refine (_ : keeps _ _). unfold on_backward_discard. track.
Qed.

Lemma buffered_run h ev es : forall cs choke d,
  forallb not_answer es = true -> tracked (buffered h ev cs choke) d ->
  tracked (buffered h ev (cs ++ client_chunks es) (client_choke es choke)) (run es d).
Proof.
  induction es as [|e es IH]; intros cs choke d Hes Hd; [by rewrite app_nil_r|].
  simpl in Hes. apply andb_true_iff in Hes as [He Hes].
  assert (client_chunks (e :: es) = client_chunks [e] ++ client_chunks es) as -> by (by destruct e).
  assert (client_choke (e :: es) choke = client_choke es (client_choke [e] choke)) as -> by (by destruct e).
  rewrite app_assoc. change (run (e :: es) d) with (run es (step e d)). apply IH; [done|]. by apply buffered_step.
Qed.

(** The first of the next [n] sends that fails, and its error *)
Fixpoint first_failure (n : nat) (fs : list (option error_code)) : option (nat * error_code) :=
  match n with
  | O => None
  | S n =>
      match fs with
      | Some e :: _ => Some (O, e)
      | _ => (fun x => (S x.1, x.2)) <$> first_failure n (tail fs)
      end
  end.

Lemma first_failure_snoc n : forall fs,
  first_failure (n + 1) fs =
  match first_failure n fs with
  | Some x => Some x
  | None => match fs !! n with Some (Some e) => Some (n, e) | _ => None end
  end.
Proof.
  induction n as [|n IH]; intros fs; simpl; [by destruct fs as [|[e|] fs]|].
  destruct fs as [|[e|] fs]; simpl; [|done|]; rewrite IH; destruct (first_failure n _); try done;
    simpl; destruct (_ !! n) as [[]|]; done.
Qed.

Lemma first_failure_lt n : forall fs k e, first_failure n fs = Some (k, e) -> (k < n)%nat.
Proof.
  induction n as [|n IH]; intros fs k e; simpl; [done|].
  destruct fs as [|[x|] fs]; simpl; [|intros [= <- _]; lia|];
    intros ([k' e'] & Hk%IH & [= -> ->])%fmap_Some; simpl; lia.
Qed.

(** The last stream has been sent the messages [ms], with the fates [fs] ahead. *)
Definition sending (fs : list (option error_code)) (ss : list forward_t) (q : nat) (inv : headers_t * string)
    (ms : list message) (c : bool) (rs : list message) (d : dispatch_t) : Prop :=
  fate (world d) = fs /\ streams (world d) = ss ++ [mk_forward q inv ms] /\
  forward_stream d = mk_safe c (Some (length ss)) /\ replies (world d) = rs.

Lemma add_to_last ss q inv x (m : message) :
  alter (fun s => mk_forward (to_peer s) (invocation s) (sent s ++ [m])) (length ss) (ss ++ [mk_forward q inv x])
  = ss ++ [mk_forward q inv (x ++ [m])].
Proof.
  apply list_eq. intros j. destruct (decide (j = length ss)) as [->|Hn].
  - rewrite list_lookup_alter_eq, !list_lookup_middle; done.
  - rewrite list_lookup_alter_ne by done. destruct (decide (j < length ss)%nat).
    + by rewrite !lookup_app_l.
    + rewrite !lookup_app_r by lia. destruct (j - length ss)%nat eqn:E; [lia|done].
Qed.

Lemma forward_send_any fs ss q inv ms rs m d :
  sending fs ss q inv ms false rs d ->
  exists d', match fs with
             | Some e :: fs' => forward_send m d = (Throw e, d') /\ sending fs' ss q inv ms false rs d'
             | _ => forward_send m d = (Ret true, d') /\ sending (tail fs) ss q inv (ms ++ [m]) (negb (is_chunk m)) rs d'
             end.
Proof.
  intros (Hf & Hs & Hw & Hr). unfold forward_send. erewrite st_bind_Ret by reflexivity. cbv beta. rewrite Hw. simpl.
  unfold try_send, st_bind, st_gets, on_world, st_modify, st_ret, st_throw. rewrite Hf. simpl.
  destruct fs as [|[e|] fs]; simpl; [|eexists; split; [reflexivity|by split_and!]|];
    destruct (is_chunk m); simpl; eexists; (split; [reflexivity|]); split_and!; simpl; try done; by rewrite Hs, add_to_last.
Qed.

Abbreviation as_chunks := (fmap (fun x : headers_t * string => Chunk x.1 x.2)).

Lemma replay_any ss q inv rs l : forall fs ms d,
  sending fs ss q inv ms false rs d ->
  exists d', match first_failure (length l) fs with
             | None => replay l d = (Ret tt, d') /\ sending (drop (length l) fs) ss q inv (ms ++ as_chunks l) false rs d'
             | Some (k, e) =>
                 replay l d = (Throw e, d') /\ exists fs', sending fs' ss q inv (ms ++ take k (as_chunks l)) false rs d'
             end.
Proof.
  induction l as [|[h c] l IH]; intros fs ms d Hd; cbn [replay length first_failure].
  { exists d. by rewrite app_nil_r, drop_0. }
  destruct (forward_send_any _ _ _ _ _ _ (Chunk h c) d Hd) as [d1 Hd1]. unfold st_bind.
  assert (forall fs', forward_send (Chunk h c) d = (Ret true, d1) ->
    sending fs' ss q inv (ms ++ [Chunk h c]) false rs d1 ->
    exists d', match (fun x => (S x.1, x.2)) <$> first_failure (length l) fs' with
      | None => match forward_send (Chunk h c) d with (Ret _, s') => replay l s' | (Throw e, s') => (Throw e, s') end = (Ret tt, d') /\
          sending (drop (length l) fs') ss q inv (ms ++ Chunk h c :: as_chunks l) false rs d'
      | Some (k, e) =>
          match forward_send (Chunk h c) d with (Ret _, s') => replay l s' | (Throw e, s') => (Throw e, s') end = (Throw e, d') /\
          exists fs'', sending fs'' ss q inv (ms ++ take k (Chunk h c :: as_chunks l)) false rs d'
      end) as Hgo.
  { intros fs' E Hs. rewrite E. destruct (IH fs' _ d1 Hs) as [d2 H2]. exists d2.
    destruct (first_failure (length l) fs') as [[k e]|]; simpl in *; by rewrite <- app_assoc in H2. }
  destruct fs as [|[e|] fs]; [| |apply (Hgo fs); apply Hd1].
  { specialize (Hgo [] (proj1 Hd1) (proj2 Hd1)). rewrite drop_nil in Hgo |- *. exact Hgo. }
  destruct Hd1 as [E Hs]. exists d1. rewrite E. split; [done|]. exists fs. simpl. by rewrite app_nil_r.
Qed.

(** What a retry sends: the chunks of the client and its choke *)
Definition resent (cs : list (headers_t * string)) (choke : option headers_t) : list message :=
  as_chunks cs ++ match choke with Some x => [Choke x] | None => [] end.

(** The stream a retry opens on the peer [q], unless opening it fails *)
Definition reopened (q : nat) (inv : headers_t * string) (ms : list message) (failure : option (nat * error_code))
    : list forward_t :=
  match failure with
  | None => [mk_forward q inv ms]
  | Some (O, _) => []
  | Some (S k, _) => [mk_forward q inv (take k ms)]
  end.

(** The chunks and the choke, on a stream just opened *)
Lemma resend_any fs ss q inv rs cs choke (m : D unit) d :
  sending fs ss q inv [] false rs d ->
  (forall d', (m d').2 = match choke with Some x => (forward_send (Choke x) d').2 | None => d' end /\
              (m d').1 = match choke with
                         | Some x => match (forward_send (Choke x) d').1 with Ret _ => Ret tt | Throw e => Throw e end
                         | None => Ret tt
                         end) ->
  exists d', (replay cs ;;; m) d =
      (match first_failure (length (resent cs choke)) fs with None => Ret tt | Some (_, e) => Throw e end, d') /\
    streams (world d') = ss ++ [mk_forward q inv
      (match first_failure (length (resent cs choke)) fs with None => resent cs choke | Some (k, _) => take k (resent cs choke) end)] /\
    replies (world d') = rs.
Proof.
  intros Hd Hm. destruct (replay_any ss q inv rs cs fs [] d Hd) as [d1 H1]. simpl in H1. unfold resent, st_bind.
  assert (length (as_chunks cs) = length cs) as Hl by apply length_fmap.
  destruct choke as [x|]; rewrite length_app, Hl; cbn [length].
  - rewrite first_failure_snoc. destruct (first_failure (length cs) fs) as [[k e]|] eqn:Ef.
    + destruct H1 as [E (fs' & _ & Hs & _ & Hr)]. exists d1. rewrite E. split_and!; try done. rewrite Hs.
      do 3 f_equal. rewrite take_app_le; [done|]. rewrite Hl. apply first_failure_lt in Ef. lia.
    + destruct H1 as [E Hs1]. rewrite E. destruct (forward_send_any _ _ _ _ _ _ (Choke x) d1 Hs1) as [d2 H2].
      destruct (Hm d1) as [Hm2 Hm1]. destruct (m d1) as [o d3]. simpl in Hm1, Hm2. subst o d3.
      replace (fs !! length cs) with (drop (length cs) fs !! 0%nat) by (by rewrite lookup_drop, Nat.add_0_r).
      destruct (drop (length cs) fs) as [|[e|] fs']; simpl in *;
        destruct H2 as [E2 (_ & Hs & _ & Hr)]; rewrite E2; exists d2; split_and!; try done.
      rewrite Hs, <- Hl. by rewrite take_app_length.
  - rewrite Nat.add_0_r, app_nil_r. destruct (first_failure (length cs) fs) as [[k e]|] eqn:Ef.
    + destruct H1 as [E (fs' & _ & Hs & _ & Hr)]. exists d1. by rewrite E.
    + destruct H1 as [E (_ & Hs & _ & Hr)]. rewrite E. exists d1. destruct (Hm d1) as [Hm2 Hm1].
      destruct (m d1) as [o d3]. simpl in Hm1, Hm2. by subst o d3.
Qed.

Lemma retry_any h ev cs choke q d :
  buffered h ev cs choke (buffer d) -> (retry_counter (request_context d) < retry_count)%nat ->
  let failure := first_failure (S (length (resent cs choke))) (fate (world d)) in
  exists d', retry_unsafe (Some q) d = (match failure with None => Ret tt | Some (_, e) => Throw e end, d') /\
    streams (world d') = streams (world d) ++ reopened q (h, ev) (resent cs choke) failure /\
    replies (world d') = replies (world d).
Proof.
  intros (Hev & Hh & Hz & _ & Hc & Hx & Hb) Hr failure. unfold VicodynProxy.retry_unsafe.
  do 2 (erewrite st_bind_Ret by reflexivity). cbv zeta. set (d1 := set_context _ d).
  change (buffer d1) with (buffer d). rewrite Hb. cbn [negb].
  change (retry_counter (request_context d1)) with (S (retry_counter (request_context d))).
  rewrite (proj2 (Nat.ltb_ge _ _)) by lia. do 2 (erewrite st_bind_Ret by reflexivity). set (d2 := set_context _ _).
  assert (forall fs, fate (world d) = fs -> (forall e fs', fs <> Some e :: fs') ->
    exists d3, open_forward d2 = (Ret tt, d3) /\ sending (tail fs) (streams (world d)) q (h, ev) [] false (replies (world d)) d3)
    as Hopen.
  { intros fs Hf Hno. unfold open_forward, try_send, st_bind, st_gets, st_get, on_world, st_modify, st_ret.
    change (fate (world d2)) with (fate (world d)). rewrite Hf. destruct fs as [|[e|] fs]; [|by destruct (Hno e fs)|];
      simpl; eexists; (split; [reflexivity|]); split_and!; simpl; try done; by rewrite Hev, Hh. }
  unfold failure. destruct (fate (world d)) as [|[e|] fs] eqn:Ef; cbn [first_failure].
  2:{ unfold open_forward, try_send, st_bind, st_gets, on_world, st_modify.
      change (fate (world d2)) with (fate (world d)). rewrite Ef. simpl. eexists. split; [reflexivity|].
      simpl. by rewrite app_nil_r. }
  all: destruct (Hopen _ eq_refl ltac:(done)) as (d3 & E3 & Hd3); rewrite (st_bind_Ret _ _ d2 tt d3 E3), Hz; simpl tail in *.
  all: edestruct (resend_any _ _ _ _ _ cs choke
         (if choke_sent (buffer d) then let! _ := forward_send (Choke (choke_headers (buffer d))) in st_ret tt else st_ret tt)
         d3 Hd3) as (d4 & E4 & Hs4 & Hr4);
    [intros d'; rewrite Hc; destruct choke as [x|]; simpl; [|done]; rewrite (Hx x eq_refl); unfold st_bind;
      by destruct (forward_send (Choke x) d') as [[|] ?]|];
    rewrite E4; exists d4; clear failure;
    (split; [by destruct (first_failure (length (resent cs choke)) _) as [[]|]|]); split; [|done];
    rewrite Hs4; by destruct (first_failure (length (resent cs choke)) _) as [[]|].
Qed.

(** An error frame may go to the client, and nothing else. *)
Definition told (ec : error_code) (d d' : dispatch_t) : Prop :=
  replies (world d') = replies (world d) \/ replies (world d') = replies (world d) ++ [Error [] ec].

Lemma backward_told ec d :
  let d' := ((let! _ := backward_send (Error [] ec) in st_ret tt) d).2 in
  streams (world d') = streams (world d) /\ told ec d d'.
Proof.
  unfold told, backward_send, try_send, on_world, st_bind, st_gets, st_modify, st_ret, st_throw.
  destruct (stream (backward_stream d)), (closed (backward_stream d)); simpl; auto.
  destruct (fate (world d)) as [|[e|] fs]; simpl; auto.
Qed.

Lemma enqueue_tracked garbage p h ev choice f :
  let d0 := proxy_enqueue garbage p h ev choice f in
  is_Some (stream (forward_stream d0)) ->
  tracked (buffered h ev [] (if garbage then Some [] else None)) d0.
Proof.
  intros d0 Hs. split; [|done]. unfold d0, VicodynProxy.proxy_enqueue, VicodynProxy.enqueue_unsafe.
  erewrite st_bind_Ret by reflexivity. set (d1 := set_buffer _ _).
  assert (buffered h ev [] (if garbage then Some [] else None) (buffer d1)) as H1.
  { split_and!; try done; destruct garbage; try done. by intros x [= <-]. }
  clearbody d1. revert d1 H1.
  refine (_ : keeps (fun d => buffered h ev [] (if garbage then Some [] else None) (buffer d)) _).
  assert (forall fr : world_t -> world_t, keeps (fun d => buffered h ev [] (if garbage then Some [] else None) (buffer d)) (on_world fr))
    as Hw by (intros; by apply keeps_modify).
  assert (forall l, keeps (fun d => buffered h ev [] (if garbage then Some [] else None) (buffer d)) (replay l)) as Hre.
  { induction l as [|[x c] l IH]; simpl; unfold forward_send, try_send; keeps_walk; by apply keeps_modify. }
  unfold VicodynProxy.retry_unsafe, register_retry, mark_used_peer, open_forward, schedule_reconnect, backward_send,
    forward_send, try_send. keeps_walk; try (by apply keeps_modify); auto.
Qed.

End facts.

(** ** Witnesses *)

Definition disconnected : error_code := mk_ec dispatch_category 1.
Definition uncaught : error_code := mk_ec (other_category 0) 1.


(** With an uninitialised [choke_sent] that happens to be set, a retry ends the new
    stream although the client has not: later chunks are lost. *)
Example garbage_choke :
  streams (world (run disconnected uncaught 4
    [ForwardChunk [] "a"; BackwardError [] queue_is_full (Some 8%nat); ForwardChunk [] "b"]
    (proxy_enqueue uncaught 4 true 7 [] "ping" None []))) =
  [mk_forward 7 ([], "ping"%string) [Chunk [] "a"];
   mk_forward 8 ([], "ping"%string) [Chunk [] "a"; Choke []]].
Proof. reflexivity. Qed.
