(* ===== verification/VicodynGateway.v ===== *)
(** * The Vicodyn gateway: [vicodyn/src/gateway/vicodyn.cpp]

    The gateway hears of services of other hosts: a node service becomes a peer, an
    application gets one virtual service, whatever the number of hosts that run it, and
    anything else is left to the wrapped gateway.  The virtual service of an application
    asks the balancer ([balancer/simple.cpp]) for a peer.

    The wrapped gateway is other code: what it is told is kept in order, what it answers
    is a parameter.  Whether a new actor can be started is an argument of [consume]. *)

From stdpp Require Import sorting.
From S2P Require Import Prelude VicodynPeer.

Local Open Scope cpp_scope.

Section gateway.
Context {endpoint : Type} `{EqDecision endpoint}.
Implicit Types (d : @peers_t endpoint) (p : @peer_t endpoint).

(** ** The simple balancer *)

(** [choose_random_if]; [r] is what [rand] gives. *)
Definition choose_random_if {A} (r : nat) (f : A -> bool) (l : list A) : option A :=
  let chosen := filter (fun x => f x = true) l in
  match chosen with
  | [] => None
  | _ => chosen !! (r mod length chosen)%nat
  end.

Definition eligible (cluster : string) (hosts : gset string) (p : @peer_t endpoint) : bool :=
  connected p && bool_decide (cluster = x_cocaine_cluster p) && bool_decide (uuid p ∈ hosts).

(** The peers of the table, with their addresses *)
Definition live_peers (d : @peers_t endpoint) : list (nat * @peer_t endpoint) :=
  omap (fun x : string * nat => pair x.2 <$> heap d !! x.2) (map_to_list (peers d)).

(** [None] is the error ["no peers found"]. *)
Definition choose_peer (app_name cluster : string) (r : nat) (d : @peers_t endpoint) : option nat :=
  match apps d !! app_name with
  | None => None
  | Some hosts =>
      if decide (hosts = ∅) then None
      else fst <$> choose_random_if r (fun x => eligible cluster hosts x.2) (live_peers d)
  end.

Lemma choose_random_if_Some {A} r (f : A -> bool) l x :
  choose_random_if r f l = Some x -> x ∈ l /\ f x = true.
Proof.
  unfold choose_random_if. intros H.
  assert (x ∈ filter (fun x => f x = true) l) as Hx.
  { destruct (filter _ l) eqn:E; [done|]. by eapply list_elem_of_lookup_2. }
  apply list_elem_of_filter in Hx. tauto.
Qed.

Lemma choose_random_if_None {A} r (f : A -> bool) l :
  choose_random_if r f l = None <-> forall x, x ∈ l -> f x = false.
Proof.
  unfold choose_random_if. split.
  - intros H x Hx. destruct (f x) eqn:E; [|done].
    assert (x ∈ filter (fun x => f x = true) l) as Hy by (by apply list_elem_of_filter).
    destruct (filter _ l) as [|y l'] eqn:El; [by apply elem_of_nil in Hy|].
    apply lookup_ge_None in H. pose proof (Nat.mod_upper_bound r (length (y :: l')) ltac:(done)). lia.
  - intros H. destruct (filter _ l) as [|y l'] eqn:El; [done|].
    assert (y ∈ filter (fun x => f x = true) l) as [Hy Hl]%list_elem_of_filter by (rewrite El; left).
    by rewrite H in Hy.
Qed.

Lemma elem_of_live_peers d a p :
  (a, p) ∈ live_peers d <-> exists u, peers d !! u = Some a /\ heap d !! a = Some p.
Proof.
  unfold live_peers. rewrite list_elem_of_omap. split.
  - intros ([u b] & Hin & E). apply elem_of_map_to_list in Hin. simpl in E.
    destruct (heap d !! b) eqn:Eb; simplify_eq/=. eauto.
  - intros (u & Hu & Ha). exists (u, a). split; [by apply elem_of_map_to_list|]. simpl. by rewrite Ha.
Qed.

(** The balancer picks a peer of the table that is connected, is of the gateway's
    own cluster and runs the application, whatever the random number; it fails exactly
    when there is no such peer. *)
Theorem choose_peer_spec (app_name cluster : string) (r : nat) (d : @peers_t endpoint) :
  let good a := exists u p hosts, peers d !! u = Some a /\ heap d !! a = Some p /\ connected p = true /\
                  x_cocaine_cluster p = cluster /\ apps d !! app_name = Some hosts /\ uuid p ∈ hosts in
  match choose_peer app_name cluster r d with
  | Some a => good a
  | None => forall a, ~ good a
  end.
Proof.
  intros good. subst good. simpl. unfold choose_peer.
  destruct (apps d !! app_name) as [hosts|] eqn:Eh; [|by intros a (? & ? & ? & ? & ? & ? & ? & ? & ?)].
  case_decide as Hn; [subst; intros a (u & p & h & _ & _ & _ & _ & [= <-] & Hin); set_solver|].
  destruct (choose_random_if _ _ _) as [[a p]|] eqn:Ec; simpl.
  - apply choose_random_if_Some in Ec as [(u & Hu & Ha)%elem_of_live_peers He]. simpl in He.
    apply andb_true_iff in He as [[? ?%bool_decide_eq_true]%andb_true_iff ?%bool_decide_eq_true].
    by exists u, p, hosts.
  - intros a (u & p & h & Hu & Ha & Hc & Hx & [= <-] & Hin). pose proof (proj1 (choose_random_if_None _ _ _) Ec) as Hall.
    specialize (Hall (a, p)). rewrite elem_of_live_peers in Hall. specialize (Hall ltac:(eauto)). simpl in Hall.
    unfold eligible in Hall. rewrite Hc, bool_decide_true, bool_decide_true in Hall; done.
Qed.

(** ** State of the gateway *)

Inductive protocol_t := node_protocol | app_protocol | other_protocol (n : nat).

(** What the wrapped gateway is told *)
Inductive wrapped_call :=
| WConsume (uuid name : string) (version : nat) (endpoints : list endpoint) (protocol : protocol_t)
| WCleanup (uuid name : string)
| WCleanupAll (uuid : string).

(** A virtual service: its actor and the name its proxy serves *)
Record proxy_description_t := mk_proxy { actor : nat; app_name : string }.

Record vicodyn_t := mk_vicodyn {
  gpeers : @peers_t endpoint;
  mapping : gmap string proxy_description_t;
  wrapped : list wrapped_call;
  started : nat;              (** actors started *)
  terminated : list nat       (** actors terminated *)
}.

Definition set_gpeers (d : @peers_t endpoint) (g : vicodyn_t) : vicodyn_t :=
  mk_vicodyn d (mapping g) (wrapped g) (started g) (terminated g).
Definition tell (c : wrapped_call) (g : vicodyn_t) : vicodyn_t :=
  mk_vicodyn (gpeers g) (mapping g) (wrapped g ++ [c]) (started g) (terminated g).

Definition vicodyn_construct : vicodyn_t := mk_vicodyn peers_construct ∅ [] 0 [].

Inductive gateway_error := ActorFailed | InvalidIterator.

Abbreviation G := (ST vicodyn_t gateway_error).

(** ** [proxy_t] *)

Definition virtual : string := "virtual::".

(** [name.substr(sizeof("virtual::") - 1)] *)
Definition proxy_app_name (name : string) : string :=
  String.substring (String.length virtual) (String.length name - String.length virtual) name.

Definition proxy_empty (x : proxy_description_t) (d : @peers_t endpoint) : bool :=
  match apps d !! app_name x with
  | None => true
  | Some hosts => bool_decide (hosts = ∅)
  end.

Definition proxy_size (x : proxy_description_t) (d : @peers_t endpoint) : nat :=
  match apps d !! app_name x with None => 0 | Some hosts => size hosts end.

(** ** Operations *)

(** [make_unique<proxy_t>], [actor->run()] and [mapping.emplace] *)
Definition new_proxy (name : string) (actor_runs : bool) : G unit :=
  if actor_runs then
    st_modify (fun g => mk_vicodyn (gpeers g)
      (<[name := mk_proxy (started g) (proxy_app_name (virtual ++ name))]> (mapping g)) (wrapped g)
      (S (started g)) (terminated g))
  else st_throw ActorFailed.

Definition consume (uuid name : string) (version : nat) (endpoints : list endpoint) (protocol : protocol_t)
    (cluster : string) (now : Z) (actor_runs : bool) : G unit :=
  st_modify (tell (WConsume uuid name version endpoints protocol)) ;;;
  match protocol with
  | node_protocol =>
      st_modify (fun g => set_gpeers (register_peer uuid endpoints cluster now (gpeers g)).2 g)
  | app_protocol =>
      st_modify (fun g => set_gpeers (register_app uuid name (gpeers g)) g) ;;;
      let! m := st_gets mapping in
      match m !! name with
      | None => new_proxy name actor_runs
      | Some _ => st_ret tt
      end
  | other_protocol _ => st_ret tt
  end.

(** [actor->terminate(); mapping.erase(it)] *)
Definition drop_proxy (name : string) (x : proxy_description_t) : G unit :=
  st_modify (fun g => mk_vicodyn (gpeers g) (delete name (mapping g)) (wrapped g) (started g)
                        (terminated g ++ [actor x])).

Definition cleanup (uuid name : string) : G unit :=
  (if decide (name = "node"%string) then st_modify (fun g => set_gpeers (erase_peer uuid (gpeers g)) g)
   else
     st_modify (fun g => set_gpeers (erase_app uuid name (gpeers g)) g) ;;;
     let! g := st_get in
     match mapping g !! name with
     | Some x => st_when (proxy_empty x (gpeers g)) (drop_proxy name x)
     | None => st_ret tt
     end) ;;;
  st_modify (tell (WCleanup uuid name)).

(** The loop of [cleanup(uuid)] over the names in order.  [mapping.erase(it)] invalidates
    the iterator that the next turn compares and reads. *)
Fixpoint cleanup_loop (names : list string) : G unit :=
  match names with
  | [] => st_ret tt
  | name :: names =>
      let! g := st_get in
      match mapping g !! name with
      | Some x =>
          if proxy_empty x (gpeers g) then drop_proxy name x ;;; st_throw InvalidIterator
          else cleanup_loop names
      | None => st_throw InvalidIterator
      end
  end.

Definition proxy_names (g : vicodyn_t) : list string := merge_sort String.le (map_to_list (mapping g)).*1.

Definition cleanup_uuid (uuid : string) : G unit :=
  st_modify (fun g => set_gpeers (erase uuid (gpeers g)) g) ;;;
  let! g := st_get in
  cleanup_loop (proxy_names g) ;;;
  st_modify (tell (WCleanupAll uuid)).

(** The destructor *)
Definition vicodyn_destroy (g : vicodyn_t) : vicodyn_t :=
  mk_vicodyn (gpeers g) ∅ (wrapped g) (started g)
    (terminated g ++ ((fun name => match mapping g !! name with Some x => actor x | None => 0 end) <$> proxy_names g)).

(** [simple_t::on_error] for an application that does not run on a peer any more *)
Definition on_not_running (uuid name : string) : G unit :=
  st_modify (fun g => set_gpeers (erase_app uuid name (gpeers g)) g).

(** What [resolve] gives: the virtual service, a local one, or the wrapped gateway's *)
Inductive resolution := Virtual (actor : nat) | Local (service : nat) | Wrapped (service : option nat).

Section answers.
Context (locate : string -> option nat) (wrapped_resolve : list wrapped_call -> string -> option nat)
  (wrapped_count : list wrapped_call -> string -> nat).

Definition resolve (name : string) (g : vicodyn_t) : resolution :=
  match mapping g !! name with
  | Some x => Virtual (actor x)
  | None => match locate name with Some s => Local s | None => Wrapped (wrapped_resolve (wrapped g) name) end
  end.

Definition total_count (name : string) (g : vicodyn_t) : nat :=
  match mapping g !! name with
  | None => wrapped_count (wrapped g) name
  | Some x => proxy_size x (gpeers g)
  end.
End answers.

(** The methods [peers] and [apps] of the service: all entries for an empty name, one
    entry, or no table at all. *)
Definition peers_info (u : string) (g : vicodyn_t) : option (gmap string nat) :=
  if decide (u = ""%string) then Some (peers (gpeers g))
  else match peers (gpeers g) !! u with
       | Some a => match heap (gpeers g) !! a with Some p => Some {[uuid p := a]} | None => None end
       | None => None
       end.

Definition apps_info (app : string) (g : vicodyn_t) : option (gmap string (gset string)) :=
  if decide (app = ""%string) then Some (apps (gpeers g))
  else match apps (gpeers g) !! app with Some hosts => Some {[app := hosts]} | None => None end.

(** ** What the gateway knows *)

Lemma substring_all (s : string) : String.substring 0 (String.length s) s = s.
Proof. induction s as [|c s IH]; [done|]. simpl. by rewrite IH. Qed.

Lemma proxy_app_name_virtual (name : string) : proxy_app_name (virtual ++ name) = name.
Proof.
  unfold proxy_app_name, virtual. simpl. rewrite Nat.sub_0_r. apply substring_all.
Qed.

(** An announcement comes with what becomes of the actor, where one is started. *)
Inductive request :=
| Consume (uuid name : string) (version : nat) (endpoints : list endpoint) (protocol : protocol_t)
    (cluster : string) (now : Z) (actor_runs : bool)
| Cleanup (uuid name : string)
| NotRunning (uuid name : string).

Definition handle (q : request) : G unit :=
  match q with
  | Consume u n v e pr c now actor_runs => consume u n v e pr c now actor_runs
  | Cleanup u n => cleanup u n
  | NotRunning u n => on_not_running u n
  end.

Definition run (qs : list request) : vicodyn_t := foldl (fun g q => (handle q g).2) vicodyn_construct qs.

(** The specification: who runs what, on which hosts there is a node service, and which
    applications are served by a virtual service *)
Record directory := mk_directory { runs : gset (string * string); nodes : gset string; served : gset string }.

(** Somebody runs application [n]. *)
Definition somewhere (n : string) (r : gset (string * string)) : Prop := set_Exists (fun x => x.2 = n) r.
#[export] Instance somewhere_dec n r : Decision (somewhere n r).
Proof. unfold somewhere. apply _. Defined.

(** A service is started with an announcement that finds none, if its actor runs; it ends
    with the removal of the last host, not with a report that the application has stopped. *)
Definition learn (q : request) (s : directory) : directory :=
  match q with
  | Consume u n _ _ app_protocol _ _ actor_runs =>
      mk_directory ({[(u, n)]} ∪ runs s) (nodes s) (if (actor_runs : bool) then {[n]} ∪ served s else served s)
  | Consume u _ _ _ node_protocol _ _ _ => mk_directory (runs s) ({[u]} ∪ nodes s) (served s)
  | Consume _ _ _ _ (other_protocol _) _ _ _ => s
  | Cleanup u n =>
      if decide (n = "node"%string) then mk_directory (runs s) (nodes s ∖ {[u]}) (served s)
      else let r := runs s ∖ {[(u, n)]} in
           mk_directory r (nodes s) (if decide (somewhere n r) then served s else served s ∖ {[n]})
  | NotRunning u n => mk_directory (runs s ∖ {[(u, n)]}) (nodes s) (served s)
  end.

Definition learned (qs : list request) : directory := foldl (fun s q => learn q s) (mk_directory ∅ ∅ ∅) qs.

Definition hosts_of (n : string) (d : @peers_t endpoint) : gset string := app_set n d.

(** The gateway represents a directory. *)
Record represents (s : directory) (g : vicodyn_t) : Prop := {
  rp_runs : forall u n, u ∈ hosts_of n (gpeers g) <-> (u, n) ∈ runs s;
  rp_nodes : forall u, is_Some (peers (gpeers g) !! u) <-> u ∈ nodes s;
  rp_peers : peers_wf (gpeers g);
  rp_names : forall n x, mapping g !! n = Some x -> app_name x = n;
  rp_served : forall n, is_Some (mapping g !! n) <-> n ∈ served s;
  rp_actors : forall n x, mapping g !! n = Some x -> (actor x < started g)%nat /\ actor x ∉ terminated g;
  rp_terminated : Forall (fun a => a < started g)%nat (terminated g);
  rp_distinct : forall n m x y, mapping g !! n = Some x -> mapping g !! m = Some y -> actor x = actor y -> n = m
}.

Lemma hosts_register u n m (d : @peers_t endpoint) :
  hosts_of m (register_app u n d) = if decide (m = n) then {[u]} ∪ hosts_of m d else hosts_of m d.
Proof.
  unfold hosts_of, app_set, register_app; simpl. case_decide as E.
  - subst. by rewrite lookup_insert_eq.
  - by rewrite lookup_insert_ne.
Qed.

Lemma hosts_erase u n m (d : @peers_t endpoint) :
  hosts_of m (erase_app u n d) = if decide (m = n) then hosts_of m d ∖ {[u]} else hosts_of m d.
Proof.
  unfold hosts_of, app_set, erase_app; simpl. case_decide as E.
  - subst. by rewrite lookup_insert_eq.
  - by rewrite lookup_insert_ne.
Qed.

Lemma proxy_empty_hosts x (d : @peers_t endpoint) : proxy_empty x d = bool_decide (hosts_of (app_name x) d = ∅).
Proof. unfold proxy_empty, hosts_of, app_set. by destruct (apps d !! app_name x). Qed.

Lemma proxy_size_hosts x (d : @peers_t endpoint) : proxy_size x d = size (hosts_of (app_name x) d).
Proof. unfold proxy_size, hosts_of, app_set. by destruct (apps d !! app_name x). Qed.

Lemma represents_tell s g c : represents s g -> represents s (tell c g).
Proof. intros []. by split. Qed.

Lemma represents_node u e c now s g :
  represents s g ->
  represents (mk_directory (runs s) ({[u]} ∪ nodes s) (served s)) (set_gpeers (register_peer u e c now (gpeers g)).2 g).
Proof.
  intros [Hr Hn Hp Hm Hs Ha Ht Hd].
  assert (apps (register_peer u e c now (gpeers g)).2 = apps (gpeers g)) as Eapps.
  { unfold register_peer, new_peer. destruct (peer_at _ _) as [[a p]|]; [case_decide|]; done. }
  split; simpl; try done; unfold hosts_of, app_set in *; rewrite ?Eapps; try done.
  - intros v. rewrite elem_of_union, elem_of_singleton, <- Hn.
    assert (forall a, is_Some (<[u := a]> (peers (gpeers g)) !! v) <-> v = u \/ is_Some (peers (gpeers g) !! v)) as Hi.
    { intros a. destruct (decide (v = u)) as [->|Hne]; [rewrite lookup_insert_eq; naive_solver|].
      rewrite lookup_insert_ne by done. naive_solver. }
    unfold register_peer, new_peer. destruct (peer_at u (gpeers g)) as [[a p]|] eqn:Ea; [case_decide|]; simpl; try by rewrite Hi.
    unfold peer_at in Ea. destruct (peers (gpeers g) !! u) eqn:Eu; [|done]. split; [tauto|]. intros [->|?]; [|done]. by rewrite Eu.
  - by apply register_peer_wf.
Qed.

(** Erasing a host from a set of hosts keeps the rest. *)
Lemma represents_erase u n s g :
  represents s g ->
  represents (mk_directory (runs s ∖ {[(u, n)]}) (nodes s) (served s)) (set_gpeers (erase_app u n (gpeers g)) g).
Proof.
  intros [Hr Hn Hp Hm Hs Ha Ht Hd]. split; simpl; try done; [|by apply apps_wf].
  intros v m. rewrite hosts_erase, elem_of_difference, elem_of_singleton, <- Hr. case_decide; [subst; set_solver|].
  naive_solver.
Qed.

Lemma represents_drop n x s g :
  mapping g !! n = Some x ->
  represents s g -> represents (mk_directory (runs s) (nodes s) (served s ∖ {[n]})) (drop_proxy n x g).2.
Proof.
  intros Hx [Hr Hn Hp Hm Hs Ha Ht Hd]. split; simpl; try done.
  - intros m y [_ Hy]%lookup_delete_Some. eauto.
  - intros m. rewrite elem_of_difference, elem_of_singleton, <-Hs. destruct (decide (n = m)) as [->|Hne].
    + rewrite lookup_delete_eq. split; [by intros []|naive_solver].
    + rewrite lookup_delete_ne by done. naive_solver.
  - intros m y [Hne Hy]%lookup_delete_Some. split; [by eapply Ha|]. rewrite elem_of_app, list_elem_of_singleton.
    intros [Hin|Heq]; [by eapply Ha|]. apply Hne. by eapply Hd.
  - apply Forall_app. split; [done|]. constructor; [|done]. by eapply Ha.
  - intros m m' y y' [_ Hy]%lookup_delete_Some [_ Hy']%lookup_delete_Some. eauto.
Qed.

(** A service for a name that has none *)
Lemma represents_new n s g :
  mapping g !! n = None -> represents s g ->
  represents (mk_directory (runs s) (nodes s) ({[n]} ∪ served s)) (new_proxy n true g).2.
Proof.
  intros Ex [Hr Hn Hp Hm Hs Ha Ht Hd]. split; simpl; try done.
  - intros m y. destruct (decide (n = m)) as [->|Hne]; [rewrite lookup_insert_eq|rewrite lookup_insert_ne by done; by apply Hm].
    intros [= <-]. apply proxy_app_name_virtual.
  - intros m. rewrite elem_of_union, elem_of_singleton, <-Hs. destruct (decide (n = m)) as [->|Hne].
    + rewrite lookup_insert_eq. naive_solver.
    + rewrite lookup_insert_ne by done. naive_solver.
  - intros m y. destruct (decide (n = m)) as [->|Hne]; [rewrite lookup_insert_eq|rewrite lookup_insert_ne by done].
    + intros [= <-]. simpl. split; [lia|]. intros Hin. rewrite Forall_forall in Ht. specialize (Ht _ Hin). lia.
    + intros Hy. destruct (Ha m y Hy). split; [lia|done].
  - eapply Forall_impl; [done|]. intros; simpl in *; lia.
  - intros m m' y y'. destruct (decide (n = m)) as [->|Hne], (decide (m = m')) as [->|Hne']; try done;
      rewrite ?lookup_insert_eq, ?lookup_insert_ne by done.
    + intros [= <-] Hy. destruct (Ha _ _ Hy). simpl. lia.
    + destruct (decide (n = m')) as [->|Hne2]; rewrite ?lookup_insert_eq, ?lookup_insert_ne by done.
      * intros Hy [= <-]. destruct (Ha _ _ Hy). simpl. lia.
      * eauto.
Qed.

Lemma represents_app u n s g :
  represents s g ->
  represents (mk_directory ({[(u, n)]} ∪ runs s) (nodes s) (served s)) (set_gpeers (register_app u n (gpeers g)) g).
Proof.
  intros [Hr Hn Hp Hm Hs Ha Ht Hd]. split; simpl; try done; [|by apply apps_wf].
  intros v m. rewrite hosts_register, elem_of_union, elem_of_singleton, <- Hr. case_decide; [subst; set_solver|]. naive_solver.
Qed.

Lemma represents_ext s s' g :
  runs s = runs s' -> nodes s = nodes s' -> served s = served s' -> represents s g -> represents s' g.
Proof. destruct s, s'. simpl. by intros -> -> ->. Qed.

Lemma empty_nowhere n x s g :
  represents s g -> mapping g !! n = Some x -> proxy_empty x (gpeers g) = bool_decide (~ somewhere n (runs s)).
Proof.
  intros [Hr _ _ Hm _ _ _ _] Hx. rewrite proxy_empty_hosts, (Hm n x Hx). apply bool_decide_ext. split.
  - intros He ([u m] & Hu & Hm'). simpl in Hm'. subst m. apply Hr in Hu. rewrite He in Hu. set_solver.
  - intros H. apply set_eq. intros u. rewrite Hr. split; [|set_solver]. intros Hu. exfalso. apply H. by exists (u, n).
Qed.

Lemma handle_represents q s g : represents s g -> represents (learn q s) (handle q g).2.
Proof.
  intros H. destruct q as [u n v e [| |k] c now ok|u n|u n]; cbn [handle learn].
  - unfold consume. erewrite st_bind_Ret by reflexivity. cbn [st_modify snd]. apply (represents_node u e c now s (tell _ g)), represents_tell, H.
  - unfold consume. do 3 (erewrite st_bind_Ret by reflexivity).
    pose proof (represents_app u n s (tell (WConsume u n v e app_protocol) g) (represents_tell _ _ _ H)) as H'.
    revert H'. cbn [snd st_modify st_gets]. set (g1 := set_gpeers _ _). intros H'. destruct (mapping g1 !! n) as [x|] eqn:Ex.
    + eapply represents_ext; [..|exact H']; [done..|]. simpl. destruct ok; [|done].
      assert (n ∈ served s) by (apply (rp_served _ _ H'); by rewrite Ex). set_solver.
    + destruct ok; [|exact H']. exact (represents_new n _ g1 Ex H').
  - by apply represents_tell.
  - unfold cleanup. destruct (decide (n = "node"%string)) as [->|Hne].
    + erewrite st_bind_Ret by reflexivity. simpl. apply represents_tell.
      destruct H as [Hr Hn Hp Hm Hs Ha Ht Hd]. split; simpl; try done; [|by apply erase_peer_wf].
      intros v. rewrite elem_of_difference, elem_of_singleton, <- Hn. destruct (decide (v = u)) as [->|].
      * rewrite lookup_delete_eq. split; [by intros []|naive_solver].
      * rewrite lookup_delete_ne by done. naive_solver.
    + pose proof (represents_erase u n s g H) as H'. revert H'. set (g1 := set_gpeers _ g). set (r := runs s ∖ _). intros H'.
      assert (exists g2, (st_modify (fun g : vicodyn_t => set_gpeers (erase_app u n (gpeers g)) g) ;;;
        let! g := st_get in
        match mapping g !! n with
        | Some x => st_when (proxy_empty x (gpeers g)) (drop_proxy n x)
        | None => st_ret tt
        end) g = (Ret tt, g2) /\
        represents (mk_directory r (nodes s) (if decide (somewhere n r) then served s else served s ∖ {[n]})) g2) as (g2 & E & Hg2).
      { do 2 (erewrite st_bind_Ret by reflexivity). cbv beta. fold g1. destruct (mapping g1 !! n) as [x|] eqn:Ex.
        - rewrite (empty_nowhere n x _ _ H' Ex). simpl. destruct (decide (somewhere n r)) as [Hw|Hw].
          + rewrite bool_decide_eq_false_2 by tauto. by exists g1.
          + rewrite bool_decide_eq_true_2 by done. eexists. split; [reflexivity|]. by apply (represents_drop n x _ g1 Ex H').
        - exists g1. split; [done|]. assert (n ∉ served s) by (intros Hs; apply (rp_served _ _ H') in Hs as []; congruence).
          eapply represents_ext; [..|exact H']; [done..|]. simpl. destruct (decide _); [done|]. set_solver. }
      rewrite (st_bind_Ret _ _ g tt g2 E). by apply represents_tell.
  - by apply represents_erase.
Qed.

Lemma run_represents qs : represents (learned qs) (run qs).
Proof.
  unfold run, learned.
  assert (represents (mk_directory ∅ ∅ ∅) vicodyn_construct) as H0.
  { split; unfold hosts_of, app_set; simpl; try by (intros; rewrite ?lookup_empty in *; set_solver).
    split; simpl; [set_solver|]. intros a. rewrite lookup_empty. by intros []. }
  revert H0. generalize (mk_directory ∅ ∅ ∅) vicodyn_construct. induction qs as [|q qs IH]; intros s g H; [done|].
  simpl. by apply IH, handle_represents.
Qed.

(** The request ends with the exception of an actor that does not run. *)
Definition start_fails (q : request) (s : directory) : bool :=
  match q with Consume _ n _ _ app_protocol _ _ false => bool_decide (n ∉ served s) | _ => false end.
Definition starts (q : request) : bool := match q with Consume _ _ _ _ _ _ _ actor_runs => actor_runs | _ => true end.

Lemma handle_result q s g :
  represents s g -> (handle q g).1 = if start_fails q s then Throw ActorFailed else Ret tt.
Proof.
  intros H. destruct q as [u n v e [| |k] c now ok|u n|u n]; cbn [handle start_fails]; [done| |done| |done].
  - unfold consume. do 3 (erewrite st_bind_Ret by reflexivity). simpl. pose proof (rp_served _ _ H n) as Hs.
    destruct (mapping g !! n) as [x|] eqn:Ex.
    + destruct ok; [done|]. rewrite bool_decide_eq_false_2; [done|]. intros Hn. apply Hn, Hs. by exists x.
    + destruct ok; [done|]. rewrite bool_decide_eq_true_2; [done|]. by intros []%Hs.
  - unfold cleanup. destruct (decide (n = "node"%string)); [done|]. unfold st_bind, st_modify, st_get. simpl.
    destruct (mapping g !! n) as [x|]; [|done]. by destruct (proxy_empty x _).
Qed.

Lemma learned_served qs :
  Forall (fun q => starts q = true) qs -> forall u n, (u, n) ∈ runs (learned qs) -> n ∈ served (learned qs).
Proof.
  unfold learned. assert (forall u n, (u, n) ∈ runs (mk_directory ∅ ∅ ∅) -> n ∈ served (mk_directory ∅ ∅ ∅)) as H0 by (simpl; set_solver).
  revert H0. generalize (mk_directory ∅ ∅ ∅). induction qs as [|q qs IH]; intros s H0 Hq; [done|].
  apply Forall_cons in Hq as [Hq Hqs]. cbn [foldl]. apply IH; [|done]. clear IH Hqs. intros u n.
  destruct q as [u' n' v e [| |k] c now ok|u' n'|u' n']; simpl in *; subst; simpl.
  - apply H0.
  - intros [[= <- <-]%elem_of_singleton|?%H0]%elem_of_union; set_solver.
  - apply H0.
  - destruct (decide (n' = "node"%string)); simpl; [apply H0|]. intros Hu. pose proof Hu as [Hr Hn]%elem_of_difference. specialize (H0 _ _ Hr).
    destruct (decide (somewhere n' _)) as [Hw|Hw]; [done|]. apply elem_of_difference. split; [done|].
    intros ->%elem_of_singleton. apply Hw. by exists (u, n').
  - intros [Hr _]%elem_of_difference. by eapply H0.
Qed.


(** ** Dropping a host *)

Lemma cleanup_loop_crash names g :
  (forall n, n ∈ names -> is_Some (mapping g !! n)) ->
  ((cleanup_loop names g).1 = Throw InvalidIterator <->
   exists n x, n ∈ names /\ mapping g !! n = Some x /\ proxy_empty x (gpeers g) = true).
Proof.
  induction names as [|n names IH]; intros Hn; simpl.
  - split; [done|]. intros (n & x & Hin & _). by apply elem_of_nil in Hin.
  - erewrite st_bind_Ret by reflexivity. cbv beta. destruct (Hn n) as [x Hx]; [left|]. rewrite Hx.
    destruct (proxy_empty x (gpeers g)) eqn:Ee; [split; [|done]; intros _; exists n, x; split_and!; [left|done|done]|].
    rewrite IH by (intros m Hm; apply Hn; by right). split.
    + intros (m & y & Hm & ?). exists m, y. split; [by right|done].
    + intros (m & y & [->|Hm]%elem_of_cons & Hy & Hey); [congruence|]. by exists m, y.
Qed.

Lemma elem_of_proxy_names n g : n ∈ proxy_names g <-> is_Some (mapping g !! n).
Proof.
  unfold proxy_names. rewrite merge_sort_Permutation, list_elem_of_fmap. split.
  - intros ([m x] & -> & Hin%elem_of_map_to_list). by exists x.
  - intros [x Hx]. exists (n, x). split; [done|]. by apply elem_of_map_to_list.
Qed.

(** Dropping a host reads an erased iterator, which is undefined behaviour, exactly
    when some virtual service has no host left; that happens as soon as the balancer has
    heard that an application has stopped on its last host.  The hosts of applications
    are left as they were, with the dropped one among them. *)
Theorem cleanup_uuid_crashes (u : string) (qs : list request) :
  let g := run qs in
  ((cleanup_uuid u g).1 = Throw InvalidIterator <->
   exists n x, mapping g !! n = Some x /\ forall v, (v, n) ∉ runs (learned qs)) /\
  apps (gpeers (cleanup_uuid u g).2) = apps (gpeers g).
Proof.
  intros g. destruct (run_represents qs : represents _ g) as [Hr Hn Hp Hm Hs Ha Ht Hd].
  unfold cleanup_uuid. do 2 (erewrite st_bind_Ret by reflexivity). cbv beta. set (g1 := set_gpeers _ g). split.
  - transitivity ((cleanup_loop (proxy_names g1) g1).1 = Throw InvalidIterator).
    { unfold st_bind. by destruct (cleanup_loop _ g1) as [[]]. }
    rewrite cleanup_loop_crash by (intros n; apply elem_of_proxy_names). split.
    + intros (n & x & _ & Hx & He). exists n, x. split; [done|]. intros v. rewrite <- Hr.
      rewrite proxy_empty_hosts in He. apply bool_decide_eq_true in He. rewrite (Hm n x Hx) in He.
      change (hosts_of n (gpeers g1)) with (hosts_of n (gpeers g)) in He. rewrite He. set_solver.
    + intros (n & x & Hx & Hv). exists n, x. split_and!; [by apply elem_of_proxy_names; exists x|done|].
      rewrite proxy_empty_hosts. apply bool_decide_eq_true. rewrite (Hm n x Hx).
      change (hosts_of n (gpeers g1)) with (hosts_of n (gpeers g)).
      apply set_eq. intros v. rewrite Hr. set_solver.
  - assert (forall names g, apps (gpeers (cleanup_loop names g).2) = apps (gpeers g)) as Hl.
    { clear. induction names as [|n names IH]; intros g; [done|]. simpl. unfold st_bind, st_get.
      destruct (mapping g !! n); [|done]. by destruct (proxy_empty _ _). }
    specialize (Hl (proxy_names g1) g1). unfold st_bind. by destruct (cleanup_loop _ g1) as [[]].
Qed.
End gateway.

(** The last host of an application reports that it does not run there; then a host
    leaves the cluster. *)
Example cleanup_uuid_crash_run :
  let qs : list (@request nat) :=
    [Consume "h1" "node" 1 [1] node_protocol "" 0 true; Consume "h1" "app" 1 [2] app_protocol "" 0 true; NotRunning "h1" "app"] in
  (cleanup_uuid "h2" (run qs)).1 = Throw InvalidIterator.
Proof. vm_compute. reflexivity. Qed.
