(* ===== verification/VicodynApi.v ===== *)
(** * What the Vicodyn gateway tells of itself

    [vicodyn/src/gateway/vicodyn.cpp]: the conversion of a peer to a dynamic value, the
    three methods of the service over the tables of [VicodynGateway.v], and the
    configuration of the gateway that is wrapped.  The additional fields of a node's
    announcement ([extra]) and the text of an endpoint are arguments.

    [reports_agree] says that the three methods speak of the same tables. *)

From stdpp Require Import sorting.
From S2P Require Import Prelude LogFilter Dynamic VicodynPeer VicodynGateway.

Local Open Scope Z_scope.
Local Open Scope string_scope.

Section api.
Context {endpoint : Type} `{EqDecision endpoint}.
(** The fields announced by the peer at an address, how endpoints are converted, and a
    reading of the clock *)
Context (extra : nat -> list (string * dynamic_t)) (endpoints_dynamic : list endpoint -> dynamic_t)
  (to_time_t : Z -> Z).

(** A [std::map] as an object: its keys are in order. *)
Definition by_key {A} (x y : string * A) : Prop := String.le x.1 y.1.
#[export] Instance by_key_dec {A} (x y : string * A) : Decision (by_key x y).
Proof. unfold by_key. apply _. Defined.
Definition object_of {A} (f : A -> dynamic_t) (m : gmap string A) : dynamic_t :=
  DObject (prod_map id f <$> merge_sort by_key (map_to_list m)).

(** [dynamic_constructor<peer_t>::convert] *)
Definition peer_dynamic (a : nat) (p : @peer_t endpoint) : dynamic_t :=
  DObject [("connected", DBool (connected p)); ("endpoints", endpoints_dynamic (endpoints p)); ("extra", DObject (extra a));
           ("last_active", DInt (to_time_t (last_active p))); ("uuid", DString (uuid p))].

(** A null pointer where the table has no such peer, which does not happen *)
Definition pointer_dynamic (d : @peers_t endpoint) (a : nat) : dynamic_t :=
  match heap d !! a with Some p => peer_dynamic a p | None => DNull end.
Definition hosts_dynamic (hosts : gset string) : dynamic_t := DArray (DString <$> merge_sort String.le (elements hosts)).

Definition peers_dynamic (g : @vicodyn_t endpoint) (m : gmap string nat) : dynamic_t := object_of (pointer_dynamic (gpeers g)) m.
Definition apps_dynamic (m : gmap string (gset string)) : dynamic_t := object_of hosts_dynamic m.

(** The slots of [peers], [apps] and [info]: a key that nothing was assigned to is null. *)
Definition on_peers (u : string) (g : @vicodyn_t endpoint) : dynamic_t :=
  DObject [("peers", default DNull (peers_dynamic g <$> peers_info u g))].
Definition on_apps (app : string) (g : @vicodyn_t endpoint) : dynamic_t :=
  DObject [("apps", default DNull (apps_dynamic <$> apps_info app g))].
Definition on_info (g : @vicodyn_t endpoint) : dynamic_t :=
  DObject [("apps", apps_dynamic (apps (gpeers g))); ("peers", peers_dynamic g (peers (gpeers g)))].

(** ** The wrapped gateway *)

Inductive wrapped_error := bad_access.

(** [create_wrapped_gateway]: the type and the arguments that the repository is asked with *)
Definition create_wrapped_gateway (args : dynamic_t) : outcome wrapped_error (string * dynamic_t) :=
  outcome_bind (access bad_access (as_object args)) (fun m =>
  outcome_bind (access bad_access (as_object (field "wrapped" (DObject []) m))) (fun conf =>
  outcome_bind (access bad_access (as_string (field "type" (DString "adhoc") conf))) (fun name =>
  Ret (name, field "args" (DObject []) conf)))).

Lemma wrapped_default : create_wrapped_gateway (DObject []) = Ret ("adhoc", DObject []).
Proof. reflexivity. Qed.

(** ** Agreement *)

Lemma find_field_iff (k : string) (v : dynamic_t) (l : list (string * dynamic_t)) :
  NoDup l.*1 -> find_field k l = Some v <-> (k, v) ∈ l.
Proof.
  induction l as [|[x w] l IH]; simpl; intros N; [split; [done|by intros ?%not_elem_of_nil]|].
  apply NoDup_cons in N as [Nx N]. destruct (String.eqb_spec x k) as [->|Hk].
  - split; [intros [= ->]; set_solver|]. intros [[= ->]|H]%elem_of_cons; [done|].
    exfalso. apply Nx. by apply (list_elem_of_fmap_2 fst) in H.
  - rewrite (IH N). set_solver.
Qed.

(** [at] of a report *)
Definition part (k : string) (d : dynamic_t) : option dynamic_t :=
  match d with DObject l => find_field k l | _ => None end.

(** The field of an object that was made of a map *)
Lemma object_of_field {A} (f : A -> dynamic_t) (m : gmap string A) (k : string) :
  part k (object_of f m) = f <$> m !! k.
Proof.
  unfold object_of. simpl. assert (merge_sort by_key (map_to_list m) ≡ₚ map_to_list m) as P by apply merge_sort_Permutation.
  assert (NoDup ((prod_map id f <$> merge_sort by_key (map_to_list m)).*1)) as N.
  { assert (forall l : list (string * A), (prod_map id f <$> l).*1 = l.*1) as -> by (intros l; induction l as [|[] l IH]; [done|simpl; unfold id; f_equal; exact IH]).
    rewrite P. apply NoDup_fst_map_to_list. }
  apply option_eq. intros v. rewrite (find_field_iff _ _ _ N), P, list_elem_of_fmap. split.
  - intros ([x a] & [= -> ->] & H%elem_of_map_to_list). by rewrite H.
  - intros (a & E & ->)%fmap_Some. exists (k, a). split; [done|]. by apply elem_of_map_to_list.
Qed.

(** The three methods agree.  After any requests to the gateway, what is said of all peers
    or applications at once is what [info] says of them, and what is said of one is what
    [info] says of it: nothing, where it is not known. *)
Theorem reports_agree (qs : list (@request endpoint)) (u app : string) :
  let g := run qs in
  part "peers" (on_peers "" g) = part "peers" (on_info g) /\
  part "apps" (on_apps "" g) = part "apps" (on_info g) /\
  (u <> "" -> part "peers" (on_peers u g) ≫= part u = part "peers" (on_info g) ≫= part u) /\
  (app <> "" -> part "apps" (on_apps app g) ≫= part app = part "apps" (on_info g) ≫= part app).
Proof.
  intros g. split; [done|]. split; [done|]. split.
  - intros Hu. pose proof (run_represents qs) as R. fold g in R.
    change (part u (default DNull (peers_dynamic g <$> peers_info u g)) = part u (peers_dynamic g (peers (gpeers g)))).
    unfold peers_info, peers_dynamic. rewrite decide_False, object_of_field by done.
    destruct (peers (gpeers g) !! u) as [a|] eqn:E; [|done].
    destruct (pw_peers _ (rp_peers _ _ R) u a E) as (p & Hp & <-). rewrite Hp. cbn [fmap option_fmap option_map default from_option id].
    by rewrite object_of_field, lookup_singleton_eq.
  - intros Happ.
    change (part app (default DNull (apps_dynamic <$> apps_info app g)) = part app (apps_dynamic (apps (gpeers g)))).
    unfold apps_info, apps_dynamic. rewrite decide_False, object_of_field by done.
    destruct (apps (gpeers g) !! app) as [hosts|] eqn:E; [|done]. cbn [fmap option_fmap option_map default from_option id].
    by rewrite object_of_field, lookup_singleton_eq.
Qed.
End api.
