(* ===== verification/Zookeeper.v ===== *)
(** * The ZooKeeper client: [unicorn/src/zookeeper.cpp], [unicorn/src/zookeeper/]

    Paths, error codes, the session and the connection that the unicorn uses.  The C
    library behind them is other code: its return codes, event types and states are the
    names the source tests for, and what a call of it returns is an argument. *)

From Stdlib Require Import Ascii.
From stdpp Require Import pretty.
From S2P Require Import Prelude.

Local Open Scope cpp_scope.

Abbreviation path_t := string.

(** ** Codes *)

Inductive rc_t :=
| ZOK | ZCONNECTIONLOSS | ZSESSIONEXPIRED | ZCLOSING | ZNONODE | ZNODEEXISTS | ZBADVERSION
| ZOTHER (n : Z).
#[export] Instance rc_eq_dec : EqDecision rc_t.
Proof. solve_decision. Defined.

Inductive watch_type :=
| CREATED_EVENT | DELETED_EVENT | CHANGED_EVENT | CHILD_EVENT | SESSION_EVENT | NOTWATCHING_EVENT
| OTHER_EVENT (n : Z).
#[export] Instance watch_type_eq_dec : EqDecision watch_type.
Proof. solve_decision. Defined.

Inductive watch_state :=
| EXPIRED_SESSION_STATE | AUTH_FAILED_STATE | CONNECTING_STATE | ASSOCIATING_STATE | CONNECTED_STATE
| OTHER_STATE (n : Z).
#[export] Instance watch_state_eq_dec : EqDecision watch_state.
Proof. solve_decision. Defined.

(** The errors thrown, by code; [uncoded] is an [error_t] without one. *)
Inductive error_t :=
| connection_loss | no_node | node_exists | version_not_allowed | backend_internal_error
| invalid_path | invalid_value | invalid_type | child_not_allowed | invalid_argument | uncoded.
#[export] Instance zoo_error_eq_dec : EqDecision error_t.
Proof. solve_decision. Defined.

Definition map_zoo_error (rc : rc_t) : error_t :=
  match rc with
  | ZCONNECTIONLOSS | ZSESSIONEXPIRED | ZCLOSING => connection_loss
  | ZNONODE => no_node
  | ZNODEEXISTS => node_exists
  | ZBADVERSION => version_not_allowed
  | _ => backend_internal_error
  end.

(** ** Paths *)

Definition slash : ascii := "/"%char.

(** [std::count(path, '/')] *)
Fixpoint slashes (s : string) : nat :=
  match s with
  | EmptyString => 0
  | String c s => if decide (c = slash) then S (slashes s) else slashes s
  end.

(** What is before the [k]-th slash, from zero *)
Fixpoint before_nth (k : nat) (s : string) : option string :=
  match s with
  | EmptyString => None
  | String c s =>
      if decide (c = slash) then
        match k with O => Some ""%string | S k => String c <$> before_nth k s end
      else String c <$> before_nth k s
  end.

(** [boost::find_nth(path, "/", -depth)] is the [depth]-th slash from the end. *)
Definition path_parent (path : path_t) (depth : nat) : outcome error_t path_t :=
  if decide (path = ""%string) then Throw uncoded
  else match depth with
       | O => Ret path
       | _ =>
           if decide (slashes path < depth)%nat then Throw uncoded
           else match before_nth (slashes path - depth) path with Some p => Ret p | None => Throw uncoded end
       end.

Definition is_digit (c : ascii) : bool := let n := N_of_ascii c in (48 <=? n)%N && (n <=? 57)%N.

(** [path.find_last_not_of("0123456789")] *)
Fixpoint find_last_not_digit (s : string) : option nat :=
  match s with
  | EmptyString => None
  | String c s =>
      match find_last_not_digit s with
      | Some i => Some (S i)
      | None => if is_digit c then None else Some 0
      end
  end.

Definition npos : Z := u64_modulus - 1.
Definition zoo_sequence_length : Z := 10.

Definition is_valid_sequence_node (path : path_t) : bool :=
  let pos := match find_last_not_digit path with Some i => Z.of_nat i | None => npos end in
  bool_decide (u64 (u64 (Z.of_nat (String.length path) - pos) - 1) = zoo_sequence_length).

(** What follows the last slash *)
Fixpoint after_last (s : string) : option string :=
  match s with
  | EmptyString => None
  | String c s =>
      match after_last s with
      | Some r => Some r
      | None => if decide (c = slash) then Some s else None
      end
  end.

Definition get_node_name (path : path_t) : outcome error_t string :=
  match after_last path with
  | None | Some EmptyString => Throw invalid_path
  | Some r => Ret r
  end.

(** A path from its components *)
Fixpoint render (cs : list string) : path_t :=
  match cs with [] => "" | c :: cs => String slash (c ++ render cs) end.

Fixpoint no_slash (s : string) : bool :=
  match s with EmptyString => true | String c s => bool_decide (c <> slash) && no_slash s end.

Lemma slashes_app a b : slashes (a ++ b) = slashes a + slashes b.
Proof. induction a as [|c a IH]; string_simpl; [done|]. simpl. rewrite IH. by case_decide. Qed.

Lemma slashes_none a : no_slash a = true -> slashes a = 0.
Proof.
  induction a as [|c a IH]; [done|]. simpl. intros [Hc Ha]%andb_true_iff. apply bool_decide_eq_true in Hc.
  rewrite decide_False by done. auto.
Qed.

Lemma before_nth_app k a b : no_slash a = true -> before_nth k (a ++ b) = (fun r => (a ++ r)%string) <$> before_nth k b.
Proof.
  induction a as [|c a IH]; string_simpl; [intros _; by destruct (before_nth k b)|]. simpl.
  intros [Hc Ha]%andb_true_iff. apply bool_decide_eq_true in Hc. rewrite decide_False, IH by done.
  by destruct (before_nth k b).
Qed.

Lemma slashes_render cs : Forall (fun c => no_slash c = true) cs -> slashes (render cs) = length cs.
Proof.
  induction 1 as [|c cs Hc _ IH]; [done|]. simpl. by rewrite slashes_app, slashes_none, IH.
Qed.

Lemma before_nth_render k cs :
  Forall (fun c => no_slash c = true) cs -> (k < length cs)%nat -> before_nth k (render cs) = Some (render (take k cs)).
Proof.
  intros Hcs. revert k. induction Hcs as [|c cs Hc _ IH]; intros k Hk; simpl in *; [lia|].
  destruct k as [|k]; [done|]. rewrite before_nth_app by done. rewrite IH by lia. done.
Qed.

Lemma path_parent_render cs depth :
  Forall (fun c => no_slash c = true) cs -> cs <> [] -> (depth <= length cs)%nat ->
  path_parent (render cs) depth = Ret (render (take (length cs - depth) cs)).
Proof.
  intros Hcs Hne Hd. unfold path_parent. rewrite decide_False by (by destruct cs).
  destruct depth as [|depth]; [by rewrite Nat.sub_0_r, firstn_all|].
  rewrite slashes_render by done. rewrite decide_False by lia. by rewrite before_nth_render by (done || lia).
Qed.

Lemma path_parent_too_deep cs depth :
  Forall (fun c => no_slash c = true) cs -> (length cs < depth)%nat -> path_parent (render cs) depth = Throw uncoded.
Proof.
  intros Hcs Hd. unfold path_parent. case_decide; [done|]. destruct depth; [lia|].
  rewrite slashes_render by done. by rewrite decide_True.
Qed.

Lemma after_last_no_slash s : no_slash s = true -> after_last s = None.
Proof.
  induction s as [|c s IH]; [done|]. simpl. intros [Hc Hs]%andb_true_iff. apply bool_decide_eq_true in Hc.
  by rewrite IH, decide_False by done.
Qed.

Lemma after_last_app a b : no_slash b = true -> after_last (a ++ String slash b) = Some b.
Proof.
  intros Hb. induction a as [|c a IH]; string_simpl; simpl; [by rewrite after_last_no_slash|]. by rewrite IH.
Qed.

Lemma get_node_name_app a b : no_slash b = true -> b <> ""%string -> get_node_name (a ++ String slash b) = Ret b.
Proof. intros Hb Hne. unfold get_node_name. rewrite after_last_app by done. by destruct b. Qed.

(** The number of digits at the end of a name *)
Definition trailing_digits (s : string) : nat :=
  match find_last_not_digit s with Some i => String.length s - S i | None => String.length s end.

Lemma find_last_not_digit_lt s i : find_last_not_digit s = Some i -> (i < String.length s)%nat.
Proof.
  revert i. induction s as [|c s IH]; intros i; simpl; [done|].
  destruct (find_last_not_digit s) as [j|]; [intros [= <-]; specialize (IH j eq_refl); lia|].
  destruct (is_digit c); [done|]. intros [= <-]. lia.
Qed.

(** A name is taken for a sequence node exactly when it ends in ten digits and no
    more, also when it has no other characters, where the search for another character
    gives [npos] and the 64-bit subtraction wraps around. *)
Theorem valid_sequence_node_spec (s : string) :
  (Z.of_nat (String.length s) < u64_modulus)%Z ->
  is_valid_sequence_node s = bool_decide (trailing_digits s = 10%nat).
Proof.
  intros Hs. unfold is_valid_sequence_node, trailing_digits, npos, zoo_sequence_length.
  destruct (find_last_not_digit s) as [i|] eqn:E.
  - apply find_last_not_digit_lt in E. rewrite !u64_small by (rewrite ?u64_small; lia).
    apply bool_decide_ext. lia.
  - assert (u64 (u64 (Z.of_nat (String.length s) - (u64_modulus - 1)) - 1) = Z.of_nat (String.length s)) as ->.
    { unfold u64. rewrite Zminus_mod_idemp_l.
      replace (Z.of_nat (String.length s) - (u64_modulus - 1) - 1)%Z
        with (Z.of_nat (String.length s) + (-1) * u64_modulus)%Z by lia.
      rewrite Z_mod_plus_full. apply Z.mod_small. lia. }
    apply bool_decide_ext. lia.
Qed.

Lemma valid_sequence_node_witness :
  is_valid_sequence_node "0000000007" = true /\ is_valid_sequence_node "lock00000000070" = false.
Proof.
  split; (etransitivity; [apply (valid_sequence_node_spec _); reflexivity|reflexivity]).
Defined.

(** ** Configuration *)

Record endpoint_t := mk_endpoint { hostname : string; port : N }.

Definition endpoint_to_string (e : endpoint_t) : outcome error_t string :=
  if bool_decide (hostname e = ""%string) || (port e =? 0)%N then Throw uncoded
  else Ret (hostname e ++ ":" ++ pretty (port e))%string.

Fixpoint join_endpoints (result : string) (es : list endpoint_t) : outcome error_t string :=
  match es with
  | [] => Ret result
  | e :: es =>
      let result := if decide (result = ""%string) then result else (result ++ ",")%string in
      outcome_bind (endpoint_to_string e) (fun s => join_endpoints (result ++ s) es)
  end.
Definition connection_string (es : list endpoint_t) : outcome error_t string := join_endpoints "" es.

(** The loop of the constructor that drops the slashes at the end of the prefix *)
Fixpoint strip_slashes (s : string) : string :=
  match s with
  | EmptyString => EmptyString
  | String c s =>
      match strip_slashes s with
      | EmptyString => if decide (c = slash) then EmptyString else String c EmptyString
      | r => String c r
      end
  end.

Definition starts_with_slash (s : string) : bool :=
  match s with String c _ => bool_decide (c = slash) | EmptyString => false end.

(** The constructor's treatment of the prefix *)
Definition normalize_prefix (s : string) : outcome error_t string :=
  if bool_decide (s <> ""%string) && negb (starts_with_slash s) then Throw invalid_argument
  else Ret (strip_slashes s).

Definition format_path (prefix path : path_t) : outcome error_t path_t :=
  if bool_decide (path = ""%string) || negb (starts_with_slash path) then Throw invalid_path
  else Ret (prefix ++ path)%string.

(** [path + prefix.size()], as in [create_cb] and [watch_cb] *)
Definition strip_prefix (prefix path : path_t) : path_t :=
  String.substring (String.length prefix) (String.length path - String.length prefix) path.

Lemma substring_0_all (s : string) : String.substring 0 (String.length s) s = s.
Proof. induction s as [|c s IH]; [done|]. simpl. by rewrite IH. Qed.

Lemma strip_prefix_app (prefix path : path_t) : strip_prefix prefix (prefix ++ path) = path.
Proof.
  unfold strip_prefix. induction prefix as [|c prefix IH]; string_simpl; simpl.
  - rewrite Nat.sub_0_r. apply substring_0_all.
  - exact IH.
Qed.

Fixpoint ends_with_slash (s : string) : bool :=
  match s with
  | EmptyString => false
  | String c EmptyString => bool_decide (c = slash)
  | String _ s => ends_with_slash s
  end.

Lemma strip_slashes_end s : ends_with_slash (strip_slashes s) = false.
Proof.
  induction s as [|c s IH]; [done|]. simpl. destruct (strip_slashes s) as [|d r] eqn:E; [|done].
  case_decide; [done|]. simpl. by apply bool_decide_eq_false.
Qed.

(** ** The connection *)

Record watch_reply_t := mk_watch { w_type : watch_type; w_state : watch_state; w_path : path_t }.

Section connection.
(** What is called when a watch fires *)
Context {W : Type}.

Record connection_t := mk_conn {
  prefix : path_t;
  session : Z;                              (** the client id, zero when not valid *)
  zhandle : option nat;
  opened : nat;                             (** handles opened *)
  closing : list nat;                       (** handles given up *)
  watchers : gmap nat W;
  id_counter : nat;
  spawned : list (list (nat * W));          (** cancellations posted to the executor *)
  called : list (nat * W * watch_reply_t)   (** watchers called *)
}.

Definition set_session (x : Z) (c : connection_t) : connection_t :=
  mk_conn (prefix c) x (zhandle c) (opened c) (closing c) (watchers c) (id_counter c) (spawned c) (called c).
Definition set_zhandle (x : option nat) (c : connection_t) : connection_t :=
  mk_conn (prefix c) (session c) x (opened c) (closing c) (watchers c) (id_counter c) (spawned c) (called c).
Definition set_opened (x : nat) (c : connection_t) : connection_t :=
  mk_conn (prefix c) (session c) (zhandle c) x (closing c) (watchers c) (id_counter c) (spawned c) (called c).
Definition set_closing (x : list nat) (c : connection_t) : connection_t :=
  mk_conn (prefix c) (session c) (zhandle c) (opened c) x (watchers c) (id_counter c) (spawned c) (called c).
Definition set_watchers (x : gmap nat W) (c : connection_t) : connection_t :=
  mk_conn (prefix c) (session c) (zhandle c) (opened c) (closing c) x (id_counter c) (spawned c) (called c).
Definition set_id_counter (x : nat) (c : connection_t) : connection_t :=
  mk_conn (prefix c) (session c) (zhandle c) (opened c) (closing c) (watchers c) x (spawned c) (called c).
Definition set_spawned (x : list (list (nat * W))) (c : connection_t) : connection_t :=
  mk_conn (prefix c) (session c) (zhandle c) (opened c) (closing c) (watchers c) (id_counter c) x (called c).
Definition set_called (x : list (nat * W * watch_reply_t)) (c : connection_t) : connection_t :=
  mk_conn (prefix c) (session c) (zhandle c) (opened c) (closing c) (watchers c) (id_counter c) (spawned c) x.

Abbreviation C := (ST connection_t error_t).

(** What [zookeeper_init] gives: no handle, one that is unrecoverable, or a good one *)
Inductive init_result := NullHandle | BadHandle | GoodHandle (client_id : Z).

Definition good (r : init_result) : bool := match r with GoodHandle _ => true | _ => false end.

Definition init (r : init_result) : C (option nat) :=
  let! n := st_gets opened in
  match r with
  | NullHandle => st_ret None
  | _ => st_modify (set_opened (S n)) ;;; st_ret (Some n)
  end.

(** The last reference to a handle goes: [close] posts [zookeeper_close]. *)
Definition drop_handle (h : option nat) : C unit :=
  match h with
  | Some n => st_modify (fun c => set_closing (closing c ++ [n]) c)
  | None => st_ret tt
  end.

Definition swap_handle (h : option nat) : C unit :=
  let! old := st_gets zhandle in
  st_modify (set_zhandle h) ;;; drop_handle old.

Definition cancel_watches : C unit :=
  st_modify (fun c => set_spawned (spawned c ++ [map_to_list (watchers c)]) (set_watchers ∅ c)).

(** [r1] and [r2] are what the two calls of [init] give. *)
Definition reconnect (r1 r2 : init_result) : C unit :=
  let! h := init r1 in
  match r1 with
  | GoodHandle client_id =>
      let! s := st_gets session in
      st_when (s =? 0)%Z (st_modify (set_session client_id)) ;;;
      swap_handle h ;;;
      cancel_watches
  | _ =>
      let! s := st_gets session in
      if (s =? 0)%Z then swap_handle h ;;; st_throw connection_loss
      else
        st_modify (set_session 0) ;;;
        let! h2 := init r2 in
        drop_handle h ;;;
        (if good r2 then swap_handle h2 ;;; cancel_watches
         else swap_handle h2 ;;; st_throw connection_loss)
  end.

(** What the C library does during a command: whether the handle is usable, what opening
    new ones gives, and what the command returns *)
Record env_t := mk_env { usable : bool; init1 : init_result; init2 : init_result; rc : rc_t }.

Definition check_connectivity (e : env_t) : C unit :=
  let! h := st_gets zhandle in
  if bool_decide (is_Some h) && usable e then st_ret tt else reconnect (init1 e) (init2 e).

Definition check_rc (rc : rc_t) : C unit :=
  if decide (rc = ZOK) then st_ret tt else st_throw (map_zoo_error rc).

Definition lift {A} (m : outcome error_t A) : C A :=
  match m with Ret a => st_ret a | Throw e => st_throw e end.

(** The result is the path the C function is called with. *)
Definition zoo_command (e : env_t) (path : path_t) : C path_t :=
  check_connectivity e ;;;
  let! c := st_get in
  let! prefixed_path := lift (format_path (prefix c) path) in
  check_rc (rc e) ;;;
  st_ret prefixed_path.

Definition add_watcher (w : W) : C nat :=
  let! c := st_get in
  st_modify (fun c => set_watchers (<[id_counter c := w]> (watchers c)) (set_id_counter (S (id_counter c)) c)) ;;;
  st_ret (id_counter c).

(** The result is the path and the watch id, if any. *)
Definition zoo_watched_command (e : env_t) (path : path_t) (watcher : option W) : C (path_t * option nat) :=
  match watcher with
  | Some w =>
      let! id := add_watcher w in
      let! p := zoo_command e path in
      st_ret (p, Some id)
  | None =>
      let! p := zoo_command e path in
      st_ret (p, None)
  end.

Definition call (id : nat) (w : W) (r : watch_reply_t) : C unit :=
  st_modify (fun c => set_called (called c ++ [(id, w, r)]) c).

Definition watch_cb (type : watch_type) (state : watch_state) (path : option path_t) (id : nat) : C unit :=
  let! c := st_get in
  match watchers c !! id with
  | None => st_ret tt
  | Some w =>
      st_modify (fun c => set_watchers (delete id (watchers c)) c) ;;;
      call id w (mk_watch type state
        (match path with
         | Some p => if decide (type = SESSION_EVENT) then ""%string else strip_prefix (prefix c) p
         | None => ""%string
         end))
  end.

(** A posted cancellation runs. *)
Definition run_spawned : C unit :=
  let! c := st_get in
  match spawned c with
  | [] => st_ret tt
  | b :: rest =>
      st_modify (set_spawned rest) ;;;
      st_modify (fun c => set_called
        (called c ++ ((fun x => (x.1, x.2, mk_watch SESSION_EVENT EXPIRED_SESSION_STATE "")) <$> b)) c)
  end.

(** [create_prefix]: one environment and [zoo_create] per turn; the result lists the
    paths that were created, in order. *)
Fixpoint create_prefix_loop (i : nat) (envs : list env_t) : C (list path_t) :=
  match i with
  | O => st_ret []
  | S j =>
      let! c := st_get in
      let! path := lift (path_parent (prefix c) j) in
      let e := match envs with e :: _ => e | [] => mk_env true NullHandle NullHandle ZOK end in
      (match rc e with
       | ZOK | ZNODEEXISTS => st_ret tt
       | _ => reconnect (init1 e) (init2 e)
       end) ;;;
      let! rest := create_prefix_loop j (tail envs) in
      st_ret (path :: rest)
  end.

Definition create_prefix (envs : list env_t) : C (list path_t) :=
  let! c := st_get in
  if decide (prefix c = ""%string) then st_ret [] else create_prefix_loop (slashes (prefix c)) envs.

Definition connection_construct (p : path_t) (s : Z) (e : env_t) (envs : list env_t)
  : outcome error_t (list path_t) * connection_t :=
  match normalize_prefix p with
  | Throw err => (Throw err, mk_conn p s None 0 [] ∅ 1 [] [])
  | Ret p => (reconnect (init1 e) (init2 e) ;;; create_prefix envs) (mk_conn p s None 0 [] ∅ 1 [] [])
  end.

(** ** Watches *)

Inductive conn_op :=
| Command (e : env_t) (path : path_t) (watcher : option W)
| WatchEvent (type : watch_type) (state : watch_state) (path : option path_t) (id : nat)
| RunSpawned
| Reconnect (r1 r2 : init_result).

Definition handle_op (o : conn_op) : C unit :=
  match o with
  | Command e path w => zoo_watched_command e path w ;;; st_ret tt
  | WatchEvent t s p id => watch_cb t s p id
  | RunSpawned => run_spawned
  | Reconnect r1 r2 => reconnect r1 r2
  end.

Definition run_ops (os : list conn_op) (c : connection_t) : connection_t :=
  foldl (fun c o => (handle_op o c).2) c os.

(** Where the watches are: called, about to be cancelled, or registered *)
Definition places (c : connection_t) : list nat :=
  (called c).*1.*1 ++ concat ((fun b => b.*1) <$> spawned c) ++ (map_to_list (watchers c)).*1.

Definition watch_inv (c : connection_t) : Prop :=
  (1 <= id_counter c)%nat /\ places c ≡ₚ seq 1 (id_counter c - 1).

Lemma keeps_same (f : connection_t -> connection_t) :
  (forall c, places (f c) = places c /\ id_counter (f c) = id_counter c) ->
  keeps watch_inv (@st_modify connection_t error_t f).
Proof. intros H. apply keeps_modify. intros c [H1 H2]. unfold watch_inv. destruct (H c) as [-> ->]. done. Qed.

Lemma cancel_keeps : keeps watch_inv cancel_watches.
Proof.
  apply keeps_modify. intros c [H1 H2]. split; [done|]. simpl. rewrite <- H2. unfold places. simpl.
  rewrite fmap_app, concat_app. simpl. by rewrite map_to_list_empty, !app_nil_r.
Qed.

Lemma init_keeps r : keeps watch_inv (init r).
Proof. unfold init. keeps_walk; by apply keeps_same. Qed.

Lemma drop_keeps h : keeps watch_inv (drop_handle h).
Proof. unfold drop_handle. keeps_walk; by apply keeps_same. Qed.

Lemma swap_keeps h : keeps watch_inv (swap_handle h).
Proof. unfold swap_handle. keeps_walk; [by apply keeps_same|apply drop_keeps]. Qed.

Lemma set_session_keeps x : keeps watch_inv (@st_modify connection_t error_t (set_session x)).
Proof. by apply keeps_same. Qed.

#[local] Hint Resolve cancel_keeps init_keeps drop_keeps swap_keeps set_session_keeps : keeps.

Lemma reconnect_keeps r1 r2 : keeps watch_inv (reconnect r1 r2).
Proof. unfold reconnect. keeps_walk. Qed.
#[local] Hint Resolve reconnect_keeps : keeps.

Lemma zoo_command_keeps e path : keeps watch_inv (zoo_command e path).
Proof. unfold zoo_command, check_connectivity, lift, check_rc. keeps_walk. Qed.

Lemma add_watcher_keeps w : keeps watch_inv (add_watcher w).
Proof.
  unfold add_watcher. keeps_walk. apply keeps_modify. intros c [H1 H2]. split; [simpl; lia|].
  assert (watchers c !! id_counter c = None) as Hn.
  { destruct (watchers c !! id_counter c) as [v|] eqn:E; [|done]. exfalso.
    assert (id_counter c ∈ places c) as Hin.
    { unfold places. rewrite !elem_of_app. right; right. apply list_elem_of_fmap. exists (id_counter c, v).
      split; [done|]. by apply elem_of_map_to_list. }
    rewrite H2, elem_of_seq in Hin. lia. }
  unfold places. simpl. rewrite map_to_list_insert by done. simpl.
  replace (id_counter c - 0)%nat with (S (id_counter c - 1)) by lia.
  rewrite seq_S, <- H2. replace (1 + (id_counter c - 1))%nat with (id_counter c) by lia. unfold places.
  rewrite <- !app_assoc. do 2 f_equiv. by rewrite Permutation_app_comm.
Qed.
#[local] Hint Resolve zoo_command_keeps add_watcher_keeps : keeps.

Lemma watch_cb_keeps t s p id : keeps watch_inv (watch_cb t s p id).
Proof.
  intros c [H1 H2]. unfold watch_cb, st_bind, st_get, st_modify, call. simpl.
  destruct (watchers c !! id) as [w|] eqn:E; [|done]. split; [done|]. simpl. rewrite <- H2. unfold places. simpl.
  rewrite <- (map_to_list_delete (watchers c) id w) by done. rewrite !fmap_app. simpl.
  rewrite <- !app_assoc. f_equiv. rewrite (Permutation_app_comm _ (id :: _)). simpl. f_equiv. by rewrite Permutation_app_comm.
Qed.

Lemma run_spawned_keeps : keeps watch_inv run_spawned.
Proof.
  intros c [H1 H2]. unfold run_spawned, st_bind, st_get, st_modify. simpl.
  destruct (spawned c) as [|b rest] eqn:E; [done|]. split; [done|]. simpl. rewrite <- H2. unfold places. simpl.
  assert (forall r : watch_reply_t, ((fun x : nat * W => (x.1, x.2, r)) <$> b).*1.*1 = b.*1) as Hb.
  { intros r. by rewrite <- !list_fmap_compose. }
  rewrite E, !fmap_app, Hb. simpl. by rewrite <- !app_assoc.
Qed.
#[local] Hint Resolve watch_cb_keeps run_spawned_keeps : keeps.

Lemma handle_op_keeps o : keeps watch_inv (handle_op o).
Proof. destruct o; simpl; unfold zoo_watched_command; keeps_walk. Qed.

(** C7: no watch is lost and none is called twice.  Whatever commands are issued, fail
    or lose the connection, whatever events arrive and however often the connection is
    made again, every watch registered so far is in exactly one place: it has been
    called once, it waits in one posted cancellation, or it is still registered. *)
Theorem watches_called_once (p : path_t) (s : Z) (os : list conn_op) :
  let c := run_ops os (mk_conn p s None 0 [] ∅ 1 [] []) in
  NoDup (places c) /\ forall id, id ∈ places c <-> (1 <= id < id_counter c)%nat.
Proof.
  intros c. assert (watch_inv c) as [H1 H2].
  { subst c. assert (watch_inv (mk_conn p s None 0 [] ∅ 1 [] [])) as H0.
    { split; [done|]. unfold places. simpl. by rewrite map_to_list_empty. }
    revert H0. generalize (mk_conn p s None 0 [] ∅ 1 [] [] : connection_t).
    induction os as [|o os IH]; intros c Hc; [done|]. by apply IH, handle_op_keeps. }
  split; [rewrite H2; apply NoDup_seq|]. intros id. rewrite H2, elem_of_seq. lia.
Qed.

Lemma reconnect_outcome (r1 r2 : init_result) (c : connection_t) :
  (reconnect r1 r2 c).1 = if good r1 || (negb (session c =? 0)%Z && good r2) then Ret tt else Throw connection_loss.
Proof.
  unfold reconnect, init, swap_handle, drop_handle, cancel_watches, st_when, st_bind, st_gets, st_modify, st_throw, st_ret.
  destruct r1 as [| |id1], (session c =? 0)%Z eqn:Es, r2 as [| |id2]; simpl; rewrite ?Es; simpl; by destruct (zhandle c).
Qed.

(** When a connection is made again, on whichever attempt, no watch stays
    registered: all of them are posted to be cancelled with an expired session.  When no
    attempt succeeds the caller is told, the session is forgotten and the watches stay. *)
Theorem reconnect_spec (r1 r2 : init_result) (c : connection_t) :
  let c' := (reconnect r1 r2 c).2 in
  if good r1 || (negb (session c =? 0)%Z && good r2)
  then (reconnect r1 r2 c).1 = Ret tt /\ watchers c' = ∅ /\ spawned c' = spawned c ++ [map_to_list (watchers c)] /\
       is_Some (zhandle c')
  else (reconnect r1 r2 c).1 = Throw connection_loss /\ watchers c' = watchers c /\ spawned c' = spawned c /\
       session c' = 0%Z.
Proof.
  unfold reconnect, init, swap_handle, drop_handle, cancel_watches, st_when, st_bind, st_gets, st_modify, st_throw, st_ret.
  destruct r1 as [| |id1], (session c =? 0)%Z eqn:Es, r2 as [| |id2]; simpl; rewrite ?Es; simpl;
    destruct (zhandle c); simpl; split_and!; try done; by apply Z.eqb_eq.
Qed.
End connection.

(** The prefix is created from its first component to its last, so that each node
    has its parent, whatever each [zoo_create] returns, provided that reconnecting after
    an error succeeds. *)
Theorem create_prefix_order {W : Type} (cs : list string) (envs : list env_t) (c : @connection_t W) :
  Forall (fun x => no_slash x = true) cs -> cs <> [] -> prefix c = render cs ->
  Forall (fun e => good (init1 e) = true) envs ->
  (create_prefix envs c).1 = Ret ((fun k => render (take k cs)) <$> seq 1 (length cs)).
Proof.
  intros Hcs Hne Hp Hg. unfold create_prefix. erewrite st_bind_Ret by reflexivity. cbv beta. rewrite Hp.
  rewrite decide_False by (by destruct cs). rewrite slashes_render by done.
  assert (forall i c envs, (i <= length cs)%nat -> prefix c = render cs ->
            Forall (fun e => good (init1 e) = true) envs ->
            (@create_prefix_loop W i envs c).1 = Ret ((fun k => render (take k cs)) <$> seq (length cs - i + 1) i)) as Hl.
  { clear c envs Hp Hg. induction i as [|i IH]; intros c envs Hi Hp Hg; [done|]. simpl.
    erewrite st_bind_Ret by reflexivity. cbv beta. rewrite Hp, path_parent_render by (done || lia).
    erewrite st_bind_Ret by reflexivity. cbv beta zeta. set (e := match envs with [] => _ | e :: _ => e end).
    assert (exists c', (match rc e with ZOK | ZNODEEXISTS => st_ret tt | _ => reconnect (init1 e) (init2 e) end) c
              = (Ret tt, c') /\ prefix c' = render cs) as (c' & E & Hp').
    { assert (good (init1 e) = true \/ rc e = ZOK) as [He|He].
      { destruct envs; [by right|left]. by inversion Hg. }
      - assert (exists c', reconnect (init1 e) (init2 e) c = (Ret tt, c') /\ prefix c' = render cs) as H.
        { destruct (init1 e) as [| |id]; try done. unfold reconnect, init, swap_handle, drop_handle, cancel_watches,
            st_when, st_bind, st_gets, st_modify, st_ret. simpl. destruct (session c =? 0)%Z; simpl;
            destruct (zhandle c); eexists; (split; [reflexivity|done]). }
        destruct (rc e); try done; by exists c.
      - rewrite He. by exists c. }
    rewrite (st_bind_Ret _ _ c tt c' E). specialize (IH c' (tail envs) ltac:(lia) Hp').
    unfold st_bind. destruct (create_prefix_loop i (tail envs) c') as [r c''] eqn:Er. simpl in IH.
    rewrite IH by (destruct Hg; [constructor|done]). simpl. f_equal. f_equal; [do 2 f_equal; lia|]. do 2 f_equal. lia. }
  rewrite Hl by done. by rewrite Nat.sub_diag.
Qed.

Lemma create_prefix_witness :
  (create_prefix [mk_env true (GoodHandle 5) NullHandle ZNODEEXISTS; mk_env true (GoodHandle 6) NullHandle ZCLOSING]
     (mk_conn (W := unit) "/a/b" 0 (Some 0%nat) 1 [] ∅ 1 [] [])).1 = Ret ["/a"; "/a/b"]%string.
Proof.
  apply (create_prefix_order ["a"; "b"]%string); [repeat constructor|done|reflexivity|repeat constructor].
Defined.
