(* ===== verification/UnicornActions.v ===== *)
(** * The actions of the unicorn: [unicorn/src/unicorn/zookeeper.cpp]

    A request to the unicorn is an object that sends commands to ZooKeeper, handles their
    replies and the watches it has set, and gives results to the callback of its caller;
    its scope lets the caller give it up.

    The state of an action keeps the commands that are not answered yet.  What sending
    the next command does is read from [fate], whether the next [reconnect] succeeds from
    [links], and what the next call of the callback throws, if anything, from [throws]:
    what it throws is caught where the handlers are run, and given to it again as an
    error.  Serialization is msgpack's and conversions of numbers are the core
    library's: parameters. *)

From Stdlib Require Import SpecFloat.
From stdpp Require Import sorting.
From S2P Require Import Prelude LogFilter Zookeeper.

Local Open Scope Z_scope.
Local Open Scope cpp_scope.

Abbreviation value_t := dynamic_t.
Abbreviation version_t := Z.

Record stat_t := mk_stat { version : version_t; cversion : version_t; numChildren : Z }.

Inductive command :=
| CPut (path : path_t) (data : string) (v : version_t)
| CGet (path : path_t) (watch : bool)
| CCreate (path : path_t) (data : string) (ephemeral sequence : bool)
| CDel (path : path_t) (v : version_t)
| CExists (path : path_t) (watch : bool)
| CChilds (path : path_t) (watch : bool).

Inductive reply_t :=
| RPut (rc : rc_t) (stat : stat_t)
| RGet (rc : rc_t) (data : string) (stat : stat_t)
| RCreate (rc : rc_t) (created_path : path_t)
| RDel (rc : rc_t)
| RExists (rc : rc_t) (stat : stat_t)
| RChildren (rc : rc_t) (children : list string) (stat : stat_t)
| RWatch (w : watch_reply_t).

(** The reply a command gets *)
Definition answers (c : command) (r : reply_t) : bool :=
  match c, r with
  | CPut _ _ _, RPut _ _ | CGet _ _, RGet _ _ _ | CCreate _ _ _ _, RCreate _ _ | CDel _ _, RDel _
  | CExists _ _, RExists _ _ | CChilds _ _, RChildren _ _ _ => true
  | _, _ => false
  end.

Definition command_path (c : command) : path_t :=
  match c with
  | CPut p _ _ | CGet p _ | CCreate p _ _ _ | CDel p _ | CExists p _ | CChilds p _ => p
  end.

(** What callbacks get *)
Inductive result_t :=
| Versioned (v : value_t) (n : version_t)
| PutResult (stored : bool) (v : value_t) (n : version_t)
| Done (b : bool)
| Children (n : version_t) (names : list string).

Definition not_existing_version : version_t := -1.

(** The classes with their fields; [attached] of a lock is that [parent] of its scope is
    set. *)
Inductive action_t :=
| put_t (path : path_t) (value : value_t) (v : version_t)
| get_t (path : path_t)
| create_t (path : path_t) (value : value_t) (ephemeral sequence : bool) (depth : nat)
| del_t (path : path_t) (v : version_t)
| subscribe_t (path : path_t)
| children_subscribe_t (path : path_t)
| increment_t (path : path_t) (value : value_t)
| lock_t (folder path created_sequence_path prev_sequence_path : path_t) (value : value_t) (depth : nat)
    (attached : bool).

(** The constructor of [lock_t] *)
Definition lock_construct (folder : path_t) (value : value_t) : action_t :=
  lock_t folder (folder ++ "/lock") "" "" value 0 false.

Inductive fate_t := Sent | NoConnection | Refused (rc : rc_t).

Record act_t := mk_act {
  act : action_t;
  closed : bool;
  outstanding : list command;
  results : list (outcome error_t result_t);
  aborting : list error_t;          (** posted by [run_command] *)
  reconnects : nat;
  log : list command;               (** every command sent *)
  fate : list fate_t;
  links : list bool;
  throws : list (option error_t)    (** what the next calls of the callback throw *)
}.

Definition set_act (x : action_t) (s : act_t) : act_t :=
  mk_act x (closed s) (outstanding s) (results s) (aborting s) (reconnects s) (log s) (fate s) (links s) (throws s).
Definition set_closed (x : bool) (s : act_t) : act_t :=
  mk_act (act s) x (outstanding s) (results s) (aborting s) (reconnects s) (log s) (fate s) (links s) (throws s).
Definition set_outstanding (x : list command) (s : act_t) : act_t :=
  mk_act (act s) (closed s) x (results s) (aborting s) (reconnects s) (log s) (fate s) (links s) (throws s).
Definition set_results (x : list (outcome error_t result_t)) (s : act_t) : act_t :=
  mk_act (act s) (closed s) (outstanding s) x (aborting s) (reconnects s) (log s) (fate s) (links s) (throws s).
Definition set_aborting (x : list error_t) (s : act_t) : act_t :=
  mk_act (act s) (closed s) (outstanding s) (results s) x (reconnects s) (log s) (fate s) (links s) (throws s).
Definition set_reconnects (x : nat) (s : act_t) : act_t :=
  mk_act (act s) (closed s) (outstanding s) (results s) (aborting s) x (log s) (fate s) (links s) (throws s).
Definition set_log (x : list command) (s : act_t) : act_t :=
  mk_act (act s) (closed s) (outstanding s) (results s) (aborting s) (reconnects s) x (fate s) (links s) (throws s).
Definition set_fate (x : list fate_t) (s : act_t) : act_t :=
  mk_act (act s) (closed s) (outstanding s) (results s) (aborting s) (reconnects s) (log s) x (links s) (throws s).
Definition set_links (x : list bool) (s : act_t) : act_t :=
  mk_act (act s) (closed s) (outstanding s) (results s) (aborting s) (reconnects s) (log s) (fate s) x (throws s).

Definition set_throws (x : list (option error_t)) (s : act_t) : act_t :=
  mk_act (act s) (closed s) (outstanding s) (results s) (aborting s) (reconnects s) (log s) (fate s) (links s) x.

Definition start_state (a : action_t) (f : list fate_t) (l : list bool) (t : list (option error_t)) : act_t :=
  mk_act a false [] [] [] 0 [] f l t.

Abbreviation M := (ST act_t error_t).

(** ** The connection, as an action uses it *)

Definition next_fate : M fate_t :=
  let! f := st_gets fate in
  st_modify (set_fate (tail f)) ;;;
  st_ret (match f with x :: _ => x | [] => Sent end).

(** [zoo_command]: the connection, the path, the return code *)
Definition issue (c : command) : M unit :=
  let! f := next_fate in
  match f with
  | NoConnection => st_throw connection_loss
  | _ =>
      if negb (starts_with_slash (command_path c)) then st_throw invalid_path
      else match f with
           | Refused rc => st_throw (map_zoo_error rc)
           | _ => st_modify (fun s => set_log (log s ++ [c]) (set_outstanding (outstanding s ++ [c]) s))
           end
  end.

Definition reconnect : M unit :=
  let! l := st_gets links in
  st_modify (fun s => set_reconnects (S (reconnects s)) (set_links (tail l) s)) ;;;
  match l with false :: _ => st_throw connection_loss | _ => st_ret tt end.

(** ** [safe] *)

(** A call of the callback, which may throw *)
Definition wrapped (r : outcome error_t result_t) : M unit :=
  let! t := st_gets throws in
  st_modify (fun s => set_throws (tail t) (set_results (results s ++ [r]) s)) ;;;
  match t with Some e :: _ => st_throw e | _ => st_ret tt end.

Definition satisfy (r : result_t) : M unit :=
  let! b := st_gets closed in
  st_when (negb b) (wrapped (Ret r)).

(** [scope_t::on_abort], and the one of a lock's scope *)
Definition on_abort : M unit :=
  let! a := st_gets act in
  match a with
  | lock_t folder path created prev value depth true =>
      if decide (created = ""%string) then st_ret tt
      else
        st_catch (issue (CDel created (-1))) (fun _ => reconnect) ;;;
        st_modify (set_act (lock_t folder path created prev value depth false))
  | _ => st_ret tt
  end.

Definition abort (e : error_t) : M unit :=
  on_abort ;;;
  let! b := st_gets closed in
  st_when (negb b) (wrapped (Throw e)) ;;;
  st_modify (set_closed true).

(** [close] of the two kinds of scopes *)
Definition close : M unit :=
  let! s := st_get in
  match act s with
  | lock_t _ _ _ _ _ _ _ => if closed s then st_ret tt else on_abort ;;; st_modify (set_closed true)
  | _ => st_modify (set_closed true)
  end.

Definition lift_path (m : outcome error_t path_t) : M path_t :=
  match m with Ret p => st_ret p | Throw e => st_throw e end.

Definition throw_watch_event : M unit := st_throw connection_loss.

(** Parameters: msgpack, and [dynamic_t::to<T>] of the core library *)
Section actions.
Context (serialize : value_t -> string) (unserialize : string -> option value_t)
  (to_double : value_t -> double.t) (to_int64 : value_t -> Z).

(** [unserialize] throws on anything but one packed value. *)
Definition parse (data : string) : M value_t :=
  match unserialize data with Some v => st_ret v | None => st_throw invalid_value end.

Definition is_number (v : value_t) : bool :=
  match v with DDouble _ | DInt _ | DUint _ => true | _ => false end.
Definition is_double (v : value_t) : bool := match v with DDouble _ => true | _ => false end.

(** ** [put_t] *)

Definition put_run (path : path_t) (value : value_t) (v : version_t) : M unit :=
  if v <? 0 then st_throw version_not_allowed else issue (CPut path (serialize value) v).

Definition put_on_put (path : path_t) (value : value_t) (rc : rc_t) (stat : stat_t) : M unit :=
  match rc with
  | ZBADVERSION => issue (CGet path false)
  | ZOK => satisfy (PutResult true value (version stat))
  | _ => st_throw (map_zoo_error rc)
  end.

Definition put_on_get (rc : rc_t) (data : string) (stat : stat_t) : M unit :=
  match rc with
  | ZOK => let! v := parse data in satisfy (PutResult false v (version stat))
  | _ => st_throw (map_zoo_error rc)
  end.

(** ** [get_t] *)

Definition get_on_get (rc : rc_t) (data : string) (stat : stat_t) : M unit :=
  match rc with
  | ZNONODE => satisfy (Versioned DNull not_existing_version)
  | ZOK =>
      if negb (numChildren stat =? 0) then st_throw child_not_allowed
      else let! v := parse data in satisfy (Versioned v (version stat))
  | _ => st_throw (map_zoo_error rc)
  end.

(** ** [create_t] *)

Definition create_on_create (path : path_t) (value : value_t) (ephemeral sequence : bool) (depth : nat)
    (rc : rc_t) : M unit :=
  let set_depth d := st_modify (set_act (create_t path value ephemeral sequence d)) in
  match rc with
  | ZOK =>
      match depth with
      | O => satisfy (Done true)
      | S O =>
          set_depth O ;;;
          issue (CCreate path (serialize value) ephemeral sequence)
      | S d =>
          set_depth d ;;;
          let! p := lift_path (path_parent path d) in
          issue (CCreate p "" false false)
      end
  | ZNONODE =>
      set_depth (S depth) ;;;
      let! p := lift_path (path_parent path (S depth)) in
      issue (CCreate p "" false false)
  | _ => st_throw (map_zoo_error rc)
  end.

(** ** [del_t] *)

Definition del_on_del (rc : rc_t) : M unit :=
  match rc with ZOK => satisfy (Done true) | _ => st_throw (map_zoo_error rc) end.

(** ** [subscribe_t] *)

Definition subscribe_on_get (rc : rc_t) (data : string) (stat : stat_t) : M unit :=
  match rc with
  | ZOK =>
      if negb (numChildren stat =? 0) then st_throw child_not_allowed
      else let! v := parse data in satisfy (Versioned v (version stat))
  | _ => st_throw (map_zoo_error rc)
  end.

Definition subscribe_on_exists (path : path_t) (rc : rc_t) : M unit :=
  match rc with
  | ZOK => issue (CGet path false)
  | _ => satisfy (Versioned DNull not_existing_version)
  end.

Definition subscribe_on_watch (path : path_t) (w : watch_reply_t) : M unit :=
  let! b := st_gets closed in
  if b then st_ret tt
  else match w_type w, w_state w with
       | CREATED_EVENT, _ | CHANGED_EVENT, _ | SESSION_EVENT, CONNECTED_STATE => issue (CGet path true)
       | DELETED_EVENT, _ => st_throw (map_zoo_error ZNONODE)
       | CHILD_EVENT, _ => st_throw child_not_allowed
       | _, _ => throw_watch_event
       end.

(** ** [children_subscribe_t] *)

Definition children_on_children (rc : rc_t) (children : list string) (stat : stat_t) : M unit :=
  match rc with
  | ZOK => satisfy (Children (cversion stat) children)
  | _ => st_throw (map_zoo_error rc)
  end.

Definition children_on_watch (path : path_t) (w : watch_reply_t) : M unit :=
  let! b := st_gets closed in
  if b then st_ret tt
  else match w_type w, w_state w with
       | DELETED_EVENT, _ => st_throw no_node
       | CHILD_EVENT, _ | SESSION_EVENT, CONNECTED_STATE => issue (CChilds path true)
       | SESSION_EVENT, _ => st_throw connection_loss
       | _, _ => throw_watch_event
       end.

(** ** [increment_t] *)

(** The sum of two integers wraps around where C++ leaves the overflow undefined. *)
Definition add_values (parsed value : value_t) : value_t :=
  if is_double parsed || is_double value then DDouble (SFadd 53 1024 (to_double parsed) (to_double value))
  else DInt (i64 (to_int64 parsed + to_int64 value)).

Definition increment_run (path : path_t) (value : value_t) : M unit :=
  if negb (is_number value) then st_throw invalid_type else issue (CGet path false).

Definition increment_on_get (path : path_t) (value : value_t) (rc : rc_t) (data : string) (stat : stat_t) : M unit :=
  match rc with
  | ZNONODE => issue (CCreate path (serialize value) false false)
  | ZOK =>
      let! parsed := parse data in
      if negb (numChildren stat =? 0) then st_throw child_not_allowed
      else if negb (is_number parsed) then st_throw invalid_type
      else
        st_modify (set_act (increment_t path (add_values parsed value))) ;;;
        issue (CPut path (serialize (add_values parsed value)) (version stat))
  | _ => st_throw (map_zoo_error rc)
  end.

Definition increment_on_put (value : value_t) (rc : rc_t) (stat : stat_t) : M unit :=
  match rc with ZOK => satisfy (Versioned value (version stat)) | _ => st_throw (map_zoo_error rc) end.

Definition increment_on_create (value : value_t) (rc : rc_t) : M unit :=
  match rc with ZOK => satisfy (Versioned value 0) | _ => st_throw (map_zoo_error rc) end.

(** ** [lock_t] *)

Definition lock_on_create (folder path created prev : path_t) (value : value_t) (depth : nat) (attached : bool)
    (rc : rc_t) (created_path : path_t) : M unit :=
  let set_depth d := st_modify (set_act (lock_t folder path created prev value d attached)) in
  match rc with
  | ZOK =>
      match depth with
      | O =>
          let! b := st_gets closed in
          st_modify (set_act (lock_t folder path created_path prev value depth attached)) ;;;
          if negb b then issue (CChilds folder false) else issue (CDel created_path (-1))
      | S O =>
          set_depth O ;;;
          issue (CCreate path (serialize value) true true)
      | S d =>
          set_depth d ;;;
          let! p := lift_path (path_parent path d) in
          issue (CCreate p "" false false)
      end
  | ZNONODE =>
      set_depth (S depth) ;;;
      let! p := lift_path (path_parent path (S depth)) in
      issue (CCreate p "" false false)
  | _ => st_throw (map_zoo_error rc)
  end.

(** The number of names before [node]: where [equal_range] starts in the sorted names *)
Definition lower (node : string) (sorted : list string) : nat :=
  length (filter (fun c => String.ltb c node = true) sorted).

Definition lock_on_children (folder path created prev : path_t) (value : value_t) (depth : nat) (attached : bool)
    (rc : rc_t) (children : list string) : M unit :=
  match rc with
  | ZOK =>
      let sorted := merge_sort String.le children in
      let! node := lift_path (get_node_name created) in
      if decide (node ∉ sorted) then st_throw uncoded
      else
        (match lower node sorted with
         | O => satisfy (Done true)
         | S i =>
             match sorted !! i with
             | None => st_throw uncoded
             | Some previous =>
                 if negb (is_valid_sequence_node previous) then st_throw uncoded
                 else
                   st_modify (set_act (lock_t folder path created (folder ++ "/" ++ previous) value depth attached)) ;;;
                   issue (CExists (folder ++ "/" ++ previous) true)
             end
         end) ;;;
        issue (CGet created true)
  | _ => st_throw (map_zoo_error rc)
  end.

Definition lock_on_get (rc : rc_t) : M unit :=
  match rc with ZOK => st_ret tt | _ => st_throw (map_zoo_error rc) end.

Definition lock_on_exists (folder : path_t) (rc : rc_t) : M unit :=
  match rc with
  | ZNONODE => issue (CChilds folder false)
  | ZOK => st_ret tt
  | _ => st_throw (map_zoo_error rc)
  end.

Definition lock_on_watch (folder : path_t) (w : watch_reply_t) : M unit :=
  match w_type w with DELETED_EVENT => issue (CChilds folder false) | _ => throw_watch_event end.

Definition lock_on_del (rc : rc_t) : M unit :=
  match rc with ZOK => st_ret tt | _ => reconnect end.

(** ** Running actions *)

Definition run (a : action_t) : M unit :=
  match a with
  | put_t path value v => put_run path value v
  | get_t path => issue (CGet path false)
  | create_t path value ephemeral sequence _ => issue (CCreate path (serialize value) ephemeral sequence)
  | del_t path v => issue (CDel path v)
  | subscribe_t path => issue (CExists path true)
  | children_subscribe_t path => issue (CChilds path true)
  | increment_t path value => increment_run path value
  | lock_t folder path created prev value depth _ =>
      st_modify (set_act (lock_t folder path created prev value depth true)) ;;;
      issue (CCreate path (serialize value) true true)
  end.

(** The overload of [on_reply] that takes the reply, if the class has one *)
Definition on_reply (a : action_t) (r : reply_t) : option (M unit) :=
  match a, r with
  | put_t path value _, RPut rc stat => Some (put_on_put path value rc stat)
  | put_t _ _ _, RGet rc data stat => Some (put_on_get rc data stat)
  | get_t _, RGet rc data stat => Some (get_on_get rc data stat)
  | create_t path value e q depth, RCreate rc _ => Some (create_on_create path value e q depth rc)
  | del_t _ _, RDel rc => Some (del_on_del rc)
  | subscribe_t _, RGet rc data stat => Some (subscribe_on_get rc data stat)
  | subscribe_t path, RExists rc _ => Some (subscribe_on_exists path rc)
  | subscribe_t path, RWatch w => Some (subscribe_on_watch path w)
  | children_subscribe_t _, RChildren rc children stat => Some (children_on_children rc children stat)
  | children_subscribe_t path, RWatch w => Some (children_on_watch path w)
  | increment_t path value, RGet rc data stat => Some (increment_on_get path value rc data stat)
  | increment_t _ value, RPut rc stat => Some (increment_on_put value rc stat)
  | increment_t _ value, RCreate rc _ => Some (increment_on_create value rc)
  | lock_t folder path created prev value depth b, RCreate rc p =>
      Some (lock_on_create folder path created prev value depth b rc p)
  | lock_t folder path created prev value depth b, RChildren rc children _ =>
      Some (lock_on_children folder path created prev value depth b rc children)
  | lock_t _ _ _ _ _ _ _, RGet rc _ _ => Some (lock_on_get rc)
  | lock_t folder _ _ _ _ _ _, RExists rc _ => Some (lock_on_exists folder rc)
  | lock_t folder _ _ _ _ _ _, RWatch w => Some (lock_on_watch folder w)
  | lock_t _ _ _ _ _ _ _, RDel rc => Some (lock_on_del rc)
  | _, _ => None
  end.

(** [action::operator()] *)
Definition deliver (r : reply_t) : M unit :=
  let! a := st_gets act in
  match on_reply a r with
  | Some m => st_catch m abort
  | None => st_ret tt
  end.

Definition run_command (a : action_t) : M unit :=
  st_catch (run a) (fun e => st_modify (fun s => set_aborting (aborting s ++ [e]) s)).

Inductive event :=
| Reply (i : nat) (r : reply_t)   (** the [i]-th command that waits is answered *)
| Watch (w : watch_reply_t)
| Close
| RunAbort.                       (** a posted abort runs *)

Definition handle (e : event) : M unit :=
  let! s := st_get in
  match e with
  | Reply i r =>
      match outstanding s !! i with
      | Some c =>
          if answers c r then st_modify (fun s => set_outstanding (delete i (outstanding s)) s) ;;; deliver r
          else st_ret tt
      | None => st_ret tt
      end
  | Watch w => deliver (RWatch w)
  | Close => close
  | RunAbort =>
      match aborting s with
      | [] => st_ret tt
      | e :: rest => st_modify (set_aborting rest) ;;; abort e
      end
  end.

Definition step (e : event) (s : act_t) : act_t := (handle e s).2.
Definition steps (es : list event) (s : act_t) : act_t := foldl (fun s e => step e s) s es.

(** An action after [run_command] and the events that follow *)
Definition life (a : action_t) (f : list fate_t) (l : list bool) (t : list (option error_t)) (es : list event) : act_t :=
  steps es (run_command a (start_state a f l t)).2.

(** ** Nothing after the end *)

Definition ended (rs : list (outcome error_t result_t)) (s : act_t) : Prop := closed s = true /\ results s = rs.

Lemma ended_modify rs (f : act_t -> act_t) :
  (forall s, closed s = true -> closed (f s) = true /\ results (f s) = results s) ->
  keeps (ended rs) (@st_modify act_t error_t f).
Proof. intros H. apply keeps_modify. intros s [Hc Hr]. destruct (H s Hc) as [? ?]. split; congruence. Qed.

Ltac ended_walk := keeps_walk; try (apply ended_modify; by intros).

Lemma issue_ended rs c : keeps (ended rs) (issue c).
Proof. unfold issue, next_fate. ended_walk. Qed.
Lemma reconnect_ended rs : keeps (ended rs) reconnect.
Proof. unfold reconnect. ended_walk. Qed.
Lemma satisfy_ended rs r : keeps (ended rs) (satisfy r).
Proof. intros s [Hc Hr]. unfold satisfy, st_bind, st_gets. by rewrite Hc. Qed.
#[local] Hint Resolve issue_ended reconnect_ended satisfy_ended : keeps.
Lemma set_act_ended rs a : keeps (ended rs) (@st_modify act_t error_t (set_act a)).
Proof. by apply ended_modify. Qed.
#[local] Hint Resolve set_act_ended : keeps.
Lemma on_abort_ended rs : keeps (ended rs) on_abort.
Proof. unfold on_abort. ended_walk. Qed.
#[local] Hint Resolve on_abort_ended : keeps.

Lemma abort_ended rs e : keeps (ended rs) (abort e).
Proof.
  unfold abort. apply keeps_bind; [auto with keeps|]. intros _ s [Hc Hr].
  unfold st_bind, st_gets. by rewrite Hc.
Qed.
Lemma parse_ended rs d : keeps (ended rs) (parse d).
Proof. unfold parse. ended_walk. Qed.
Lemma lift_path_ended rs m : keeps (ended rs) (lift_path m).
Proof. unfold lift_path. ended_walk. Qed.
#[local] Hint Resolve abort_ended parse_ended lift_path_ended : keeps.

Lemma on_reply_ended rs a r m : on_reply a r = Some m -> keeps (ended rs) m.
Proof.
  destruct a, r; simpl; intros [= <-];
    unfold put_on_put, put_on_get, get_on_get, create_on_create, del_on_del, subscribe_on_get, subscribe_on_exists,
      subscribe_on_watch, children_on_children, children_on_watch, increment_on_get, increment_on_put,
      increment_on_create, lock_on_create, lock_on_children, lock_on_get, lock_on_exists, lock_on_watch, lock_on_del,
      throw_watch_event; cbv zeta; ended_walk.
Qed.

Lemma handle_ended rs e : keeps (ended rs) (handle e).
Proof.
  unfold handle. apply keeps_bind; [auto with keeps|]. intros s0. destruct e; unfold deliver, close; ended_walk;
    by eapply on_reply_ended.
Qed.

Lemma steps_ended rs es s : ended rs s -> ended rs (steps es s).
Proof. revert s. induction es as [|e es IH]; intros s Hs; [done|]. by apply IH, handle_ended. Qed.

(** An action that is not a lock is closed by [close] whatever happens. *)
Lemma close_closes s : closed ((close s).2) = true \/ exists e, (close s).1 = Throw e.
Proof.
  unfold close, st_bind, st_get. destruct (act s) eqn:Ea; try by left.
  destruct (closed s) eqn:Ec; [by left|]. unfold st_modify.
  destruct (on_abort s) as [[[]|e] s'] eqn:E; [by left|right; by exists e].
Qed.

(** Nothing follows the end of an action.  Once the caller has closed the scope, or
    once an error has been given to a callback that returned, the callback is not called
    again, whatever replies, watches, closes and posted aborts come after; this holds of every
    kind of action, locks and subscriptions included. *)
Theorem silent_after_end (a : action_t) (f : list fate_t) (l : list bool) (t : list (option error_t)) (es es' : list event) :
  let s := life a f l t es in
  closed s = true -> results (life a f l t (es ++ es')) = results s.
Proof.
  intros s Hc. unfold life, steps in *. rewrite foldl_app.
  exact (proj2 (steps_ended (results s) es' s (conj Hc eq_refl))).
Qed.

(** ** Replies find their handlers *)

Inductive class_t := Put | Get | Create | Del | Subscribe | ChildrenSubscribe | Increment | Lock.
#[global] Instance class_eq_dec : EqDecision class_t.
Proof. solve_decision. Defined.

Definition class (a : action_t) : class_t :=
  match a with
  | put_t _ _ _ => Put | get_t _ => Get | create_t _ _ _ _ _ => Create | del_t _ _ => Del
  | subscribe_t _ => Subscribe | children_subscribe_t _ => ChildrenSubscribe | increment_t _ _ => Increment
  | lock_t _ _ _ _ _ _ _ => Lock
  end.

(** The class derives from [action] of the reply of the command, and of [watch_reply_t]
    if the command sets a watch. *)
Definition takes (k : class_t) (c : command) : bool :=
  match k, c with
  | Put, CPut _ _ _ | Put, CGet _ false | Get, CGet _ false | Create, CCreate _ _ _ _ | Del, CDel _ _
  | Subscribe, CGet _ _ | Subscribe, CExists _ _ | ChildrenSubscribe, CChilds _ _
  | Increment, CGet _ false | Increment, CCreate _ _ _ _ | Increment, CPut _ _ _
  | Lock, CCreate _ _ _ _ | Lock, CChilds _ _ | Lock, CGet _ _ | Lock, CExists _ _ | Lock, CDel _ _ => true
  | _, _ => false
  end.

Definition watches (c : command) : bool :=
  match c with CGet _ w | CExists _ w | CChilds _ w => w | _ => false end.

Lemma takes_handles a c r : takes (class a) c = true -> answers c r = true -> is_Some (on_reply a r).
Proof. destruct a, c, r; simpl; try done; destruct watch; done. Qed.

Lemma takes_watches a c w : takes (class a) c = true -> watches c = true -> is_Some (on_reply a (RWatch w)).
Proof. destruct a, c; simpl; try done; destruct watch; done. Qed.

Definition typed (k : class_t) (s : act_t) : Prop :=
  class (act s) = k /\ Forall (fun c => takes k c = true) (outstanding s).

Lemma typed_modify k (f : act_t -> act_t) :
  (forall s, class (act s) = k -> class (act (f s)) = k /\ outstanding (f s) = outstanding s) ->
  keeps (typed k) (@st_modify act_t error_t f).
Proof. intros H. apply keeps_modify. intros s [Hk Ho]. destruct (H s Hk) as [? E]. split; [done|]. by rewrite E. Qed.

Ltac typed_walk := keeps_walk; try (apply typed_modify; by intros).

Lemma issue_typed k c : takes k c = true -> keeps (typed k) (issue c).
Proof.
  intros Hc. unfold issue, next_fate. typed_walk; apply keeps_modify; intros s [Hk Ho]; (split; [done|]); simpl;
    apply Forall_app; by repeat constructor.
Qed.
Lemma reconnect_typed k : keeps (typed k) reconnect.
Proof. unfold reconnect. typed_walk. Qed.
Lemma wrapped_typed k r : keeps (typed k) (wrapped r).
Proof. unfold wrapped. typed_walk. Qed.
#[local] Hint Resolve wrapped_typed : keeps.
Lemma satisfy_typed k r : keeps (typed k) (satisfy r).
Proof. unfold satisfy. typed_walk. Qed.
Lemma parse_typed k d : keeps (typed k) (parse d).
Proof. unfold parse. typed_walk. Qed.
Lemma lift_path_typed k m : keeps (typed k) (lift_path m).
Proof. unfold lift_path. typed_walk. Qed.
Lemma set_act_typed k a : class a = k -> keeps (typed k) (@st_modify act_t error_t (set_act a)).
Proof. intros <-. by apply typed_modify. Qed.
#[local] Hint Resolve issue_typed reconnect_typed satisfy_typed parse_typed lift_path_typed set_act_typed : keeps.

Lemma on_abort_typed k : keeps (typed k) on_abort.
Proof.
  intros s Hs. unfold on_abort. erewrite st_bind_Ret by reflexivity. cbv beta.
  destruct (act s) eqn:Ea; try exact Hs. assert (k = Lock) as -> by (destruct Hs as [<- _]; by rewrite Ea).
  destruct attached; [|exact Hs]. case_decide; [exact Hs|]. revert s Ea Hs.
  enough (keeps (typed Lock) (st_catch (issue (CDel created_sequence_path (-1))) (fun _ => reconnect) ;;;
    st_modify (set_act (lock_t folder path created_sequence_path prev_sequence_path value depth false)))) by auto.
  typed_walk; auto with keeps.
Qed.
#[local] Hint Resolve on_abort_typed : keeps.

Lemma abort_typed k e : keeps (typed k) (abort e).
Proof. unfold abort. typed_walk. Qed.
Lemma close_typed k : keeps (typed k) close.
Proof. unfold close. typed_walk. Qed.
#[local] Hint Resolve abort_typed close_typed : keeps.

Lemma on_reply_typed a r m : on_reply a r = Some m -> keeps (typed (class a)) m.
Proof.
  destruct a, r; simpl; intros [= <-];
    unfold put_on_put, put_on_get, get_on_get, create_on_create, del_on_del, subscribe_on_get, subscribe_on_exists,
      subscribe_on_watch, children_on_children, children_on_watch, increment_on_get, increment_on_put,
      increment_on_create, lock_on_create, lock_on_children, lock_on_get, lock_on_exists, lock_on_watch, lock_on_del,
      throw_watch_event; cbv zeta; typed_walk.
Qed.

Lemma run_typed a : keeps (typed (class a)) (run a).
Proof. destruct a; simpl; unfold put_run, increment_run; typed_walk. Qed.

Lemma deliver_typed k r : keeps (typed k) (deliver r).
Proof.
  intros s Hs. unfold deliver. erewrite st_bind_Ret by reflexivity. cbv beta.
  destruct (on_reply (act s) r) as [m|] eqn:Em; [|exact Hs].
  apply keeps_catch; [|auto with keeps|done]. destruct Hs as [<- _]. by eapply on_reply_typed.
Qed.
#[local] Hint Resolve deliver_typed : keeps.

Lemma step_typed k e s : typed k s -> typed k (step e s).
Proof.
  apply (keeps_bind (typed k)); [auto with keeps|]. intros s0. destruct e; typed_walk.
  apply keeps_modify. intros s1 [Hk Ho]. split; [done|]. simpl. rewrite Forall_forall in *. intros x Hx.
  apply Ho. apply list_elem_of_lookup in Hx as [j Hj]. apply list_elem_of_lookup.
  destruct (decide (j < i)%nat); [rewrite list_lookup_delete_lt in Hj|rewrite list_lookup_delete_ge in Hj by lia]; eauto.
Qed.

Lemma life_typed a f l t es : typed (class a) (life a f l t es).
Proof.
  unfold life. assert (typed (class a) (run_command a (start_state a f l t)).2) as H.
  { unfold run_command. apply keeps_catch; [apply run_typed| |by split]. intros e. typed_walk. }
  revert H. generalize (run_command a (start_state a f l t)).2. induction es as [|e es IH]; intros s Hs; [done|].
  by apply IH, step_typed.
Qed.

(** Every reply finds its handler.  Whatever happens to an action, it stays of its
    class; it never has a command under way whose reply its class does not handle, and
    it sets watches only if its class handles them. *)
Theorem replies_handled (a : action_t) (f : list fate_t) (l : list bool) (t : list (option error_t)) (es : list event) :
  let s := life a f l t es in
  class (act s) = class a /\
  forall c, c ∈ outstanding s ->
    (forall r, answers c r = true -> is_Some (on_reply (act s) r)) /\
    (watches c = true -> forall w, is_Some (on_reply (act s) (RWatch w))).
Proof.
  intros s. destruct (life_typed a f l t es) as [Hk Ho]. fold s in Hk, Ho. split; [done|]. intros c Hc.
  rewrite Forall_forall in Ho. specialize (Ho c Hc). rewrite <- Hk in Ho. split.
  - intros r. by apply takes_handles.
  - intros Hw w. by apply (takes_watches _ c).
Qed.

(** ** Every request is answered once *)

Definition one_shot (a : action_t) : bool :=
  match a with
  | put_t _ _ _ | get_t _ | create_t _ _ _ _ _ | del_t _ _ | increment_t _ _ => true
  | _ => false
  end.

(** What a handler may do to an open action: send one command, or give one result to a
    callback that returns, or throw having done neither, or throw what the callback has
    thrown on the result it was given. *)
Definition moved (s : act_t) (o : outcome error_t unit) (s' : act_t) : Prop :=
  closed s' = false /\ aborting s' = aborting s /\
  match o with
  | Ret _ =>
      (length (outstanding s') = S (length (outstanding s)) /\ results s' = results s /\ throws s' = throws s) \/
      (outstanding s' = outstanding s /\ (exists r, results s' = results s ++ [Ret r]) /\
       forall e t, throws s <> Some e :: t)
  | Throw e =>
      outstanding s' = outstanding s /\
      ((results s' = results s /\ throws s' = throws s) \/
       exists r t, results s' = results s ++ [Ret r] /\ throws s = Some e :: t)
  end.

Definition one_step (m : M unit) : Prop :=
  forall s, closed s = false -> moved s (m s).1 (m s).2 /\ one_shot (act (m s).2) = one_shot (act s).

Lemma one_step_throw e : one_step (st_throw e).
Proof. intros s Hs. split; [|done]. split_and!; simpl; auto. Qed.

Lemma one_step_satisfy r : one_step (satisfy r).
Proof.
  intros s Hs. unfold satisfy, wrapped, st_bind, st_gets, st_modify. rewrite Hs. simpl.
  destruct (throws s) as [|[e|] t] eqn:Et; (split; [|done]); (split; [done|split; [done|]]); simpl.
  - right. split_and!; [done|by eexists|by rewrite Et].
  - split; [done|]. right. eauto.
  - right. split_and!; [done|by eexists|by rewrite Et].
Qed.

Lemma one_step_issue c : one_step (issue c).
Proof.
  intros s Hs. unfold issue, next_fate, st_bind, st_gets, st_modify, st_ret, st_throw.
  destruct (fate s) as [|[| |rc] f]; simpl; try (destruct (negb _); simpl); (split; [|done]);
    split_and!; simpl; rewrite ?length_app; simpl; auto; left; split_and!; (done || lia).
Qed.

(** The parts of a handler that only read *)
Lemma one_step_path (m : outcome error_t path_t) (k : path_t -> M unit) :
  (forall p, one_step (k p)) -> one_step (let! p := lift_path m in k p).
Proof. intros Hk. destruct m; [exact (Hk _)|exact (one_step_throw _)]. Qed.

(** [one_step] on actions of one shot only *)
Definition one_step_on (m : M unit) : Prop :=
  forall s, closed s = false -> one_shot (act s) = true -> moved s (m s).1 (m s).2 /\ one_shot (act (m s).2) = true.

Lemma one_step_weaken m : one_step m -> one_step_on m.
Proof. intros Hm s Hs Ha. specialize (Hm s Hs). by rewrite Ha in Hm. Qed.

Lemma one_step_on_set_act a m : one_shot a = true -> one_step m -> one_step_on (st_modify (set_act a) ;;; m).
Proof. intros Ha Hm s Hs Hact. specialize (Hm (set_act a s) Hs). simpl in Hm. by rewrite Ha in Hm. Qed.

Lemma one_step_on_parse d (k : value_t -> M unit) :
  (forall v, one_step_on (k v)) -> one_step_on (let! v := parse d in k v).
Proof. intros Hk. unfold parse. destruct (unserialize d); [exact (Hk _)|]. apply one_step_weaken, one_step_throw. Qed.

#[local] Hint Resolve one_step_throw one_step_satisfy one_step_issue one_step_path
  one_step_weaken one_step_on_set_act one_step_on_parse : keeps.

Lemma run_one_step a : one_shot a = true -> one_step_on (run a).
Proof.
  destruct a; simpl; try done; intros _; unfold put_run, increment_run; repeat case_match; auto with keeps.
Qed.

Lemma on_reply_one_step a r m : one_shot a = true -> on_reply a r = Some m -> one_step_on m.
Proof.
  intros Ha. destruct a, r; simpl in *; try done; intros [= <-];
    unfold put_on_put, put_on_get, get_on_get, create_on_create, del_on_del, increment_on_get, increment_on_put,
      increment_on_create; cbv zeta; repeat (case_match; auto 6 with keeps).
  apply one_step_on_parse. intros v. repeat case_match; auto with keeps.
Qed.

(** What is under way: commands sent and failures posted *)
Definition pending (s : act_t) : nat := length (outstanding s) + length (aborting s).

(** The calls of a callback that throws as [t] says, once all are made: one; or, if it
    throws on a result, that one and another with what it has thrown. *)
Definition called_out (t : list (option error_t)) (calls : list (outcome error_t result_t)) : Prop :=
  match t with
  | Some e :: _ => (exists r, calls = [Ret r; Throw e]) \/ exists x, calls = [Throw x]
  | _ => exists r, calls = [r]
  end.

Definition balanced (t : list (option error_t)) (s : act_t) : Prop :=
  one_shot (act s) = true /\
  ((pending s = 1%nat /\ results s = [] /\ throws s = t /\ closed s = false) \/
   (pending s = 0%nat /\ called_out t (results s))).

Lemma on_abort_one_shot s : one_shot (act s) = true -> on_abort s = (Ret tt, s).
Proof. intros Ha. unfold on_abort, st_bind, st_gets. by destruct (act s). Qed.

(** [abort] of an open action calls the callback once more. *)
Lemma abort_calls e s :
  one_shot (act s) = true -> closed s = false ->
  let s' := (abort e s).2 in act s' = act s /\ pending s' = pending s /\ results s' = results s ++ [Throw e].
Proof.
  intros Ha Hc s'. subst s'. unfold abort. rewrite (st_bind_Ret _ _ s tt s) by (by apply on_abort_one_shot).
  unfold wrapped, st_bind, st_gets, st_modify. rewrite Hc. simpl. by destruct (throws s) as [|[x|] q].
Qed.

Lemma abort_balanced t e s :
  one_shot (act s) = true -> closed s = false -> pending s = 0%nat -> results s = [] -> balanced t (abort e s).2.
Proof.
  intros Ha Hc Hp Hr. destruct (abort_calls e s Ha Hc) as (Ea & Ep & Er). split; [by rewrite Ea|]. right.
  rewrite Ep, Er, Hr. split; [done|]. destruct t as [|[x|] q]; simpl; eauto.
Qed.

(** After a handler has run, and its exception, if any, has been given to [abort] *)
Lemma moved_balanced t m s :
  one_step_on m -> closed s = false -> one_shot (act s) = true -> pending s = 0%nat -> results s = [] -> throws s = t ->
  balanced t (st_catch m abort s).2.
Proof.
  intros Hm Hc Ha Hp Hr <-. destruct (Hm s Hc Ha) as [(H1 & H2 & H3) H4]. unfold st_catch.
  unfold pending in Hp. destruct (m s) as [[u|e] s'] eqn:E; cbn [fst snd] in *.
  - split; [done|]. unfold pending. rewrite H2. destruct H3 as [(Ho & Hres & Ht)|(Ho & [r Hres] & Ht)].
    + left. rewrite Hres, Ht, Hr. split_and!; (done || lia).
    + right. rewrite Ho, Hres, Hr. split; [lia|]. destruct (throws s) as [|[x|] q]; simpl; eauto.
      by destruct (Ht x q).
  - destruct H3 as (Ho & [[Hres Ht]|(r & q & Hres & Ht)]).
    + apply abort_balanced; try done; [unfold pending; rewrite Ho, H2; lia|by rewrite Hres].
    + destruct (abort_calls e s' H4 H1) as (Ea & Ep & Er). split; [by rewrite Ea|]. right.
      rewrite Ep, Er, Hres, Hr, Ht. unfold pending. rewrite Ho, H2. split; [lia|]. left. by exists r.
Qed.

Definition quiet (e : event) : bool := match e with Close => false | _ => true end.

Lemma handle_balanced k t ev s : quiet ev = true -> typed k s -> balanced t s -> balanced t (step ev s).
Proof.
  intros Hq [Hk Ht] Hb. pose proof Hb as (Ha & Hcase). unfold step, handle. erewrite st_bind_Ret by reflexivity. cbv beta.
  destruct ev as [i r|w| |]; [|by unfold deliver; erewrite st_bind_Ret by reflexivity; destruct (act s)|done|].
  - destruct (outstanding s !! i) as [c|] eqn:Ei; [|done]. destruct (answers c r) eqn:Er; [|done].
    erewrite st_bind_Ret by reflexivity. cbv beta.
    pose proof (length_delete (outstanding s) i ltac:(eauto)) as Hd. pose proof (lookup_lt_Some _ _ _ Ei) as Hi.
    destruct Hcase as [(Hp & Hr & Hth & Hc)|[Hp _]]; unfold pending in Hp; [|lia].
    unfold deliver. erewrite st_bind_Ret by reflexivity. cbv beta. simpl.
    destruct (on_reply (act s) r) as [m|] eqn:Em.
    + apply moved_balanced; try done; [by eapply on_reply_one_step|]. unfold pending. simpl. lia.
    + rewrite Forall_forall in Ht. specialize (Ht c (list_elem_of_lookup_2 _ _ _ Ei)). rewrite <- Hk in Ht.
      destruct (takes_handles _ _ _ Ht Er) as [m Em']. congruence.
  - destruct (aborting s) as [|e rest] eqn:Eb; [done|]. erewrite st_bind_Ret by reflexivity. cbv beta.
    destruct Hcase as [(Hp & Hr & Hth & Hc)|[Hp _]]; unfold pending in Hp; rewrite Eb in Hp; simpl in Hp; [|lia].
    apply abort_balanced; try done. unfold pending. simpl. lia.
Qed.

(** The first command is sent before anything is given to the callback. *)
Lemma issue_calls rs c : keeps (fun s => results s = rs) (issue c).
Proof. unfold issue, next_fate. keeps_walk; by apply keeps_modify. Qed.
#[local] Hint Resolve issue_calls : keeps.
Lemma run_calls rs a : keeps (fun s => results s = rs) (run a).
Proof. destruct a; simpl; unfold put_run, increment_run; keeps_walk; by apply keeps_modify. Qed.

Lemma run_balanced a f l t : one_shot a = true -> balanced t (run_command a (start_state a f l t)).2.
Proof.
  intros Ha. unfold run_command, st_catch. pose proof (run_calls [] a (start_state a f l t) eq_refl) as Hn. cbv beta in Hn.
  destruct (run_one_step a Ha (start_state a f l t) eq_refl Ha) as [(H1 & H2 & H3) H4].
  destruct (run a (start_state a f l t)) as [[u|e] s] eqn:E; cbn [fst snd] in *; (split; [done|]); left; unfold pending.
  - rewrite H2. destruct H3 as [(Ho & Hres & Ht)|(Ho & [r Hres] & Ht)]; [rewrite Ho; by split_and!|].
    by rewrite Hn in Hres.
  - simpl. rewrite H2. destruct H3 as (Ho & [[Hres Ht]|(r & q & Hres & Ht)]); [rewrite Ho; by split_and!|].
    by rewrite Hn in Hres.
Qed.

Lemma life_balanced a f l t es : one_shot a = true -> forallb quiet es = true -> balanced t (life a f l t es).
Proof.
  intros Ha Hes. assert (typed (class a) (life a f l t [])) as Ht by apply life_typed. unfold life in *. simpl in Ht.
  pose proof (run_balanced a f l t Ha) as Hb. revert Ht Hb. generalize (run_command a (start_state a f l t)).2.
  induction es as [|e es IH]; intros s Ht Hb; [done|]. simpl in Hes. apply andb_true_iff in Hes as [He Hes].
  apply (IH Hes (step e s)); [by apply step_typed|by apply (handle_balanced (class a))].
Qed.

(** The calls of the callback, given up or not *)
Lemma life_calls a f l t es :
  one_shot a = true -> results (life a f l t es) = [] \/ called_out t (results (life a f l t es)).
Proof.
  intros Ha. assert (forall es, forallb quiet es = true ->
    results (life a f l t es) = [] \/ called_out t (results (life a f l t es))) as Hq.
  { intros es' Hes. destruct (life_balanced a f l t es' Ha Hes) as [_ [(_ & ? & _)|[_ ?]]]; auto. }
  destruct (forallb quiet es) eqn:Eq; [auto|].
  assert (exists es1 es2, es = es1 ++ Close :: es2 /\ forallb quiet es1 = true) as (es1 & es2 & -> & H1).
  { clear Hq. induction es as [|e es IH]; [done|]. simpl in Eq. destruct (quiet e) eqn:Ee.
    - destruct (IH Eq) as (es1 & es2 & -> & H1). exists (e :: es1), es2. simpl. by rewrite Ee.
    - destruct e; try done. by exists [], es. }
  replace (results (life a f l t (es1 ++ Close :: es2))) with (results (life a f l t es1)); [auto|].
  destruct (life_balanced a f l t es1 Ha H1) as [Hs _]. unfold life, steps in *. rewrite foldl_app. cbn [foldl].
  set (s := foldl _ _ es1) in *. assert (step Close s = set_closed true s) as ->.
  { unfold step, handle, close, st_bind, st_get. simpl. by destruct (act s). }
  symmetry. apply (steps_ended (results s) es2 (set_closed true s)). by split.
Qed.

(** C6: every put, get, create, delete and increment that the caller does not give up
    ([quiet] events: replies, watches and posted failures) is answered, in whatever order replies
    come and whichever command cannot be sent.  Either exactly one command or one posted
    failure is under way and the callback has not been called, or nothing is and its
    calls are over.  A callback whose first call returns has been called exactly once.
    One that throws [e] from its first call has been called again, with [e] as the error,
    if that call gave it a result, and not again if it gave it an error; there is never a
    third call. *)
Theorem answered_once (a : action_t) (f : list fate_t) (l : list bool) (t : list (option error_t)) (es : list event) :
  one_shot a = true -> forallb quiet es = true ->
  let s := life a f l t es in
  ((length (outstanding s) + length (aborting s) = 1)%nat /\ results s = []) \/
  ((length (outstanding s) + length (aborting s) = 0)%nat /\
   match t with
   | Some e :: _ => (exists r, results s = [Ret r; Throw e]) \/ (exists x, results s = [Throw x])
   | _ => exists r, results s = [r]
   end).
Proof.
  intros Ha Hes s. destruct (life_balanced a f l t es Ha Hes) as [_ [(Hp & Hr & _)|[Hp Hr]]]; [by left|right].
  split; [exact Hp|]. exact Hr.
Qed.
End actions.

(** ** The connection behind [issue] *)

(** What a command of a connection does, as an action sees it *)
Definition fate_of {W} (e : env_t) (c : @connection_t W) : fate_t :=
  if bool_decide (is_Some (zhandle c)) && usable e then
    match rc e with ZOK => Sent | rc => Refused rc end
  else if good (init1 e) || (negb (session c =? 0) && good (init2 e)) then
    match rc e with ZOK => Sent | rc => Refused rc end
  else NoConnection.

(** [issue] is [zoo_command] as an action sees it: on every connection, whatever the
    C library returns, both return or both throw, and then the same error. *)
Theorem issue_is_zoo_command {W} (e : env_t) (c : @connection_t W) (m : command) (s : act_t) :
  match (zoo_command e (command_path m) c).1, (issue m (set_fate [fate_of e c] s)).1 with
  | Ret _, Ret _ => True
  | Throw x, Throw y => x = y
  | _, _ => False
  end.
Proof.
  assert (forall c' : @connection_t W,
    match ((let! c := st_get in
      let! prefixed_path := lift (format_path (prefix c) (command_path m)) in
      check_rc (rc e) ;;; st_ret prefixed_path) c').1,
      (issue m (set_fate [match rc e with ZOK => Sent | rc => Refused rc end] s)).1 with
    | Ret _, Ret _ => True | Throw x, Throw y => x = y | _, _ => False end) as Hok.
  { intros c'. unfold issue, next_fate, check_rc, lift, format_path, st_bind, st_get, st_gets, st_modify, st_ret, st_throw.
    simpl. destruct (command_path m) as [|x p]; simpl; [by destruct (rc e)|].
    destruct (bool_decide (x = slash)); simpl; [|by destruct (rc e)].
    by destruct (rc e). }
  unfold zoo_command, check_connectivity, fate_of. unfold st_bind at 1. unfold st_bind at 1. unfold st_gets.
  destruct (bool_decide (is_Some (zhandle c)) && usable e) eqn:Eu; [apply Hok|].
  pose proof (reconnect_outcome (init1 e) (init2 e) c) as Hr.
  destruct (good (init1 e) || (negb (session c =? 0) && good (init2 e))) eqn:Eg;
    destruct (Zookeeper.reconnect (init1 e) (init2 e) c) as [o c']; simpl in Hr; subst o; [apply Hok|done].
Qed.

(** ** Witnesses *)

Lemma silent_after_end_witness :
  let life := life (fun _ => ""%string) (fun _ => None) (fun _ => double.zero) (fun _ => 0) in
  results (life (get_t "/a") [] [] [] ([Close] ++ [Reply 0 (RGet ZCLOSING "" (mk_stat 0 0 0))])) = [].
Proof.
  etransitivity; [apply (silent_after_end (fun _ => ""%string) (fun _ => None) (fun _ => double.zero) (fun _ => 0)
    (get_t "/a") [] [] [] [Close]); reflexivity|reflexivity].
Defined.

(** A callback that throws on the value it is given is called again with what it threw. *)
Lemma answered_once_witness :
  let s := life (fun _ => ""%string) (fun _ => None) (fun _ => double.zero) (fun _ => 0)
             (get_t "/a") [] [] [Some uncoded] [Reply 0 (RGet ZNONODE "" (mk_stat 0 0 0))] in
  (exists r, results s = [Ret r; Throw uncoded]) \/ (exists x, results s = [Throw x]).
Proof.
  cbv zeta. destruct (answered_once (fun _ => ""%string) (fun _ => None) (fun _ => double.zero) (fun _ => 0)
    (get_t "/a") [] [] [Some uncoded] [Reply 0 (RGet ZNONODE "" (mk_stat 0 0 0))] eq_refl eq_refl) as [[H _]|[_ H]];
    [discriminate H|exact H].
Defined.
