(* ===== verification/UnicornLock.v ===== *)
(** * Locks of the unicorn

    [lock_t] of [unicorn/src/unicorn/zookeeper.cpp] (its handlers are in
    [UnicornActions.v]) is the lock of ZooKeeper's documentation: each client creates a
    sequence node in a folder and has the lock when its node is the first.  This file
    shows that a lock that is given up is released; [UnicornMutex.v] shows that two
    clients never have the lock at once. *)

From stdpp Require Import sorting.
From S2P Require Import Prelude LogFilter Zookeeper UnicornActions.

Local Open Scope Z_scope.
Local Open Scope cpp_scope.

Section release.
Context (serialize : value_t -> string) (unserialize : string -> option value_t)
  (to_double : value_t -> double.t) (to_int64 : value_t -> Z).

Abbreviation life := (life serialize unserialize to_double to_int64).
Abbreviation on_reply := (on_reply serialize unserialize to_double to_int64).
Abbreviation step := (step serialize unserialize to_double to_int64).

(** ** A lock that is given up is released *)

Definition is_create (c : command) : bool := match c with CCreate _ _ _ _ => true | _ => false end.
Definition creates (s : act_t) : nat := length (filter (fun c => is_create c = true) (outstanding s)).

Definition created_of (s : act_t) : path_t :=
  match act s with lock_t _ _ created _ _ _ _ => created | _ => ""%string end.
Definition attached_of (s : act_t) : bool := match act s with lock_t _ _ _ _ _ _ b => b | _ => false end.
Definition is_lock (s : act_t) : bool := match act s with lock_t _ _ _ _ _ _ _ => true | _ => false end.

(** The deletion of the node has been sent, or the connection told to reconnect. *)
Definition released (s : act_t) : Prop := CDel (created_of s) (-1) ∈ log s \/ (0 < reconnects s)%nat.

Record base (s : act_t) : Prop := {
  b_lock : is_lock s = true;
  b_one : (creates s <= 1)%nat;
  b_created : created_of s <> ""%string -> creates s = 0%nat;
  b_detached : attached_of s = false -> created_of s <> ""%string /\ released s
}.

Definition lock_ok (s : act_t) : Prop :=
  base s /\ (closed s = true -> created_of s <> ""%string -> released s).

Definition add_command (c : command) (s : act_t) : act_t :=
  set_log (log s ++ [c]) (set_outstanding (outstanding s ++ [c]) s).

Lemma issue_cases c s : exists f,
  issue c s = (Ret tt, add_command c (set_fate f s)) \/ exists e, issue c s = (Throw e, set_fate f s).
Proof.
  unfold issue, next_fate, st_bind, st_gets, st_modify, st_ret, st_throw.
  destruct (fate s) as [|[| |rc] f]; [exists []|exists f|exists f|exists f]; simpl; try destruct (negb _); eauto.
Qed.

Lemma reconnect_cases s : exists l,
  (reconnect s).2 = set_reconnects (S (reconnects s)) (set_links l s).
Proof.
  unfold reconnect, st_bind, st_gets, st_modify, st_ret, st_throw. destruct (links s) as [|[] l]; simpl; eauto.
Qed.

Lemma set_fate_base f s : base s -> base (set_fate f s).
Proof. intros []. by split. Qed.
Lemma set_fate_ok f s : lock_ok s -> lock_ok (set_fate f s).
Proof. intros [Hb Hr]. split; [by apply set_fate_base|exact Hr]. Qed.

Lemma add_command_base c s : is_create c = false -> base s -> base (add_command c s).
Proof.
  intros Hc [Hl H1 Hcr Hd].
  assert (creates (add_command c s) = creates s) as Hn.
  { unfold creates, add_command. simpl. rewrite filter_app, filter_cons_False by (by rewrite Hc). by rewrite app_nil_r. }
  split; rewrite ?Hn; try done. intros Ha. destruct (Hd Ha) as [? [?|?]]; (split; [done|]); [left|by right].
  simpl. apply elem_of_app. by left.
Qed.

Lemma add_command_ok c s : is_create c = false -> lock_ok s -> lock_ok (add_command c s).
Proof.
  intros Hc [Hb Hr]. split; [by apply add_command_base|]. intros Hcl Hne.
  destruct (Hr Hcl Hne) as [?|?]; [left|by right]. simpl. apply elem_of_app. by left.
Qed.

(** Sending a command that is not a creation keeps a lock as it is. *)
Definition serves (m : M unit) (s : act_t) : Prop :=
  match m s with (Ret _, s') => lock_ok s' | (Throw _, s') => base s' end.

Lemma serves_issue c s : is_create c = false -> lock_ok s -> serves (issue c) s.
Proof.
  intros Hc Hs. unfold serves. destruct (issue_cases c s) as [f [->|[e ->]]].
  - by apply add_command_ok, set_fate_ok.
  - by apply set_fate_base, Hs.
Qed.

(** A creation may be sent when there is none under way and the node is not known. *)
Lemma serves_create c s : lock_ok s -> created_of s = ""%string -> creates s = 0%nat -> serves (issue c) s.
Proof.
  intros Hs He Hn. unfold serves. destruct (issue_cases c s) as [f [->|[e ->]]].
  - destruct Hs as [[Hl H1 Hcr Hd] Hr]. split; [split|]; try done.
    + unfold creates in *. simpl. rewrite filter_app, length_app, Hn. simpl.
      rewrite filter_cons. case_decide; simpl; lia.
    + intros Ha. by destruct (Hd Ha).
  - by apply set_fate_base, Hs.
Qed.

(** After the deletion is sent, or a reconnection tried, the scope may let go. *)
Lemma base_released a s :
  is_lock (set_act a s) = true -> created_of (set_act a s) = created_of s -> created_of s <> ""%string ->
  base s -> released s -> base (set_act a s).
Proof. intros Hl Hc Hne [H1 H2 H3 H4] Hr. split; unfold released; rewrite ?Hc; done. Qed.

Lemma reconnected_base n l s : (0 < n)%nat -> base s -> base (set_reconnects n (set_links l s)).
Proof. intros Hn [H1 H2 H3 H4]. split; try done. intros Ha. split; [by apply H4|by right]. Qed.

Lemma on_abort_spec s :
  base s -> let s' := (on_abort s).2 in base s' /\ (created_of s' <> ""%string -> released s') /\ closed s' = closed s.
Proof.
  intros Hb. destruct (act s) as [| | | | | | |folder path created prev value depth att] eqn:Ea;
    try by (pose proof (b_lock s Hb) as H; unfold is_lock in H; rewrite Ea in H).
  assert (created_of s = created /\ attached_of s = att) as [Hcr Hat] by (unfold created_of, attached_of; by rewrite Ea).
  unfold on_abort. erewrite st_bind_Ret by reflexivity. cbv beta. rewrite Ea. destruct att.
  2:{ split_and!; try done. intros _. by apply (b_detached s Hb). }
  case_decide as He; [split_and!; try done; simpl; congruence|].
  set (a' := lock_t _ _ _ _ _ _ false). unfold st_bind, st_catch.
  destruct (issue_cases (CDel created (-1)) s) as [f [->|[e ->]]].
  - assert (released (add_command (CDel created (-1)) (set_fate f s))) as Hr.
    { left. change (created_of _) with (created_of s). rewrite Hcr. simpl. apply elem_of_app. right. by left. }
    split_and!; [|by intros _; left; simpl; apply elem_of_app; right; left|done].
    apply base_released; [done|exact (eq_sym Hcr)|by rewrite <- Hcr in He| |done]. by apply add_command_base, set_fate_base.
  - destruct (reconnect_cases (set_fate f s)) as [l Hl].
    assert (base (reconnect (set_fate f s)).2) as Hb2.
    { rewrite Hl. apply reconnected_base; [lia|by apply set_fate_base]. }
    destruct (reconnect (set_fate f s)) as [[[]|e'] s2]; cbn [snd] in Hl, Hb2; rewrite Hl in Hb2 |- *.
    + split_and!; [|by intros _; right; simpl; lia|done].
      apply base_released; [done|exact (eq_sym Hcr)|by rewrite <- Hcr in He|done|by right; simpl; lia].
    + split_and!; [done|by intros _; right; simpl; lia|done].
Qed.

Lemma abort_ok e s : base s -> lock_ok (abort e s).2.
Proof.
  intros Hb. destruct (on_abort_spec s Hb) as (Hb' & Hr & Hc). unfold abort, st_bind.
  destruct (on_abort s) as [[[]|e'] s'] eqn:E; simpl in Hb', Hr, Hc.
  - unfold wrapped, st_bind, st_gets, st_when, st_modify, st_ret, st_throw.
    destruct (closed s'); simpl; destruct Hb'; [by split; [split|]|].
    destruct (throws s') as [|[x|] q]; simpl; (split; [by split|auto]).
  - split; [done|auto].
Qed.

Lemma close_ok s : lock_ok s -> lock_ok (close s).2.
Proof.
  intros Hs. pose proof Hs as [Hb _]. unfold close. erewrite st_bind_Ret by reflexivity. cbv beta.
  pose proof (b_lock s Hb) as Hl. unfold is_lock in Hl. destruct (act s) eqn:Ea; try done.
  destruct (closed s); [done|]. destruct (on_abort_spec s Hb) as (Hb' & Hr & Hc). unfold st_bind.
  destruct (on_abort s) as [[[]|e'] s'] eqn:E; simpl in Hb', Hr, Hc; [|by split]. simpl. destruct Hb'. by split; [split|].
Qed.

(** The other steps of handlers *)
Lemma serves_ret s : lock_ok s -> serves (st_ret tt) s.
Proof. done. Qed.
Lemma serves_throw e s : lock_ok s -> serves (st_throw e) s.
Proof. by intros []. Qed.
Lemma serves_satisfy r s : lock_ok s -> serves (satisfy r) s.
Proof.
  intros [[H1 H2 H3 H4] Hr]. unfold serves, satisfy, wrapped, st_bind, st_gets, st_when, st_modify, st_ret, st_throw.
  destruct (closed s) eqn:Ec; simpl; [by split; [split|]; auto|].
  destruct (throws s) as [|[e|] q]; simpl; [|by split|]; (split; [by split|]); simpl; by rewrite Ec.
Qed.
Lemma serves_reconnect s : lock_ok s -> serves reconnect s.
Proof.
  intros [[H1 H2 H3 H4] Hr]. unfold serves. destruct (reconnect_cases s) as [l Hl].
  assert (lock_ok (reconnect s).2) as H.
  { rewrite Hl. split; [split|]; try done.
    - intros Ha. destruct (H4 Ha). split; [done|]. right. simpl. lia.
    - intros _ _. right. simpl. lia. }
  destruct (reconnect s) as [[[]|e] s']; [done|]. apply H.
Qed.

Lemma serves_seq (m k : M unit) s : serves m s -> (forall s', lock_ok s' -> serves k s') -> serves (m ;;; k) s.
Proof.
  unfold serves, st_bind. intros Hm Hk. destruct (m s) as [[u|e] s']; [by apply Hk|done].
Qed.

(** Changing the previous node or the depth *)
Lemma set_act_ok a s :
  is_lock (set_act a s) = true -> created_of (set_act a s) = created_of s -> attached_of (set_act a s) = attached_of s ->
  lock_ok s -> lock_ok (set_act a s).
Proof.
  intros Hl Hc Ha [[H1 H2 H3 H4] Hr]. unfold released in *. split; [split|]; unfold released; rewrite ?Hc, ?Ha; try done.
Qed.

Lemma serves_path (m : outcome error_t path_t) (k : path_t -> M unit) s :
  lock_ok s -> (forall p, serves (k p) s) -> serves (let! p := lift_path m in k p) s.
Proof. intros Hs Hk. destruct m; [exact (Hk _)|by apply serves_throw]. Qed.

Lemma serves_set_act a (k : M unit) s : serves k (set_act a s) -> serves (st_modify (set_act a) ;;; k) s.
Proof. done. Qed.

(** The node is created. *)
Lemma serves_created folder path prev value depth att p s :
  lock_ok s -> act s = lock_t folder path "" prev value depth att -> creates s = 0%nat ->
  serves (let! b := st_gets closed in
          st_modify (set_act (lock_t folder path p prev value depth att)) ;;;
          if negb b then issue (CChilds folder false) else issue (CDel p (-1))) s.
Proof.
  intros [[H1 H2 H3 H4] Hr] Ea Hn. set (s1 := set_act (lock_t folder path p prev value depth att) s).
  assert (base s1) as Hb.
  { split; try done. change (attached_of s1) with att. intros ->. exfalso. destruct H4 as [H4 _];
      unfold attached_of, created_of in *; by rewrite Ea in *. }
  unfold serves, st_bind, st_gets, st_modify. fold s1. destruct (closed s) eqn:Ec; simpl.
  - destruct (issue_cases (CDel p (-1)) s1) as [f [->|[e ->]]]; [|by apply set_fate_base].
    split; [by apply add_command_base, set_fate_base|]. intros _ _. left. simpl. apply elem_of_app. right. by left.
  - apply (serves_issue (CChilds folder false) s1 eq_refl). split; [done|]. simpl. congruence.
Qed.

Lemma lock_on_create_serves folder path prev value depth att rc p s :
  lock_ok s -> act s = lock_t folder path "" prev value depth att -> creates s = 0%nat ->
  serves (lock_on_create serialize folder path "" prev value depth att rc p) s.
Proof.
  intros Hs Ea Hn. unfold lock_on_create. cbv zeta.
  assert (forall d, lock_ok (set_act (lock_t folder path "" prev value d att) s)) as Hd.
  { intros d. apply set_act_ok; try done; unfold created_of, attached_of; by rewrite Ea. }
  assert (forall d c, serves (issue c) (set_act (lock_t folder path "" prev value d att) s)) as Hi.
  { intros d c. by apply serves_create. }
  destruct rc; try by apply serves_throw.
  - destruct depth as [|[|d]]; [by apply serves_created|by apply serves_set_act|].
    apply serves_set_act, serves_path; auto.
  - apply serves_set_act, serves_path; auto.
Qed.

Lemma lock_on_children_serves folder path created prev value depth att rc children s :
  lock_ok s -> act s = lock_t folder path created prev value depth att ->
  serves (lock_on_children folder path created prev value depth att rc children) s.
Proof.
  intros Hs Ea. unfold lock_on_children. cbv zeta. destruct rc; try by apply serves_throw.
  apply serves_path; [done|]. intros node. case_decide; [by apply serves_throw|].
  apply serves_seq; [|by intros; apply serves_issue]. destruct (lower _ _); [by apply serves_satisfy|].
  destruct (_ !! _); [|by apply serves_throw]. destruct (negb _); [by apply serves_throw|].
  apply serves_set_act, serves_issue; [done|]. apply set_act_ok; try done; unfold created_of, attached_of; by rewrite Ea.
Qed.

Lemma answered_ok i c s :
  outstanding s !! i = Some c -> lock_ok s ->
  let s1 := set_outstanding (delete i (outstanding s)) s in
  lock_ok s1 /\ (is_create c = true -> creates s1 = 0%nat /\ created_of s = ""%string).
Proof.
  intros Hi [[H1 H2 H3 H4] Hr] s1.
  assert (creates s = creates s1 + if is_create c then 1 else 0)%nat as Hn.
  { unfold creates, s1. simpl. rewrite delete_take_drop. rewrite <- (take_drop_middle _ _ _ Hi) at 1.
    rewrite !filter_app, !length_app, filter_cons. destruct (is_create c); case_decide; simpl; (done || lia). }
  split.
  - split; [split|]; try done; intros; [lia|]. specialize (H3 ltac:(done)). lia.
  - intros Hc. rewrite Hc in Hn. split; [lia|]. destruct (decide (created_of s = ""%string)); [done|].
    specialize (H3 n). lia.
Qed.

Lemma deliver_ok r s :
  lock_ok s -> (forall rc p, r = RCreate rc p -> creates s = 0%nat /\ created_of s = ""%string) ->
  lock_ok (deliver serialize unserialize to_double to_int64 r s).2.
Proof.
  intros Hs Hr. pose proof (b_lock s (proj1 Hs)) as Hl. unfold is_lock in Hl.
  destruct (act s) as [| | | | | | |folder path created prev value depth att] eqn:Ea; try done.
  unfold deliver. erewrite st_bind_Ret by reflexivity. cbv beta. rewrite Ea.
  enough (forall m, on_reply (lock_t folder path created prev value depth att) r = Some m -> serves m s) as Hm.
  { destruct (on_reply _ r) as [m|]; [|done]. specialize (Hm m eq_refl). unfold serves in Hm. unfold st_catch.
    destruct (m s) as [[u|e] s'']; [done|]. by apply abort_ok. }
  intros m. destruct r; simpl; try done; intros [= <-].
  - unfold lock_on_get. destruct rc; (done || by apply serves_throw).
  - destruct (Hr _ _ eq_refl) as [Hn He]. unfold created_of in He. rewrite Ea in He. subst created.
    by apply lock_on_create_serves.
  - unfold lock_on_del. destruct rc; (done || by apply serves_reconnect).
  - unfold lock_on_exists. destruct rc; (done || by apply serves_throw || by apply serves_issue).
  - by apply lock_on_children_serves.
  - unfold lock_on_watch. destruct (w_type w); (by apply serves_issue || by apply serves_throw).
Qed.

Lemma step_ok e s : lock_ok s -> lock_ok (step e s).
Proof.
  intros Hs. unfold UnicornActions.step, handle. erewrite st_bind_Ret by reflexivity. cbv beta.
  destruct e as [i r|w| |].
  - destruct (outstanding s !! i) as [c|] eqn:Ei; [|done]. destruct (answers c r) eqn:Er; [|done].
    destruct (answered_ok i c s Ei Hs) as [Hs1 Hc]. erewrite st_bind_Ret by reflexivity. cbv beta.
    apply deliver_ok; [done|]. intros rc p ->. destruct c; try done. by apply Hc.
  - by apply deliver_ok.
  - by apply close_ok.
  - destruct (aborting s); [done|]. erewrite st_bind_Ret by reflexivity. cbv beta. apply abort_ok.
    destruct Hs as [[] _]. by split.
Qed.

Lemma run_lock_ok folder value f l t :
  lock_ok (run_command serialize (lock_construct folder value) (start_state (lock_construct folder value) f l t)).2.
Proof.
  unfold run_command, lock_construct, start_state. simpl. unfold st_catch. erewrite st_bind_Ret by reflexivity. cbv beta.
  set (s0 := set_act _ _). assert (lock_ok s0) as Hs0 by (split; [split; unfold creates; simpl; (done || lia)|done]).
  pose proof (serves_create (CCreate (folder ++ "/lock") (serialize value) true true) s0 Hs0 eq_refl eq_refl) as H.
  unfold serves in H. destruct (issue _ s0) as [[u|e] s1] eqn:E1; [done|]. simpl.
  destruct (issue_cases (CCreate (folder ++ "/lock") (serialize value) true true) s0) as [f' [E|[e' E]]];
    rewrite E in E1; injection E1 as _ <-; [done|]. destruct H. by split; [split|].
Qed.

(** What a reconnection does to the handle and to the session: the handle is replaced and
    given to [zookeeper_close], whatever opening new ones gives; the session is resumed if
    a new handle could be opened with its id, and given up if not. *)
Definition given_up {W} (r1 r2 : init_result) (c : @connection_t W) (h : nat) : Prop :=
  let c' := (Zookeeper.reconnect r1 r2 c).2 in
  h ∈ closing c' /\ zhandle c' <> Some h /\
  session c' = (if good r1 then (if session c =? 0 then match r1 with GoodHandle id => id | _ => 0 end else session c) else 0).

Lemma reconnect_gives_up {W} r1 r2 (c : @connection_t W) h :
  zhandle c = Some h -> (h < opened c)%nat -> given_up r1 r2 c h.
Proof.
  intros Hh Ho. unfold given_up, Zookeeper.reconnect, init, swap_handle, drop_handle, cancel_watches, st_bind, st_gets,
    st_when, st_modify, st_ret, st_throw.
  destruct r1 as [| |i1]; simpl; destruct (session c =? 0) eqn:Es; simpl; rewrite ?Hh; simpl; rewrite ?Hh; simpl;
    try (destruct r2 as [| |i2]; simpl; rewrite ?Hh; simpl);
    split_and!; try (by set_solver); try done; try (intros [= E]; lia); by apply Z.eqb_eq in Es.
Qed.

(** C26: a client that has given up a lock does not keep it in silence.  Whatever happens
    to a lock, in any order, sends that fail and callbacks that throw included, once it
    is closed, by the client or by an error, and its node is known to have been created,
    before or after, then the deletion of the node has been sent; or, as the last
    resort, its connection has been told to reconnect.  That replaces the handle the
    commands went through and has it closed, whatever opening new handles gives; it gives
    up the session to which the node belongs only if no handle can be opened with the
    session's id, and resumes that session otherwise. *)
Theorem lock_released (folder : path_t) (value : value_t) (f : list fate_t) (l : list bool)
    (t : list (option error_t)) (es : list event) :
  let s := life (lock_construct folder value) f l t es in
  closed s = true -> created_of s <> ""%string ->
  CDel (created_of s) (-1) ∈ log s \/
  ((0 < reconnects s)%nat /\
   forall W (c : @connection_t W) r1 r2 h, zhandle c = Some h -> (h < opened c)%nat -> given_up r1 r2 c h).
Proof.
  intros s Hc Hne. enough (lock_ok s) as [_ H].
  { destruct (H Hc Hne) as [?|?]; [by left|right]. split; [done|]. intros. by apply reconnect_gives_up. }
  subst s. clear Hc Hne. unfold UnicornActions.life. pose proof (run_lock_ok folder value f l t) as H0.
  revert H0. generalize (run_command serialize (lock_construct folder value) (start_state (lock_construct folder value) f l t)).2.
  induction es as [|e es IH]; intros s Hs; [done|]. by apply IH, step_ok.
Qed.
End release.

(** ** What a lock does with a reply *)

Section effects.
Context (folder path created : path_t) (value : value_t) (depth : nat) (H : Prop).

(** A creation is that of the node. *)
Definition own_path (c : command) : Prop := match c with CCreate p _ _ _ => p = path | _ => True end.

(** The lock has the given fields, creates only its node, and has told its caller that it
    is taken only if [H]. *)
Definition holding (s : act_t) : Prop :=
  (exists prev att, act s = lock_t folder path created prev value depth att) /\
  Forall own_path (outstanding s) /\
  (Ret (Done true) ∈ results s -> H).

Lemma holding_modify (f : act_t -> act_t) :
  (forall s, act (f s) = act s /\ outstanding (f s) = outstanding s /\ results (f s) = results s) ->
  keeps holding (@st_modify act_t error_t f).
Proof. intros Hf. apply keeps_modify. intros s Hs. unfold holding. by destruct (Hf s) as (-> & -> & ->). Qed.

Lemma set_act_holding prev att :
  keeps holding (@st_modify act_t error_t (set_act (lock_t folder path created prev value depth att))).
Proof. apply keeps_modify. intros s [_ Hr]. split; [by eauto|done]. Qed.

#[local] Hint Extern 0 (own_path _) => exact I : keeps.
Ltac holding_walk := keeps_walk; try (apply holding_modify; by intros).

Lemma issue_holding c : own_path c -> keeps holding (issue c).
Proof.
  intros Hc. unfold issue, next_fate. holding_walk; apply keeps_modify; intros s (Ha & Ho & Hr); split_and!; try done;
    apply Forall_app; by repeat constructor.
Qed.
Lemma reconnect_holding : keeps holding reconnect.
Proof. unfold reconnect. holding_walk. Qed.
#[local] Hint Resolve set_act_holding issue_holding reconnect_holding : keeps.

Lemma on_abort_holding : keeps holding on_abort.
Proof.
  intros s Hs. unfold on_abort. erewrite st_bind_Ret by reflexivity. cbv beta. pose proof Hs as [(prev & att & ->) _].
  destruct att; [|done]. case_decide; [done|]. revert s Hs.
  enough (keeps holding (st_catch (issue (CDel created (-1))) (fun _ => reconnect) ;;;
    st_modify (set_act (lock_t folder path created prev value depth false)))) by auto. holding_walk.
Qed.
#[local] Hint Resolve on_abort_holding : keeps.

Lemma wrapped_holding r : (r = Ret (Done true) -> H) -> keeps holding (wrapped r).
Proof.
  intros HH. unfold wrapped. keeps_walk; apply keeps_modify; intros s (Ha & Ho & Hr); split_and!; try done; simpl;
    rewrite elem_of_app, list_elem_of_singleton; intros [?|?]; auto.
Qed.
Lemma abort_holding e : keeps holding (abort e).
Proof. unfold abort. keeps_walk; [by apply wrapped_holding|apply holding_modify; by intros]. Qed.
Lemma close_holding : keeps holding close.
Proof. unfold close. holding_walk. Qed.
Lemma satisfy_holding : H -> keeps holding (satisfy (Done true)).
Proof. intros HH. unfold satisfy. keeps_walk. by apply wrapped_holding. Qed.
Lemma lift_path_holding m : keeps holding (lift_path m).
Proof. unfold lift_path. holding_walk. Qed.
#[local] Hint Resolve abort_holding close_holding satisfy_holding lift_path_holding : keeps.

(** The lock is given when its node is the first of the children. *)
Definition first_among (children : list string) : Prop :=
  exists node, get_node_name created = Ret node /\ node ∈ children /\
    forall c, c ∈ children -> String.ltb c node = false.

Lemma lower_zero node l : lower node l = 0%nat -> forall c, c ∈ l -> String.ltb c node = false.
Proof.
  unfold lower. intros Hl c Hc. destruct (String.ltb c node) eqn:E; [|done].
  assert (c ∈ filter (fun c => String.ltb c node = true) l) as Hf by (by apply list_elem_of_filter).
  destruct (filter _ l); [by apply elem_of_nil in Hf|done].
Qed.

Lemma on_children_holding rc children prev att :
  (rc = ZOK -> first_among children -> H) ->
  keeps holding (lock_on_children folder path created prev value depth att rc children).
Proof.
  intros HH. unfold lock_on_children. cbv zeta. destruct rc; auto with keeps. unfold lift_path.
  destruct (get_node_name created) as [node|e] eqn:En; [|by intros s Hs]. apply keeps_ret_bind.
  case_decide as Hin; [auto with keeps|]. apply keeps_bind; [|auto with keeps].
  destruct (lower node _) as [|i] eqn:El; [|keeps_walk].
  apply satisfy_holding, HH; [done|]. exists node. split; [done|].
  assert (forall c, c ∈ merge_sort String.le children <-> c ∈ children) as Hp by (intros c; by rewrite merge_sort_Permutation).
  split; [by apply Hp|]. intros c Hc. by apply (lower_zero _ _ El), Hp.
Qed.

Context (serialize : value_t -> string) (unserialize : string -> option value_t)
  (to_double : value_t -> double.t) (to_int64 : value_t -> Z).

Lemma other_reply_holding a r m :
  (exists prev att, a = lock_t folder path created prev value depth att) ->
  on_reply serialize unserialize to_double to_int64 a r = Some m ->
  (forall rc p, r <> RCreate rc p) ->
  (forall children stat, r = RChildren ZOK children stat -> first_among children -> H) ->
  keeps holding m.
Proof.
  intros (prev & att & ->) Hm Hc HH. destruct r; simpl in Hm; simplify_eq; try by destruct (Hc rc created_path).
  - unfold lock_on_get. keeps_walk.
  - unfold lock_on_del. keeps_walk.
  - unfold lock_on_exists. keeps_walk.
  - apply on_children_holding. intros ->. by apply (HH _ stat).
  - unfold lock_on_watch, throw_watch_event. keeps_walk.
Qed.

Lemma deliver_holding r :
  (forall rc p, r <> RCreate rc p) ->
  (forall children stat, r = RChildren ZOK children stat -> first_among children -> H) ->
  keeps holding (deliver serialize unserialize to_double to_int64 r).
Proof.
  intros Hc HH s Hs. unfold deliver. erewrite st_bind_Ret by reflexivity. cbv beta. pose proof Hs as [Ha _].
  destruct (on_reply _ _ _ _ (act s) r) as [m|] eqn:Em; [|done].
  apply (keeps_catch holding m); [|auto with keeps|done]. by eapply other_reply_holding.
Qed.

(** A creation that fails, other than for a missing parent *)
Lemma create_failed_holding rc p :
  rc <> ZOK -> rc <> ZNONODE -> keeps holding (deliver serialize unserialize to_double to_int64 (RCreate rc p)).
Proof.
  intros H1 H2 s Hs. unfold deliver. erewrite st_bind_Ret by reflexivity. cbv beta. pose proof Hs as [(prev & att & Ea) _].
  rewrite Ea. simpl. apply (keeps_catch holding _ abort); [|auto with keeps|done]. destruct rc; try done; by intros s0 Hs0.
Qed.
End effects.

(** The creation of the node *)
Lemma create_done_holding serialize unserialize to_double to_int64 folder path value p s :
  holding folder path "" value 0 False s ->
  holding folder path p value 0 False (deliver serialize unserialize to_double to_int64 (RCreate ZOK p) s).2.
Proof.
  intros [(prev & att & Ea) [Ho Hr]]. unfold deliver. erewrite st_bind_Ret by reflexivity. cbv beta. rewrite Ea. simpl.
  unfold st_catch, lock_on_create. cbv zeta. erewrite st_bind_Ret by reflexivity. cbv beta.
  erewrite st_bind_Ret by reflexivity. cbv beta. set (s1 := set_act _ s).
  assert (holding folder path p value 0 False s1) as H1 by (split; [by eauto|by split]).
  enough (forall c, own_path path c -> holding folder path p value 0 False
            match issue c s1 with (Ret a, s') => (Ret a, s') | (Throw e, s') => abort e s' end.2) as Hi.
  { destruct (closed s); simpl; by apply Hi. }
  intros c Hc. apply (keeps_catch (holding folder path p value 0 False) (issue c) abort);
    [by apply issue_holding|intros; apply abort_holding|done].
Qed.
