(* ===== verification/UnicornMutex.v ===== *)
(** * Mutual exclusion of the unicorn's locks

    Any number of clients run [lock_t] ([UnicornLock.v]) on one folder of a ZooKeeper
    server.  The server is other code: of its sequence nodes the model uses the class
    [Sequence], that the suffixes it appends grow with its counter, as documented, with
    the ten-digit numbers as an instance; commands may be executed in any order, any of
    them may fail or be executed with the reply lost, replies may arrive in any order,
    other nodes may come and go, and any node may be deleted, as when a session ends. *)

From Stdlib Require Import Ascii.
From stdpp Require Import sorting.
From S2P Require Import Prelude LogFilter Zookeeper UnicornActions UnicornLock.

Local Open Scope Z_scope.

(** ** Sequence nodes *)

(** The suffix of the [i]-th sequence node of a folder; numbers below [limit] keep their
    order. *)
Class Sequence := {
  suffix : nat -> string;
  limit : Z;
  suffix_mono : forall i j, (i < j)%nat -> Z.of_nat j < limit -> String.ltb (suffix i) (suffix j) = true;
  suffix_no_slash : forall i, no_slash (suffix i) = true
}.

Lemma string_compare_refl (s : string) : String.compare s s = Eq.
Proof. induction s as [|c s IH]; [done|]. simpl. unfold Ascii.compare. by rewrite N.compare_refl. Qed.

Lemma ltb_irrefl (s : string) : String.ltb s s = false.
Proof. unfold String.ltb. by rewrite string_compare_refl. Qed.

Lemma ltb_app (a s t : string) : String.ltb (a ++ s) (a ++ t) = String.ltb s t.
Proof.
  induction a as [|c a IH]; string_simpl; [done|]. unfold String.ltb in *. simpl.
  unfold Ascii.compare. by rewrite N.compare_refl.
Qed.

Section names.
Context `{Sequence}.

Definition name (i : nat) : string := ("lock" ++ suffix i)%string.

Lemma name_mono i j : (i < j)%nat -> Z.of_nat j < limit -> String.ltb (name i) (name j) = true.
Proof. intros. unfold name. rewrite ltb_app. by apply suffix_mono. Qed.

Lemma name_inj i j : Z.of_nat i < limit -> Z.of_nat j < limit -> name i = name j -> i = j.
Proof.
  intros Hi Hj E. destruct (lt_eq_lt_dec i j) as [[Hl|?]|Hl]; [|done|].
  - pose proof (name_mono i j Hl Hj) as Hm. by rewrite E, ltb_irrefl in Hm.
  - pose proof (name_mono j i Hl Hi) as Hm. by rewrite E, ltb_irrefl in Hm.
Qed.

Lemma name_prefix i : String.prefix "lock" (name i) = true.
Proof. unfold name. string_simpl. simpl. by destruct (suffix i). Qed.

Lemma no_slash_app a b : no_slash (a ++ b) = no_slash a && no_slash b.
Proof. induction a as [|c a IH]; string_simpl; [done|]. simpl. by rewrite IH, andb_assoc. Qed.

(** The path that the server answers for a node of the folder *)
Definition seq_path (folder : path_t) (i : nat) : path_t := ((folder ++ "/lock") ++ suffix i)%string.

Lemma seq_path_name folder i : get_node_name (seq_path folder i) = Ret (name i).
Proof.
  unfold seq_path. rewrite string_app_assoc. string_simpl. apply get_node_name_app; [|done].
  unfold name. by rewrite no_slash_app, suffix_no_slash.
Qed.

Lemma seq_path_not_empty folder i : seq_path folder i <> ""%string.
Proof. intros E. pose proof (seq_path_name folder i) as H'. by rewrite E in H'. Qed.

Lemma seq_path_inj folder i j : Z.of_nat i < limit -> Z.of_nat j < limit -> seq_path folder i = seq_path folder j -> i = j.
Proof.
  intros Hi Hj E. apply name_inj; [done..|]. pose proof (seq_path_name folder i) as H1. rewrite E, seq_path_name in H1.
  congruence.
Qed.
End names.

(** ** The system *)

Record client_t := mk_client { lock : act_t; answered : list (command * reply_t) }.

Record world_t := mk_world {
  owners : list nat;            (** for each sequence node, the client that has created it *)
  live : gset nat;              (** the sequence nodes that exist *)
  others : gset string;         (** the other nodes of the folder *)
  clients : list client_t
}.

Section system.
Context `{Sequence}.
Context (serialize : value_t -> string) (unserialize : string -> option value_t)
  (to_double : value_t -> double.t) (to_int64 : value_t -> Z).
Context (folder : path_t).

Abbreviation step := (step serialize unserialize to_double to_int64).

Definition set_clients (x : list client_t) (w : world_t) : world_t := mk_world (owners w) (live w) (others w) x.

(** What the server does with a command: it is executed, executed with the reply lost,
    or fails. *)
Inductive execution := Executed | Lost | Failed (rc : rc_t).

(** The folder exists: a creation does not fail for its parent. *)
Definition failure (rc : rc_t) : rc_t := match rc with ZOK | ZNONODE => ZCONNECTIONLOSS | rc => rc end.

Definition no_stat : stat_t := mk_stat 0 0 0.

Definition add_node (k : nat) (w : world_t) : world_t :=
  mk_world (owners w ++ [k]) ({[length (owners w)]} ∪ live w) (others w) (clients w).
Definition drop_nodes (P : nat -> bool) (w : world_t) : world_t :=
  mk_world (owners w) (filter (fun i => P i = false) (live w)) (others w) (clients w).

Definition exec (k : nat) (c : command) (x : execution) (w : world_t) : reply_t * world_t :=
  match c with
  | CCreate p _ _ _ =>
      match x with
      | Executed => (RCreate ZOK (p ++ suffix (length (owners w))), add_node k w)
      | Lost => (RCreate ZCONNECTIONLOSS "", add_node k w)
      | Failed rc => (RCreate (failure rc) "", w)
      end
  | CDel p _ =>
      let w' := drop_nodes (fun i => bool_decide (seq_path folder i = p)) w in
      match x with
      | Executed => (RDel ZOK, w')
      | Lost => (RDel ZCONNECTIONLOSS, w')
      | Failed rc => (RDel (failure rc), w)
      end
  | CChilds _ _ =>
      match x with
      | Executed => (RChildren ZOK ((name <$> elements (live w)) ++ elements (others w)) no_stat, w)
      | Lost => (RChildren ZCONNECTIONLOSS [] no_stat, w)
      | Failed rc => (RChildren (failure rc) [] no_stat, w)
      end
  | CGet _ _ => (RGet (match x with Executed => ZOK | Lost => ZNONODE | Failed rc => rc end) "" no_stat, w)
  | CExists _ _ => (RExists (match x with Executed => ZOK | Lost => ZNONODE | Failed rc => rc end) no_stat, w)
  | CPut _ _ _ => (RPut (match x with Failed rc => rc | _ => ZOK end) no_stat, w)
  end.

Inductive event_w :=
| Exec (k i : nat) (x : execution)     (** the server executes the [i]-th command of client [k] *)
| Deliver (k j i : nat)                (** client [k] gets its [j]-th answer, for its [i]-th command *)
| Fires (k : nat) (watch : watch_reply_t)
| Gives_up (k : nat)
| Aborts (k : nat)
| Adds (n : string)                    (** another node is created, *)
| Drops (n : string)                   (** or deleted; *)
| Expires (i : nat)                    (** a sequence node is deleted. *)
| Joins (v : value_t) (f : list fate_t) (l : list bool) (t : list (option error_t)).

Definition on_client (k : nat) (f : client_t -> client_t) (w : world_t) : world_t :=
  set_clients (alter f k (clients w)) w.
Definition on_lock (f : act_t -> act_t) (c : client_t) : client_t := mk_client (f (lock c)) (answered c).

Definition step_w (e : event_w) (w : world_t) : world_t :=
  match e with
  | Exec k i x =>
      match clients w !! k with
      | Some c =>
          match outstanding (lock c) !! i with
          | Some m =>
              let '(r, w) := exec k m x w in
              on_client k (fun c => mk_client (lock c) (answered c ++ [(m, r)])) w
          | None => w
          end
      | None => w
      end
  | Deliver k j i =>
      match clients w !! k with
      | Some c =>
          match answered c !! j with
          | Some (m, r) =>
              match outstanding (lock c) !! i with
              | Some m' =>
                  if answers m' r then
                    on_client k (fun c => mk_client (step (Reply i r) (lock c)) (delete j (answered c))) w
                  else w
              | None => w
              end
          | None => w
          end
      | None => w
      end
  | Fires k x => on_client k (on_lock (step (Watch x))) w
  | Gives_up k => on_client k (on_lock (step Close)) w
  | Aborts k => on_client k (on_lock (step RunAbort)) w
  | Adds n =>
      if String.prefix "lock" n then w else mk_world (owners w) (live w) ({[n]} ∪ others w) (clients w)
  | Drops n => mk_world (owners w) (live w) (others w ∖ {[n]}) (clients w)
  | Expires i => drop_nodes (fun j => bool_decide (i = j)) w
  | Joins v f l t =>
      set_clients (clients w ++
        [mk_client (run_command serialize (lock_construct folder v) (start_state (lock_construct folder v) f l t)).2 []]) w
  end.

Definition run_w (es : list event_w) : world_t := foldl (fun w e => step_w e w) (mk_world [] ∅ ∅ []) es.

(** Client [k] has been told that it has the lock, and its node is in the folder. *)
Definition holds (k : nat) (w : world_t) : Prop :=
  exists c i, clients w !! k = Some c /\ Ret (Done true) ∈ results (lock c) /\
    created_of (lock c) = seq_path folder i /\ i ∈ live w.

(** ** The invariant *)

Definition path_of : path_t := (folder ++ "/lock")%string.

(** A list of children: the sequence nodes of some moment and other nodes; a node that
    has come since has a greater number. *)
Definition snapshot (w : world_t) (l : list string) : Prop :=
  exists li ol, l = (name <$> li) ++ ol /\ Forall (fun n => String.prefix "lock" n = false) ol /\
    (forall i, i ∈ li -> (i < length (owners w))%nat) /\
    (forall i j, i ∈ li -> j ∈ live w -> j ∈ li \/ (i < j)%nat).

Definition answer_ok (k : nat) (w : world_t) (x : command * reply_t) : Prop :=
  match x.2 with
  | RCreate ZOK p => exists i, p = seq_path folder i /\ owners w !! i = Some k
  | RCreate ZNONODE _ => False
  | RChildren ZOK l _ => snapshot w l
  | _ => True
  end.

(** The node of a lock is not known, or was created by the client, and if the lock is
    taken no older node is left. *)
Definition lock_state (k : nat) (w : world_t) (s : act_t) : Prop :=
  exists v, holding folder path_of "" v 0 False s \/
    exists i, owners w !! i = Some k /\
      holding folder path_of (seq_path folder i) v 0 (forall j, j ∈ live w -> (i <= j)%nat) s.

Record client_ok (k : nat) (w : world_t) (c : client_t) : Prop := {
  co_lock : lock_ok (lock c);
  co_state : lock_state k w (lock c);
  co_answered : Forall (answer_ok k w) (answered c)
}.

Record world_ok (w : world_t) : Prop := {
  wo_live : forall j, j ∈ live w -> (j < length (owners w))%nat;
  wo_others : forall n, n ∈ others w -> String.prefix "lock" n = false;
  wo_clients : forall k c, clients w !! k = Some c -> client_ok k w c
}.

(** Sequence nodes come with greater numbers only. *)
Definition later (w w' : world_t) : Prop :=
  (exists ext, owners w' = owners w ++ ext) /\
  forall j, j ∈ live w' -> j ∈ live w \/ (length (owners w) <= j)%nat.

Lemma holding_weaken (P Q : Prop) f p c v d s : (P -> Q) -> holding f p c v d P s -> holding f p c v d Q s.
Proof. intros HPQ (Ha & Ho & Hr). split_and!; auto. Qed.

Lemma later_client k w w' c : later w w' -> client_ok k w c -> client_ok k w' c.
Proof.
  intros [[ext Ho] Hl] [H1 [v H2] H3]. assert (forall i x, owners w !! i = Some x -> owners w' !! i = Some x) as Hlk.
  { intros i x Hi. rewrite Ho. by apply lookup_app_l_Some. }
  split; [done| |].
  - exists v. destruct H2 as [?|(i & Hi & Hh)]; [by left|right]. exists i. split; [auto|].
    eapply holding_weaken; [|exact Hh]. intros Hall j [Hj|Hj]%Hl; [auto|]. apply lookup_lt_Some in Hi. lia.
  - eapply Forall_impl; [exact H3|]. intros [m r]. unfold answer_ok. simpl. destruct r as [| | [] | | | [] |]; try done.
    + intros (i & -> & Hi). eauto.
    + intros (li & ol & -> & Hol & Hli & Hnew). exists li, ol. split_and!; try done.
      * intros i Hi. rewrite Ho, length_app. specialize (Hli i Hi). lia.
      * intros i j Hi [Hj|Hj]%Hl; [auto|]. specialize (Hli i Hi). right. lia.
Qed.

Lemma later_world w w' :
  later w w' -> clients w' = clients w -> (forall j, j ∈ live w' -> (j < length (owners w'))%nat) ->
  (forall n, n ∈ others w' -> String.prefix "lock" n = false) -> world_ok w -> world_ok w'.
Proof.
  intros Hl Hc H1 H2 [_ _ H3]. split; try done. intros k c. rewrite Hc. intros Hk. eapply later_client; eauto.
Qed.

Lemma world_client w k f :
  (forall c, clients w !! k = Some c -> client_ok k w c -> client_ok k w (f c)) -> world_ok w -> world_ok (on_client k f w).
Proof.
  intros Hf [H1 H2 H3]. split; try done. intros k' c'.
  assert (later w (on_client k f w)) as Hl by (split; [exists []; by rewrite app_nil_r|auto]).
  intros Hk. apply (later_client _ w _ _ Hl). simpl in Hk. rewrite list_lookup_alter in Hk.
  case_decide as E; [|by apply H3]. subst k'. destruct (clients w !! k) as [c|] eqn:Ek; [|done].
  injection Hk as <-. apply (Hf c); auto.
Qed.

Lemma add_node_ok k w : world_ok w -> world_ok (add_node k w).
Proof.
  intros Hw. pose proof Hw as [H1 H2 H3]. apply (later_world w); try done; simpl.
  - split; [by eexists|]. simpl. intros j. rewrite elem_of_union, elem_of_singleton. intros [->|?]; auto.
  - intros j. rewrite elem_of_union, elem_of_singleton, length_app. simpl. intros [->|Hj]; [lia|]. specialize (H1 j Hj). lia.
Qed.

Lemma drop_nodes_ok P w : world_ok w -> world_ok (drop_nodes P w).
Proof.
  intros Hw. pose proof Hw as [H1 H2 H3]. apply (later_world w); try done; simpl.
  - split; [exists []; by rewrite app_nil_r|]. simpl. intros j Hj%elem_of_filter. tauto.
  - intros j [_ Hj]%elem_of_filter. by apply H1.
Qed.

Lemma snapshot_now w : world_ok w -> snapshot w ((name <$> elements (live w)) ++ elements (others w)).
Proof.
  intros [H1 H2 H3]. exists (elements (live w)), (elements (others w)). split_and!; [done| | |].
  - apply Forall_forall. intros n Hn%elem_of_elements. auto.
  - intros i Hi%elem_of_elements. auto.
  - intros i j _ Hj. left. by apply elem_of_elements.
Qed.

Lemma exec_ok k m x w c r w' :
  world_ok w -> clients w !! k = Some c -> m ∈ outstanding (lock c) -> exec k m x w = (r, w') ->
  world_ok w' /\ clients w' = clients w /\ answer_ok k w' (m, r).
Proof.
  intros Hw Hc Hm. pose proof (add_node_ok k w Hw) as Ha. pose proof (fun P => drop_nodes_ok P w Hw) as Hd.
  assert (forall p d e q, m = CCreate p d e q -> p = path_of) as Hp.
  { intros p d e q ->. destruct (wo_clients w Hw k c Hc) as [_ [v [(_ & Ho & _)|(i & _ & _ & Ho & _)]] _];
      rewrite Forall_forall in Ho; by apply (Ho _ Hm). }
  destruct m, x; simpl; intros [= <- <-]; split_and!; try done; try by apply Hd.
  - unfold answer_ok. simpl. exists (length (owners w)). split; [by rewrite (Hp _ _ _ _ eq_refl)|].
    simpl. by rewrite lookup_app_r, Nat.sub_diag.
  - unfold answer_ok, failure. simpl. by destruct rc.
  - by apply snapshot_now.
  - unfold answer_ok, failure. simpl. by destruct rc.
Qed.

(** *** Deliveries *)

Lemma no_node_first l : ~ first_among "" l.
Proof. by intros (node & E & _). Qed.

(** The first of a list of children has no older node beside it. *)
Lemma first_is_oldest w i l :
  Z.of_nat (length (owners w)) <= limit -> (i < length (owners w))%nat ->
  snapshot w l -> first_among (seq_path folder i) l -> forall j, j ∈ live w -> (i <= j)%nat.
Proof.
  intros Hlim Hi (li & ol & -> & Hol & Hli & Hnew) (node & En & Hin & Hfirst) j Hj.
  rewrite seq_path_name in En. injection En as <-.
  assert (i ∈ li) as Hii.
  { apply elem_of_app in Hin as [(i' & E & Hi')%list_elem_of_fmap|Hin].
    - specialize (Hli i' Hi'). apply name_inj in E; [by subst|lia|lia].
    - rewrite Forall_forall in Hol. specialize (Hol _ Hin). by rewrite name_prefix in Hol. }
  destruct (Hnew i j Hii Hj) as [Hjl|?]; [|lia]. destruct (decide (i <= j)%nat) as [?|Hn]; [done|]. exfalso.
  assert (String.ltb (name j) (name i) = true) as Hlt by (apply name_mono; lia).
  rewrite Hfirst in Hlt; [done|]. apply elem_of_app. left. by apply list_elem_of_fmap_2.
Qed.

Lemma holding_answered f p c v d P i s :
  holding f p c v d P s -> holding f p c v d P (set_outstanding (delete i (outstanding s)) s).
Proof.
  intros (Ha & Ho & Hr). split_and!; try done. simpl. rewrite Forall_forall in *. intros x Hx. apply Ho.
  rewrite delete_take_drop, elem_of_app in Hx. destruct Hx as [Hx|Hx].
  - apply list_elem_of_lookup in Hx as [j Hj]. apply lookup_take_Some in Hj as [Hj _]. by eapply list_elem_of_lookup_2.
  - apply list_elem_of_lookup in Hx as [j Hj]. rewrite lookup_drop in Hj. by eapply list_elem_of_lookup_2.
Qed.

Lemma deliver_state k w s i m r :
  Z.of_nat (length (owners w)) <= limit -> lock_ok s -> lock_state k w s -> answer_ok k w (m, r) ->
  outstanding s !! i = Some m -> answers m r = true -> lock_state k w (step (Reply i r) s).
Proof.
  intros Hlim Hok [v Hst] Hans Hi Hr. unfold UnicornActions.step, handle. erewrite st_bind_Ret by reflexivity. cbv beta.
  rewrite Hi, Hr. erewrite st_bind_Ret by reflexivity. cbv beta.
  destruct (answered_ok i m s Hi Hok) as [_ Hcr]. set (s1 := set_outstanding _ s) in *.
  assert ((exists rc p, r = RCreate rc p) \/ forall rc p, r <> RCreate rc p) as [(rc & p & ->)|Hnc]
    by (destruct r; [right|right|left|right..]; naive_solver).
  - assert (is_create m = true) as Hm by (by destruct m). destruct (Hcr Hm) as [_ He].
    destruct Hst as [Hh|(j & _ & (prev & att & Ea) & _)].
    2:{ unfold created_of in He. rewrite Ea in He. by apply seq_path_not_empty in He. }
    apply (holding_answered _ _ _ _ _ _ i) in Hh. fold s1 in Hh.
    destruct (decide (rc = ZOK)) as [->|Hz]; [|destruct (decide (rc = ZNONODE)) as [->|Hn]; [done|]].
    + destruct Hans as (j & -> & Hj). exists v. right. exists j. split; [done|].
      eapply holding_weaken; [|by apply create_done_holding]. done.
    + exists v. left. by apply create_failed_holding.
  - exists v. destruct Hst as [Hh|(j & Hj & Hh)]; [left|right; exists j; split; [done|]];
      apply (holding_answered _ _ _ _ _ _ i) in Hh; fold s1 in Hh; apply deliver_holding; try done.
    + intros l st -> Hf. by apply no_node_first in Hf.
    + intros l st -> Hf. apply (first_is_oldest w j l); try done. by eapply lookup_lt_Some.
Qed.

(** Events of the client alone *)
Lemma own_event_state k w e s :
  (forall i r, e <> Reply i r) -> lock_state k w s -> lock_state k w (step e s).
Proof.
  intros He [v Hst]. exists v. destruct Hst as [Hh|(j & Hj & Hh)]; [left|right; exists j; split; [done|]]; revert s Hh;
    apply (keeps_bind _ st_get); auto with keeps; intros s0; (destruct e as [i r|x| |]; [by destruct (He i r)| | |]).
  all: try apply deliver_holding; try apply close_holding; try done.
  all: destruct (aborting s0); [auto with keeps|]; apply keeps_bind; [by apply holding_modify|intros; apply abort_holding].
Qed.

Lemma joins_ok k w v f l t :
  client_ok k w
    (mk_client (run_command serialize (lock_construct folder v) (start_state (lock_construct folder v) f l t)).2 []).
Proof.
  split; [|exists v; left|constructor]; simpl.
  - apply run_lock_ok.
  - unfold run_command, lock_construct, start_state. simpl. apply (keeps_catch _ _ _).
    + intros s Hs. erewrite st_bind_Ret by reflexivity. cbv beta.
      apply issue_holding; [done|]. destruct Hs as [_ Hs]. by split; [eauto|].
    + intros e. by apply holding_modify.
    + split; [by eauto|]. split; [constructor|]. simpl. intros Hn. by apply elem_of_nil in Hn.
Qed.

Lemma step_w_ok e w : Z.of_nat (length (owners w)) <= limit -> world_ok w -> world_ok (step_w e w).
Proof.
  intros Hlim Hw. destruct e as [k i x|k j i|k x|k|k|n|n|i|v f l t]; simpl.
  - destruct (clients w !! k) as [c|] eqn:Ek; [|done]. destruct (outstanding (lock c) !! i) as [m|] eqn:Ei; [|done].
    destruct (exec k m x w) as [r w'] eqn:Ex.
    destruct (exec_ok k m x w c r w' Hw Ek (list_elem_of_lookup_2 _ _ _ Ei) Ex) as (Hw' & Hc' & Ha).
    apply world_client; [|done]. intros c' _ [H1 H2 H3]. split; [done|done|]. simpl. apply Forall_app. by repeat constructor.
  - destruct (clients w !! k) as [c|] eqn:Ek; [|done]. destruct (answered c !! j) as [[m r]|] eqn:Ej; [|done].
    destruct (outstanding (lock c) !! i) as [m'|] eqn:Ei; [|done]. destruct (answers m' r) eqn:Er; [|done].
    apply world_client; [|done]. intros c' Hc' [H1 H2 H3]. rewrite Ek in Hc'. injection Hc' as <-. split; simpl.
    + by apply step_ok.
    + apply (deliver_state k w (lock c) i m' r); try done. exact (Forall_lookup_1 _ _ _ _ H3 Ej).
    + by apply Forall_delete.
  - apply world_client; [|done]. intros c _ [H1 H2 H3]. split; [by apply step_ok|by apply own_event_state|done].
  - apply world_client; [|done]. intros c _ [H1 H2 H3]. split; [by apply step_ok|by apply own_event_state|done].
  - apply world_client; [|done]. intros c _ [H1 H2 H3]. split; [by apply step_ok|by apply own_event_state|done].
  - destruct (String.prefix "lock" n) eqn:En; [done|]. pose proof Hw as [H1 H2 H3].
    apply (later_world w); try done; [split; [exists []; by rewrite app_nil_r|auto]|]. simpl. intros n'.
    rewrite elem_of_union, elem_of_singleton. intros [->|?]; auto.
  - pose proof Hw as [H1 H2 H3]. apply (later_world w); try done; [split; [exists []; by rewrite app_nil_r|auto]|]. simpl.
    intros n' [Hn _]%elem_of_difference. auto.
  - by apply drop_nodes_ok.
  - pose proof Hw as [H1 H2 H3]. split; try done. intros k c. simpl. intros Hk.
    apply (later_client _ w); [split; [exists []; by rewrite app_nil_r|auto]|].
    apply lookup_app_Some in Hk as [Hk|[_ Hk]]; [auto|]. apply list_lookup_singleton_Some in Hk as [_ <-]. apply joins_ok.
Qed.

Lemma step_w_grows e w : (length (owners w) <= length (owners (step_w e w)))%nat.
Proof.
  destruct e as [k i x|k j i|k x|k|k|n|n|i|v f l]; simpl; repeat case_match; simpl; try lia.
  all: destruct x, c0; simplify_eq/=; rewrite ?length_app; lia.
Qed.

Lemma run_w_ok es : Z.of_nat (length (owners (run_w es))) <= limit -> world_ok (run_w es).
Proof.
  unfold run_w. assert (world_ok (mk_world [] ∅ ∅ [])) as H0.
  { split; simpl; [set_solver|set_solver|]. intros k c. by rewrite lookup_nil. }
  revert H0. generalize (mk_world [] ∅ ∅ []). induction es as [|e es IH]; intros w Hw Hlim; [done|].
  simpl in *. apply IH; [|done]. apply step_w_ok; [|done]. etransitivity; [|exact Hlim].
  clear. revert w. assert (forall w, (length (owners w) <= length (owners (foldl (fun w e => step_w e w) w es)))%nat) as Hg.
  { induction es as [|e' es IH]; intros w; [done|]. simpl. etransitivity; [apply step_w_grows|apply IH]. }
  intros w. pose proof (step_w_grows e w). specialize (Hg (step_w e w)). lia.
Qed.

(** C3: at most one client has the lock.  However many clients take a lock on the folder,
    in whatever order the server executes their commands and they get the replies,
    whichever commands fail or are executed without a reply, and whatever nodes are
    created or deleted beside theirs: of the clients that have been told that they have
    the lock, at most one has its node in the folder. *)
Theorem mutual_exclusion (es : list event_w) (k k' : nat) :
  let w := run_w es in
  Z.of_nat (length (owners w)) <= limit -> holds k w -> holds k' w -> k = k'.
Proof.
  intros w Hlim (c & i & Hk & Hd & Hi & Hl) (c' & i' & Hk' & Hd' & Hi' & Hl').
  destruct (run_w_ok es Hlim) as [H1 H2 H3]. fold w in H1, H2, H3.
  assert (forall k c i, clients w !! k = Some c -> Ret (Done true) ∈ results (lock c) ->
            created_of (lock c) = seq_path folder i -> i ∈ live w ->
            owners w !! i = Some k /\ forall j, j ∈ live w -> (i <= j)%nat) as Hold.
  { clear k k' c c' i i' Hk Hd Hi Hl Hk' Hd' Hi' Hl'. intros k c i Hk Hd Hi Hl.
    destruct (H3 k c Hk) as [_ [v [(_ & _ & Hf)|(i' & Ho & (prev & att & Ea) & _ & Hf)]] _]; [by destruct Hf|].
    unfold created_of in Hi. rewrite Ea in Hi. specialize (H1 i Hl). pose proof (lookup_lt_Some _ _ _ Ho).
    apply seq_path_inj in Hi; [|lia|lia]. subst i'. auto. }
  destruct (Hold _ _ _ Hk Hd Hi Hl) as [Ho Hmin]. destruct (Hold _ _ _ Hk' Hd' Hi' Hl') as [Ho' Hmin'].
  assert (i = i') as <- by (specialize (Hmin i' Hl'); specialize (Hmin' i Hl); lia). congruence.
Qed.
End system.

(** ** Ten-digit suffixes *)

Fixpoint digits (k n : nat) : string :=
  match k with
  | O => ""
  | S k => (digits k (n / 10) ++ String (ascii_of_N (48 + N.of_nat (n mod 10))) "")%string
  end.

Lemma length_digits k n : String.length (digits k n) = k.
Proof.
  revert n. induction k as [|k IH]; intros n; [done|]. simpl.
  assert (forall a b, String.length (a ++ b) = String.length a + String.length b)%nat as Ha.
  { induction a as [|c a IHa]; intros b; string_simpl; [done|]. simpl. by rewrite IHa. }
  rewrite Ha, IH. simpl. lia.
Qed.

Lemma compare_app (a b c d : string) :
  String.length a = String.length b ->
  String.compare (a ++ c) (b ++ d) = match String.compare a b with Eq => String.compare c d | x => x end.
Proof.
  revert b. induction a as [|x a IH]; intros [|y b] Hl; try done. string_simpl. simpl in *.
  destruct (Ascii.compare x y); [|done..]. apply IH. lia.
Qed.

Lemma digit_compare (a b : nat) :
  (a < 10)%nat -> (b < 10)%nat ->
  Ascii.compare (ascii_of_N (48 + N.of_nat a)) (ascii_of_N (48 + N.of_nat b)) = Nat.compare a b.
Proof.
  intros Ha Hb. unfold Ascii.compare. rewrite !N_ascii_embedding by lia.
  destruct (Nat.compare_spec a b); [apply N.compare_eq_iff|apply N.compare_lt_iff|apply N.compare_gt_iff]; lia.
Qed.

Lemma digits_compare k : forall i j,
  (i < 10 ^ k)%nat -> (j < 10 ^ k)%nat -> String.compare (digits k i) (digits k j) = Nat.compare i j.
Proof.
  induction k as [|k IH]; intros i j Hi Hj; [simpl in *; by replace i with j by lia; rewrite Nat.compare_refl|].
  cbn [digits]. rewrite compare_app by (by rewrite !length_digits).
  assert (i / 10 < 10 ^ k /\ j / 10 < 10 ^ k)%nat as [Hi' Hj'] by (split; apply Nat.Div0.div_lt_upper_bound; done).
  rewrite IH by done. pose proof (Nat.div_mod_eq i 10). pose proof (Nat.div_mod_eq j 10).
  pose proof (Nat.mod_upper_bound i 10 ltac:(done)). pose proof (Nat.mod_upper_bound j 10 ltac:(done)).
  destruct (Nat.compare_spec (i / 10) (j / 10)).
  - cbn [String.compare]. rewrite digit_compare by done.
    destruct (Nat.compare_spec (i mod 10) (j mod 10)), (Nat.compare_spec i j); (done || lia).
  - symmetry. apply Nat.compare_lt_iff. lia.
  - symmetry. apply Nat.compare_gt_iff. lia.
Qed.

Lemma digits_no_slash k : forall n, no_slash (digits k n) = true.
Proof.
  induction k as [|k IH]; intros n; [done|]. cbn [digits]. rewrite no_slash_app, IH. cbn [no_slash andb]. rewrite andb_true_r.
  apply bool_decide_eq_true. intros E. pose proof (Nat.mod_upper_bound n 10 ltac:(done)).
  assert (N_of_ascii (ascii_of_N (48 + N.of_nat (n mod 10))) = N_of_ascii slash) as E' by (by rewrite E).
  rewrite N_ascii_embedding in E' by lia. change (N_of_ascii slash) with 47%N in E'. lia.
Qed.

(** ZooKeeper formats a signed 32-bit counter as ten digits. *)
#[export, program] Instance ten_digits : Sequence := { suffix := digits 10; limit := 2 ^ 31 }.
Next Obligation.
  intros i j Hij Hj. unfold String.ltb.
  assert (Z.of_nat (10 ^ 10) = 10 ^ 10)%Z as Hp by (rewrite Nat2Z.inj_pow; reflexivity).
  rewrite digits_compare by lia. by rewrite (proj2 (Nat.compare_lt_iff i j)).
Qed.
Next Obligation. intros i. apply digits_no_slash. Qed.

(** ** Witnesses *)

(** Two clients: the first has the lock, the second waits for its node to go. *)
Definition two_clients_events : list event_w :=
  [Joins DNull [] [] []; Joins DNull [] [] []; Exec 0 0 Executed; Exec 1 0 Executed; Deliver 0 0 0; Deliver 1 0 0;
   Exec 0 0 Executed; Exec 1 0 Executed; Deliver 1 0 0; Deliver 0 0 0].

Abbreviation two_clients :=
  (run_w (fun _ => ""%string) (fun _ => Some DNull) (fun _ => double.zero) (fun _ => 0) "/f" two_clients_events).

Example two_clients_wait :
  match clients two_clients !! 1%nat with
  | Some c => results (lock c) = [] /\ outstanding (lock c) = [CExists "/f/lock0000000000" true; CGet "/f/lock0000000001" true]
  | None => False
  end.
Proof. vm_compute. done. Qed.

Lemma mutual_exclusion_witness : holds "/f" 0 two_clients /\ ~ holds "/f" 1 two_clients.
Proof.
  assert (holds "/f" 0 two_clients) as H0.
  { eexists _, 0%nat. split; [vm_compute; reflexivity|]. split; [left|]. split; [vm_compute; reflexivity|].
    apply (bool_decide_unpack _). vm_compute. exact I. }
  assert (Z.of_nat (length (owners two_clients)) <= limit) as Hl by (apply Z.leb_le; vm_compute; reflexivity).
  split; [exact H0|]. intros H1.
  discriminate (mutual_exclusion (fun _ => ""%string) (fun _ => Some DNull) (fun _ => double.zero) (fun _ => 0) "/f"
    two_clients_events 0 1 Hl H0 H1).
Defined.

Lemma lock_released_witness :
  let s := life (fun _ => ""%string) (fun _ => Some DNull) (fun _ => double.zero) (fun _ => 0)
             (lock_construct "/f" DNull) [] [] [] [Close; Reply 0 (RCreate ZOK "/f/lock0000000000")] in
  CDel "/f/lock0000000000" (-1) ∈ log s \/ (0 < reconnects s)%nat.
Proof.
  destruct (lock_released (fun _ => ""%string) (fun _ => Some DNull) (fun _ => double.zero) (fun _ => 0)
    "/f" DNull [] [] [] [Close; Reply 0 (RCreate ZOK "/f/lock0000000000")]) as [H|[H _]];
    [reflexivity|discriminate|left; exact H|right; exact H].
Defined.
