(* ===== verification/UnicornServer.v ===== *)
(** * The unicorn against a ZooKeeper server

    The actions of [UnicornActions.v] run against a server.  The server is other code:
    the class [Server] states its documented behaviour, and [Tree] is an instance.  The
    file shows that a creation ends and makes the missing parents, that a put is a
    compare-and-set, and that an increment loses no update of another client. *)

From S2P Require Import Prelude LogFilter Zookeeper UnicornActions.

Local Open Scope Z_scope.
Local Open Scope cpp_scope.

(** [owned]: the node is ephemeral, it belongs to a session. *)
Record node_t := mk_node { data : string; stat : stat_t; owned : bool }.

(** [ZNOCHILDRENFOREPHEMERALS] *)
Definition no_children : rc_t := ZOTHER (-108).

(** ** The server *)

Class Server (S : Type) := {
  node_at : S -> path_t -> option node_t;
  exec : command -> S -> reply_t * S;
  (** the states of a server *)
  valid : S -> Prop;
  exec_valid : forall c s, valid s -> valid (exec c s).2;
  exec_answers : forall c s, answers c (exec c s).1 = true;
  (** nodes have their parents, and ephemeral nodes have no children *)
  parent_exists : forall s p q, valid s -> is_Some (node_at s p) -> path_parent p 1 = Ret q -> q <> ""%string ->
    exists n, node_at s q = Some n /\ owned n = false;
  exec_get : forall s p w,
    exec (CGet p w) s = match node_at s p with
                        | Some n => (RGet ZOK (data n) (stat n), s)
                        | None => (RGet ZNONODE "" (mk_stat 0 0 0), s)
                        end;
  (** a put with a version is applied to that version only *)
  exec_put_missing : forall s p d v, node_at s p = None -> exists st, exec (CPut p d v) s = (RPut ZNONODE st, s);
  exec_put_other : forall s p d v n, node_at s p = Some n -> v <> version (stat n) -> 0 <= v ->
    exists st, exec (CPut p d v) s = (RPut ZBADVERSION st, s);
  exec_put : forall s p d v n, node_at s p = Some n -> v = version (stat n) -> 0 <= v ->
    exists st s', exec (CPut p d v) s = (RPut ZOK st, s') /\ version st = v + 1 /\
      node_at s' p = Some (mk_node d st (owned n));
  (** a node is created under an existing parent that is not ephemeral; the others stay *)
  exec_create_orphan : forall s p d e q, node_at s p = None -> path_parent p 1 = Ret q -> q <> ""%string ->
    node_at s q = None -> exists x, exec (CCreate p d e false) s = (RCreate ZNONODE x, s);
  exec_create_childless : forall s p d e q n, node_at s p = None -> path_parent p 1 = Ret q -> q <> ""%string ->
    node_at s q = Some n -> owned n = true -> exists x, exec (CCreate p d e false) s = (RCreate no_children x, s);
  exec_create : forall s p d e q, valid s -> node_at s p = None -> path_parent p 1 = Ret q ->
    q = ""%string \/ (exists n, node_at s q = Some n /\ owned n = false) ->
    exists x s', exec (CCreate p d e false) s = (RCreate ZOK x, s') /\
      (exists st, node_at s' p = Some (mk_node d st e) /\ version st = 0) /\
      forall p', p' <> p -> data <$> node_at s' p' = data <$> node_at s p';
  (** only a deletion removes a node; data changes with the version *)
  exec_keeps : forall c s p n, node_at s p = Some n -> (forall v, c <> CDel p v) ->
    exists n', node_at (exec c s).2 p = Some n' /\
      ((data n' = data n /\ version (stat n') = version (stat n)) \/ version (stat n) < version (stat n'));
  versions : forall s p n, valid s -> node_at s p = Some n -> 0 <= version (stat n)
}.

Section client.
Context {S : Type} `{!Server S}.
Context (serialize : value_t -> string) (unserialize : string -> option value_t)
  (to_double : value_t -> double.t) (to_int64 : value_t -> Z).

Abbreviation step := (step serialize unserialize to_double to_int64).
Abbreviation run_command := (run_command serialize).
Abbreviation add_values := (add_values to_double to_int64).

(** The action and the server, one command at a time, at most [n] of them *)
Fixpoint converse (n : nat) (s : act_t) (srv : S) : act_t * S :=
  match n, outstanding s with
  | Datatypes.S n, c :: _ => let '(r, srv) := exec c srv in converse n (step (Reply 0 r) s) srv
  | _, _ => (s, srv)
  end.

(** An action whose commands can all be sent and whose callback returns *)
Definition started (a : action_t) : act_t := (run_command a (start_state a [] [] [])).2.

(** ** Creation *)

Section create.
Context (cs : list string) (value : value_t) (ephemeral : bool).
Hypothesis Hcs : Forall (fun c => no_slash c = true) cs.
Hypothesis Hne : cs <> [].

Definition create_command (d : nat) : command :=
  match d with
  | O => CCreate (render cs) (serialize value) ephemeral false
  | _ => CCreate (render (take (length cs - d) cs)) "" false false
  end.

(** [create_t] at depth [d], waiting for the server *)
Definition waiting (d : nat) (s : act_t) : Prop :=
  act s = create_t (render cs) value ephemeral false d /\ closed s = false /\ outstanding s = [create_command d] /\
  results s = [] /\ fate s = [] /\ throws s = [].

Lemma take_starts k : (0 < k <= length cs)%nat -> starts_with_slash (render (take k cs)) = true.
Proof. intros Hk. destruct k; [lia|]. destruct cs; [done|]. by simpl. Qed.

Lemma issue_sent c s :
  fate s = [] -> starts_with_slash (command_path c) = true ->
  issue c s = (Ret tt, set_log (log s ++ [c]) (set_outstanding (outstanding s ++ [c]) (set_fate [] s))).
Proof.
  intros Hf Hp. unfold issue, next_fate, st_bind, st_gets, st_modify, st_ret. rewrite Hf. simpl. by rewrite Hp.
Qed.

(** A reply to the only command that waits *)
Lemma step_reply c r m s :
  outstanding s = [c] -> answers c r = true -> on_reply serialize unserialize to_double to_int64 (act s) r = Some m ->
  step (Reply 0 r) s = (st_catch m abort (set_outstanding [] s)).2.
Proof.
  intros Ho Hr Hm. unfold UnicornActions.step, handle. erewrite st_bind_Ret by reflexivity. cbv beta.
  rewrite Ho. simpl. rewrite Hr. erewrite st_bind_Ret by reflexivity. cbv beta. unfold deliver.
  erewrite st_bind_Ret by reflexivity. cbv beta. rewrite Ho. simpl. by rewrite Hm.
Qed.

Lemma create_issue d s :
  (d < length cs)%nat -> act s = create_t (render cs) value ephemeral false d -> closed s = false ->
  outstanding s = [] -> results s = [] -> fate s = [] -> throws s = [] ->
  exists s', issue (create_command d) s = (Ret tt, s') /\ waiting d s'.
Proof.
  intros Hd Ha Hc Ho Hr Hf Ht. eexists. split.
  - apply issue_sent; [done|]. destruct d; simpl; [|by apply take_starts; lia]. by destruct cs.
  - split_and!; try done. simpl. by rewrite Ho.
Qed.

Lemma waiting_up d x s :
  waiting d s -> (Datatypes.S d < length cs)%nat -> waiting (Datatypes.S d) (step (Reply 0 (RCreate ZNONODE x)) s).
Proof.
  intros (Ha & Hc & Ho & Hr & Hf & Ht) Hd. erewrite step_reply; [|done|by destruct d|by rewrite Ha].
  unfold st_catch, create_on_create. cbv zeta. erewrite st_bind_Ret by reflexivity. cbv beta.
  rewrite path_parent_render by (done || lia). erewrite st_bind_Ret by reflexivity. cbv beta.
  destruct (create_issue (Datatypes.S d) (set_act (create_t (render cs) value ephemeral false (Datatypes.S d))
    (set_outstanding [] s))) as (s' & E & Hw); try done. simpl in E. by rewrite E.
Qed.

Lemma waiting_down d x s :
  waiting (Datatypes.S d) s -> (Datatypes.S d < length cs)%nat -> waiting d (step (Reply 0 (RCreate ZOK x)) s).
Proof.
  intros (Ha & Hc & Ho & Hr & Hf & Ht) Hd. erewrite step_reply; [|done|done|by rewrite Ha].
  unfold st_catch, create_on_create. cbv zeta.
  destruct (create_issue d (set_act (create_t (render cs) value ephemeral false d) (set_outstanding [] s)))
    as (s' & E & Hw); try done; [lia|]. destruct d as [|d].
  - erewrite st_bind_Ret by reflexivity. cbv beta. simpl in E. by rewrite E.
  - erewrite st_bind_Ret by reflexivity. cbv beta. rewrite path_parent_render by (done || lia).
    erewrite st_bind_Ret by reflexivity. cbv beta. simpl in E. by rewrite E.
Qed.

Lemma waiting_done x s :
  waiting 0 s -> let s' := step (Reply 0 (RCreate ZOK x)) s in outstanding s' = [] /\ results s' = [Ret (Done true)].
Proof.
  intros (Ha & Hc & Ho & Hr & Hf & Ht). cbv zeta. erewrite step_reply; [|done|done|by rewrite Ha].
  unfold st_catch, create_on_create, satisfy, wrapped, st_bind, st_gets, st_when, st_modify. simpl.
  rewrite Hc. simpl. rewrite Ht. simpl. by rewrite Hr.
Qed.

Lemma waiting_refused d x s :
  waiting d s -> let s' := step (Reply 0 (RCreate no_children x)) s in
  outstanding s' = [] /\ results s' = [Throw backend_internal_error].
Proof.
  intros (Ha & Hc & Ho & Hr & Hf & Ht). cbv zeta. erewrite step_reply; [|done|by destruct d|by rewrite Ha].
  unfold st_catch, create_on_create, st_throw, abort. simpl.
  rewrite (st_bind_Ret _ _ (set_outstanding [] s) tt (set_outstanding [] s)) by (apply on_abort_one_shot; simpl; by rewrite Ha).
  unfold wrapped, st_bind, st_gets, st_when, st_modify. simpl. rewrite Hc. simpl. rewrite Ht. simpl. by rewrite Hr.
Qed.

(** The nodes on the way to the new one *)
Definition way (srv : S) (k : nat) : option node_t := node_at srv (render (take k cs)).

Lemma way_parent k : (k < length cs)%nat -> path_parent (render (take (Datatypes.S k) cs)) 1 = Ret (render (take k cs)).
Proof.
  intros Hk. rewrite path_parent_render.
  - f_equal. f_equal. rewrite length_take_le by lia. rewrite take_take. f_equal. lia.
  - by apply Forall_take.
  - destruct cs; [simpl in Hk; lia|done].
  - rewrite length_take_le by lia. lia.
Qed.

Lemma way_root k : (0 < k)%nat -> (k <= length cs)%nat -> render (take k cs) <> ""%string.
Proof. intros Hk Hl. destruct k; [lia|]. by destruct cs. Qed.

Lemma way_inj k j : (k <= length cs)%nat -> (j <= length cs)%nat -> render (take k cs) = render (take j cs) -> k = j.
Proof.
  intros Hk Hj E. assert (forall i, (i <= length cs)%nat -> slashes (render (take i cs)) = i) as Hs.
  { intros i Hi. rewrite slashes_render by (by apply Forall_take). by apply length_take_le. }
  rewrite <- (Hs k Hk), <- (Hs j Hj). by f_equal.
Qed.

Lemma command_at d : (d < length cs)%nat ->
  exists data e, create_command d = CCreate (render (take (length cs - d) cs)) data e false /\
    (d = 0%nat -> data = serialize value) /\ (d <> 0%nat -> e = false).
Proof.
  intros Hd. destruct d; simpl; [|by eexists _, _]. eexists _, _. split; [by rewrite Nat.sub_0_r, firstn_all|done].
Qed.

(** The way exists up to [k] and not further. *)
Definition way_to (k : nat) (srv : S) : Prop :=
  (forall j, (0 < j <= k)%nat -> is_Some (way srv j)) /\ (forall j, (k < j <= length cs)%nat -> way srv j = None).

(** The [k]-th node of the way takes no children. *)
Definition way_owned (srv : S) (k : nat) : bool :=
  match k with O => false | _ => match way srv k with Some n => owned n | None => false end end.

Definition keeps_data (srv srv' : S) : Prop :=
  forall p, is_Some (node_at srv p) -> data <$> node_at srv' p = data <$> node_at srv p.

Lemma keeps_data_trans a b c : keeps_data a b -> keeps_data b c -> keeps_data a c.
Proof.
  intros H1 H2 p Hp. rewrite H2; [by apply H1|]. rewrite <- (fmap_is_Some data), H1 by done. by apply fmap_is_Some.
Qed.

Lemma keeps_data_way a b k : keeps_data a b -> is_Some (way a k) -> is_Some (way b k).
Proof. intros H Hk. unfold way. rewrite <- (fmap_is_Some data), H by done. by apply fmap_is_Some. Qed.

(** The server creates a node whose parent exists. *)
Lemma create_turn d srv :
  (d < length cs)%nat -> valid srv -> way_to (length cs - Datatypes.S d) srv ->
  way_owned srv (length cs - Datatypes.S d) = false ->
  exists x srv1, exec (create_command d) srv = (RCreate ZOK x, srv1) /\ valid srv1 /\ keeps_data srv srv1 /\
    way_to (length cs - d) srv1 /\ (d <> 0%nat -> way_owned srv1 (length cs - d) = false) /\
    (d = 0%nat -> data <$> node_at srv1 (render cs) = Some (serialize value)).
Proof.
  intros Hd Hv [Hup Hnone] Hown. destruct (command_at d Hd) as (dt & e & -> & Edt & Ee).
  remember (length cs - Datatypes.S d)%nat as k eqn:Ek. replace (length cs - d)%nat with (Datatypes.S k) by lia.
  assert (way srv (Datatypes.S k) = None) as Hn by (apply Hnone; lia).
  destruct (exec_create srv (render (take (Datatypes.S k) cs)) dt e (render (take k cs)))
    as (x & srv1 & Ex & (st & Hnew & _) & Hold); [done|done|apply way_parent; lia| |].
  { destruct k as [|k]; [by left|right]. destruct (Hup (Datatypes.S k) ltac:(lia)) as [n Hn0].
    exists n. split; [exact Hn0|]. unfold way_owned in Hown. by rewrite Hn0 in Hown. }
  exists x, srv1. assert (keeps_data srv srv1) as Hk.
  { intros p Hp. apply Hold. intros ->. unfold way in Hn. rewrite Hn in Hp. by destruct Hp. }
  split_and!; [done| |done| | |].
  - replace srv1 with (exec (CCreate (render (take (Datatypes.S k) cs)) dt e false) srv).2 by (by rewrite Ex).
    by apply exec_valid.
  - split.
    + intros j Hj. destruct (decide (j = Datatypes.S k)) as [->|]; [by unfold way; rewrite Hnew|].
      apply (keeps_data_way srv); [done|]. apply Hup. lia.
    + intros j Hj. assert (data <$> way srv1 j = data <$> way srv j) as E.
      { apply Hold. intros E%way_inj; lia. }
      rewrite (Hnone j ltac:(lia)) in E. by destruct (way srv1 j).
  - intros Hd0. unfold way_owned, way. rewrite Hnew. simpl. by apply Ee.
  - intros ->. replace (Datatypes.S k) with (length cs) in Hnew by lia. rewrite firstn_all in Hnew. by rewrite Hnew, Edt.
Qed.

(** What a creation leaves *)
Definition created (srv srv' : S) (s' : act_t) : Prop :=
  outstanding s' = [] /\ results s' = [Ret (Done true)] /\ way_to (length cs) srv' /\
  data <$> node_at srv' (render cs) = Some (serialize value) /\ keeps_data srv srv'.
Definition refused (srv srv' : S) (s' : act_t) : Prop :=
  outstanding s' = [] /\ results s' = [Throw backend_internal_error] /\ srv' = srv.

(** A conversation with nothing under way is over. *)
Lemma converse_over n s srv : outstanding s = [] -> converse n s srv = (s, srv).
Proof. intros Ho. destruct n; cbn [converse]; by rewrite ?Ho. Qed.

(** Down: the parent of what is to be created exists. *)
Lemma create_down : forall d s srv n,
  waiting d s -> (d < length cs)%nat -> valid srv -> way_to (length cs - Datatypes.S d) srv ->
  way_owned srv (length cs - Datatypes.S d) = false -> (d < n)%nat ->
  created srv (converse n s srv).2 (converse n s srv).1.
Proof.
  induction d as [|d IH]; intros s srv [|n] Hw Hd Hv Hway Hown Hn; [lia| |lia|];
    pose proof Hw as (_ & _ & Ho & _); cbn [converse]; rewrite Ho;
    destruct (create_turn _ srv Hd Hv Hway Hown) as (x & srv1 & -> & Hv1 & Hk & Hway1 & Hown1 & Hdata).
  - destruct (waiting_done x s Hw) as [H1 H2].
    rewrite converse_over by done.
    split_and!; try done; [|by apply Hdata]. by rewrite Nat.sub_0_r in Hway1.
  - destruct (IH (step (Reply 0 (RCreate ZOK x)) s) srv1 n) as (H1 & H2 & H3 & H4 & H5);
      [by apply waiting_down|lia|done|done|by apply Hown1|lia|].
    split_and!; try done. by eapply keeps_data_trans.
Qed.

(** The last node of the way that exists takes no children. *)
Lemma create_refused d s srv n :
  waiting d s -> (d < length cs)%nat -> way_to (length cs - Datatypes.S d) srv ->
  way_owned srv (length cs - Datatypes.S d) = true -> (0 < n)%nat ->
  refused srv (converse n s srv).2 (converse n s srv).1.
Proof.
  intros Hw Hd Hway Hown Hn. destruct n as [|n]; [lia|]. pose proof Hw as (_ & _ & Ho & _). cbn [converse]. rewrite Ho.
  destruct (command_at d Hd) as (dt & e & -> & _). remember (length cs - Datatypes.S d)%nat as k eqn:Ek.
  replace (length cs - d)%nat with (Datatypes.S k) by lia. unfold way_owned in Hown. destruct k as [|k]; [done|].
  destruct (way srv (Datatypes.S k)) as [nd|] eqn:En; [|done].
  destruct (exec_create_childless srv (render (take (Datatypes.S (Datatypes.S k)) cs)) dt e (render (take (Datatypes.S k) cs)) nd)
    as [x ->]; try done; [apply Hway; lia|apply way_parent; lia|apply way_root; lia|].
  destruct (waiting_refused d x s Hw) as [H1 H2]. by rewrite converse_over.
Qed.

(** Up: parents are missing; [k] is how much of the way exists. *)
Lemma create_up k : forall m d s srv n,
  waiting d s -> (d < length cs)%nat -> valid srv -> way_to k srv -> (k + m = length cs - Datatypes.S d)%nat ->
  (m + d + m < n)%nat ->
  (if way_owned srv k then refused else created) srv (converse n s srv).2 (converse n s srv).1.
Proof.
  induction m as [|m IH]; intros d s srv n Hw Hd Hv Hway Hm Hn.
  { rewrite Nat.add_0_r in Hm. subst k. destruct (way_owned srv _) eqn:Eo;
      [apply (create_refused d)|apply (create_down d)]; (done || lia). }
  destruct n as [|n]; [lia|]. pose proof Hw as (_ & _ & Ho & _). cbn [converse]. rewrite Ho.
  destruct (command_at d Hd) as (dt & e & -> & _). remember (length cs - Datatypes.S d)%nat as j eqn:Ej.
  replace (length cs - d)%nat with (Datatypes.S j) by lia.
  destruct (exec_create_orphan srv (render (take (Datatypes.S j) cs)) dt e (render (take j cs))) as [x ->].
  - apply Hway. lia.
  - apply way_parent. lia.
  - apply way_root; lia.
  - apply Hway. lia.
  - apply (IH (Datatypes.S d)); try done; [apply waiting_up; [done|lia]|lia|lia|lia].
Qed.
End create.

(** Before a node of the way, every node exists and is not ephemeral. *)
Lemma way_parents cs srv k :
  Forall (fun c => no_slash c = true) cs -> valid srv -> (0 < k < length cs)%nat ->
  is_Some (way cs srv (Datatypes.S k)) -> is_Some (way cs srv k) /\ way_owned cs srv k = false.
Proof.
  intros Hcs Hv Hk Hs. assert (cs <> []) as Hne by (intros ->; simpl in Hk; lia).
  destruct (parent_exists srv (render (take (Datatypes.S k) cs)) (render (take k cs))) as (n & Hn & Ho);
    [done|done|apply way_parent; (done || lia)|apply way_root; (done || lia)|].
  unfold way_owned, way. destruct k; [lia|]. rewrite Hn. by split.
Qed.

(** The part of the way that exists *)
Lemma way_exists cs srv :
  Forall (fun c => no_slash c = true) cs -> cs <> [] -> valid srv -> node_at srv (render cs) = None ->
  exists k, (k < length cs)%nat /\ way_to cs k srv.
Proof.
  intros Hcs Hne Hv Hn.
  assert (forall m, (m < length cs)%nat -> (forall j, (m < j <= length cs)%nat -> way cs srv j = None) ->
            exists k, (k < length cs)%nat /\ way_to cs k srv) as H.
  { induction m as [|m IH]; intros Hm Hnone; [exists 0%nat; split; [done|]; split; [intros; lia|done]|].
    destruct (way cs srv (Datatypes.S m)) as [x|] eqn:E.
    - exists (Datatypes.S m). split; [done|]. split; [|done].
      assert (forall i, (i <= m)%nat -> is_Some (way cs srv (Datatypes.S m - i))) as Hdown.
      { induction i as [|i IHi]; intros Hi; [by rewrite Nat.sub_0_r, E|].
        apply (way_parents cs srv); (done || (replace (Datatypes.S (Datatypes.S m - Datatypes.S i)) with (Datatypes.S m - i)%nat by lia;
          apply IHi; lia) || lia). }
      intros j Hj. replace j with (Datatypes.S m - (Datatypes.S m - j))%nat by lia. apply Hdown. lia.
    - apply IH; [lia|]. intros j Hj. destruct (decide (j = Datatypes.S m)) as [->|]; [done|]. apply Hnone. lia. }
  apply (H (length cs - 1)%nat); [destruct cs; [done|simpl; lia]|].
  intros j Hj. replace j with (length cs) by lia. unfold way. by rewrite firstn_all.
Qed.


(** ** Put *)

Lemma started_put p value v :
  0 <= v -> starts_with_slash p = true ->
  exists s, started (put_t p value v) = s /\ act s = put_t p value v /\ closed s = false /\
    outstanding s = [CPut p (serialize value) v] /\ results s = [] /\ fate s = [] /\ throws s = [].
Proof.
  intros Hv Hp. eexists. split; [reflexivity|]. unfold started, UnicornActions.run_command, st_catch. simpl. unfold put_run.
  rewrite (proj2 (Z.ltb_ge v 0)) by done. by rewrite issue_sent.
Qed.

(** A handler that gives its result *)
Lemma reply_satisfied c r res s :
  outstanding s = [c] -> answers c r = true -> closed s = false -> throws s = [] ->
  on_reply serialize unserialize to_double to_int64 (act s) r = Some (satisfy res) ->
  outstanding (step (Reply 0 r) s) = [] /\ results (step (Reply 0 r) s) = results s ++ [Ret res].
Proof.
  intros Ho Hr Hc Ht Hm. erewrite step_reply by done.
  unfold st_catch, satisfy, wrapped, st_bind, st_gets, st_when, st_modify. simpl. rewrite Hc. simpl. by rewrite Ht.
Qed.

(** A handler that throws, in an action that is not a lock *)
Lemma reply_thrown c r e s :
  outstanding s = [c] -> answers c r = true -> closed s = false -> throws s = [] -> one_shot (act s) = true ->
  on_reply serialize unserialize to_double to_int64 (act s) r = Some (st_throw e) ->
  outstanding (step (Reply 0 r) s) = [] /\ results (step (Reply 0 r) s) = results s ++ [Throw e].
Proof.
  intros Ho Hr Hc Ht Ha Hm. erewrite step_reply by done. unfold st_catch, st_throw, abort.
  rewrite (st_bind_Ret _ _ (set_outstanding [] s) tt (set_outstanding [] s)) by (by apply on_abort_one_shot).
  unfold wrapped, st_bind, st_gets, st_when, st_modify. simpl. rewrite Hc. simpl. by rewrite Ht.
Qed.

(** A handler that sends the next command *)
Lemma reply_sent c r m s :
  outstanding s = [c] -> answers c r = true -> fate s = [] -> starts_with_slash (command_path m) = true ->
  on_reply serialize unserialize to_double to_int64 (act s) r = Some (issue m) ->
  let s' := step (Reply 0 r) s in
  act s' = act s /\ closed s' = closed s /\ outstanding s' = [m] /\ results s' = results s /\ fate s' = [] /\
  throws s' = throws s.
Proof. intros Ho Hr Hf Hp Hm. cbv zeta. erewrite step_reply by done. unfold st_catch. by rewrite issue_sent. Qed.

(** A put is a compare-and-set.  With the version of the node, the node gets the
    value and the next version, and the caller is told so; with another version nothing
    is written and the caller gets the value and the version that are there; without a
    node the caller gets an error. *)
Theorem put_compare_and_set (p : path_t) (value : value_t) (v : version_t) (srv : S) :
  0 <= v -> starts_with_slash p = true ->
  let '(s', srv') := converse 2 (started (put_t p value v)) srv in
  outstanding s' = [] /\
  match node_at srv p with
  | None => srv' = srv /\ results s' = [Throw no_node]
  | Some n =>
      if v =? version (stat n) then
        results s' = [Ret (PutResult true value (v + 1))] /\
        exists st, node_at srv' p = Some (mk_node (serialize value) st (owned n)) /\ version st = v + 1
      else
        srv' = srv /\
        results s' = [match unserialize (data n) with
                      | Some cur => Ret (PutResult false cur (version (stat n)))
                      | None => Throw invalid_value
                      end]
  end.
Proof.
  intros Hv Hp. destruct (started_put p value v Hv Hp) as (s & -> & Ha & Hc & Ho & Hr & Hf & Ht).
  cbn [converse]. rewrite Ho. destruct (node_at srv p) as [n|] eqn:En.
  2:{ destruct (exec_put_missing srv p (serialize value) v En) as [st ->].
      destruct (reply_thrown _ (RPut ZNONODE st) no_node s Ho) as [H1 H2]; try done; [by rewrite Ha..|].
      rewrite H1. by rewrite H1, H2, Hr. }
  destruct (v =? version (stat n)) eqn:Ev.
  - apply Z.eqb_eq in Ev. destruct (exec_put srv p (serialize value) v n En Ev Hv) as (st & srv' & -> & Hst & Hn').
    destruct (reply_satisfied _ (RPut ZOK st) (PutResult true value (version st)) s Ho) as [H1 H2]; try done; [by rewrite Ha|].
    rewrite H1. rewrite H1, H2, Hr, Hst. split_and!; try done. by exists st.
  - apply Z.eqb_neq in Ev. destruct (exec_put_other srv p (serialize value) v n En Ev Hv) as [st ->].
    destruct (reply_sent _ (RPut ZBADVERSION st) (CGet p false) s Ho) as (Ha1 & Hc1 & Ho1 & Hr1 & _ & Ht1); try done; [by rewrite Ha|].
    set (s1 := step _ s) in *. rewrite Ho1, exec_get, En. destruct (unserialize (data n)) as [cur|] eqn:Eu.
    + destruct (reply_satisfied _ (RGet ZOK (data n) (stat n)) (PutResult false cur (version (stat n))) s1 Ho1)
        as [H1 H2]; [done|congruence|congruence| |by rewrite H1, H2, Hr1, Hr].
      rewrite Ha1, Ha. simpl. unfold put_on_get, parse. by rewrite Eu.
    + destruct (reply_thrown _ (RGet ZOK (data n) (stat n)) invalid_value s1 Ho1)
        as [H1 H2]; [done|congruence|congruence|by rewrite Ha1, Ha| |by rewrite H1, H2, Hr1, Hr].
      rewrite Ha1, Ha. simpl. unfold put_on_get, parse. by rewrite Eu.
Qed.

(** ** Increment *)

Definition exec_all (l : list command) (srv : S) : S := foldl (fun srv c => (exec c srv).2) srv l.

Lemma exec_all_keeps p l : forall srv n,
  node_at srv p = Some n -> Forall (fun c => forall v, c <> CDel p v) l ->
  exists n', node_at (exec_all l srv) p = Some n' /\
    ((data n' = data n /\ version (stat n') = version (stat n)) \/ version (stat n) < version (stat n')).
Proof.
  induction l as [|c l IH]; intros srv n Hn Hl; [by exists n; auto|]. inversion_clear Hl as [|? ? Hc Hl'].
  destruct (exec_keeps c srv p n Hn Hc) as (n1 & Hn1 & H1). destruct (IH (exec c srv).2 n1 Hn1 Hl') as (n2 & Hn2 & H2).
  exists n2. split; [done|]. destruct H1 as [[? ?]|?], H2 as [[? ?]|?]; [left; split; congruence|right; lia..].
Qed.

Lemma exec_all_valid l srv : valid srv -> valid (exec_all l srv).
Proof. revert srv. induction l as [|c l IH]; intros srv Hv; [done|]. by apply IH, exec_valid. Qed.

(** C25: an increment loses no update.  Whatever other clients do between its get and its
    put, short of deleting the node, either the increment writes the sum of its amount
    and of the value the node has at that moment, and answers with it, or it writes
    nothing and answers that the version is not allowed. *)
Theorem increment_atomic (p : path_t) (delta old : value_t) (srv : S) (n : node_t) (others : list command) :
  starts_with_slash p = true -> valid srv -> is_number delta = true -> node_at srv p = Some n ->
  unserialize (data n) = Some old -> is_number old = true -> numChildren (stat n) = 0 ->
  Forall (fun c => forall v, c <> CDel p v) others ->
  let s1 := step (Reply 0 (exec (CGet p false) srv).1) (started (increment_t p delta)) in
  let srv1 := exec_all others srv in
  let '(s', srv') := converse 1 s1 srv1 in
  outstanding s' = [] /\ exists n1, node_at srv1 p = Some n1 /\
  ((data n1 = data n /\ results s' = [Ret (Versioned (add_values old delta) (version (stat n1) + 1))] /\
    data <$> node_at srv' p = Some (serialize (add_values old delta))) \/
   (srv' = srv1 /\ results s' = [Throw version_not_allowed])).
Proof.
  intros Hp Hv Hd Hn Hu Ho Hch Hl s1 srv1. destruct (exec_all_keeps p others srv n Hn Hl) as (n1 & Hn1 & Hver).
  set (sum := add_values old delta).
  assert (act s1 = increment_t p sum /\ closed s1 = false /\ outstanding s1 = [CPut p (serialize sum) (version (stat n))] /\
          results s1 = [] /\ throws s1 = []) as (Ha1 & Hc1 & Ho1 & Hr1 & Ht1).
  { subst s1. rewrite exec_get, Hn. cbn [fst]. unfold started, UnicornActions.run_command, st_catch. simpl. unfold increment_run.
    rewrite Hd. simpl. rewrite issue_sent by done. simpl. erewrite step_reply; [|reflexivity|done|reflexivity].
    unfold st_catch, increment_on_get, parse. rewrite Hu. erewrite st_bind_Ret by reflexivity. cbv beta.
    rewrite Hch, Ho. cbn [negb Z.eqb]. erewrite st_bind_Ret by reflexivity. cbv beta. by rewrite issue_sent. }
  cbn [converse]. rewrite Ho1. assert (0 <= version (stat n)) as Hv0 by (by eapply versions).
  destruct (decide (version (stat n) = version (stat n1))) as [Ev|Ev].
  - destruct (exec_put srv1 p (serialize sum) _ n1 Hn1 Ev Hv0) as (st & srv' & -> & Hst & Hn').
    destruct (reply_satisfied _ (RPut ZOK st) (Versioned sum (version st)) s1 Ho1) as [H1 H2]; [done|done|done|by rewrite Ha1|].
    split; [done|]. exists n1. split; [done|]. left. rewrite H2, Hr1, Hst, Hn', Ev. destruct Hver as [[? _]|?]; [done|lia].
  - destruct (exec_put_other srv1 p (serialize sum) _ n1 Hn1 Ev Hv0) as [st ->].
    destruct (reply_thrown _ (RPut ZBADVERSION st) version_not_allowed s1 Ho1) as [H1 H2]; [done|done|done|by rewrite Ha1..|].
    split; [done|]. exists n1. split; [done|]. right. by rewrite H2, Hr1.
Qed.
End client.

(** ** A server: the tree as a map of its nodes *)

#[export] Instance outcome_eq_dec {A B} `{EqDecision A, EqDecision B} : EqDecision (outcome A B).
Proof. solve_decision. Defined.

Module Tree.
Abbreviation tree := (gmap string node_t).

Definition bump (n : node_t) : node_t :=
  mk_node (data n) (mk_stat (version (stat n)) (cversion (stat n) + 1) (numChildren (stat n) + 1)) (owned n).
Definition unbump (n : node_t) : node_t :=
  mk_node (data n) (mk_stat (version (stat n)) (cversion (stat n) + 1) (numChildren (stat n) - 1)) (owned n).

Definition children (p : path_t) (t : tree) : list string :=
  omap (fun q => if decide (path_parent q 1 = Ret p) then match get_node_name q with Ret n => Some n | _ => None end else None)
    (map_to_list t).*1.

Definition put (p : path_t) (d : string) (v : version_t) (t : tree) : reply_t * tree :=
  match t !! p with
  | None => (RPut ZNONODE (mk_stat 0 0 0), t)
  | Some n =>
      if (v =? -1) || (v =? version (stat n)) then
        let st := mk_stat (version (stat n) + 1) (cversion (stat n)) (numChildren (stat n)) in
        (RPut ZOK st, <[p := mk_node d st (owned n)]> t)
      else (RPut ZBADVERSION (mk_stat 0 0 0), t)
  end.

Definition create (p : path_t) (d : string) (e : bool) (t : tree) : reply_t * tree :=
  match t !! p with
  | Some _ => (RCreate ZNODEEXISTS "", t)
  | None =>
      match path_parent p 1 with
      | Throw _ => (RCreate (ZOTHER (-8)) "", t)
      | Ret q =>
          if decide (q = ""%string) then (RCreate ZOK p, <[p := mk_node d (mk_stat 0 0 0) e]> t)
          else match t !! q with
               | None => (RCreate ZNONODE "", t)
               | Some n =>
                   if owned n then (RCreate no_children "", t)
                   else (RCreate ZOK p, <[p := mk_node d (mk_stat 0 0 0) e]> (alter bump q t))
               end
      end
  end.

Definition del (p : path_t) (v : version_t) (t : tree) : reply_t * tree :=
  match t !! p with
  | None => (RDel ZNONODE, t)
  | Some n =>
      if negb ((v =? -1) || (v =? version (stat n))) then (RDel ZBADVERSION, t)
      else if decide (map_Forall (fun q _ => path_parent q 1 <> Ret p) t) then
        (RDel ZOK, match path_parent p 1 with Ret q => delete p (alter unbump q t) | Throw _ => delete p t end)
      else (RDel (ZOTHER (-111)), t)
  end.

Definition execute (c : command) (t : tree) : reply_t * tree :=
  match c with
  | CGet p _ =>
      match t !! p with
      | Some n => (RGet ZOK (data n) (stat n), t)
      | None => (RGet ZNONODE "" (mk_stat 0 0 0), t)
      end
  | CExists p _ =>
      match t !! p with
      | Some n => (RExists ZOK (stat n), t)
      | None => (RExists ZNONODE (mk_stat 0 0 0), t)
      end
  | CChilds p _ =>
      match t !! p with
      | Some n => (RChildren ZOK (children p t) (stat n), t)
      | None => (RChildren ZNONODE [] (mk_stat 0 0 0), t)
      end
  | CPut p d v => put p d v t
  | CCreate p d e sequence => if sequence then (RCreate (ZOTHER (-6)) "", t) else create p d e t
  | CDel p v => del p v t
  end.

Definition takes_children (t : tree) (q : path_t) : Prop := exists n, t !! q = Some n /\ owned n = false.
Definition sound (t : tree) : Prop :=
  (forall p q, is_Some (t !! p) -> path_parent p 1 = Ret q -> q <> ""%string -> takes_children t q) /\
  map_Forall (fun _ n => 0 <= version (stat n)) t.

Implicit Types (t : tree) (p q : path_t).

(** Changing the counters of a node *)
Lemma alter_Some (f : node_t -> node_t) q t p : is_Some (alter f q t !! p) <-> is_Some (t !! p).
Proof. destruct (decide (q = p)) as [->|]; [rewrite lookup_alter_eq; apply fmap_is_Some|by rewrite lookup_alter_ne]. Qed.

Lemma alter_keeps (f : node_t -> node_t) q t p n :
  (forall n, data (f n) = data n /\ version (stat (f n)) = version (stat n)) -> t !! p = Some n ->
  exists n', alter f q t !! p = Some n' /\ data n' = data n /\ version (stat n') = version (stat n).
Proof.
  intros Hf Hn. destruct (decide (q = p)) as [->|]; [rewrite lookup_alter_eq, Hn|rewrite lookup_alter_ne by done].
  - exists (f n). by split; [|apply Hf].
  - by exists n.
Qed.

Lemma alter_takes (f : node_t -> node_t) q t p :
  (forall n, owned (f n) = owned n) -> takes_children t p -> takes_children (alter f q t) p.
Proof.
  intros Hf (n & Hn & Ho). unfold takes_children.
  destruct (decide (q = p)) as [->|]; [rewrite lookup_alter_eq, Hn|rewrite lookup_alter_ne by done; by exists n].
  exists (f n). split; [done|]. by rewrite Hf.
Qed.

Lemma alter_sound (f : node_t -> node_t) q t :
  (forall n, data (f n) = data n /\ version (stat (f n)) = version (stat n)) -> (forall n, owned (f n) = owned n) ->
  sound t -> sound (alter f q t).
Proof.
  intros Hf Hw [H1 H2]. split.
  - intros p r Hs Hr Hne. apply alter_Some in Hs. apply alter_takes; [done|]. by apply (H1 p).
  - intros p n Hp. destruct (t !! p) as [n0|] eqn:E.
    + destruct (alter_keeps f q t p n0 Hf E) as (n' & Hn' & _ & Hv). rewrite Hp in Hn'. injection Hn' as <-.
      rewrite Hv. by apply (H2 p).
    + assert (is_Some (t !! p)) as [? ?] by (rewrite <- (alter_Some f q); by eexists). congruence.
Qed.

Lemma insert_sound p n t :
  0 <= version (stat n) -> (forall q, path_parent p 1 = Ret q -> q <> ""%string -> takes_children t q) ->
  (takes_children t p -> owned n = false) -> sound t -> sound (<[p := n]> t).
Proof.
  intros Hn Hp Ho [H1 H2]. split.
  - intros r q. rewrite lookup_insert_is_Some. intros Hr Hq Hne.
    assert (takes_children t q) as Ht by (destruct Hr as [<-|[_ Hr]]; [by apply Hp|by apply (H1 r)]).
    destruct (decide (q = p)) as [->|]; [exists n; rewrite lookup_insert_eq; auto|].
    destruct Ht as (m & Hm & Hmo). exists m. by rewrite lookup_insert_ne.
  - by apply map_Forall_insert_2.
Qed.

Lemma bump_keeps n : data (bump n) = data n /\ version (stat (bump n)) = version (stat n).
Proof. done. Qed.
Lemma unbump_keeps n : data (unbump n) = data n /\ version (stat (unbump n)) = version (stat n).
Proof. done. Qed.

(** A creation, case by case *)
Lemma create_cases p d e t :
  (create p d e t).2 = t \/
  (t !! p = None /\ exists q, path_parent p 1 = Ret q /\
    ((q = ""%string /\ create p d e t = (RCreate ZOK p, <[p := mk_node d (mk_stat 0 0 0) e]> t)) \/
     (takes_children t q /\ create p d e t = (RCreate ZOK p, <[p := mk_node d (mk_stat 0 0 0) e]> (alter bump q t))))).
Proof.
  unfold create. destruct (t !! p) eqn:Ep; [by left|]. destruct (path_parent p 1) as [q|]; [|by left].
  case_decide; [right; split; [done|]; exists q; auto|]. destruct (t !! q) as [n|] eqn:Eq; [|by left].
  destruct (owned n) eqn:Eo; [by left|]. right. split; [done|]. exists q. split; [done|]. right. split; [by exists n|done].
Qed.

Lemma execute_sound c t : sound t -> sound (execute c t).2.
Proof.
  intros Ht. pose proof Ht as [H1 H2]. destruct c as [p d v|p w|p d e q|p v|p w|p w]; simpl; try by destruct (t !! p).
  - unfold put. destruct (t !! p) as [n|] eqn:E; [|done]. destruct (_ || _); [|done]. apply insert_sound; [simpl| | |done].
    + specialize (H2 p n E). simpl in H2. lia.
    + intros q Hq Hne. by apply (H1 p).
    + intros (m & Hm & Ho). simpl. congruence.
  - destruct q; [done|]. destruct (create_cases p d e t) as [->|(Hn & q & Hq & Hcase)]; [done|].
    destruct Hcase as [[Hroot ->]|[Htc ->]]; simpl; apply insert_sound; try done.
    + intros r Hr Hne. congruence.
    + intros (m & Hm & _). congruence.
    + intros r Hr Hne. assert (r = q) as -> by congruence. by apply alter_takes.
    + intros (m & Hm & _). assert (is_Some (t !! p)) as [? ?] by (rewrite <- (alter_Some bump q); by eexists). congruence.
    + by apply alter_sound.
  - unfold del. destruct (t !! p) as [n|] eqn:E; [|done]. destruct (negb _); [done|]. case_decide as Hd; [|done].
    assert (forall t', sound t' -> (forall q, is_Some (t' !! q) <-> is_Some (t !! q)) -> sound (delete p t')) as Hdel.
    { intros t' [H3 H4] Hs. split; [|by apply map_Forall_delete]. intros q r [Hq Hne]%lookup_delete_is_Some Hr Hn.
      destruct (H3 q r Hne Hr Hn) as (m & Hm & Ho). exists m. split; [|done]. rewrite lookup_delete_ne; [done|].
      intros <-. apply Hs in Hne as [x Hx]. by apply (Hd q x Hx). }
    simpl. destruct (path_parent p 1); [|by apply Hdel]. apply Hdel; [by apply alter_sound|]. intros. apply alter_Some.
Qed.

Lemma execute_keeps c t p n :
  t !! p = Some n -> (forall v, c <> CDel p v) ->
  exists n', (execute c t).2 !! p = Some n' /\
    ((data n' = data n /\ version (stat n') = version (stat n)) \/ version (stat n) < version (stat n')).
Proof.
  intros Hn Hc. assert (exists n', t !! p = Some n' /\
    ((data n' = data n /\ version (stat n') = version (stat n)) \/ version (stat n) < version (stat n'))) as Hsame by eauto 6.
  destruct c as [q d v|q w|q d e b|q v|q w|q w]; simpl; try by destruct (t !! q).
  - unfold put. destruct (t !! q) as [m|] eqn:E; [|done]. destruct (_ || _); [|done]. simpl.
    destruct (decide (q = p)) as [->|]; [|by rewrite lookup_insert_ne]. rewrite lookup_insert_eq. eexists. split; [done|].
    right. simpl. rewrite Hn in E. injection E as <-. lia.
  - destruct b; [done|]. destruct (create_cases q d e t) as [->|(Hq & r & _ & [[-> ->]|[_ ->]])]; [done|simpl..];
      rewrite lookup_insert_ne by congruence; [done|].
    destruct (alter_keeps bump r t p n bump_keeps Hn) as (n' & ? & ? & ?). eauto 6.
  - unfold del. destruct (t !! q) eqn:E; [|done]. destruct (negb _); [done|]. case_decide; [|done]. simpl.
    assert (q <> p) as Hne by (intros ->; by apply (Hc v)). destruct (path_parent q 1) as [r|]; rewrite lookup_delete_ne by done; [|done].
    destruct (alter_keeps unbump r t p n unbump_keeps Hn) as (n' & ? & ? & ?). eauto 6.
Qed.

#[global, program] Instance tree_server : Server tree :=
  { node_at t p := t !! p; exec := execute; valid := sound }.
Next Obligation. intros. by apply execute_sound. Qed.
Next Obligation.
  intros [p d v|p w|p d e q|p v|p w|p w] t; simpl; unfold put, create, del; repeat case_match; done.
Qed.
Next Obligation. intros t p q [H1 _]. apply H1. Qed.
Next Obligation. done. Qed.
Next Obligation. intros t p d v Hn. simpl. unfold put. rewrite Hn. by eexists. Qed.
Next Obligation.
  intros t p d v n Hn Hv H0. simpl. unfold put. rewrite Hn. rewrite (proj2 (Z.eqb_neq _ _) Hv), (proj2 (Z.eqb_neq _ _)) by lia.
  by eexists.
Qed.
Next Obligation.
  intros t p d v n Hn -> H0. simpl. unfold put. rewrite Hn, Z.eqb_refl, orb_true_r. eexists _, _. split; [done|].
  split; [done|]. by rewrite lookup_insert_eq.
Qed.
Next Obligation.
  intros t p d e q Hn Hq Hne Ho. simpl. unfold create. rewrite Hn, Hq, decide_False, Ho by done. by eexists.
Qed.
Next Obligation.
  intros t p d e q n Hn Hq Hne Ho Hw. simpl. unfold create. rewrite Hn, Hq, decide_False, Ho, Hw by done. by eexists.
Qed.
Next Obligation.
  intros t p d e q Hv Hn Hq Ho. simpl. unfold create. rewrite Hn, Hq. case_decide as Hr.
  { eexists _, _. split; [done|]. split; [rewrite lookup_insert_eq; by eexists|]. intros p' Hne. by rewrite lookup_insert_ne. }
  destruct Ho as [?|(n & Ho & Hw)]; [done|]. rewrite Ho, Hw. eexists _, _. split; [done|].
  split; [rewrite lookup_insert_eq; by eexists|]. intros p' Hne. rewrite lookup_insert_ne by done.
  destruct (decide (q = p')) as [->|]; [|by rewrite lookup_alter_ne]. rewrite lookup_alter_eq. by destruct (t !! p').
Qed.
Next Obligation. intros. by apply execute_keeps. Qed.
Next Obligation. intros t p n [_ H2] Hn. by apply (H2 p). Qed.
End Tree.

(** ** Witnesses *)

(** Values as one character, enough to run the actions *)
Definition pack (v : value_t) : string := match v with DInt 1 => "1" | DInt 2 => "2" | DInt 5 => "5" | DInt 6 => "6" | _ => "" end.
Definition unpack (s : string) : option value_t :=
  if decide (s = "1")%string then Some (DInt 1) else if decide (s = "5")%string then Some (DInt 5) else None.
Definition int_of (v : value_t) : Z := match v with DInt z => z | _ => 0 end.
Definition no_double (v : value_t) : double.t := double.zero.

Lemma empty_sound : Tree.sound ∅.
Proof. split; [|apply map_Forall_empty]. intros p q [x Hx]. by rewrite lookup_empty in Hx. Qed.

Definition one_node (s : string) : Tree.tree := {[ "/a"%string := mk_node s (mk_stat 3 0 0) false ]}.

Lemma one_node_sound s : Tree.sound (one_node s).
Proof. apply Tree.insert_sound; [done| |done|apply empty_sound]. intros q [= <-]. done. Qed.


(** Under an ephemeral node nothing is created. *)
Example create_under_ephemeral :
  let srv : Tree.tree := {[ "/a"%string := mk_node "1" (mk_stat 0 0 0) true ]} in
  let r := converse pack unpack no_double int_of 6 (started pack (create_t "/a/b/c" (DInt 1) false false 0)) srv in
  results r.1 = [Throw backend_internal_error] /\ r.2 = srv.
Proof. split; vm_compute; reflexivity. Qed.

Lemma put_compare_and_set_witness :
  let r := converse pack unpack no_double int_of 2 (started pack (put_t "/a" (DInt 2) 7)) (one_node "1") in
  r.2 = one_node "1" /\ results r.1 = [Ret (PutResult false (DInt 1) 3)].
Proof.
  pose proof (put_compare_and_set pack unpack no_double int_of "/a" (DInt 2) 7 (one_node "1") ltac:(lia) eq_refl) as H.
  intros r. subst r. destruct (converse _ _ _ _ 2 _ _) as [s' srv']. exact (proj2 H).
Defined.

Lemma increment_atomic_witness :
  let s1 := step pack unpack no_double int_of (Reply 0 (RGet ZOK "1" (mk_stat 3 0 0)))
              (started pack (increment_t "/a" (DInt 1))) in
  let srv1 := exec_all [CPut "/a" "5" 3] (one_node "1") in
  let r := converse pack unpack no_double int_of 1 s1 srv1 in
  (data <$> srv1 !! "/a"%string = Some "1"%string \/ r.2 = srv1) /\ results r.1 = [Throw version_not_allowed].
Proof.
  pose proof (increment_atomic pack unpack no_double int_of "/a" (DInt 1) (DInt 1) (one_node "1")
    (mk_node "1" (mk_stat 3 0 0) false) [CPut "/a" "5" 3] eq_refl (one_node_sound "1") eq_refl eq_refl eq_refl eq_refl eq_refl
    ltac:(repeat constructor; discriminate)) as H.
  split; [|vm_compute; reflexivity]. revert H. change (exec (CGet "/a" false) (one_node "1")).1 with (RGet ZOK "1" (mk_stat 3 0 0)).
  cbv zeta. destruct (converse _ _ _ _ 1 _ _) as [s' srv']. intros (_ & n1 & Hn1 & [(Hd & _)|[Hs _]]).
  - left. change (data <$> node_at (exec_all [CPut "/a" "5" 3] (one_node "1")) "/a" = Some "1"%string). rewrite Hn1. simpl. by f_equal.
  - right. exact Hs.
Defined.

(** The deletion matters: a node that is deleted and created again has the version of the
    old one, and the increment overwrites the new value with the old sum. *)
Example increment_after_recreation :
  let s1 := step pack unpack no_double int_of (Reply 0 (RGet ZOK "1" (mk_stat 0 0 0)))
              (started pack (increment_t "/a" (DInt 1))) in
  let srv1 := exec_all [CDel "/a" (-1); CCreate "/a" "5" false false] (one_node "1") in
  let r := converse pack unpack no_double int_of 1 s1 srv1 in
  data <$> srv1 !! "/a"%string = Some "5"%string /\ data <$> r.2 !! "/a"%string = Some "2"%string.
Proof. split; vm_compute; reflexivity. Qed.
