(* ===== verification/UnicornAuth.v ===== *)
(** * Authorization of the unicorn: [unicorn/src/authorization/unicorn.cpp]

    The first component of a path is a prefix; who may use it is kept in the unicorn
    itself, under [/.acls].  [verify] looks the record up, decides, and lets the first
    identified writer of a prefix become its owner.

    The backend is asked through its interface: what it answers is an argument of the
    handlers, and so is what the callback of the caller throws: it is called inside the
    [try] blocks of the handlers.  A value of the backend is what the converter of
    [metainfo_t] makes of it. *)

From Stdlib Require Import Ascii.
From S2P Require Import Prelude Zookeeper.

Local Open Scope Z_scope.

(** ** Flags and operations *)

Definition flag_none : Z := 0.
Definition flag_read : Z := 1.
Definition flag_both : Z := Z.lor flag_read 2.

(** The methods of the service that are verified *)
Inductive method :=
| m_create | m_put | m_remove | m_del | m_increment | m_lock | m_named_lock | m_get | m_subscribe | m_children_subscribe.

(** [operation_t::from]; [None] is [__builtin_unreachable]. *)
Definition operation_from (m : method) : option Z :=
  match m with
  | m_create | m_put | m_remove | m_del | m_increment | m_lock => Some flag_both
  | m_get | m_subscribe | m_children_subscribe => Some flag_read
  | m_named_lock => None
  end.

Definition is_modify (flag : Z) : bool := Z.land flag flag_both =? flag_both.

(** ** Records *)

Record metainfo_t := mk_meta { c_perms : gmap Z Z; u_perms : gmap Z Z }.

Definition meta_empty (m : metainfo_t) : bool := bool_decide (c_perms m = ∅) && bool_decide (u_perms m = ∅).

Record identity_t := mk_identity { cids : list Z; uids : list Z }.

Definition known (i : identity_t) : bool := bool_decide (cids i <> []) || bool_decide (uids i <> []).

(** What is before the first slash; [token_compress_on] keeps an empty first token. *)
Fixpoint first_token (s : string) : string :=
  match s with
  | EmptyString => ""
  | String c s => if decide (c = slash) then "" else String c (first_token s)
  end.

Definition extract_prefix (path : string) : option string :=
  match first_token path with EmptyString => None | p => Some p end.

(** [perms[id]] adds a missing entry with no flags to a copy of the record. *)
Definition perm (perms : gmap Z Z) (id : Z) : Z := default flag_none (perms !! id).

Definition extract_permissions (subjects : list Z) (perms : gmap Z Z) : Z :=
  match subjects with
  | [] => flag_none
  | _ => foldl (fun acc id => Z.land acc (perm perms id)) flag_both subjects
  end.

Definition allowed (flag : Z) (i : identity_t) (m : metainfo_t) : bool :=
  Z.land (Z.lor (extract_permissions (cids i) (c_perms m)) (extract_permissions (uids i) (u_perms m))) flag =? flag.

(** The record of a new owner: [insert] keeps an entry that is there. *)
Definition own_all (ids : list Z) (perms : gmap Z Z) : gmap Z Z :=
  foldl (fun perms id => match perms !! id with Some _ => perms | None => <[id := flag_both]> perms end) perms ids.
Definition own (i : identity_t) (m : metainfo_t) : metainfo_t :=
  mk_meta (own_all (cids i) (c_perms m)) (own_all (uids i) (u_perms m)).

Definition prefix_acls : string := "/.acls".
Definition make_path (prefix : string) : string := (prefix_acls ++ "/" ++ prefix)%string.

(** ** The service *)

(** What the backend has under a path: nothing, a value that is not a pair, a pair that
    does not convert, or a record with its version *)
Inductive stored := Missing | NotAPair | Unconvertible | Acl (m : metainfo_t) (v : Z).

Inductive code_t :=
| Ok | invalid_path_code | invalid_acl_framing | permission_denied | permissions_changed | backend_code (e : error_t).

Record lookup_t := mk_lookup { l_method : method; l_identity : identity_t; l_prefix : string }.

Inductive request := GetAcl (path : string) | CreateAcl (path : string) (m : metainfo_t) | PutAcl (path : string) (m : metainfo_t) (v : Z).

Record enabled_t := mk_enabled {
  counter : nat;
  scopes : list nat;                    (** the keys of the multimap *)
  lookups : gmap nat lookup_t;          (** gets under way *)
  uploads : gset nat;                   (** creations and puts under way *)
  spawned : list (nat * code_t);        (** finalizations posted to the executor *)
  called : list (nat * code_t);         (** callbacks called, by operation *)
  refused : nat;                        (** callbacks called at once *)
  threw : list nat;                     (** operations whose callback was let through and threw *)
  asked : list request;                 (** what the backend was asked *)
  crashed : bool                        (** an operation is not known, or an exception left a handler *)
}.

Definition enabled_construct : enabled_t := mk_enabled 0 [] ∅ ∅ [] [] 0 [] [] false.

Definition finalize (id : nat) (ec : code_t) (a : enabled_t) : enabled_t :=
  mk_enabled (counter a) (filter (fun k => k <> id) (scopes a)) (lookups a) (uploads a) (spawned a)
    (called a ++ [(id, ec)]) (refused a) (threw a) (asked a) (crashed a).

Definition spawn (id : nat) (ec : code_t) (a : enabled_t) : enabled_t :=
  mk_enabled (counter a) (scopes a) (lookups a) (uploads a) (spawned a ++ [(id, ec)]) (called a) (refused a) (threw a)
    (asked a) (crashed a).

Definition note_throw (id : nat) (a : enabled_t) : enabled_t :=
  mk_enabled (counter a) (scopes a) (lookups a) (uploads a) (spawned a) (called a) (refused a) (threw a ++ [id])
    (asked a) (crashed a).

Definition crash (a : enabled_t) : enabled_t :=
  mk_enabled (counter a) (scopes a) (lookups a) (uploads a) (spawned a) (called a) (refused a) (threw a) (asked a) true.

Definition refuse (a : enabled_t) : enabled_t :=
  mk_enabled (counter a) (scopes a) (lookups a) (uploads a) (spawned a) (called a) (S (refused a)) (threw a) (asked a) (crashed a).

Definition start_lookup (l : lookup_t) (a : enabled_t) : enabled_t :=
  let id := S (counter a) in
  mk_enabled id (scopes a ++ [id]) (<[id := l]> (lookups a)) (uploads a) (spawned a) (called a) (refused a) (threw a)
    (asked a ++ [GetAcl (make_path (l_prefix l))]) (crashed a).

Definition verify (m : method) (path : string) (i : identity_t) (a : enabled_t) : enabled_t :=
  match path with
  | String c rest =>
      if decide (c = slash) then
        match extract_prefix rest with
        | None => refuse a
        | Some prefix => start_lookup (mk_lookup m i prefix) a
        end
      else refuse a
  | EmptyString => refuse a
  end.

(** [upload_permissions]: [update_permissions] with the version of a record that exists,
    [create_permissions] otherwise *)
Definition upload_permissions (prefix : string) (m : metainfo_t) (version : option Z) : request :=
  match version with
  | Some v => PutAcl (make_path prefix) m v
  | None => CreateAcl (make_path prefix) m
  end.

Definition start_upload (id : nat) (r : request) (a : enabled_t) : enabled_t :=
  mk_enabled (counter a) (scopes a ++ [id]) (lookups a) ({[id]} ∪ uploads a) (spawned a) (called a) (refused a) (threw a)
    (asked a ++ [r]) (crashed a).

(** [finalize({})] inside [lookup_permissions]: a system error of the callback is caught like
    one of the lookup. *)
Definition allow (t : option error_t) (id : nat) (a : enabled_t) : enabled_t :=
  match t with
  | None => finalize id Ok a
  | Some e => spawn id (backend_code e) (note_throw id (finalize id Ok a))
  end.

(** [finalize] outside of any [try] *)
Definition finish (t : option error_t) (id : nat) (ec : code_t) (a : enabled_t) : enabled_t :=
  match t with
  | None => finalize id ec a
  | Some _ => crash (finalize id ec a)
  end.

(** The rest of [lookup_permissions], for a record that was converted *)
Definition decide_access (t : option error_t) (id : nat) (l : lookup_t) (m : metainfo_t) (version : option Z) (a : enabled_t) : enabled_t :=
  match operation_from (l_method l) with
  | None => crash a
  | Some flag =>
      if meta_empty m then
        if is_modify flag && known (l_identity l)
        then start_upload id (upload_permissions (l_prefix l) (own (l_identity l) m) version) a
        else allow t id a
      else if allowed flag (l_identity l) m then allow t id a else spawn id permission_denied a
  end.

Definition no_perms : metainfo_t := mk_meta ∅ ∅.

(** [lookup_permissions]; only a [std::system_error] is caught. *)
Definition lookup_permissions (t : option error_t) (id : nat) (l : lookup_t) (v : stored) (a : enabled_t) : enabled_t :=
  match v with
  | Missing => decide_access t id l no_perms None a
  | NotAPair => spawn id invalid_acl_framing a
  | Unconvertible => crash a
  | Acl m v => decide_access t id l m (Some v) a
  end.

Definition drop_lookup (id : nat) (a : enabled_t) : enabled_t :=
  mk_enabled (counter a) (scopes a) (delete id (lookups a)) (uploads a) (spawned a) (called a) (refused a) (threw a)
    (asked a) (crashed a).
Definition drop_upload (id : nat) (a : enabled_t) : enabled_t :=
  mk_enabled (counter a) (scopes a) (lookups a) (uploads a ∖ {[id]}) (spawned a) (called a) (refused a) (threw a)
    (asked a) (crashed a).

(** The callback of the get *)
Definition on_get (t : option error_t) (id : nat) (r : outcome error_t stored) (a : enabled_t) : enabled_t :=
  match lookups a !! id with
  | None => a
  | Some l =>
      let a := drop_lookup id a in
      match r with
      | Ret v => lookup_permissions t id l v a
      | Throw e => spawn id (backend_code e) a
      end
  end.

(** The callback of the creation or the put; the second of the calls that may throw is the
    one of the [catch] block. *)
Definition on_upload (t t' : option error_t) (id : nat) (r : outcome error_t bool) (a : enabled_t) : enabled_t :=
  if decide (id ∈ uploads a) then
    let a := drop_upload id a in
    match r with
    | Ret true =>
        match t with
        | None => finalize id Ok a
        | Some e => finish t' id (backend_code e) (note_throw id (finalize id Ok a))
        end
    | Ret false => finish t id permissions_changed a
    | Throw e => finish t id (backend_code e) a
    end
  else a.

Definition run_spawned (t : option error_t) (a : enabled_t) : enabled_t :=
  match spawned a with
  | [] => a
  | (id, ec) :: rest =>
      finish t id ec (mk_enabled (counter a) (scopes a) (lookups a) (uploads a) rest (called a) (refused a) (threw a)
        (asked a) (crashed a))
  end.

Inductive event :=
| Verify (m : method) (path : string) (i : identity_t)
| OnGet (id : nat) (r : outcome error_t stored) (t : option error_t)
| OnUpload (id : nat) (r : outcome error_t bool) (t t' : option error_t)
| RunSpawned (t : option error_t).

Definition step (e : event) (a : enabled_t) : enabled_t :=
  if crashed a then a else
  match e with
  | Verify m p i => verify m p i a
  | OnGet id r t => on_get t id r a
  | OnUpload id r t t' => on_upload t t' id r a
  | RunSpawned t => run_spawned t a
  end.

Definition run (es : list event) : enabled_t := foldl (fun a e => step e a) enabled_construct es.

(** ** Who is allowed *)

Definition valid_flags (perms : gmap Z Z) : Prop :=
  map_Forall (fun _ f => f = flag_none \/ f = flag_read \/ f = flag_both) perms.

(** All the subjects, and at least one, have the flag. *)
Definition grants (flag : Z) (perms : gmap Z Z) (subjects : list Z) : Prop :=
  subjects <> [] /\ Forall (fun id => Z.land (perm perms id) flag = flag) subjects.

Definition is_flag (f : Z) : Prop := f = 0 \/ f = 1 \/ f = 3.

Lemma perm_flag perms id : valid_flags perms -> is_flag (perm perms id).
Proof.
  intros Hv. unfold perm. destruct (perms !! id) as [f|] eqn:E; [|by left]. exact (Hv id f E).
Qed.

Lemma land_flag a b : is_flag a -> is_flag b -> is_flag (Z.land a b).
Proof. intros [->|[->| ->]] [->|[->| ->]]; simpl; unfold is_flag; auto. Qed.

Lemma land_flag_iff a b flag : is_flag a -> is_flag b -> flag = 1 \/ flag = 3 ->
  Z.land (Z.land a b) flag = flag <-> Z.land a flag = flag /\ Z.land b flag = flag.
Proof. intros [->|[->| ->]] [->|[->| ->]] [->| ->]; vm_compute; intuition congruence. Qed.

Lemma lor_flag_iff a b flag : is_flag a -> is_flag b -> flag = 1 \/ flag = 3 ->
  Z.land (Z.lor a b) flag = flag <-> Z.land a flag = flag \/ Z.land b flag = flag.
Proof. intros [->|[->| ->]] [->|[->| ->]] [->| ->]; vm_compute; intuition congruence. Qed.

Lemma fold_flag perms l : forall acc, valid_flags perms -> is_flag acc ->
  is_flag (foldl (fun acc id => Z.land acc (perm perms id)) acc l) /\
  forall flag, flag = 1 \/ flag = 3 ->
    (Z.land (foldl (fun acc id => Z.land acc (perm perms id)) acc l) flag = flag <->
     Z.land acc flag = flag /\ Forall (fun id => Z.land (perm perms id) flag = flag) l).
Proof.
  induction l as [|id l IH]; intros acc Hv Ha; simpl.
  - split; [done|]. intros flag _. split; [by auto|by intros []].
  - pose proof (perm_flag perms id Hv) as Hp. destruct (IH (Z.land acc (perm perms id)) Hv (land_flag _ _ Ha Hp)) as [H1 H2].
    split; [done|]. intros flag Hf. rewrite (H2 flag Hf), Forall_cons, land_flag_iff by done. tauto.
Qed.

Lemma extract_flag perms l : valid_flags perms -> is_flag (extract_permissions l perms).
Proof. intros Hv. unfold extract_permissions. destruct l; [by left|]. apply fold_flag; [done|]. unfold is_flag. auto. Qed.

Lemma extract_grants perms l flag : valid_flags perms -> flag = 1 \/ flag = 3 ->
  Z.land (extract_permissions l perms) flag = flag <-> grants flag perms l.
Proof.
  intros Hv Hf. unfold grants. destruct l as [|id l].
  - simpl. split; [intros E; destruct Hf as [->| ->]; discriminate E|by intros [? _]].
  - unfold extract_permissions.
    destruct (fold_flag perms (id :: l) flag_both Hv ltac:(unfold is_flag; auto)) as [_ H]. rewrite (H flag Hf).
    assert (Z.land flag_both flag = flag) as -> by (destruct Hf as [->| ->]; done). naive_solver.
Qed.

Lemma access_granted_aux flag i m :
  valid_flags (c_perms m) -> valid_flags (u_perms m) -> flag = 1 \/ flag = 3 ->
  allowed flag i m = true <-> grants flag (c_perms m) (cids i) \/ grants flag (u_perms m) (uids i).
Proof.
  intros Hc Hu Hf. unfold allowed. rewrite Z.eqb_eq, lor_flag_iff by (done || by apply extract_flag).
  by rewrite !extract_grants.
Qed.

(** Who may use a prefix that has a record.  An operation is allowed exactly when
    every client id of the caller, of which there is one, has the right to it, or every
    user id, of which there is one, has; rights of the two kinds do not add up. *)
Theorem access_granted_iff (flag : Z) (i : identity_t) (m : metainfo_t) :
  valid_flags (c_perms m) -> valid_flags (u_perms m) -> flag = flag_read \/ flag = flag_both ->
  allowed flag i m = true <-> grants flag (c_perms m) (cids i) \/ grants flag (u_perms m) (uids i).
Proof. apply access_granted_aux. Qed.

Lemma own_all_lookup ids perms id :
  own_all ids perms !! id =
    match perms !! id with Some f => Some f | None => if decide (id ∈ ids) then Some flag_both else None end.
Proof.
  revert perms. induction ids as [|x ids IH]; intros perms; simpl; [by destruct (perms !! id)|].
  unfold own_all in *. simpl. rewrite IH. destruct (decide (x = id)) as [->|Hne].
  - destruct (perms !! id) as [f|] eqn:E; [by rewrite E|]. rewrite lookup_insert_eq.
    by rewrite decide_True by left.
  - assert (match perms !! x with Some _ => perms | None => <[x := flag_both]> perms end !! id = perms !! id) as ->
      by (destruct (perms !! x); [done|by rewrite lookup_insert_ne]).
    destruct (perms !! id); [done|]. destruct (decide (id ∈ ids)) as [H|H].
    + by rewrite decide_True by (by right).
    + rewrite decide_False; [done|]. intros [->|?]%elem_of_cons; done.
Qed.

Lemma own_perm ids id : perm (own_all ids ∅) id = if decide (id ∈ ids) then flag_both else flag_none.
Proof. unfold perm. rewrite own_all_lookup, lookup_empty. by case_decide. Qed.

Lemma own_valid ids : valid_flags (own_all ids ∅).
Proof.
  intros id f. rewrite own_all_lookup, lookup_empty. case_decide; [|done]. intros [= <-]. by right; right.
Qed.

Lemma own_nonempty i : known i = true -> meta_empty (own i no_perms) = false.
Proof.
  intros Hk. unfold meta_empty, own. simpl. apply andb_false_iff. unfold known in Hk.
  assert (forall ids, ids <> [] -> own_all ids ∅ <> ∅) as Hne.
  { intros [|x ids] H E; [done|]. pose proof (own_all_lookup (x :: ids) ∅ x) as Hl.
    rewrite E, !lookup_empty, decide_True in Hl by left. done. }
  apply orb_true_iff in Hk as [H%bool_decide_eq_true|H%bool_decide_eq_true]; [left|right]; apply bool_decide_eq_false; auto.
Qed.

Lemma own_grants ids flag : flag = 1 \/ flag = 3 -> ids <> [] -> grants flag (own_all ids ∅) ids.
Proof.
  intros Hf Hne. split; [done|]. apply Forall_forall. intros id Hid. rewrite own_perm, decide_True by done.
  by destruct Hf as [->| ->].
Qed.

Lemma stranger_denied ids other flag :
  flag = 1 \/ flag = 3 -> (forall id, id ∈ other -> id ∉ ids) -> ~ grants flag (own_all ids ∅) other.
Proof.
  intros Hf Hd [Hne Hall]. destruct other as [|id other]; [done|]. apply Forall_cons in Hall as [H _].
  rewrite own_perm, decide_False in H by (apply Hd; left). destruct Hf as [->| ->]; discriminate H.
Qed.

(** The first identified writer owns the prefix.  With the record that [verify]
    uploads for it, every operation of the owner is let through, and every operation of
    a caller that shares no id with it is denied. *)
Theorem owner_protected (i j : identity_t) (meth : method) (flag : Z) (prefix : string) (t : option error_t) (id : nat) (v : option Z) (a : enabled_t) :
  known i = true -> operation_from meth = Some flag ->
  (forall c, c ∈ cids j -> c ∉ cids i) -> (forall u, u ∈ uids j -> u ∉ uids i) ->
  let m := own i no_perms in
  decide_access t id (mk_lookup meth i prefix) m v a = allow t id a /\
  decide_access t id (mk_lookup meth j prefix) m v a = spawn id permission_denied a.
Proof.
  intros Hk Hop Hc Hu m.
  assert (flag = flag_read \/ flag = flag_both) as Hf by (destruct meth; simplify_eq/=; auto).
  assert (meta_empty m = false) as He by (by apply own_nonempty).
  unfold decide_access. simpl. rewrite Hop, He. split.
  - assert (allowed flag i m = true) as ->; [|done]. apply access_granted_aux; try apply own_valid; [done|].
    unfold known in Hk. apply orb_true_iff in Hk as [H%bool_decide_eq_true|H%bool_decide_eq_true];
      [left|right]; by apply own_grants.
  - assert (allowed flag j m = false) as ->; [|done]. apply not_true_iff_false. intros H.
    apply access_granted_aux in H as [H|H]; try apply own_valid; try done; revert H; by apply stranger_denied.
Qed.

(** ** Every verification is answered once *)

(** Where the operations are *)
Definition open_ops (a : enabled_t) : list nat :=
  (spawned a).*1 ++ elements (uploads a) ++ (map_to_list (lookups a)).*1.
Definition places (a : enabled_t) : list nat := (called a).*1 ++ open_ops a.

Record auth_wf (a : enabled_t) : Prop := {
  aw_places : places a ≡ₚ seq 1 (counter a) ++ threw a;
  aw_scopes : forall id, id ∈ scopes a <-> id ∈ open_ops a /\ id ∉ threw a;
  aw_threw : NoDup (threw a) /\ forall id, id ∈ threw a -> (1 <= id <= counter a)%nat /\ lookups a !! id = None /\ id ∉ uploads a
}.

(** An operation that has been taken out of where it was: what is left, and its scopes; its
    callback has not been called. *)
Record taken (id : nat) (a : enabled_t) : Prop := {
  tk_places : id :: places a ≡ₚ seq 1 (counter a) ++ threw a;
  tk_scopes : forall k, k ∈ scopes a <-> k = id \/ (k ∈ open_ops a /\ k ∉ threw a);
  tk_threw : NoDup (threw a) /\ forall k, k ∈ threw a -> (1 <= k <= counter a)%nat /\ lookups a !! k = None /\ k ∉ uploads a;
  tk_new : id ∉ threw a;
  tk_known : (1 <= id <= counter a)%nat
}.

(** An operation that is not among those whose callback threw is in one place. *)
Lemma taken_fresh id a : taken id a -> id ∉ open_ops a.
Proof.
  intros [Hp _ [Hn _] Hi _] Hin. assert (NoDup (filter (fun k => k ∉ threw a) (id :: places a))) as H.
  { rewrite Hp, filter_app. assert (filter (fun k => k ∉ threw a) (threw a) = []) as ->.
    { clear. assert (forall l l' : list nat, (forall k, k ∈ l -> k ∈ l') -> filter (fun k : nat => k ∉ l') l = []) as H.
      { induction l as [|k l IH]; intros l' Hl; [done|]. rewrite filter_cons_False by (intros H; apply H, Hl; left). apply IH. set_solver. }
      by apply H. }
    rewrite app_nil_r. apply NoDup_filter, NoDup_seq. }
  rewrite filter_cons_True in H by done. apply NoDup_cons in H as [H _]. apply H. apply list_elem_of_filter. split; [done|].
  unfold places. apply elem_of_app. by right.
Qed.

Lemma finalize_wf id ec a : taken id a -> auth_wf (finalize id ec a).
Proof.
  intros Ht. pose proof (taken_fresh id a Ht) as Hf. destruct Ht as [Hp Hs Hth Hi Hk]. split; try done.
  - change (counter (finalize id ec a)) with (counter a). change (threw (finalize id ec a)) with (threw a).
    rewrite <- Hp. unfold places, open_ops, finalize. simpl. rewrite fmap_app. simpl.
    rewrite <- !app_assoc. simpl. by rewrite <- Permutation_middle.
  - intros k. unfold finalize. simpl. rewrite list_elem_of_filter, Hs. change (open_ops _) with (open_ops a).
    split; [tauto|]. intros [Ho Hn]. split; [by intros ->|tauto].
Qed.

Lemma spawn_places id ec a : open_ops (spawn id ec a) ≡ₚ id :: open_ops a.
Proof. unfold open_ops, spawn. simpl. rewrite fmap_app. simpl. rewrite <- !app_assoc. simpl. by rewrite <- Permutation_middle. Qed.

Lemma spawn_wf id ec a : taken id a -> auth_wf (spawn id ec a).
Proof.
  intros [Hp Hs Hth Hi Hk]. pose proof (spawn_places id ec a) as Ho. split; try done.
  - change (counter (spawn id ec a)) with (counter a). change (threw (spawn id ec a)) with (threw a).
    rewrite <- Hp. unfold places. rewrite Ho. simpl. by rewrite <- Permutation_middle.
  - intros k. change (scopes _) with (scopes a). change (threw (spawn id ec a)) with (threw a). rewrite Ho, elem_of_cons, Hs. naive_solver.
Qed.

(** The callback was called and threw; it has to be called again. *)
Lemma again_taken id a : taken id a ->
  let a' := note_throw id (finalize id Ok a) in
  id :: places a' ≡ₚ seq 1 (counter a') ++ threw a' /\ (forall k, k ∈ scopes a' <-> k ∈ open_ops a' /\ k ∉ threw a').
Proof.
  intros Ht. pose proof (taken_fresh id a Ht) as Hf. destruct Ht as [Hp Hs Hth Hi Hk]. cbv zeta. split.
  - transitivity ((seq 1 (counter a) ++ threw a) ++ [id]); [|simpl; by rewrite <- app_assoc]. rewrite <- Hp.
    unfold places, open_ops, note_throw, finalize. simpl. rewrite fmap_app. simpl. solve_Permutation.
  - intros k. simpl. change (open_ops _) with (open_ops a). rewrite list_elem_of_filter, Hs, elem_of_app, list_elem_of_singleton.
    split; [naive_solver|]. intros [Ho Hn]. split; [naive_solver|tauto].
Qed.

Lemma threw_again id a : taken id a -> lookups a !! id = None -> id ∉ uploads a ->
  NoDup (threw a ++ [id]) /\ forall k, k ∈ (threw a ++ [id]) -> (1 <= k <= counter a)%nat /\ lookups a !! k = None /\ k ∉ uploads a.
Proof.
  intros [_ _ [Hn Hth] Hi Hk] Hl Hu. split.
  - apply NoDup_app. split_and!; [done| |apply NoDup_singleton]. intros k Hin H%list_elem_of_singleton. by subst k.
  - intros k [H|H%list_elem_of_singleton]%elem_of_app; [by apply Hth|by subst k].
Qed.

Lemma taken_away id a : taken id a -> lookups a !! id = None /\ id ∉ uploads a.
Proof.
  intros Ht%taken_fresh. split.
  - destruct (lookups a !! id) as [l|] eqn:E; [|done]. exfalso. apply Ht. unfold open_ops. rewrite !elem_of_app. right; right.
    apply list_elem_of_fmap. exists (id, l). split; [done|]. by apply elem_of_map_to_list.
  - intros H. apply Ht. unfold open_ops. rewrite !elem_of_app. right; left. by apply elem_of_elements.
Qed.

Lemma allow_wf t id a : taken id a -> auth_wf (allow t id a).
Proof.
  intros Ht. destruct t as [e|]; [|by apply finalize_wf]. destruct (again_taken id a Ht) as [Hp Hs]. destruct (taken_away id a Ht) as [Hl Hu].
  cbn [allow]. set (a' := note_throw _ _) in *. pose proof (spawn_places id (backend_code e) a') as Ho. split.
  - change (counter (spawn _ _ a')) with (counter a'). change (threw (spawn _ _ a')) with (threw a').
    rewrite <- Hp. unfold places. rewrite Ho. simpl. by rewrite <- Permutation_middle.
  - intros k. change (scopes (spawn _ _ a')) with (scopes a'). change (threw (spawn _ _ a')) with (threw a'). rewrite Ho, elem_of_cons, Hs.
    assert (id ∈ threw a') by (apply elem_of_app; right; by left). naive_solver.
  - exact (threw_again id a Ht Hl Hu).
Qed.

Lemma start_upload_wf id r a : taken id a -> auth_wf (start_upload id r a).
Proof.
  intros Ht. destruct (taken_away id a Ht) as [_ Hu]. destruct Ht as [Hp Hs [Hn Hth] Hi Hk].
  assert (open_ops (start_upload id r a) ≡ₚ id :: open_ops a) as Ho.
  { unfold open_ops, start_upload. simpl. rewrite elements_union_singleton by done. simpl. by rewrite <- Permutation_middle. }
  split.
  - change (counter (start_upload id r a)) with (counter a). change (threw (start_upload id r a)) with (threw a).
    rewrite <- Hp. unfold places. rewrite Ho. simpl. by rewrite <- Permutation_middle.
  - intros k. simpl. rewrite elem_of_app, list_elem_of_singleton, Ho, elem_of_cons, Hs. naive_solver.
  - split; [done|]. intros k Hin. destruct (Hth k Hin) as (H1 & H2 & H3). split; [done|]. split; [done|]. simpl.
    assert (k <> id) by naive_solver. set_solver.
Qed.

(** The process goes on after a handler exactly when none of this happens: the callback
    throws outside of a [try], a record does not convert, or [named_lock] is verified. *)
Definition thrown (t : option error_t) : bool := match t with Some _ => true | None => false end.
Definition fatal (e : event) (a : enabled_t) : bool :=
  match e with
  | Verify _ _ _ => false
  | OnGet id (Throw _) _ => false
  | OnGet id (Ret v) _ =>
      match lookups a !! id, v with
      | None, _ | _, NotAPair => false
      | _, Unconvertible => true
      | Some l, _ => match l_method l with m_named_lock => true | _ => false end
      end
  | OnUpload id r t t' => bool_decide (id ∈ uploads a) && thrown t && match r with Ret true => thrown t' | _ => true end
  | RunSpawned t => negb (bool_decide (spawned a = [])) && thrown t
  end.

Lemma decide_access_wf t id l m v a : l_method l <> m_named_lock -> taken id a -> auth_wf (decide_access t id l m v a).
Proof.
  intros Hl Ht. unfold decide_access. destruct (operation_from (l_method l)) as [flag|] eqn:E; [|by destruct (l_method l)].
  destruct (meta_empty m); [destruct (is_modify flag && known (l_identity l))|destruct (allowed flag (l_identity l) m)];
    auto using start_upload_wf, allow_wf, spawn_wf.
Qed.

Lemma decide_access_crashed t id l m v a : crashed a = false ->
  crashed (decide_access t id l m v a) = match l_method l with m_named_lock => true | _ => false end.
Proof.
  intros Ha. unfold decide_access. destruct (l_method l); simpl; try done; destruct (meta_empty m); repeat case_match; (done || by destruct t).
Qed.

Lemma place_known id a : auth_wf a -> id ∈ places a -> (1 <= id <= counter a)%nat.
Proof.
  intros [Hp _ [_ Hth]]. rewrite Hp, elem_of_app, elem_of_seq. intros [H|H]; [lia|]. by apply Hth.
Qed.

Lemma drop_lookup_taken id l a : lookups a !! id = Some l -> auth_wf a -> taken id (drop_lookup id a).
Proof.
  intros Hl Hw. assert (id ∈ places a) as Hin%(place_known id a Hw).
  { unfold places, open_ops. rewrite !elem_of_app. right; right; right. apply list_elem_of_fmap. exists (id, l). split; [done|]. by apply elem_of_map_to_list. }
  destruct Hw as [Hp Hs [Hn Hth]]. assert (id ∉ threw a) as Hi by (intros H%Hth; destruct H as (_ & H & _); congruence).
  assert (open_ops a ≡ₚ id :: open_ops (drop_lookup id a)) as Ho.
  { unfold open_ops, drop_lookup. simpl. rewrite <- (map_to_list_delete (lookups a) id l Hl). simpl.
    by rewrite <- !Permutation_middle. }
  split; try done.
  - change (counter (drop_lookup id a)) with (counter a). change (threw (drop_lookup id a)) with (threw a).
    rewrite <- Hp. unfold places. rewrite Ho. simpl. by rewrite <- Permutation_middle.
  - intros k. change (scopes (drop_lookup id a)) with (scopes a). change (threw (drop_lookup id a)) with (threw a). rewrite Hs, Ho, elem_of_cons. naive_solver.
  - split; [done|]. intros k (H1 & H2 & H3)%Hth. split; [done|]. split; [|done]. simpl. rewrite lookup_delete_None. by right.
Qed.

Lemma drop_upload_taken id a : id ∈ uploads a -> auth_wf a -> taken id (drop_upload id a).
Proof.
  intros Hu Hw. assert (id ∈ places a) as Hin%(place_known id a Hw).
  { unfold places, open_ops. rewrite !elem_of_app. right; right; left. by apply elem_of_elements. }
  destruct Hw as [Hp Hs [Hn Hth]]. assert (id ∉ threw a) as Hi by (intros H%Hth; tauto).
  assert (open_ops a ≡ₚ id :: open_ops (drop_upload id a)) as Ho.
  { unfold open_ops, drop_upload. simpl.
    assert (elements (uploads a) ≡ₚ id :: elements (uploads a ∖ {[id]})) as ->.
    { rewrite <- elements_union_singleton by set_solver. f_equiv. intros x. destruct (decide (x = id)); set_solver. }
    simpl. by rewrite <- !Permutation_middle. }
  split; try done.
  - change (counter (drop_upload id a)) with (counter a). change (threw (drop_upload id a)) with (threw a).
    rewrite <- Hp. unfold places. rewrite Ho. simpl. by rewrite <- Permutation_middle.
  - intros k. change (scopes (drop_upload id a)) with (scopes a). change (threw (drop_upload id a)) with (threw a). rewrite Hs, Ho, elem_of_cons. naive_solver.
  - split; [done|]. intros k (H1 & H2 & H3)%Hth. split; [done|]. split; [done|]. simpl. set_solver.
Qed.

Lemma verify_wf m path i a : auth_wf a -> auth_wf (verify m path i a).
Proof.
  intros Hw. assert (auth_wf (refuse a)) as Hr by (destruct Hw; by split).
  unfold verify. destruct path as [|c rest]; [done|]. case_decide; [|done]. destruct (extract_prefix rest) as [p|]; [|done].
  set (l := mk_lookup m i p). set (id := S (counter a)). assert (forall k, k ∈ places a -> k <> id) as Hne.
  { intros k Hk%(place_known k a Hw). unfold id. lia. }
  destruct Hw as [Hp Hs [Hn Hth]]. assert (lookups a !! id = None) as Hl.
  { destruct (lookups a !! id) as [x|] eqn:E; [|done]. exfalso. apply (Hne id); [|done].
    unfold places, open_ops. rewrite !elem_of_app. right; right; right. apply list_elem_of_fmap. exists (id, x).
    split; [done|]. by apply elem_of_map_to_list. }
  assert (id ∉ threw a) as Hi by (intros (Hb & _)%Hth; unfold id in Hb; lia).
  assert (open_ops (start_lookup l a) ≡ₚ id :: open_ops a) as Ho.
  { unfold open_ops, start_lookup. simpl. rewrite map_to_list_insert by done. simpl. by rewrite <- !Permutation_middle. }
  split.
  - unfold places. rewrite Ho. change (called (start_lookup l a)) with (called a). rewrite <- Permutation_middle.
    change (counter (start_lookup l a)) with id. change (threw (start_lookup l a)) with (threw a). unfold id. rewrite seq_S.
    fold (places a). rewrite Hp. solve_Permutation.
  - intros k. simpl. rewrite elem_of_app, list_elem_of_singleton, Ho, elem_of_cons, Hs. naive_solver.
  - split; [done|]. intros k Hin. destruct (Hth k Hin) as (H1 & H2 & H3). simpl. split; [lia|]. split; [|done].
    rewrite lookup_insert_ne; [done|]. intros <-. done.
Qed.

Lemma run_spawned_places id ec rest a :
  spawned a = (id, ec) :: rest -> auth_wf a ->
  auth_wf (finalize id ec (mk_enabled (counter a) (scopes a) (lookups a) (uploads a) rest (called a) (refused a) (threw a) (asked a) (crashed a))).
Proof.
  intros E Hw. assert (open_ops a = id :: (rest.*1 ++ elements (uploads a) ++ (map_to_list (lookups a)).*1)) as Ho
    by (unfold open_ops; by rewrite E).
  assert ((1 <= id <= counter a)%nat) as Hk by (apply place_known; [done|]; unfold places; rewrite Ho; set_solver).
  destruct Hw as [Hp Hs Hth]. destruct (decide (id ∈ threw a)) as [Hi|Hi].
  - split; [| |done].
    + unfold finalize. simpl. rewrite <- Hp. unfold places. rewrite Ho. unfold open_ops. simpl. rewrite fmap_app. simpl. solve_Permutation.
    + intros k. unfold finalize. simpl. rewrite list_elem_of_filter, Hs, Ho, elem_of_cons. unfold open_ops. simpl. naive_solver.
  - apply finalize_wf. split; try done.
    + simpl. rewrite <- Hp. unfold places. rewrite Ho. unfold open_ops. simpl. solve_Permutation.
    + intros k. simpl. rewrite Hs, Ho, elem_of_cons. unfold open_ops. simpl. naive_solver.
Qed.

Lemma finish_wf t id ec a : thrown t = false -> auth_wf (finalize id ec a) -> auth_wf (finish t id ec a).
Proof. by destruct t. Qed.

Lemma again_wf id ec a : taken id a -> auth_wf (finalize id ec (note_throw id (finalize id Ok a))).
Proof.
  intros Ht. destruct (again_taken id a Ht) as [Hp Hs]. destruct (taken_away id a Ht) as [Hl Hu].
  set (a' := note_throw _ _) in *. split.
  - change (counter (finalize id ec a')) with (counter a'). change (threw (finalize id ec a')) with (threw a'). rewrite <- Hp.
    unfold places, open_ops, finalize. simpl. rewrite (fmap_app _ (_ ++ _)). simpl. solve_Permutation.
  - intros k. change (threw (finalize id ec a')) with (threw a'). unfold finalize. cbn [scopes]. rewrite list_elem_of_filter, Hs.
    change (open_ops _) with (open_ops a'). assert (id ∈ threw a') by (apply elem_of_app; right; by left). naive_solver.
  - exact (threw_again id a Ht Hl Hu).
Qed.

Lemma auth_step_wf e a : crashed a = false -> fatal e a = false -> auth_wf a -> auth_wf (step e a).
Proof.
  intros Hc He Hw. unfold step. rewrite Hc. destruct e as [m path i|id r t|id r t t'|t]; simpl in He.
  - by apply verify_wf.
  - unfold on_get. destruct (lookups a !! id) as [l|] eqn:El; [|done].
    pose proof (drop_lookup_taken id l a El Hw) as Ht. destruct r as [v|e]; [|by apply spawn_wf].
    destruct v; simpl in *; try (apply decide_access_wf; [intros X; by rewrite X in He|done]); [by apply spawn_wf|done].
  - unfold on_upload. case_decide as Hu; [|done]. rewrite bool_decide_true in He by done.
    pose proof (drop_upload_taken id a Hu Hw) as Ht. destruct r as [[]|e]; [|apply finish_wf; [by destruct t|by apply finalize_wf]..].
    destruct t; [apply finish_wf; [by destruct t'|by apply again_wf]|by apply finalize_wf].
  - unfold run_spawned. destruct (spawned a) as [|[id ec] rest] eqn:E; [done|]. apply finish_wf; [by destruct t|]. by apply run_spawned_places.
Qed.

Lemma step_crashed e a : crashed a = false -> crashed (step e a) = fatal e a.
Proof.
  intros Hc. unfold step. rewrite Hc. destruct e as [m path i|id r t|id r t t'|t]; simpl.
  - unfold verify. by repeat case_match.
  - unfold on_get. destruct (lookups a !! id) as [l|], r as [[]|]; try done; by apply decide_access_crashed.
  - unfold on_upload. case_decide; [|by rewrite bool_decide_false by done]. rewrite bool_decide_true by done.
    by destruct r as [[]|], t, t'.
  - unfold run_spawned. destruct (spawned a) as [|[id ec] rest]; [done|]. by destruct t.
Qed.


(** What the authorization does not do.  A caller without any id may modify what is
    under a prefix that has no record, although the code means to allow reading only;
    and [named_lock] is not among the operations the authorization knows: verifying it
    runs into undefined behaviour. *)
Theorem anonymous_may_modify (m : method) (prefix : string) (t : option error_t) (id : nat) (a : enabled_t) :
  let anonymous := mk_identity [] [] in
  match operation_from m with
  | Some _ => lookup_permissions t id (mk_lookup m anonymous prefix) Missing a = allow t id a
  | None => m = m_named_lock /\ crashed (lookup_permissions t id (mk_lookup m anonymous prefix) Missing a) = true
  end.
Proof. destruct m; simpl; (reflexivity || by split). Qed.

(** ** Witnesses *)

Lemma access_granted_witness :
  let m := mk_meta {[ 1 := 3 ]} {[ 2 := 1 ]} in
  allowed flag_both (mk_identity [1] [2]) m = true /\ allowed flag_both (mk_identity [4] [2]) m = false.
Proof.
  assert (valid_flags ({[ 1 := 3 ]} : gmap Z Z) /\ valid_flags ({[ 2 := 1 ]} : gmap Z Z)) as [Hc Hu].
  { split; apply map_Forall_singleton; unfold flag_none, flag_read, flag_both; auto. }
  split.
  - apply (access_granted_iff flag_both (mk_identity [1] [2]) (mk_meta {[ 1 := 3 ]} {[ 2 := 1 ]}) Hc Hu); [by right|].
    left. split; [done|]. by repeat constructor.
  - reflexivity.
Defined.

Lemma owner_protected_witness :
  decide_access None 1 (mk_lookup m_get (mk_identity [8] []) "p") (own (mk_identity [7] []) no_perms) None enabled_construct =
  spawn 1 permission_denied enabled_construct.
Proof.
  apply (owner_protected (mk_identity [7] []) (mk_identity [8] []) m_get flag_read "p" None 1 None enabled_construct);
    try reflexivity; intros x Hx; [|by apply elem_of_nil in Hx].
  apply list_elem_of_singleton in Hx as ->. intros H%list_elem_of_singleton. discriminate H.
Defined.

(** Two callers write to a prefix without a record; the second is told that it changed.  The
    callback of the first throws, and is called again. *)
Definition two_callers : list event :=
  [Verify m_put "/p/x" (mk_identity [7] []); Verify m_put "/p/y" (mk_identity [8] []); OnGet 1 (Ret Missing) None; OnGet 2 (Ret Missing) None;
   OnUpload 1 (Ret true) (Some connection_loss) None; OnUpload 2 (Throw node_exists) None None].
