(* ===== verification/UnicornCluster.v ===== *)
(** * The unicorn cluster: [unicorn/src/cluster/unicorn.cpp]

    Each server announces the endpoints of its locator in a node of the unicorn and
    follows the nodes of the others, which it links to and drops.  A scope is closed when
    it is replaced or erased, so a callback comes only from the operation that is kept;
    what the unicorn gives to a callback, and the endpoints it converts to, are
    arguments. *)

From S2P Require Import Prelude Zookeeper.

Section cluster.
Context {E : Type} `{EqDecision E}.

(** ** [announcer_t] *)

(** A [timer_t]: the wait, and the handlers of past waits in the event loop *)
Record timer_t := mk_timer { waits : bool; queued : nat }.
Definition idle_timer : timer_t := mk_timer false 0.
(** [defer_retry]: a new expiry time cancels the wait before it. *)
Definition defer_retry (t : timer_t) : timer_t := mk_timer true (queued t).
Definition timer_pending (t : timer_t) : bool := waits t || (0 <? queued t)%nat.

Record announcer_t := mk_announcer {
  a_timer : timer_t;
  endpoints : list E;
  creating : bool;         (** the scope is that of the creation, *)
  watching : bool;         (** or of the subscription to the own node *)
  terminated : bool        (** [std::terminate] *)
}.

Definition announcer_construct : announcer_t := mk_announcer idle_timer [] false false false.

Definition retry_announce (a : announcer_t) : announcer_t :=
  mk_announcer (defer_retry (a_timer a)) (endpoints a) (creating a) (watching a) (terminated a).

(** [set_and_check_endpoints] and [announce]; [quote] is what locating the locator gives,
    [throws] whether [create] throws. *)
Definition announce (quote : option (list E)) (throws : bool) (a : announcer_t) : announcer_t :=
  match quote with
  | None => retry_announce a
  | Some q =>
      let e := if decide (endpoints a = []) then q else endpoints a in
      if decide (q = e) then
        if throws then retry_announce (mk_announcer (a_timer a) e (creating a) (watching a) (terminated a))
        else mk_announcer (a_timer a) e true false (terminated a)
      else mk_announcer (a_timer a) e (creating a) (watching a) true
  end.

Definition on_set (r : outcome error_t unit) (a : announcer_t) : announcer_t :=
  let a := mk_announcer (a_timer a) (endpoints a) false (watching a) (terminated a) in
  match r with
  | Ret _ | Throw node_exists => mk_announcer (a_timer a) (endpoints a) (creating a) true (terminated a)
  | Throw _ => retry_announce a
  end.

(** An error is the last thing a subscription gives. *)
Definition on_check (r : outcome error_t Z) (a : announcer_t) : announcer_t :=
  match r with
  | Ret v => if (v <? 0)%Z then retry_announce a else a
  | Throw _ => retry_announce (mk_announcer (a_timer a) (endpoints a) (creating a) false (terminated a))
  end.

Inductive announcer_event :=
| OnSet (r : outcome error_t unit)
| OnCheck (r : outcome error_t Z)
| Expires
| Runs (quote : option (list E)) (throws : bool).

Definition announcer_step (e : announcer_event) (a : announcer_t) : announcer_t :=
  if terminated a then a else
  match e with
  | OnSet r => if creating a then on_set r a else a
  | OnCheck r => if watching a then on_check r a else a
  | Expires =>
      if waits (a_timer a)
      then mk_announcer (mk_timer false (S (queued (a_timer a)))) (endpoints a) (creating a) (watching a) (terminated a)
      else a
  | Runs q throws =>
      match queued (a_timer a) with
      | O => a
      | S n => announce q throws
                 (mk_announcer (mk_timer (waits (a_timer a)) n) (endpoints a) (creating a) (watching a) (terminated a))
      end
  end.

Definition announcer_run (q : option (list E)) (throws : bool) (es : list announcer_event) : announcer_t :=
  foldl (fun a e => announcer_step e a) (announce q throws announcer_construct) es.

(** Something goes on. *)
Definition busy (a : announcer_t) : Prop :=
  terminated a = true \/ creating a = true \/ watching a = true \/ timer_pending (a_timer a) = true.

Lemma announce_busy q throws a : busy (announce q throws a).
Proof.
  unfold announce, busy, timer_pending. destruct q; simpl; [|by auto].
  case_decide; simpl; [|by auto]. destruct throws; simpl; by auto.
Qed.

Lemma announcer_step_busy e a : busy a -> busy (announcer_step e a).
Proof.
  intros Hb. unfold announcer_step. destruct (terminated a) eqn:Et; [done|]. destruct e as [r|r| |q throws].
  - destruct (creating a) eqn:Ec; [|done]. unfold on_set, busy, timer_pending. simpl.
    destruct r as [|[]]; simpl; by auto.
  - destruct (watching a) eqn:Ew; [|done]. unfold on_check, busy, timer_pending. destruct r as [v|e]; simpl; [|by auto].
    destruct (v <? 0)%Z; simpl; auto.
  - destruct (waits (a_timer a)) eqn:Ew; [|done]. unfold busy, timer_pending. simpl. by auto.
  - destruct (queued (a_timer a)); [done|]. apply announce_busy.
Qed.

(** The locator's endpoints, when it is there, are [e0]. *)
Definition stable (e0 : list E) (e : announcer_event) : bool :=
  match e with Runs (Some q) _ => bool_decide (q = e0) | _ => true end.

Definition sane (e0 : list E) (a : announcer_t) : Prop :=
  terminated a = false /\ (endpoints a = [] \/ endpoints a = e0).

Lemma announce_sane e0 q throws a : stable e0 (Runs q throws) = true -> sane e0 a -> sane e0 (announce q throws a).
Proof.
  intros Hq [Ht He]. unfold announce. destruct q as [q|]; [|by split]. simpl in Hq. apply bool_decide_eq_true in Hq as ->.
  assert ((if decide (endpoints a = []) then e0 else endpoints a) = e0) as -> by (case_decide; naive_solver).
  rewrite decide_True by done. destruct throws; split; simpl; auto.
Qed.

Lemma announcer_step_sane e0 e a : stable e0 e = true -> sane e0 a -> sane e0 (announcer_step e a).
Proof.
  intros He [Ht Ha]. unfold announcer_step. rewrite Ht. destruct e as [r|r| |q throws].
  - destruct (creating a); [|by split]. unfold on_set. destruct r as [|[]]; by split.
  - destruct (watching a); [|by split]. unfold on_check. destruct r as [v|]; [destruct (v <? 0)%Z|]; by split.
  - destruct (waits (a_timer a)); by split.
  - destruct (queued (a_timer a)); [by split|]. apply announce_sane; [done|]. by split.
Qed.

(** A server never stops announcing itself.  Whether the locator is there or not, as
    long as its endpoints are the same, after any results of the requests to the
    unicorn, in any order, the process is alive and the creation of the node is under
    way, the node is watched, or a retry is scheduled. *)
Theorem announcer_keeps_announcing (e0 : list E) (q : option (list E)) (throws : bool) (es : list announcer_event) :
  forallb (stable e0) (Runs q throws :: es) = true ->
  let a := announcer_run q throws es in
  terminated a = false /\ (creating a = true \/ watching a = true \/ timer_pending (a_timer a) = true).
Proof.
  intros Hes a. simpl in Hes. apply andb_true_iff in Hes as [Hq Hes]. assert (busy a /\ sane e0 a) as [Hb [Ht _]].
  { subst a. unfold announcer_run. pose proof (announce_busy q throws announcer_construct) as H0.
    assert (sane e0 (announce q throws announcer_construct)) as H1 by (apply announce_sane; [done|by split; [|left]]).
    revert H0 H1. generalize (announce q throws announcer_construct).
    induction es as [|e es IH]; intros a Ha Hs; [done|]. simpl in Hes. apply andb_true_iff in Hes as [He Hes].
    apply (IH Hes); [by apply announcer_step_busy|by apply announcer_step_sane]. }
  split; [done|]. destruct Hb as [Hb|Hb]; [congruence|done].
Qed.

(** ** [subscriber_t] *)

(** A subscription: the endpoints, empty when not known *)
Inductive locator_call := LinkNode (uuid : string) (e : list E) | DropNode (uuid : string).

Record subscriber_t := mk_subscriber {
  self : string;
  subscriptions : gmap string (list E);
  subscribed : list string;              (** subscriptions made *)
  calls : list locator_call;             (** what the locator was told *)
  s_timer : timer_t;
  following : bool;                      (** the subscription to the children is live *)
  crashed : bool                         (** a dangling reference was used *)
}.

Definition subscriber_construct (u : string) : subscriber_t := mk_subscriber u ∅ [] [] idle_timer false false.

Definition tell (c : locator_call) (s : subscriber_t) : subscriber_t :=
  mk_subscriber (self s) (subscriptions s) (subscribed s) (calls s ++ [c]) (s_timer s) (following s) (crashed s).
Definition set_subs (m : gmap string (list E)) (s : subscriber_t) : subscriber_t :=
  mk_subscriber (self s) m (subscribed s) (calls s) (s_timer s) (following s) (crashed s).

Definition subscribe (s : subscriber_t) : subscriber_t :=
  mk_subscriber (self s) (subscriptions s) (subscribed s) (calls s) (s_timer s) true (crashed s).

Definition retry_subscribe (s : subscriber_t) : subscriber_t :=
  mk_subscriber (self s) (subscriptions s) (subscribed s) (calls s) (defer_retry (s_timer s)) (following s) (crashed s).

Definition drop (u : string) (s : subscriber_t) : subscriber_t :=
  set_subs (delete u (subscriptions s)) (tell (DropNode u) s).

(** The first loop of [update_state]: nodes that are gone *)
Definition drop_gone (nodes : list string) (s : subscriber_t) : subscriber_t :=
  foldl (fun s u => if decide (u ∈ nodes) then s else drop u s) s (map_to_list (subscriptions s)).*1.

(** A turn of the second loop: [subscriptions[node]] adds a missing entry. *)
Definition follow (s : subscriber_t) (node : string) : subscriber_t :=
  if decide (node = self s) then s
  else
    let e := default [] (subscriptions s !! node) in
    let s := set_subs (<[node := e]> (subscriptions s)) s in
    if decide (e = []) then
      mk_subscriber (self s) (subscriptions s) (subscribed s ++ [node]) (calls s) (s_timer s) (following s) (crashed s)
    else tell (LinkNode node e) s.

Definition update_state (nodes : list string) (s : subscriber_t) : subscriber_t :=
  foldl follow (drop_gone nodes s) nodes.

Definition on_children (r : outcome error_t (list string)) (s : subscriber_t) : subscriber_t :=
  match r with
  | Ret nodes => update_state nodes s
  | Throw _ =>
      retry_subscribe
        (mk_subscriber (self s) (subscriptions s) (subscribed s) (calls s) (s_timer s) false (crashed s))
  end.

(** What a node's subscription gives: whether the node exists, and its endpoints, if the
    value converts to endpoints *)
Inductive node_value := Value (exists_ : bool) (e : option (list E)) | Error.

(** The handler of an exception *)
Definition node_failed (u : string) (s : subscriber_t) : subscriber_t :=
  retry_subscribe (set_subs (<[u := []]> (subscriptions s)) s).

(** [on_node]: [terminate] does not leave the handler.  A change of endpoints erases the
    subscription whose reference is used after. *)
Definition on_node (u : string) (r : node_value) (s : subscriber_t) : subscriber_t :=
  match r with
  | Error => node_failed u s
  | Value exists_ e =>
      let s := if exists_ then s else drop u s in
      match e with
      | None => node_failed u s
      | Some e =>
          let s := if decide (e = []) then drop u s else s in
          let old := default [] (subscriptions s !! u) in
          let s := set_subs (<[u := old]> (subscriptions s)) s in
          if bool_decide (old <> []) && bool_decide (old <> e) then
            let s := drop u s in
            mk_subscriber (self s) (subscriptions s) (subscribed s) (calls s) (s_timer s) (following s) true
          else tell (LinkNode u e) (set_subs (<[u := e]> (subscriptions s)) s)
      end
  end.

Inductive subscriber_event :=
| OnChildren (r : outcome error_t (list string))
| OnNode (u : string) (r : node_value)
| SExpires
| SRuns.

Definition subscriber_step (ev : subscriber_event) (s : subscriber_t) : subscriber_t :=
  if crashed s then s else
  match ev with
  | OnChildren r => if following s then on_children r s else s
  | OnNode u r => if decide (is_Some (subscriptions s !! u)) then on_node u r s else s
  | SExpires =>
      if waits (s_timer s)
      then mk_subscriber (self s) (subscriptions s) (subscribed s) (calls s) (mk_timer false (S (queued (s_timer s))))
             (following s) (crashed s)
      else s
  | SRuns =>
      match queued (s_timer s) with
      | O => s
      | S n => subscribe (mk_subscriber (self s) (subscriptions s) (subscribed s) (calls s)
                            (mk_timer (waits (s_timer s)) n) (following s) (crashed s))
      end
  end.

Definition subscriber_run (u : string) (es : list subscriber_event) : subscriber_t :=
  foldl (fun s e => subscriber_step e s) (subscribe (subscriber_construct u)) es.

(** What the locator knows after some calls *)
Definition view_call (v : gmap string (list E)) (c : locator_call) : gmap string (list E) :=
  match c with LinkNode u e => <[u := e]> v | DropNode u => delete u v end.
Definition view (s : subscriber_t) : gmap string (list E) := foldl view_call ∅ (calls s).

Lemma view_tell c s : view (tell c s) = view_call (view s) c.
Proof. unfold view, tell. simpl. by rewrite foldl_app. Qed.

(** What the locator knows and what the subscriber keeps *)
Record subscriber_wf (s : subscriber_t) : Prop := {
  sw_self : subscriptions s !! self s = None;
  sw_linked : forall u e, subscriptions s !! u = Some e -> e <> [] -> view s !! u = Some e;
  sw_known : forall u, is_Some (view s !! u) -> is_Some (subscriptions s !! u);
  sw_busy : following s = true \/ timer_pending (s_timer s) = true
}.

Lemma drop_wf u s : subscriber_wf s -> subscriber_wf (drop u s).
Proof.
  intros [H1 H2 H3 H4]. split; try done; simpl.
  - by apply lookup_delete_None; right.
  - intros v e. rewrite lookup_delete_Some. intros [Hne Hv] He.
    change (view (drop u s)) with (view (tell (DropNode u) s)). rewrite view_tell. simpl. rewrite lookup_delete_ne by done. auto.
  - intros v. change (view (drop u s)) with (view (tell (DropNode u) s)). rewrite view_tell. simpl.
    rewrite !lookup_delete_is_Some. naive_solver.
Qed.

Lemma forget_wf u s : u <> self s -> subscriber_wf s -> subscriber_wf (set_subs (<[u := []]> (subscriptions s)) s).
Proof.
  intros Hu [H1 H2 H3 H4]. split; try done; simpl.
  - by rewrite lookup_insert_ne.
  - intros v e. destruct (decide (u = v)) as [->|]; [rewrite lookup_insert_eq; intros [= <-]; done|].
    rewrite lookup_insert_ne by done. apply H2.
  - intros v Hv. apply lookup_insert_is_Some'. right. by apply H3.
Qed.

(** Linking a node with endpoints that replace none or the same *)
Lemma link_wf u e s :
  u <> self s -> subscriber_wf s -> subscriber_wf (tell (LinkNode u e) (set_subs (<[u := e]> (subscriptions s)) s)).
Proof.
  intros Hu [H1 H2 H3 H4].
  assert (view (tell (LinkNode u e) (set_subs (<[u := e]> (subscriptions s)) s)) = <[u := e]> (view s)) as Hv by apply view_tell.
  split; try done; rewrite ?Hv; simpl.
  - by rewrite lookup_insert_ne.
  - intros v e'. destruct (decide (u = v)) as [->|]; [by rewrite !lookup_insert_eq|]. rewrite !lookup_insert_ne by done. apply H2.
  - intros v. rewrite !lookup_insert_is_Some'. naive_solver.
Qed.

Lemma follow_wf node s : subscriber_wf s -> subscriber_wf (follow s node).
Proof.
  intros Hs. unfold follow. case_decide as Hn; [done|]. destruct (subscriptions s !! node) as [e|] eqn:Ee; simpl.
  - case_decide as He; [|by apply link_wf]. subst e. pose proof (forget_wf node s Hn Hs) as []. by split.
  - pose proof (forget_wf node s Hn Hs) as []. by split.
Qed.

Lemma drop_gone_wf nodes s : subscriber_wf s -> subscriber_wf (drop_gone nodes s).
Proof.
  unfold drop_gone. generalize (map_to_list (subscriptions s)).*1. intros l. revert s.
  induction l as [|u l IH]; intros s Hs; [done|]. simpl. apply IH. case_decide; [done|by apply drop_wf].
Qed.

Lemma update_state_wf nodes s : subscriber_wf s -> subscriber_wf (update_state nodes s).
Proof.
  intros Hs. unfold update_state. apply (drop_gone_wf nodes) in Hs. revert Hs. generalize (drop_gone nodes s).
  induction nodes as [|u nodes IH]; intros s0 Hs; [done|]. simpl. by apply IH, follow_wf.
Qed.

Lemma retry_wf s : subscriber_wf s -> subscriber_wf (retry_subscribe s).
Proof. intros []. split; try done. by right. Qed.

Lemma on_node_wf u r s :
  u <> self s -> subscriber_wf s -> crashed (on_node u r s) = false -> subscriber_wf (on_node u r s).
Proof.
  intros Hu Hs. destruct r as [ex [e|]|]; simpl.
  - set (s1 := if ex then s else drop u s). assert (subscriber_wf s1 /\ self s1 = self s) as [Hs1 E1]
      by (unfold s1; destruct ex; [done|split; [by apply drop_wf|done]]).
    set (s2 := if decide (e = []) then drop u s1 else s1). assert (subscriber_wf s2 /\ self s2 = self s) as [Hs2 E2]
      by (unfold s2; case_decide; [split; [by apply drop_wf|done]|done]).
    destruct (bool_decide _ && bool_decide _); [done|]. intros _.
    replace (<[u := e]> (<[u := default [] (subscriptions s2 !! u)]> (subscriptions s2))) with (<[u := e]> (subscriptions s2))
      by (by rewrite insert_insert_eq).
    apply (link_wf u e s2); [by rewrite E2|done].
  - intros _. unfold node_failed. apply retry_wf, forget_wf; destruct ex; try done. by apply drop_wf.
  - intros _. by apply retry_wf, forget_wf.
Qed.

Lemma subscriber_step_wf ev s :
  subscriber_wf s -> crashed (subscriber_step ev s) = false -> subscriber_wf (subscriber_step ev s).
Proof.
  intros Hs. unfold subscriber_step. destruct (crashed s) eqn:Ec; [done|]. destruct ev as [r|u r| |].
  - destruct (following s) eqn:Ef; [|done]. intros _. destruct r as [nodes|e]; [by apply update_state_wf|].
    destruct Hs. split; try done. by right.
  - case_decide as Hu; [|done]. apply on_node_wf; [|done]. intros ->. rewrite (sw_self s Hs) in Hu. by destruct Hu.
  - destruct (waits (s_timer s)) eqn:Ew; [|done]. intros _. destruct Hs. split; try done. by right.
  - destruct (queued (s_timer s)) eqn:Eq; [done|]. intros _. destruct Hs. split; try done. by left.
Qed.

Lemma subscriber_run_wf u es : crashed (subscriber_run u es) = false -> subscriber_wf (subscriber_run u es).
Proof.
  unfold subscriber_run. assert (subscriber_wf (subscribe (subscriber_construct u))) as H0.
  { by split; [..|left]. }
  revert H0. generalize (subscribe (subscriber_construct u)). induction es as [|e es IH]; intros s Hs Hc; [done|]. simpl in *.
  apply IH; [|done]. apply subscriber_step_wf; [done|]. destruct (crashed (subscriber_step e s)) eqn:E'; [|done].
  exfalso. assert (forall es s, crashed s = true -> crashed (foldl (fun s e => subscriber_step e s) s es) = true) as Hd.
  { clear. induction es as [|e es IH]; intros s Hs; [done|]. simpl. apply IH. unfold subscriber_step. by rewrite Hs. }
  by rewrite (Hd es _ E') in Hc.
Qed.

(** C29: the locator agrees with the subscriber.  After any lists of nodes and any values
    of the nodes, in any order, as long as no endpoints have changed under a known node:
    the locator is linked to every node whose endpoints are known, with these endpoints,
    it is linked to no node that the subscriber does not follow, nor to itself; and the
    list of nodes is followed or a retry is scheduled. *)
Theorem locator_agrees (u : string) (es : list subscriber_event) :
  let s := subscriber_run u es in
  crashed s = false ->
  (forall v e, subscriptions s !! v = Some e -> e <> [] -> view s !! v = Some e) /\
  (forall v, is_Some (view s !! v) -> is_Some (subscriptions s !! v) /\ v <> self s) /\
  (following s = true \/ timer_pending (s_timer s) = true).
Proof.
  intros s Hc. destruct (subscriber_run_wf u es Hc) as [H1 H2 H3 H4]. fold s in H1, H2, H3, H4. split_and!; try done.
  intros v Hv. split; [by apply H3|]. intros ->. apply H3 in Hv. rewrite H1 in Hv. by destruct Hv.
Qed.

(** *** What a list of nodes does *)

Lemma drop_gone_lookup nodes s v :
  subscriptions (drop_gone nodes s) !! v = if decide (v ∈ nodes) then subscriptions s !! v else None.
Proof.
  unfold drop_gone.
  assert (forall l s, subscriptions (foldl (fun s u => if decide (u ∈ nodes) then s else drop u s) s l) !! v =
            if decide (v ∈ l /\ v ∉ nodes) then None else subscriptions s !! v) as Hl.
  { induction l as [|x l IH]; intros s0; [rewrite decide_False; [done|set_solver]|]. cbn [foldl]. rewrite IH.
    destruct (decide (x ∈ nodes)) as [Hx|Hx]; simpl.
    - destruct (decide (v ∈ l /\ v ∉ nodes)), (decide (v ∈ x :: l /\ v ∉ nodes)); set_solver.
    - destruct (decide (x = v)) as [->|Hne].
      + rewrite lookup_delete_eq, (decide_True (P := v ∈ v :: l /\ v ∉ nodes)) by set_solver. by case_decide.
      + rewrite lookup_delete_ne by done.
        destruct (decide (v ∈ l /\ v ∉ nodes)), (decide (v ∈ x :: l /\ v ∉ nodes)); set_solver. }
  rewrite Hl. destruct (decide (v ∈ nodes)); [by rewrite decide_False by tauto|].
  destruct (subscriptions s !! v) as [e|] eqn:Ev; [|by destruct (decide _)]. rewrite decide_True; [done|]. split; [|done].
  apply list_elem_of_fmap. exists (v, e). split; [done|]. by apply elem_of_map_to_list.
Qed.

Lemma follow_fields node s : self (follow s node) = self s /\
  forall v, subscriptions (follow s node) !! v =
    if decide (v = node /\ node <> self s) then Some (default [] (subscriptions s !! v)) else subscriptions s !! v.
Proof.
  unfold follow. destruct (decide (node = self s)) as [->|Hn].
  { split; [done|]. intros v. rewrite decide_False by tauto. done. }
  set (e := default [] _). assert (forall v, <[node := e]> (subscriptions s) !! v =
    if decide (v = node /\ node <> self s) then Some (default [] (subscriptions s !! v)) else subscriptions s !! v) as Hv.
  { intros v. destruct (decide (v = node)) as [->|]; [by rewrite lookup_insert_eq, decide_True|].
    rewrite lookup_insert_ne by congruence. by rewrite decide_False by tauto. }
  destruct (decide (e = [])); (split; [done|exact Hv]).
Qed.

Lemma follow_all_fields nodes : forall s, self (foldl follow s nodes) = self s /\
  forall v, subscriptions (foldl follow s nodes) !! v =
    if decide (v ∈ nodes /\ v <> self s) then Some (default [] (subscriptions s !! v)) else subscriptions s !! v.
Proof.
  induction nodes as [|node nodes IH]; intros s; [split; [done|]; intros v; by rewrite decide_False by set_solver|]. cbn [foldl].
  destruct (IH (follow s node)) as [E1 E2], (follow_fields node s) as [F1 F2]. split; [congruence|]. intros v.
  rewrite E2, F1, F2. destruct (decide (v = node /\ node <> self s)) as [[-> Hn]|Hn].
  - rewrite (decide_True (P := node ∈ node :: nodes /\ node <> self s)) by set_solver. by destruct (decide (node ∈ nodes /\ node <> self s)).
  - destruct (decide (v ∈ nodes /\ v <> self s)), (decide (v ∈ node :: nodes /\ v <> self s)); set_solver.
Qed.

(** The members of the cluster are the nodes of the last list, without the server
    itself: nodes that are gone are forgotten, new ones are followed, and what is known
    of the others is kept. *)
Theorem update_state_members (u : string) (es : list subscriber_event) (nodes : list string) (v : string) :
  let s := subscriber_run u es in
  crashed s = false ->
  subscriptions (update_state nodes s) !! v =
    if decide (v ∈ nodes /\ v <> self s) then Some (default [] (subscriptions s !! v)) else None.
Proof.
  intros s Hc. pose proof (sw_self s (subscriber_run_wf u es Hc)) as Hself. unfold update_state.
  destruct (follow_all_fields nodes (drop_gone nodes s)) as [_ ->].
  assert (self (drop_gone nodes s) = self s) as ->.
  { unfold drop_gone. generalize (map_to_list (subscriptions s)).*1. intros l. generalize s.
    induction l as [|x l IH]; intros s0; [done|]. simpl. rewrite IH. by case_decide. }
  rewrite drop_gone_lookup. destruct (decide (v ∈ nodes /\ v <> self s)) as [[Hv _]|Hv]; [by rewrite decide_True|].
  destruct (decide (v ∈ nodes)); [|done]. destruct (decide (v = self s)) as [->|]; [done|tauto].
Qed.

(** When the endpoints of a node change, the handler erases the subscription and then
    writes through the reference to it; and a node that has disappeared is dropped, but
    the exception of converting its empty value puts it back, without endpoints. *)
Theorem on_node_does_not_leave (u : string) (old e : list E) (s : subscriber_t) :
  subscriptions s !! u = Some old -> old <> [] -> e <> [] -> e <> old ->
  crashed (on_node u (Value true (Some e)) s) = true /\
  subscriptions (on_node u (Value false None) s) !! u = Some [].
Proof.
  intros Hu Ho He Hne. split.
  - simpl. rewrite (decide_False (P := e = [])) by done. rewrite Hu. simpl.
    rewrite !bool_decide_true by done. done.
  - simpl. by rewrite lookup_insert_eq.
Qed.
End cluster.

(** ** Witnesses *)

Lemma announcer_witness :
  let a := announcer_run None false [Expires; Runs (Some [1%nat]) false; OnSet (Throw node_exists); OnCheck (Throw no_node)] in
  terminated a = false /\ (creating a = true \/ watching a = true \/ timer_pending (a_timer a) = true).
Proof.
  apply (announcer_keeps_announcing [1%nat] None false
    [Expires; Runs (Some [1%nat]) false; OnSet (Throw node_exists); OnCheck (Throw no_node)]). reflexivity.
Defined.

Definition two_nodes : list (@subscriber_event nat) :=
  [OnChildren (Ret ["me"; "a"; "b"]%string); OnNode "a" (Value true (Some [1%nat])); OnNode "b" Error;
   OnChildren (Ret ["me"; "a"]%string)].

Lemma locator_agrees_witness :
  view (subscriber_run "me" two_nodes) !! "a"%string = Some [1%nat].
Proof.
  apply (locator_agrees "me" two_nodes); [reflexivity|vm_compute; reflexivity|done].
Defined.

Lemma update_state_witness :
  subscriptions (update_state ["a"; "me"]%string (subscriber_run "me" two_nodes)) !! "a"%string = Some [1%nat].
Proof.
  etransitivity; [apply (update_state_members "me" two_nodes ["a"; "me"]%string "a"); reflexivity|vm_compute; reflexivity].
Defined.

Lemma on_node_witness :
  crashed (on_node "a" (Value true (Some [2%nat])) (subscriber_run "me" two_nodes)) = true.
Proof.
  apply (on_node_does_not_leave "a" [1%nat] [2%nat] (subscriber_run "me" two_nodes)); [vm_compute; reflexivity|done|done|done].
Defined.
