(* ===== verification/UnicornService.v ===== *)
(** * The unicorn service: [unicorn/src/service/unicorn.cpp]

    One request of a client: [unicorn_slot_t] checks the path, identifies the client,
    asks the authorization and runs the method of the unicorn; [unicorn_dispatch_t] keeps
    the scope of the operation and closes it when the client is gone.

    Identification, authorization and the method complete in their own time: their
    results are arguments of the events.  [deferred] and [streamed] of the core library
    keep what is written until they are attached to the client's stream.  Sending to a
    client that is gone throws. *)

From S2P Require Import Prelude Zookeeper.

Local Open Scope cpp_scope.

Section service.
(** Results of the method; codes of errors *)
Context {R code : Type}.

(** ** [unicorn_dispatch_t] *)

(** The scope, with the number of times it has been closed *)
Record dispatch_t := mk_dispatch { scope : option nat; discarded : bool }.

Definition close_scope (d : dispatch_t) : dispatch_t := mk_dispatch (S <$> scope d) (discarded d).

Definition attach (d : dispatch_t) : dispatch_t :=
  let d := mk_dispatch (Some 0) (discarded d) in
  if discarded d then close_scope d else d.

Definition discard (d : dispatch_t) : dispatch_t :=
  let d := mk_dispatch (scope d) true in
  match scope d with Some _ => close_scope d | None => d end.

(** ** [unicorn_slot_t] *)

Inductive stage := Fresh | Verifying | Finished.

(** What the client is sent: an error, or what is written to the response *)
Inductive message := ErrorMsg (c : code) | Result (r : outcome code R).

Record slot_t := mk_slot {
  st : stage;
  sent : list message;               (** sent to the client *)
  response : list (outcome code R);  (** written to the response before it is attached *)
  attached : bool;
  runs : nat;                        (** calls of the method *)
  dispatch : dispatch_t;
  gone : bool                        (** sending throws *)
}.

Definition slot_construct : slot_t := mk_slot Fresh [] [] false 0 (mk_dispatch None false) false.

Context (invalid_path_code uncaught_error : code).

Definition set_st (x : stage) (s : slot_t) : slot_t :=
  mk_slot x (sent s) (response s) (attached s) (runs s) (dispatch s) (gone s).
Definition set_dispatch (x : dispatch_t) (s : slot_t) : slot_t :=
  mk_slot (st s) (sent s) (response s) (attached s) (runs s) x (gone s).

Abbreviation M := (ST slot_t unit).

(** [upstream.send<protocol::error>] *)
Definition send_error (c : code) : M unit :=
  let! g := st_gets gone in
  if g then st_throw tt
  else st_modify (fun s => mk_slot (st s) (sent s ++ [ErrorMsg c]) (response s) (attached s) (runs s) (dispatch s) (gone s)).

(** [response.attach]: what has been written is sent, if there is someone to send it to. *)
Definition attach_response : M unit :=
  st_modify (fun s => mk_slot (st s) (if gone s then sent s else sent s ++ (Result <$> response s)) [] true
                        (runs s) (dispatch s) (gone s)).

(** What calling the method does: an operation with its scope, of which some results may
    have come before the scope is attached, or an exception *)
Inductive call_result := Started (early : list (outcome code R)) | SystemError (c : code) | OtherException.

(** [on_validated] *)
Definition on_validated (ec : option code) (r : call_result) : M unit :=
  match ec with
  | Some c => send_error c
  | None =>
      st_modify (fun s => mk_slot (st s) (sent s) (response s) (attached s) (S (runs s)) (dispatch s) (gone s)) ;;;
      (match r with
       | Started early =>
           st_modify (fun s => mk_slot (st s) (sent s) (response s ++ early) (attached s) (runs s) (dispatch s) (gone s)) ;;;
           st_modify (fun s => set_dispatch (attach (dispatch s)) s)
       | SystemError c => send_error c
       | OtherException => send_error uncaught_error
       end) ;;;
      attach_response
  end.

(** The callback of the authorization catches what [on_validated] throws. *)
Definition on_verified (ec : option code) (r : call_result) : M unit :=
  st_modify (set_st Finished) ;;; st_catch (on_validated ec r) (fun _ => st_ret tt).

(** [operator()]; [identity] is what identification gives. *)
Definition request (path : path_t) (identity : outcome code unit) : M unit :=
  if decide (path = "/"%string) then st_modify (set_st Finished) ;;; send_error invalid_path_code
  else match identity with
       | Throw c => st_modify (set_st Finished) ;;; send_error c
       | Ret _ => st_modify (set_st Verifying)
       end.

(** [on_response]: writing to the client that is gone throws, and the error is eaten. *)
Definition on_response (r : outcome code R) (s : slot_t) : slot_t :=
  if attached s then
    mk_slot (st s) (if gone s then sent s else sent s ++ [Result r]) (response s) true (runs s) (dispatch s) (gone s)
  else mk_slot (st s) (sent s) (response s ++ [r]) false (runs s) (dispatch s) (gone s).

Inductive event :=
| Request (path : path_t) (identity : outcome code unit)
| Verified (ec : option code) (r : call_result)
| Response (r : outcome code R)
| Leaves                (** the client's connection breaks, *)
| Discards.             (** and the dispatch is discarded, or the client closes it. *)

Definition step (e : event) (s : slot_t) : slot_t :=
  match e with
  | Request p i => match st s with Fresh => (request p i s).2 | _ => s end
  | Verified ec r => match st s with Verifying => (on_verified ec r s).2 | _ => s end
  | Response r => if decide (is_Some (scope (dispatch s))) then on_response r s else s
  | Leaves => mk_slot (st s) (sent s) (response s) (attached s) (runs s) (dispatch s) true
  | Discards => set_dispatch (discard (dispatch s)) s
  end.

Definition run (es : list event) : slot_t := foldl (fun s e => step e s) slot_construct es.

(** ** What a request does *)

Definition is_result (m : message) : bool := match m with Result _ => true | ErrorMsg _ => false end.

Definition refusal (m : list message) : Prop := m = [] \/ exists c, m = [ErrorMsg c].

(** Before the method is called nothing is kept; after, there is a scope, or the client
    was told of the failure. *)
Record slot_wf (s : slot_t) : Prop := {
  w_fresh : st s <> Finished -> sent s = [] /\ response s = [] /\ attached s = false /\ runs s = 0 /\ scope (dispatch s) = None;
  w_runs : runs s <= 1;
  w_scope : is_Some (scope (dispatch s)) -> runs s = 1 /\ attached s = true /\ response s = [] /\ forallb is_result (sent s) = true;
  w_none : scope (dispatch s) = None -> refusal (sent s);
  w_closed : forall n, scope (dispatch s) = Some n -> discarded (dispatch s) = false -> n = 0;
  w_discarded : forall n, scope (dispatch s) = Some n -> discarded (dispatch s) = true -> 0 < n
}.

Lemma all_results l : forallb is_result (Result <$> l) = true.
Proof. by induction l. Qed.

Lemma request_wf p i s : st s = Fresh -> slot_wf s -> slot_wf (request p i s).2.
Proof.
  intros Hf [H1 H2 H3 H4 H5 H6]. destruct (H1 ltac:(by rewrite Hf)) as (Es & Er & Ea & En & Ed).
  unfold request, send_error, st_bind, st_gets, st_modify, st_throw.
  case_decide; [|destruct i]; simpl; try (destruct (gone s); simpl); split; simpl; rewrite ?Es, ?Er, ?Ea, ?En, ?Ed;
    try done; try (by intros []); try lia; try (intros _; by left); try (intros _; right; by eexists).
Qed.

Lemma on_verified_wf ec r s : st s = Verifying -> slot_wf s -> slot_wf (on_verified ec r s).2.
Proof.
  intros Hf [H1 H2 H3 H4 H5 H6]. destruct (H1 ltac:(by rewrite Hf)) as (Es & Er & Ea & En & Ed).
  unfold on_verified, on_validated, attach_response, send_error, st_catch, st_bind, st_gets, st_modify, st_throw, st_ret, attach.
  destruct ec; [|destruct r as [early|c|]]; simpl; try (destruct (discarded (dispatch s)) eqn:Edi; simpl);
    try (destruct (gone s) eqn:Eg; simpl); split; simpl; rewrite ?Es, ?Er, ?Ea, ?En, ?Ed, ?Edi;
    try done; try (by intros []); try lia; try (intros _; by left); try (intros _; right; by eexists);
    try (intros n [= <-]; (done || lia)).
  all: intros _; split_and!; try done; apply all_results.
Qed.

Lemma slot_step_wf e s : slot_wf s -> slot_wf (step e s).
Proof.
  intros Hs. destruct e as [p i|ec r|r| |]; simpl.
  - destruct (st s) eqn:E; try done. by apply request_wf.
  - destruct (st s) eqn:E; try done. by apply on_verified_wf.
  - case_decide as Hsc; [|done]. pose proof Hs as [H1 H2 H3 H4 H5 H6]. destruct (H3 Hsc) as (En & Ea & Er & Eall).
    unfold on_response. rewrite Ea. split; simpl; try done.
    + intros Hf. destruct (H1 Hf) as (_ & _ & ? & _). congruence.
    + intros _. split_and!; try done. destruct (gone s); [done|]. by rewrite forallb_app, Eall.
    + intros Hn. rewrite Hn in Hsc. by destruct Hsc.
  - destruct Hs as [H1 H2 H3 H4 H5 H6]. by split.
  - destruct Hs as [H1 H2 H3 H4 H5 H6]. unfold discard. simpl. destruct (scope (dispatch s)) as [k|] eqn:Ek; simpl.
    + split; simpl; rewrite ?Ek; simpl; try done.
      * intros Hf. by destruct (H1 Hf) as (_ & _ & _ & _ & ?).
      * intros _. by apply H3.
      * intros n [= <-] _. lia.
    + split; simpl; rewrite ?Ek; try done.
Qed.

Lemma slot_run_wf es : slot_wf (run es).
Proof.
  unfold run. assert (slot_wf slot_construct) as H0 by (split; simpl; (done || lia || by intros [] || intros _; by left)).
  revert H0. generalize slot_construct. induction es as [|e es IH]; intros s Hs; [done|]. by apply IH, slot_step_wf.
Qed.

(** What has happened before *)
Definition let_in (es : list event) : Prop := exists p, Request p (Ret tt) ∈ es /\ p <> "/"%string.

Lemma run_history es :
  (st (run es) = Verifying -> let_in es) /\ (0 < runs (run es) -> let_in es /\ exists r, Verified None r ∈ es).
Proof.
  induction es as [|e es [IH1 IH2]] using rev_ind; [split; simpl; (done || lia)|].
  unfold run in *. rewrite foldl_app. simpl. set (s := foldl _ _ es) in *.
  assert (let_in es -> let_in (es ++ [e])) as Hmono.
  { intros (p & Hp & Hne). exists p. split; [|done]. apply elem_of_app. by left. }
  assert (0 < runs s -> let_in (es ++ [e]) /\ exists r, Verified None r ∈ es ++ [e]) as Hruns.
  { intros H. destruct (IH2 H) as [Hl [r Hr]]. split; [auto|]. exists r. apply elem_of_app. by left. }
  destruct e as [p i|ec r|r| |]; simpl.
  - destruct (st s) eqn:E; try (split; [intros ?; (congruence || auto)|exact Hruns]). unfold request. case_decide as Hp; [|destruct i as [[]|c]].
    1,3: unfold send_error, st_bind, st_gets, st_modify, st_throw; simpl; destruct (gone s); simpl; (split; [discriminate|exact Hruns]).
    split; [|exact Hruns]. intros _. exists p. split; [|done]. apply elem_of_app. right. by left.
  - destruct (st s) eqn:E; try (split; [intros ?; (congruence || auto)|exact Hruns]). specialize (Hmono (IH1 eq_refl)).
    assert (st (on_verified ec r s).2 = Finished /\ (ec <> None -> runs (on_verified ec r s).2 = runs s)) as [Hst Hru].
    { unfold on_verified, on_validated, attach_response, send_error, st_catch, st_bind, st_gets, st_modify, st_throw, st_ret.
      destruct ec; [|destruct r]; simpl; try (destruct (gone s)); by simpl. }
    rewrite Hst. split; [discriminate|]. destruct ec as [c|].
    + rewrite Hru by done. exact Hruns.
    + intros _. split; [done|]. exists r. apply elem_of_app. right. by left.
  - case_decide; [|by auto]. unfold on_response. destruct (attached s); simpl; auto.
  - auto.
  - auto.
Qed.

(** What a request of a client comes to, whatever the order in which it is verified,
    answered, closed and abandoned.  The method of the unicorn is called at most once,
    and only for a path other than the root, of an identified client, which the
    authorization has let in.  An operation that has started sends the client nothing but
    its results, and its scope has been closed exactly if the client has closed it or is
    gone, before or after it started.  Otherwise the client gets at most one error. *)
Theorem slot_contract (es : list event) :
  let s := run es in
  (runs s <= 1) /\
  (runs s = 1 -> let_in es /\ exists r, Verified None r ∈ es) /\
  match scope (dispatch s) with
  | Some n => runs s = 1 /\ forallb is_result (sent s) = true /\ (0 < n <-> discarded (dispatch s) = true)
  | None => refusal (sent s)
  end.
Proof.
  intros s. destruct (slot_run_wf es) as [_ H2 H3 H4 H5 H6]. fold s in H2, H3, H4, H5, H6. destruct (run_history es) as [_ Hh].
  fold s in Hh. split_and!; [done|intros E; apply Hh; lia|].
  destruct (scope (dispatch s)) as [n|] eqn:E; [|by apply H4]. destruct (H3 ltac:(eauto)) as (? & _ & _ & ?). split_and!; try done.
  destruct (discarded (dispatch s)); (split; [|auto]); [done|]. intros Hn. specialize (H5 n eq_refl eq_refl). lia.
Qed.
End service.

(** A client that leaves before its subscription starts: the scope is closed. *)
Example closed_before_start :
  scope (dispatch (run (R := nat) (code := nat) 1 2
    [Request "/a" (Ret tt); Discards; Verified None (Started []); Response (Ret 7)])) = Some 1.
Proof. reflexivity. Qed.
