(* ===== verification/UnicornApi.v ===== *)
(** * From the protocol of the unicorn to the actions of its backend

    [unicorn/src/service/unicorn.cpp] maps every message of the protocol to a method of the
    unicorn and to a response, one value or a stream; the methods at the end of
    [unicorn/src/unicorn/zookeeper.cpp] map calls to the actions of [UnicornActions.v].
    [responses_typed] puts the two together with the protocol ([Protocols.v]).

    Also here: the configuration of the backend, and how the lines that the ZooKeeper
    library prints become records of the log ([unicorn/src/repository/zookeeper.cpp],
    [unicorn/src/zookeeper.cpp]). *)

From Stdlib Require Import Ascii.
From S2P Require Import Prelude LogFilter Dynamic Protocols Zookeeper UnicornActions.

Local Open Scope Z_scope.
Local Open Scope cpp_scope.

(** ** Configuration *)

Record cfg_t := mk_cfg { endpoints : list endpoint_t; recv_timeout_ms : Z; cfg_prefix : string }.

(** One element of ["endpoints"]; the port is cut to [unsigned int]. *)
Definition endpoint_of (d : dynamic_t) : option endpoint_t :=
  as_object d ≫= fun m =>
  (find_field "host" m ≫= as_string) ≫= fun host =>
  (find_field "port" m ≫= as_uint) ≫= fun p => Some (mk_endpoint host (Z.to_N (u32 p))).

Definition make_zk_config (args : dynamic_t) : option cfg_t :=
  as_object args ≫= fun cfg =>
  as_array (field "endpoints" (DArray []) cfg) ≫= fun l =>
  all_of endpoint_of l ≫= fun es =>
  as_uint (field "recv_timeout_ms" (DUint 1000) cfg) ≫= fun t =>
  as_string (field "prefix" (DString "") cfg) ≫= fun p =>
  Some (mk_cfg (match es with [] => [mk_endpoint "localhost" 2181] | _ => es end) (u32 t) p).

(** ** Methods *)

(** The calls of [api::v15::unicorn_t]; [now] is the clock. *)
Inductive method_t :=
| m_put (path : path_t) (value : value_t) (v : version_t)
| m_get (path : path_t)
| m_create (path : path_t) (value : value_t) (ephemeral sequence : bool)
| m_del (path : path_t) (v : version_t)
| m_subscribe (path : path_t)
| m_children_subscribe (path : path_t)
| m_increment (path : path_t) (value : value_t)
| m_lock (path : path_t) (now : Z)
| m_named_lock (path : path_t) (value : value_t).

(** [zookeeper_t]: the action of a method, which [run_command] starts *)
Definition action_of (m : method_t) : action_t :=
  match m with
  | m_put path value v => put_t path value v
  | m_get path => get_t path
  | m_create path value ephemeral sequence => create_t path value ephemeral sequence 0
  | m_del path v => del_t path v
  | m_subscribe path => subscribe_t path
  | m_children_subscribe path => children_subscribe_t path
  | m_increment path value => increment_t path value
  | m_lock path now => lock_construct path (DInt now)
  | m_named_lock path value => lock_construct path value
  end.

(** ** Messages of the service *)

Inductive request_t :=
| subscribe (path : path_t)
| children_subscribe (path : path_t)
| put (path : path_t) (value : value_t) (v : version_t)
| get (path : path_t)
| create (path : path_t) (value : value_t)
| del (path : path_t) (v : version_t)
| remove (path : path_t) (v : version_t)
| increment (path : path_t) (value : value_t)
| lock (path : path_t)
| named_lock (path : path_t) (value : value_t).

Definition message_of (r : request_t) : message :=
  match r with
  | subscribe _ => unicorn_subscribe
  | children_subscribe _ => unicorn_children_subscribe
  | put _ _ _ => unicorn_put
  | get _ => unicorn_get
  | create _ _ => unicorn_create
  | del _ _ => unicorn_del
  | remove _ _ => unicorn_remove
  | increment _ _ => unicorn_increment
  | lock _ => unicorn_lock
  | named_lock _ _ => unicorn_named_lock
  end.

(** [method_of], with the methods that the constructor registers; [create_default] creates
    a node that is neither ephemeral nor one of a sequence. *)
Definition method_of (now : Z) (r : request_t) : method_t :=
  match r with
  | subscribe path => m_subscribe path
  | children_subscribe path => m_children_subscribe path
  | put path value v => m_put path value v
  | get path => m_get path
  | create path value => m_create path value false false
  | del path v | remove path v => m_del path v
  | increment path value => m_increment path value
  | lock path => m_lock path now
  | named_lock path value => m_named_lock path value
  end.

Inductive response_t := Deferred | Streamed.
Definition response_of (r : request_t) : response_t :=
  match r with
  | subscribe _ | children_subscribe _ | lock _ | named_lock _ _ => Streamed
  | _ => Deferred
  end.

(** What is sent for a result *)
Definition fields_of (r : result_t) : list ty :=
  match r with
  | Versioned _ _ => [versioned_value_t]
  | PutResult _ _ _ => [TBool; versioned_value_t]
  | Done _ => [TBool]
  | Children _ _ => [Protocols.version_t; TVector TString]
  end.

(** ** Log of the library *)

Inductive severity_t := debug | info | warning | error.

Definition is_space (c : ascii) : bool := let n := nat_of_ascii c in ((9 <=? n) && (n <=? 13))%nat || (n =? 32)%nat.
Fixpoint trim_left (s : string) : string :=
  match s with String c s' => if is_space c then trim_left s' else s | EmptyString => s end.
Fixpoint trim_right (s : string) : string :=
  match s with
  | EmptyString => EmptyString
  | String c s => match trim_right s with
                  | EmptyString => if is_space c then EmptyString else String c EmptyString
                  | r => String c r
                  end
  end.
Definition trim (s : string) : string := trim_right (trim_left s).

Definition to_lower (c : ascii) : ascii :=
  let n := nat_of_ascii c in if ((65 <=? n) && (n <=? 90))%nat then ascii_of_nat (n + 32) else c.

Definition severity_of (c : ascii) : severity_t :=
  match c with "I"%char => info | "W"%char => warning | "E"%char => error | _ => debug end.

(** [substr(pos)] with the size that is left *)
Definition substr_from (n : nat) (s : string) : string := String.substring n (String.length s - n) s.

(** [do_log]: the record, unless the line is not one of the library's.  Where there is no
    colon the position is the largest number of [size_t], and two more is one. *)
Definition do_log (buf : string) : option (severity_t * string) :=
  let message := trim buf in
  match String.index 0 "ZOO_" message with
  | None => None
  | Some pos =>
      match String.get (pos + 4) message with
      | None => None
      | Some c =>
          let text := substr_from (match String.index 0 ": " message with Some pos => pos + 2 | None => 1 end)%nat message in
          Some (severity_of c, match text with String c s => String (to_lower c) s | EmptyString => text end)
      end
  end.

(** The names of the library's constants in the log *)
Definition event_to_string (e : watch_type) : string :=
  match e with
  | CREATED_EVENT => "created"
  | DELETED_EVENT => "deleted"
  | CHANGED_EVENT => "changed"
  | CHILD_EVENT => "child"
  | SESSION_EVENT => "session"
  | NOTWATCHING_EVENT => "not watching"
  | _ => "unknown"
  end.

Definition state_to_string (s : watch_state) : string :=
  match s with
  | EXPIRED_SESSION_STATE => "expired session"
  | AUTH_FAILED_STATE => "auth failed"
  | CONNECTING_STATE => "connecting"
  | ASSOCIATING_STATE => "associating"
  | CONNECTED_STATE => "connected"
  | _ => "unknown"
  end.

(** ** Facts *)

(** There is always an endpoint to connect to, and its port fits. *)
Lemma make_zk_config_endpoints args c :
  make_zk_config args = Some c ->
  endpoints c <> [] /\ Forall (fun e => (port e < 2 ^ 32)%N) (endpoints c).
Proof.
  unfold make_zk_config. intros H.
  repeat (apply bind_Some in H as (? & ? & H)). injection H as <-. cbn [endpoints].
  match goal with H : all_of _ _ = Some _ |- _ => apply all_of_Some in H as F end.
  destruct x1 as [|e es].
  - split; [done|]. repeat constructor.
  - split; [done|]. clear - F. induction F as [|d e' l es' He F IH]; constructor; [|done].
    unfold endpoint_of in He. apply bind_Some in He as (m & _ & He). apply bind_Some in He as (h & _ & He).
    apply bind_Some in He as (p & _ & He). injection He as <-. simpl.
    unfold u32. pose proof (Z.mod_pos_bound p (2 ^ 32) ltac:(lia)). lia.
Qed.

Example config_defaults :
  make_zk_config (DObject []) = Some (mk_cfg [mk_endpoint "localhost" 2181] 1000 "").
Proof. reflexivity. Qed.

(** A port beyond 32 bits is cut. *)
Example port_is_cut :
  make_zk_config (DObject [("endpoints", DArray [DObject [("host", DString "h"); ("port", DUint 4294969477)]])])
  = Some (mk_cfg [mk_endpoint "h" 2181] 1000 "").
Proof. reflexivity. Qed.

Example log_line :
  do_log "2017-01-01 12:00:00,000:42(0x7f):ZOO_INFO@check_events@1703: Initiated connection
" = Some (info, "initiated connection").
Proof. vm_compute. reflexivity. Qed.

(** A line without a colon loses its first character. *)
Example log_line_without_colon : do_log "ZOO_WARN lost" = Some (warning, "oO_WARN lost").
Proof. vm_compute. reflexivity. Qed.

(** *** The types of the results *)

Definition result_type (k : class_t) : list ty :=
  match k with
  | Put => [TBool; versioned_value_t]
  | Get | Subscribe | Increment => [versioned_value_t]
  | Create | Del | Lock => [TBool]
  | ChildrenSubscribe => [Protocols.version_t; TVector TString]
  end.

Section typed.
Context (serialize : value_t -> string) (unserialize : string -> option value_t)
  (to_double : value_t -> double.t) (to_int64 : value_t -> Z).

Definition fits (k : class_t) (r : outcome error_t result_t) : Prop :=
  match r with Ret r => fields_of r = result_type k | Throw _ => True end.
Definition results_fit (k : class_t) (s : act_t) : Prop := class (act s) = k /\ Forall (fits k) (results s).

Lemma fit_modify k (f : act_t -> act_t) :
  (forall s, class (act s) = k -> class (act (f s)) = k /\ results (f s) = results s) ->
  keeps (results_fit k) (@st_modify act_t error_t f).
Proof. intros H. apply keeps_modify. intros s [Hk Ho]. destruct (H s Hk) as [? E]. split; [done|]. by rewrite E. Qed.

Ltac fit_walk := keeps_walk; try (apply fit_modify; by intros).

Lemma issue_fit k c : keeps (results_fit k) (issue c).
Proof. unfold issue, next_fate. fit_walk. Qed.
Lemma reconnect_fit k : keeps (results_fit k) reconnect.
Proof. unfold reconnect. fit_walk. Qed.
Lemma wrapped_fit k r : fits k r -> keeps (results_fit k) (wrapped r).
Proof.
  intros Hr. unfold wrapped. keeps_walk; apply keeps_modify; intros s [Hk Ho]; (split; [done|]); simpl;
    apply Forall_app; by repeat constructor.
Qed.
Lemma satisfy_fit k r : fields_of r = result_type k -> keeps (results_fit k) (satisfy r).
Proof. intros Hr. unfold satisfy. fit_walk. by apply (wrapped_fit k (Ret r)). Qed.
Lemma parse_fit k d : keeps (results_fit k) (parse unserialize d).
Proof. unfold parse. fit_walk. Qed.
Lemma lift_path_fit k m : keeps (results_fit k) (lift_path m).
Proof. unfold lift_path. fit_walk. Qed.
Lemma set_act_fit k a : class a = k -> keeps (results_fit k) (@st_modify act_t error_t (set_act a)).
Proof. intros <-. by apply fit_modify. Qed.
#[local] Hint Resolve issue_fit reconnect_fit satisfy_fit parse_fit lift_path_fit set_act_fit : keeps.

Lemma on_abort_fit k : keeps (results_fit k) on_abort.
Proof.
  intros s Hs. unfold on_abort. erewrite st_bind_Ret by reflexivity. cbv beta.
  destruct (act s) eqn:Ea; try exact Hs. assert (k = Lock) as -> by (destruct Hs as [<- _]; by rewrite Ea).
  destruct attached; [|exact Hs]. case_decide; [exact Hs|]. revert s Ea Hs.
  enough (keeps (results_fit Lock) (st_catch (issue (CDel created_sequence_path (-1))) (fun _ => reconnect) ;;;
    st_modify (set_act (lock_t folder path created_sequence_path prev_sequence_path value depth false)))) by auto.
  fit_walk; auto with keeps.
Qed.
#[local] Hint Resolve on_abort_fit : keeps.

Lemma abort_fit k e : keeps (results_fit k) (abort e).
Proof. unfold abort. fit_walk. by apply wrapped_fit. Qed.
Lemma close_fit k : keeps (results_fit k) close.
Proof. unfold close. fit_walk. Qed.
#[local] Hint Resolve abort_fit close_fit : keeps.

Lemma on_reply_fit a r m :
  on_reply serialize unserialize to_double to_int64 a r = Some m -> keeps (results_fit (class a)) m.
Proof.
  destruct a, r; simpl; intros [= <-];
    unfold put_on_put, put_on_get, get_on_get, create_on_create, del_on_del, subscribe_on_get, subscribe_on_exists,
      subscribe_on_watch, children_on_children, children_on_watch, increment_on_get, increment_on_put,
      increment_on_create, lock_on_create, lock_on_children, lock_on_get, lock_on_exists, lock_on_watch, lock_on_del,
      throw_watch_event; cbv zeta; fit_walk.
Qed.

Lemma run_fit a : keeps (results_fit (class a)) (UnicornActions.run serialize a).
Proof. destruct a; simpl; unfold put_run, increment_run; fit_walk. Qed.

Lemma deliver_fit k r : keeps (results_fit k) (deliver serialize unserialize to_double to_int64 r).
Proof.
  intros s Hs. unfold deliver. erewrite st_bind_Ret by reflexivity. cbv beta.
  destruct (on_reply _ _ _ _ (act s) r) as [m|] eqn:Em; [|exact Hs].
  apply keeps_catch; [|auto with keeps|done]. destruct Hs as [<- _]. by eapply on_reply_fit.
Qed.
#[local] Hint Resolve deliver_fit : keeps.

Lemma step_fit k e s : results_fit k s -> results_fit k (UnicornActions.step serialize unserialize to_double to_int64 e s).
Proof. apply (keeps_bind (results_fit k)); [auto with keeps|]. intros s0. destruct e; fit_walk. Qed.

Lemma life_fit a f l t es : results_fit (class a) (life serialize unserialize to_double to_int64 a f l t es).
Proof.
  unfold life. assert (results_fit (class a) (run_command serialize a (start_state a f l t)).2) as H.
  { unfold run_command. apply keeps_catch; [apply run_fit| |by split]. intros e. fit_walk. }
  revert H. generalize (run_command serialize a (start_state a f l t)).2. induction es as [|e es IH]; intros s Hs; [done|].
  by apply IH, step_fit.
Qed.

(** C38: the answers of the unicorn have the types and the number that its protocol
    declares.  Whatever ZooKeeper replies to the action of a message, and whether the
    client gives it up or not, every value the callback is given is of the types that the
    message declares.  The callback of a message that declares an option (they are the
    ones with a deferred response) is given one value or one error and nothing more: it
    is called once, or, if it throws [e] on the value, once more with [e]; and it has been
    called when nothing is under way and the client has not given up.  The others declare
    a stream. *)
Theorem responses_typed (now : Z) (r : request_t) (f : list fate_t) (l : list bool) (t : list (option error_t))
    (es : list UnicornActions.event) :
  let s := life serialize unserialize to_double to_int64 (action_of (method_of now r)) f l t es in
  (forall x, Ret x ∈ results s -> upstream_type (message_of r)
    = match response_of r with Deferred => OptionOf (fields_of x) | Streamed => StreamOf (fields_of x) end) /\
  (response_of r = Deferred ->
    (results s = [] \/ called_out t (results s)) /\
    (forallb quiet es = true -> outstanding s = [] -> aborting s = [] -> called_out t (results s))).
Proof.
  intros s. split.
  - intros x Hx. destruct (life_fit (action_of (method_of now r)) f l t es) as [_ F].
    rewrite Forall_forall in F. specialize (F _ Hx). simpl in F. rewrite F. by destruct r.
  - intros Hr. assert (one_shot (action_of (method_of now r)) = true) as Ha by (by destruct r).
    split; [by apply life_calls|]. intros Hes Ho Hb.
    destruct (life_balanced serialize unserialize to_double to_int64 _ f l t es Ha Hes) as [_ [(Hp & _)|[_ Hc]]]; [|done].
    fold s in Hp. unfold pending in Hp. by rewrite Ho, Hb in Hp.
Qed.
End typed.

Lemma responses_typed_witness :
  let s := life (fun _ => ""%string) (fun _ => None) (fun _ => SpecFloat.S754_zero false) (fun _ => 0)
             (action_of (method_of 0 (get "/a"))) [Sent] [] [] [UnicornActions.Reply 0 (RGet ZNONODE "" (mk_stat 0 0 0))] in
  upstream_type unicorn_get = OptionOf (fields_of (Versioned DNull (-1))) /\ exists x, results s = [x].
Proof.
  cbv zeta. destruct (responses_typed (fun _ => ""%string) (fun _ => None) (fun _ => SpecFloat.S754_zero false) (fun _ => 0)
    0 (get "/a") [Sent] [] [] [UnicornActions.Reply 0 (RGet ZNONODE "" (mk_stat 0 0 0))]) as [H1 H2].
  split; [apply (H1 (Versioned DNull (-1))); vm_compute; apply list_elem_of_here|].
  exact (proj2 (H2 eq_refl) eq_refl eq_refl eq_refl).
Defined.
