(* ===== verification/Unicat.v ===== *)
(** * The access control service: [unicat/]

    Grants and revokes access to entities of storages and unicorns.  The records are
    those the authorization of the unicorn reads ([UnicornAuth.metainfo_t]; the plugin
    repeats the type).  A request names entities by scheme, service and path; for each
    of them the service checks the access of the client, reads the record, alters it and
    writes it back, all asynchronously, and every step keeps a pointer to one completion
    state, whose destructor answers the client.

    Calls of other components (authentication, authorization, storage, unicorn) are
    recorded, and their answers are arguments: either at once, from inside the call, or
    later as an event. *)

From S2P Require Import Prelude UnicornAuth.

Local Open Scope Z_scope.

(** ** Flags: [enum flags_t : std::size_t] *)

Definition flags_or (a b : Z) : Z := Z.lor a b.
Definition flags_and (a b : Z) : Z := Z.land a b.
(** [~] on an unsigned type of 64 bits *)
Definition flags_not (a : Z) : Z := u64 (Z.lnot a).

Record alter_data_t := mk_alter { a_cids : list Z; a_uids : list Z; a_flags : Z }.

(** [perms[id] |= flags], where [perms[id]] adds a missing entry *)
Definition set_perms (perms : gmap Z Z) (to_set : list Z) (flags : Z) : gmap Z Z :=
  foldl (fun perms id => <[id := flags_or (perm perms id) flags]> perms) perms to_set.

Definition unset_perms (perms : gmap Z Z) (to_unset : list Z) (flags : Z) : gmap Z Z :=
  foldl (fun perms id =>
           match perms !! id with
           | Some p => <[id := flags_and p (flags_not flags)]> perms
           | None => perms
           end) perms to_unset.

Inductive event_t := grant | revoke.

Definition alter (e : event_t) (m : metainfo_t) (d : alter_data_t) : metainfo_t :=
  match e with
  | grant => mk_meta (set_perms (c_perms m) (a_cids d) (a_flags d)) (set_perms (u_perms m) (a_uids d) (a_flags d))
  | revoke => mk_meta (unset_perms (c_perms m) (a_cids d) (a_flags d)) (unset_perms (u_perms m) (a_uids d) (a_flags d))
  end.

(** ** Exceptions and names *)

(** [std::system_error] with its code and text, or another [std::exception] *)
Inductive exn := SystemError (code : Z) (what : string) | OtherError (what : string).

Inductive scheme_t := storage | unicorn.
#[export] Instance scheme_eq_dec : EqDecision scheme_t.
Proof. solve_decision. Defined.

(** The order of the enumeration *)
Definition scheme_compare (a b : scheme_t) : comparison :=
  match a, b with
  | storage, unicorn => Lt
  | unicorn, storage => Gt
  | _, _ => Eq
  end.

(** [scheme_names_mapping.at(scheme)] *)
Definition scheme_from_string (s : string) : outcome exn scheme_t :=
  if String.eqb s "storage" then Ret storage
  else if String.eqb s "unicorn" then Ret unicorn
  else Throw (OtherError "out_of_range").

Definition scheme_to_string (s : scheme_t) : string :=
  match s with storage => "storage" | unicorn => "unicorn" end.

Record url_t := mk_url { u_scheme : scheme_t; service_name : string; entity : string }.
#[export] Instance url_eq_dec : EqDecision url_t.
Proof. solve_decision. Defined.

Abbreviation entity_type := (string * option string * string)%type.

Definition DEFAULT_SERVICE_NAME : string := "core".

Definition service_of (s : option string) : string :=
  match s with
  | Some s => if String.eqb s "" then DEFAULT_SERVICE_NAME else s
  | None => DEFAULT_SERVICE_NAME
  end.

(** [f] on [m[k]] of a [std::map], kept as a list in the order of its keys *)
Fixpoint at_key {K V} (cmp : K -> K -> comparison) (k : K) (f : option V -> V) (m : list (K * V)) : list (K * V) :=
  match m with
  | [] => [(k, f None)]
  | (k', v) :: m' =>
      match cmp k k' with
      | Lt => (k, f None) :: m
      | Eq => (k', f (Some v)) :: m'
      | Gt => (k', v) :: at_key cmp k f m'
      end
  end.

Abbreviation entities_by_scheme_type := (list (scheme_t * list (string * list string))).

Definition separate_one (e : entity_type) (m : entities_by_scheme_type) : outcome exn entities_by_scheme_type :=
  outcome_bind (scheme_from_string e.1.1) (fun scheme =>
  Ret (at_key scheme_compare scheme
         (fun services => at_key String.compare (service_of e.1.2)
            (fun es => default [] es ++ [e.2]) (default [] services)) m)).

Definition separate_by_scheme (es : list entity_type) : outcome exn entities_by_scheme_type :=
  foldl (fun acc e => outcome_bind acc (separate_one e)) (Ret []) es.

(** ** The completion of a request *)

Inductive opcode := ReadOp | WriteOp.

(** [completion_t]: one constructor per constructor of the class *)
Inductive completion_t :=
| Done (url : url_t)
| Denied (url : url_t) (err_code : Z) (op : opcode)
| Failed (url : url_t) (eptr : exn).

Definition has_exception (c : completion_t) : bool :=
  match c with Failed _ _ => true | _ => false end.
Definition has_error_code (c : completion_t) : bool :=
  match c with Denied _ ec _ => negb (ec =? 0) | _ => false end.

Definition TAKE_EXCEPT_TRACE : nat := 10.

Inductive reply_t := Value | Error (code : Z) (message : string).

(** [version_t not_existing_version] of the unicorn *)
Definition not_existing_version : Z := -1.

Section slot.
(** The texts of error codes, the codes and errors of the framework *)
Context (message code_text : Z -> string) (error_to_string : Z -> string -> string) (uncaught_error : Z).
Context (invalid_acl_framing conversion_error : exn).

Definition make_access_error (url : url_t) (ec : Z) (op : opcode) : string :=
  ((match op with ReadOp => "read" | WriteOp => "write" end) ++ " permission denied for " ++
   scheme_to_string (u_scheme url) ++ ":" ++ service_name url ++ ":" ++ entity url ++ " with error " ++ message ec)%string.

Definition make_exception_error (e : exn) : string :=
  match e with
  | SystemError c w => code_text c ++ ": " ++ w
  | OtherError w => "unknown error, msg " ++ w
  end%string.

Definition completion_error (c : completion_t) : option string :=
  match c with
  | Failed _ e => Some (make_exception_error e)
  | Denied url ec op => if has_error_code c then Some (make_access_error url ec op) else None
  | Done _ => None
  end.

(** [finalize]: what the destructor of the completion state sends *)
Definition finalize (cs : list completion_t) : reply_t :=
  match omap completion_error cs with
  | [] => Value
  | errors => Error uncaught_error (String.concat ", " (take (min (length errors) TAKE_EXCEPT_TRACE) errors))
  end.

(** ** The handlers of one entity *)

Inductive stage_t := verifying_read | verifying_write | reading | writing | finished.
#[export] Instance stage_eq_dec : EqDecision stage_t.
Proof using Type. solve_decision. Defined.

(** What the backend of an entity is asked *)
Inductive call_t :=
| VerifyRead (url : url_t) (i : identity_t)
| VerifyWrite (url : url_t) (i : identity_t)
| ReadMetainfo (url : url_t)
| WriteMetainfo (url : url_t) (version : Z) (m : metainfo_t).

(** What it answers: a code of the authorization; a value of a unicorn, or a record of a
    storage; whether a write has changed the record.  [w] is what the call that writes
    the altered record throws. *)
Inductive answer_t :=
| Verified (ec : Z)
| ReadValue (r : outcome exn stored) (w : option exn)
| ReadRecord (r : outcome exn metainfo_t) (w : option exn)
| Written (r : outcome exn bool).

Definition step_t : Type := stage_t * list call_t * option completion_t.

Definition on_verify_read (url : url_t) (i : identity_t) (ec : Z) : step_t :=
  if negb (ec =? 0) then (finished, [], Some (Denied url ec ReadOp))
  else (verifying_write, [VerifyRead url i], None).

Definition on_verify_write (url : url_t) (ec : Z) : step_t :=
  if negb (ec =? 0) then (finished, [], Some (Denied url ec WriteOp))
  else (reading, [ReadMetainfo url], None).

Definition unpack (v : stored) : outcome exn (metainfo_t * Z) :=
  match v with
  | Acl m v => Ret (m, v)
  | Unconvertible => Throw conversion_error
  | Missing | NotAPair => Throw invalid_acl_framing
  end.

Definition on_read (e : event_t) (d : alter_data_t) (url : url_t) (r : outcome exn (metainfo_t * Z)) (w : option exn) : step_t :=
  match r with
  | Throw x => (finished, [], Some (Failed url x))
  | Ret (m, version) =>
      let calls := [WriteMetainfo url version (alter e m d)] in
      match w with
      | Some x => (finished, calls, Some (Failed url x))
      | None => (writing, calls, None)
      end
  end.

(** [on_done] waits for the result of the write and does not look at it. *)
Definition on_done (url : url_t) (r : outcome exn bool) : step_t :=
  match r with
  | Ret _ => (finished, [], Some (Done url))
  | Throw x => (finished, [], Some (Failed url x))
  end.

(** An answer to a task in its stage; other answers cannot come. *)
Definition task_step (e : event_t) (d : alter_data_t) (url : url_t) (i : identity_t) (st : stage_t) (a : answer_t) : step_t :=
  match st, a with
  | verifying_read, Verified ec => on_verify_read url i ec
  | verifying_write, Verified ec => on_verify_write url ec
  | reading, ReadValue r w => on_read e d url (outcome_bind r unpack) w
  | reading, ReadRecord r w => on_read e d url (outcome_bind r (fun m => Ret (m, not_existing_version))) w
  | writing, Written r => on_done url r
  | _, _ => (st, [], None)
  end.

(** ** A request *)

Record task_t := mk_task { t_url : url_t; t_identity : identity_t; t_stage : stage_t }.

Record slot_t := mk_slot {
  frame : bool;                        (** the slot has not returned: it holds the completion state *)
  tasks : list task_t;                 (** each holds it until it is finished *)
  completions : list completion_t;
  calls : list (nat * call_t);
  replies : list reply_t;
  destroyed : bool
}.

Definition active (t : task_t) : bool := negb (bool_decide (t_stage t = finished)).
Definition pending (s : slot_t) : bool := existsb active (tasks s).

(** The last pointer to the completion state is dropped. *)
Definition release (s : slot_t) : slot_t :=
  if frame s || pending s || destroyed s then s
  else mk_slot false (tasks s) (completions s) (calls s) (replies s ++ [finalize (completions s)]) true.

Definition deliver (e : event_t) (d : alter_data_t) (k : nat) (a : answer_t) (s : slot_t) : slot_t :=
  match tasks s !! k with
  | None => s
  | Some t =>
      let '(st, cs, c) := task_step e d (t_url t) (t_identity t) (t_stage t) a in
      release (mk_slot (frame s) (<[k := mk_task (t_url t) (t_identity t) st]> (tasks s))
        (completions s ++ option_list c) (calls s ++ (pair k <$> cs)) (replies s) (destroyed s))
  end.

(** [backend->async_verify_read(entity, on_verify_read)], with the answers it and the
    calls that follow give at once *)
Definition start_task (e : event_t) (d : alter_data_t) (now : nat -> list answer_t) (url : url_t) (i : identity_t)
    (s : slot_t) : slot_t :=
  let k := length (tasks s) in
  foldl (fun s a => deliver e d k a s)
    (mk_slot (frame s) (tasks s ++ [mk_task url i verifying_read]) (completions s) (calls s ++ [(k, VerifyRead url i)])
       (replies s) (destroyed s)) (now k).

Definition start_services (e : event_t) (d : alter_data_t) (now : nat -> list answer_t)
    (setup : scheme_t -> string -> outcome exn identity_t) (scheme : scheme_t)
    (services : list (string * list string)) : ST slot_t exn unit :=
  foldr (fun (srv : string * list string) rest =>
    match setup scheme srv.1 with
    | Throw x => st_throw x
    | Ret i =>
        (st_modify (fun s => foldl (fun s en => start_task e d now (mk_url scheme srv.1 en) i s) s srv.2) ;;;
         rest)%cpp
    end) (st_ret tt) services.

Definition start_schemes (e : event_t) (d : alter_data_t) (now : nat -> list answer_t)
    (setup : scheme_t -> string -> outcome exn identity_t) (m : entities_by_scheme_type) : ST slot_t exn unit :=
  foldr (fun (x : scheme_t * list (string * list string)) rest =>
    (start_services e d now setup x.1 x.2 ;;; rest)%cpp) (st_ret tt) m.

(** What the handlers of the function's [try] block send *)
Definition error_reply (x : exn) : reply_t :=
  match x with
  | SystemError c w => Error c (error_to_string c w)
  | OtherError w => Error uncaught_error w
  end.

(** [alter_slot_t::operator()]: an exception unwinds the frame, and with it drops the
    slot's pointer to the completion state, before a handler runs. *)
Definition alter_slot (e : event_t) (d : alter_data_t) (now : nat -> list answer_t)
    (setup : scheme_t -> string -> outcome exn identity_t) (entities : list entity_type) : slot_t :=
  let s0 := mk_slot true [] [] [] [] false in
  let '(r, s) := match separate_by_scheme entities with
                 | Ret m => start_schemes e d now setup m s0
                 | Throw x => (Throw x, s0)
                 end in
  let s := release (mk_slot false (tasks s) (completions s) (calls s) (replies s) (destroyed s)) in
  match r with
  | Ret _ => s
  | Throw x => mk_slot (frame s) (tasks s) (completions s) (calls s) (replies s ++ [error_reply x]) (destroyed s)
  end.

Definition run (e : event_t) (d : alter_data_t) (es : list (nat * answer_t)) (s : slot_t) : slot_t :=
  foldl (fun s x => deliver e d x.1 x.2 s) s es.
End slot.

(** ** Records after a change *)

Lemma perm_insert (perms : gmap Z Z) x v id :
  perm (<[x := v]> perms) id = if decide (id = x) then v else perm perms id.
Proof. unfold perm. case_decide; [subst; by rewrite lookup_insert_eq|by rewrite lookup_insert_ne]. Qed.

Lemma set_perms_perm (perms : gmap Z Z) ids f id :
  perm (set_perms perms ids f) id = if decide (id ∈ ids) then Z.lor (perm perms id) f else perm perms id.
Proof.
  unfold set_perms. revert perms. induction ids as [|x ids IH]; intros perms; [done|]. simpl. rewrite IH, perm_insert. unfold flags_or.
  repeat case_decide; subst; try set_solver.
  by rewrite <- Z.lor_assoc, Z.lor_diag.
Qed.

Lemma unset_perms_lookup (perms : gmap Z Z) ids f id :
  unset_perms perms ids f !! id =
    if decide (id ∈ ids) then (fun p => Z.land p (flags_not f)) <$> perms !! id else perms !! id.
Proof.
  unfold unset_perms. revert perms. induction ids as [|x ids IH]; intros perms; [done|]. simpl. rewrite IH.
  assert (match perms !! x with Some p => <[x := flags_and p (flags_not f)]> perms | None => perms end !! id =
          if decide (id = x) then (fun p => Z.land p (flags_not f)) <$> perms !! id else perms !! id) as ->.
  { destruct (decide (id = x)) as [->|]; destruct (perms !! x) eqn:E; rewrite ?lookup_insert_eq; try done.
    by rewrite lookup_insert_ne. }
  repeat case_decide; subst; try set_solver.
  destruct (perms !! x); simpl; [|done]. by rewrite <- Z.land_assoc, Z.land_diag.
Qed.

Lemma unset_perms_perm (perms : gmap Z Z) ids f id :
  perm (unset_perms perms ids f) id = if decide (id ∈ ids) then Z.land (perm perms id) (flags_not f) else perm perms id.
Proof.
  unfold perm. rewrite unset_perms_lookup. case_decide; [|done]. by destruct (perms !! id).
Qed.

(** Bits of the permissions of several subjects *)
Lemma extract_permissions_testbit ids (perms : gmap Z Z) b :
  Z.testbit (extract_permissions ids perms) b =
    bool_decide (ids <> []) && (Z.testbit flag_both b && forallb (fun id => Z.testbit (perm perms id) b) ids).
Proof.
  destruct ids as [|x ids]; [by rewrite Z.testbit_0_l|]. unfold extract_permissions. rewrite bool_decide_true by done.
  rewrite andb_true_l. generalize (x :: ids) flag_both. clear. induction l as [|x l IH]; intros acc; simpl.
  - by rewrite andb_true_r.
  - by rewrite IH, Z.land_spec, andb_assoc.
Qed.

Lemma allowed_bits f i m :
  allowed f i m = true <->
  forall b, 0 <= b -> Z.testbit f b = true ->
    Z.testbit (extract_permissions (cids i) (c_perms m)) b = true \/
    Z.testbit (extract_permissions (uids i) (u_perms m)) b = true.
Proof.
  unfold allowed. rewrite Z.eqb_eq. split.
  - intros H b Hb Hf. rewrite <- H, Z.land_spec, Z.lor_spec in Hf. apply andb_true_iff in Hf as [Hf _].
    by apply orb_true_iff in Hf.
  - intros H. apply Z.bits_inj'. intros b Hb. rewrite Z.land_spec, Z.lor_spec.
    destruct (Z.testbit f b) eqn:E; [|by rewrite andb_false_r]. apply andb_true_iff. split; [|done].
    apply orb_true_iff. by apply H.
Qed.

Lemma flags_not_testbit f b : 0 <= b < 64 -> Z.testbit (flags_not f) b = negb (Z.testbit f b).
Proof. intros Hb. unfold flags_not, u64, u64_modulus. rewrite Z.mod_pow2_bits_low by lia. apply Z.lnot_spec. lia. Qed.

Lemma nonzero_testbit x : x <> 0 -> exists b, 0 <= b /\ Z.testbit x b = true.
Proof.
  intros Hx. destruct (decide (0 < x)).
  - exists (Z.log2 x). split; [apply Z.log2_nonneg|by apply Z.bit_log2].
  - exists (Z.succ (Z.log2 (Z.pred (- x)))). pose proof (Z.log2_nonneg (Z.pred (- x))). split; [lia|].
    apply Z.bits_above_log2_neg; lia.
Qed.

Lemma flag_both_bits b : 0 <= b -> Z.testbit flag_both b = true -> b < 2.
Proof.
  intros Hb H. destruct (decide (b < 2)); [done|]. exfalso. revert H. change flag_both with 3.
  rewrite Z.bits_above_log2; simpl; [done|lia|lia].
Qed.

Lemma granted_side f flags ids to_set (perms : gmap Z Z) b :
  (forall b, 0 <= b -> Z.testbit f b = true -> Z.testbit flag_both b = true /\ Z.testbit flags b = true) ->
  ids <> [] -> (forall id, id ∈ ids -> id ∈ to_set) -> 0 <= b -> Z.testbit f b = true ->
  Z.testbit (extract_permissions ids (set_perms perms to_set flags)) b = true.
Proof.
  intros Hf Hne Hin Hb H. rewrite extract_permissions_testbit, bool_decide_true by done.
  destruct (Hf b Hb H) as [-> Hfl]. simpl. apply forallb_forall. intros id Hid%list_elem_of_In.
  rewrite set_perms_perm, decide_True by auto. by rewrite Z.lor_spec, Hfl, orb_true_r.
Qed.

Lemma revoked_side flags ids to_unset (perms : gmap Z Z) b :
  0 <= b -> Z.testbit flags b = true -> (ids = [] \/ exists id, id ∈ ids /\ id ∈ to_unset) ->
  Z.testbit (extract_permissions ids (unset_perms perms to_unset flags)) b = false.
Proof.
  intros Hb Hfl Hids. rewrite extract_permissions_testbit. destruct Hids as [->|(id & Hid & Hun)]; [done|].
  destruct (Z.testbit flag_both b) eqn:E; [|by rewrite andb_false_r].
  pose proof (flag_both_bits b Hb E). apply andb_false_iff. right. apply not_true_iff_false. intros Hall.
  simpl in Hall. rewrite forallb_forall in Hall. apply list_elem_of_In in Hid. specialize (Hall id Hid).
  rewrite unset_perms_perm, decide_True, Z.land_spec, flags_not_testbit, Hfl, andb_false_r in Hall; [done|lia|done].
Qed.

Lemma untouched_side ids (p q : gmap Z Z) :
  (forall id, id ∈ ids -> perm q id = perm p id) -> extract_permissions ids q = extract_permissions ids p.
Proof.
  intros H. apply Z.bits_inj'. intros b Hb. rewrite !extract_permissions_testbit. do 2 f_equal.
  induction ids as [|x ids IH]; [done|]. simpl. rewrite H by set_solver. f_equal. apply IH. set_solver.
Qed.

(** What a change of a record does to the access that the authorization of the
    unicorn derives from it.  A client whose client ids, or whose user ids, have all
    been granted some flags has the access they stand for; a client whose ids have
    been revoked, one at least of each kind, has not; and nothing changes for a client
    of whom no id is named. *)
Theorem altered_access (f : Z) (i : identity_t) (m : metainfo_t) (d : alter_data_t) :
  ((f = flag_read \/ f = flag_both) -> Z.land f (a_flags d) = f ->
   (cids i <> [] /\ (forall id, id ∈ cids i -> id ∈ a_cids d)) \/ (uids i <> [] /\ (forall id, id ∈ uids i -> id ∈ a_uids d)) ->
   allowed f i (alter grant m d) = true) /\
  (Z.land f (a_flags d) <> 0 ->
   (cids i = [] \/ exists id, id ∈ cids i /\ id ∈ a_cids d) -> (uids i = [] \/ exists id, id ∈ uids i /\ id ∈ a_uids d) ->
   allowed f i (alter revoke m d) = false) /\
  (forall e, (forall id, id ∈ cids i -> id ∉ a_cids d) -> (forall id, id ∈ uids i -> id ∉ a_uids d) ->
   allowed f i (alter e m d) = allowed f i m).
Proof.
  split_and!.
  - intros Hf Hfl Hids. apply allowed_bits. intros b Hb H.
    assert (forall b, 0 <= b -> Z.testbit f b = true -> Z.testbit flag_both b = true /\ Z.testbit (a_flags d) b = true) as Hbits.
    { clear b Hb H. intros b Hb H. split; [destruct Hf as [->| ->]; [|done]|].
      - change flag_both with (Z.lor flag_read 2). by rewrite Z.lor_spec, H.
      - rewrite <- Hfl, Z.land_spec in H. by apply andb_true_iff in H as [_ H]. }
    destruct Hids as [[Hne Hin]|[Hne Hin]]; [left|right]; by eapply granted_side.
  - intros Hfl Hc Hu. apply not_true_iff_false. rewrite allowed_bits. intros H.
    destruct (nonzero_testbit _ Hfl) as (b & Hb & E). rewrite Z.land_spec in E. apply andb_true_iff in E as [H1 H2].
    destruct (H b Hb H1) as [E|E]; simpl in E; by rewrite revoked_side in E.
  - intros e Hc Hu. unfold allowed. f_equal. f_equal.
    destruct e; simpl; rewrite !(untouched_side (cids i) (c_perms m)), !(untouched_side (uids i) (u_perms m)); try done;
      intros id Hid; rewrite ?set_perms_perm, ?unset_perms_perm, decide_False; auto.
Qed.

(** ** Entities by scheme and service *)

Definition urls_of (m : entities_by_scheme_type) : list url_t :=
  m ≫= fun x => x.2 ≫= fun y => mk_url x.1 y.1 <$> y.2.

Definition url_of (e : entity_type) : option url_t :=
  match scheme_from_string e.1.1 with
  | Ret s => Some (mk_url s (service_of e.1.2) e.2)
  | Throw _ => None
  end.

Lemma at_key_flatten {K V B} (cmp : K -> K -> comparison) (G : K * V -> list B) k f new m :
  (forall a b, cmp a b = Eq -> a = b) -> G (k, f None) ≡ₚ new -> (forall v, G (k, f (Some v)) ≡ₚ G (k, v) ++ new) ->
  at_key cmp k f m ≫= G ≡ₚ (m ≫= G) ++ new.
Proof.
  intros Heq H0 H1. induction m as [|[k' v] m IH]; simpl; [by rewrite H0, app_nil_r|].
  destruct (cmp k k') eqn:E; simpl.
  - apply Heq in E as ->. rewrite H1. rewrite <- !app_assoc. f_equiv. apply Permutation_app_comm.
  - rewrite H0. by rewrite Permutation_app_comm, <- app_assoc.
  - by rewrite IH, app_assoc.
Qed.

Lemma separate_one_urls e m m' :
  separate_one e m = Ret m' -> exists u, url_of e = Some u /\ urls_of m' ≡ₚ urls_of m ++ [u].
Proof.
  unfold separate_one, url_of. destruct (scheme_from_string e.1.1) as [s|] eqn:Es; simpl; [|done]. intros [= <-].
  eexists; split; [done|]. apply (at_key_flatten scheme_compare (fun x => x.2 ≫= fun y => mk_url x.1 y.1 <$> y.2)).
  - by intros [] [].
  - done.
  - intros v. simpl. apply (at_key_flatten String.compare (fun y => mk_url s y.1 <$> y.2)).
    + apply String.compare_eq_iff.
    + done.
    + intros w. simpl. by rewrite fmap_app.
Qed.

(** Every entity is in its place, none is lost; an unknown scheme is an exception. *)
Lemma separate_by_scheme_spec es :
  match separate_by_scheme es with
  | Ret m => urls_of m ≡ₚ omap url_of es /\ Forall (fun e => is_Some (url_of e)) es
  | Throw _ => Exists (fun e => url_of e = None) es
  end.
Proof.
  induction es as [|e es IH] using rev_ind; [by split|].
  unfold separate_by_scheme in *. rewrite foldl_snoc, omap_app. destruct (foldl _ _ es) as [m|x]; simpl.
  - destruct IH as [Hp Ha]. destruct (separate_one e m) as [m'|x] eqn:E.
    + apply separate_one_urls in E as (u & Hu & ->). rewrite Hu. rewrite Hp. split; [done|].
      apply Forall_app; split; [done|]. constructor; [by rewrite Hu|done].
    + apply Exists_app. right. left. unfold separate_one, url_of in *. by destruct (scheme_from_string e.1.1).
  - apply Exists_app. by left.
Qed.

Section facts.
Context (message code_text : Z -> string) (error_to_string : Z -> string -> string) (uncaught_error : Z).
Context (invalid_acl_framing conversion_error : exn).
Context (e : event_t) (d : alter_data_t).

Local Abbreviation deliver := (deliver message code_text uncaught_error invalid_acl_framing conversion_error e d).
Local Abbreviation release := (release message code_text uncaught_error).
Local Abbreviation finalize := (finalize message code_text uncaught_error).
Local Abbreviation task_step := (task_step invalid_acl_framing conversion_error e d).
Local Abbreviation start_task := (start_task message code_text uncaught_error invalid_acl_framing conversion_error e d).
Local Abbreviation start_services := (start_services message code_text uncaught_error invalid_acl_framing conversion_error e d).
Local Abbreviation start_schemes := (start_schemes message code_text uncaught_error invalid_acl_framing conversion_error e d).
Local Abbreviation alter_slot :=
  (alter_slot message code_text error_to_string uncaught_error invalid_acl_framing conversion_error e d).
Local Abbreviation run := (run message code_text uncaught_error invalid_acl_framing conversion_error e d).

(** *** One task *)

Definition completion_url (c : completion_t) : url_t :=
  match c with Done u | Denied u _ _ | Failed u _ => u end.

(** An entity is completed when its task ends, and not before. *)
Lemma task_step_finished url i a : task_step url i finished a = (finished, [], None).
Proof. done. Qed.

Lemma task_step_completes url i st a st' cs c :
  st <> finished -> task_step url i st a = (st', cs, c) ->
  match c with
  | Some x => st' = finished /\ completion_url x = url /\ (forall u ec op, x = Denied u ec op -> ec <> 0)
  | None => st' <> finished
  end.
Proof.
  intros Hst H.
  destruct st, a as [ec|r w|r w|r]; try done; simpl in H; unfold on_verify_read, on_verify_write, on_read, on_done in H;
    repeat break_match; simplify_eq/=; split_and?; try done; intros ? ? ? [= <- <- <-];
    match goal with E : negb _ = true |- _ => by apply negb_true_iff, Z.eqb_neq in E end.
Qed.

(** The calls of a task and its stage, from the answers it has had *)
Definition task_life (url : url_t) (i : identity_t) (answers : list answer_t) : stage_t * list call_t :=
  foldl (fun x a => let '(st, cs, _) := task_step url i x.1 a in (st, x.2 ++ cs)) (verifying_read, [VerifyRead url i]) answers.

Definition accepted (a : answer_t) : bool := match a with Verified ec => ec =? 0 | _ => false end.
(** The answer carries this record. *)
Definition carries (m : metainfo_t) (version : Z) (a : answer_t) : Prop :=
  match a with
  | ReadValue (Ret v) _ => v = Acl m version
  | ReadRecord (Ret m') _ => m' = m /\ version = not_existing_version
  | _ => False
  end.

Lemma task_life_snoc url i l a :
  task_life url i (l ++ [a]) =
  let '(st, cs, _) := task_step url i (task_life url i l).1 a in (st, (task_life url i l).2 ++ cs).
Proof. unfold task_life. by rewrite foldl_snoc. Qed.

Definition checks (l : list answer_t) : nat := length (filter (fun a => accepted a = true) l).

Lemma checks_snoc l a : checks (l ++ [a]) = (checks l + if accepted a then 1 else 0)%nat.
Proof. unfold checks. rewrite filter_app, length_app. f_equal. rewrite filter_cons. by destruct (accepted a). Qed.

(** How far a task can have come *)
Definition came (url : url_t) (i : identity_t) (l : list answer_t) (st : stage_t) (cs : list call_t) : Prop :=
  match st with
  | verifying_read => cs = [VerifyRead url i]
  | verifying_write => cs = [VerifyRead url i; VerifyRead url i] /\ (1 <= checks l)%nat
  | reading => cs = [VerifyRead url i; VerifyRead url i; ReadMetainfo url] /\ (2 <= checks l)%nat
  | writing | finished =>
      (exists m v, cs = [VerifyRead url i; VerifyRead url i; ReadMetainfo url; WriteMetainfo url v (alter e m d)] /\
         (2 <= checks l)%nat /\ Exists (carries m v) l) \/
      (st = finished /\ Forall (fun c => c = VerifyRead url i \/ c = ReadMetainfo url) cs)
  end.

Lemma on_read_came url i l r w st cs c :
  (2 <= checks l)%nat -> (forall m v, r = Ret (m, v) -> Exists (carries m v) l) ->
  on_read e d url r w = (st, cs, c) ->
  came url i l st ([VerifyRead url i; VerifyRead url i; ReadMetainfo url] ++ cs).
Proof.
  intros Hn Hr E. unfold on_read in E. destruct r as [[m v]|x]; [|injection E as <- <- <-; simpl; right; split; [done|]].
  - specialize (Hr m v eq_refl). destruct w; injection E as <- <- <-; left; by exists m, v.
  - repeat constructor; by (left + right).
Qed.

Lemma task_came url i l : came url i l (task_life url i l).1 (task_life url i l).2.
Proof.
  induction l as [|a l IH] using rev_ind; [done|]. rewrite task_life_snoc.
  destruct (task_life url i l) as [st cs]. simpl in *.
  destruct (task_step url i st a) as [[st' cs'] c] eqn:E. simpl.
  assert (forall st cs, came url i l st cs -> came url i (l ++ [a]) st cs) as Hmono.
  { clear. intros st cs. unfold came. rewrite checks_snoc.
    destruct st; try (intuition lia); intros [(m & v & ? & ? & ?)|?]; auto; left; exists m, v; rewrite Exists_app; split_and!; auto; lia. }
  destruct st, a as [ec|r w|r w|r]; simpl in E;
    try (injection E as <- <- <-; rewrite app_nil_r; by apply Hmono).
  - unfold on_verify_read in E. destruct (ec =? 0) eqn:Ec; simpl in E; injection E as <- <- <-; simpl in IH |- *; subst cs.
    + split; [done|]. rewrite checks_snoc. simpl. rewrite Ec. lia.
    + right. split; [done|]. repeat constructor.
  - destruct IH as [-> Hn]. unfold on_verify_write in E. destruct (ec =? 0) eqn:Ec; simpl in E; injection E as <- <- <-; simpl.
    + split; [done|]. rewrite checks_snoc. simpl. rewrite Ec. lia.
    + right. split; [done|]. repeat constructor; by left.
  - destruct IH as [-> Hn]. eapply on_read_came in E; [exact E|rewrite checks_snoc; simpl; lia|].
    intros m v Hr. apply Exists_app; right; left. destruct r as [[]|]; simplify_eq/=; done.
  - destruct IH as [-> Hn]. eapply on_read_came in E; [exact E|rewrite checks_snoc; simpl; lia|].
    intros m v Hr. apply Exists_app; right; left. destruct r; simplify_eq/=; done.
  - apply Hmono. unfold on_done in E. destruct r; injection E as <- <- <-; rewrite app_nil_r; (destruct IH as [IH|[]]; [by left|done]).
Qed.

(** *** Requests *)

Definition calls_of (k : nat) (s : slot_t) : list call_t := (filter (fun x => x.1 = k) (calls s)).*2.
Definition answers_of (k : nat) (es : list (nat * answer_t)) : list answer_t := (filter (fun x => x.1 = k) es).*2.

Lemma answers_of_cons k k' a es : answers_of k ((k', a) :: es) = if decide (k' = k) then a :: answers_of k es else answers_of k es.
Proof. unfold answers_of. rewrite filter_cons. simpl. by case_decide. Qed.

Lemma release_fields s :
  frame (release s) = frame s /\ tasks (release s) = tasks s /\ completions (release s) = completions s /\ calls (release s) = calls s.
Proof. unfold Unicat.release. destruct (frame s) eqn:E, (pending s), (destroyed s); simpl; rewrite ?E; done. Qed.

(** Each task goes its own way, whatever is answered to the others. *)
Definition separate (got : nat -> list answer_t) (s : slot_t) : Prop :=
  (forall k t, tasks s !! k = Some t -> (t_stage t, calls_of k s) = task_life (t_url t) (t_identity t) (got k)) /\
  (forall k, tasks s !! k = None -> calls_of k s = []).

Lemma calls_of_app k (s : slot_t) cs j f ts comp r de :
  calls_of k (mk_slot f ts comp (calls s ++ (pair j <$> cs)) r de) =
  calls_of k s ++ (if decide (j = k) then cs else []).
Proof.
  unfold calls_of. simpl. rewrite filter_app, fmap_app. f_equal. case_decide as H.
  - induction cs as [|c cs IH]; [done|]. rewrite fmap_cons, filter_cons_True by done. rewrite fmap_cons. by f_equal.
  - induction cs as [|c cs IH]; [done|]. rewrite fmap_cons, filter_cons_False by done. done.
Qed.

Lemma deliver_separate got k a s :
  separate got s -> separate (fun j => if decide (j = k) then if decide (is_Some (tasks s !! k)) then got k ++ [a] else got j else got j) (deliver k a s).
Proof.
  intros [H1 H2]. unfold Unicat.deliver. destruct (tasks s !! k) as [t|] eqn:Ek.
  2:{ split; [|done]. intros j t Hj. rewrite (H1 j t Hj). by repeat case_decide. }
  destruct (task_step (t_url t) (t_identity t) (t_stage t) a) as [[st cs] c] eqn:Es.
  set (s' := mk_slot _ _ _ _ _ _). destruct (release_fields s') as (_ & Et & _ & Ec).
  assert (forall j, calls_of j (release s') = calls_of j s') as Hcalls by (intros; unfold calls_of; by rewrite Ec).
  split; intros j; rewrite Et, Hcalls; unfold s'; cbn [tasks]; rewrite calls_of_app.
  - intros t' Hj. apply list_lookup_insert_Some in Hj as [(<- & <- & _)|[Hne Hj]]; simpl.
    + rewrite !decide_True by done. rewrite task_life_snoc, <- (H1 _ _ Ek). simpl. by rewrite Es.
    + rewrite !decide_False by done. rewrite app_nil_r. by apply H1.
  - rewrite list_lookup_insert_None. intros Hj. rewrite decide_False by congruence. rewrite H2 by done. done.
Qed.

Lemma deliver_tasks k a s : length (tasks (deliver k a s)) = length (tasks s).
Proof.
  unfold Unicat.deliver. destruct (tasks s !! k); [|done]. destruct (task_step _ _ _ a) as [[st cs] c].
  destruct (release_fields (mk_slot (frame s) (<[k := mk_task (t_url t) (t_identity t) st]> (tasks s)) (completions s ++ option_list c)
    (calls s ++ (pair k <$> cs)) (replies s) (destroyed s))) as (_ & -> & _). simpl. by rewrite length_insert.
Qed.

Lemma separate_ext got got' s :
  (forall k, (k < length (tasks s))%nat -> got k = got' k) -> separate got s -> separate got' s.
Proof.
  intros H [H1 H2]. split; [|done]. intros k t Hk. rewrite <- H; [by apply H1|]. by eapply lookup_lt_Some.
Qed.

Lemma run_separate got es s : separate got s -> separate (fun k => got k ++ answers_of k es) (run es s).
Proof.
  revert got s. induction es as [|[k a] es IH]; intros got s H.
  - eapply separate_ext; [|exact H]. intros j _. by rewrite app_nil_r.
  - simpl. eapply separate_ext; [|apply IH, deliver_separate, H]. intros j Hj. rewrite answers_of_cons. simpl.
    destruct (decide (j = k)) as [->|Hne]; [|by rewrite decide_False].
    rewrite (decide_True (P := k = k)) by done. rewrite decide_True; [by rewrite <- app_assoc|].
    apply lookup_lt_is_Some. unfold Unicat.run in Hj. revert Hj. clear.
    assert (forall s, length (tasks (foldl (fun s x => deliver x.1 x.2 s) s es)) = length (tasks s)) as ->.
    { induction es as [|x es IH]; intros s'; [done|]. simpl. by rewrite IH, deliver_tasks. }
    by rewrite deliver_tasks.
Qed.

Lemma foldl_deliver k l s : foldl (fun s a => deliver k a s) s l = run (pair k <$> l) s.
Proof. revert s. induction l as [|a l IH]; intros s; [done|]. simpl. by rewrite IH. Qed.

Lemma answers_of_same k l : answers_of k (pair k <$> l) = l.
Proof. induction l as [|a l IH]; [done|]. rewrite fmap_cons, answers_of_cons, decide_True by done. by rewrite IH. Qed.

Lemma answers_of_other j k l : j <> k -> answers_of j (pair k <$> l) = [].
Proof. intros H. induction l as [|a l IH]; [done|]. by rewrite fmap_cons, answers_of_cons, decide_False. Qed.

Lemma start_task_separate now url i s : separate now s -> separate now (start_task now url i s).
Proof.
  intros [H1 H2]. unfold Unicat.start_task. rewrite foldl_deliver. set (k := length (tasks s)).
  eapply separate_ext; [|apply (run_separate (fun j => if decide (j = k) then [] else now j))].
  { intros j _. simpl. case_decide as Hj; [by rewrite Hj, answers_of_same|]. by rewrite answers_of_other, app_nil_r. }
  assert (forall j f ts c r de, calls_of j (mk_slot f ts c (calls s ++ [(k, VerifyRead url i)]) r de) =
    calls_of j s ++ if decide (k = j) then [VerifyRead url i] else []) as Hc by (intros; apply (calls_of_app j s [VerifyRead url i] k)).
  split; intros j; cbn [tasks].
  - intros t Hj. rewrite Hc. apply lookup_app_Some in Hj as [Hj|[Hge Hj]].
    + pose proof (lookup_lt_Some _ _ _ Hj). rewrite !decide_False by (unfold k; lia). rewrite app_nil_r. by apply H1.
    + apply list_lookup_singleton_Some in Hj as [Hj <-]. assert (j = k) as -> by (unfold k; lia).
      rewrite !decide_True by done. simpl. rewrite H2; [done|]. by apply lookup_ge_None.
  - rewrite Hc. intros Hj%lookup_ge_None. rewrite length_app in Hj. simpl in Hj. rewrite H2 by (apply lookup_ge_None; lia).
    rewrite decide_False; [done|]. unfold k. lia.
Qed.

Lemma foldl_keeps {A B} (P : A -> Prop) (f : A -> B -> A) l a : (forall a b, P a -> P (f a b)) -> P a -> P (foldl f a l).
Proof. intros Hf. revert a. induction l as [|b l IH]; intros a Ha; [done|]. by apply IH, Hf. Qed.

(** What every started task keeps, the whole loop keeps. *)
Lemma start_schemes_keeps (P : slot_t -> Prop) now setup m :
  (forall url i s, P s -> P (start_task now url i s)) -> keeps P (start_schemes now setup m).
Proof.
  intros Ht. unfold Unicat.start_schemes, Unicat.start_services.
  induction m as [|[sch srvs] m IH]; [apply keeps_ret|]. simpl. apply keeps_bind; [|done].
  clear IH. induction srvs as [|[name es] srvs IH]; [apply keeps_ret|]. simpl.
  destruct (setup sch name); [|apply keeps_throw]. apply keeps_bind; [|done]. apply keeps_modify.
  intros s Hs. apply foldl_keeps; [|done]. intros. by apply Ht.
Qed.

Lemma separate_fields got s s' : tasks s' = tasks s -> calls s' = calls s -> separate got s -> separate got s'.
Proof. intros Et Ec [H1 H2]. split; intros k; unfold calls_of; rewrite Et, Ec; [apply H1|apply H2]. Qed.

Lemma alter_slot_separate now setup entities : separate now (alter_slot now setup entities).
Proof.
  unfold Unicat.alter_slot. set (s0 := mk_slot _ _ _ _ _ _). assert (separate now s0) as H0 by done.
  assert (separate now (match separate_by_scheme entities with Ret m => start_schemes now setup m s0 | Throw x => (Throw x, s0) end).2) as H1.
  { destruct (separate_by_scheme entities); [|done]. apply start_schemes_keeps; [|done]. intros. by apply start_task_separate. }
  destruct (match separate_by_scheme entities with Ret m => _ | Throw x => _ end) as [[[]|x] s]; simpl in H1;
    apply (separate_fields now s); try done; simpl;
    destruct (release_fields (mk_slot false (tasks s) (completions s) (calls s) (replies s) (destroyed s))) as (_ & E1 & _ & E2);
    by rewrite ?E1, ?E2.
Qed.

Lemma elem_of_calls_of k c s : (k, c) ∈ calls s <-> c ∈ calls_of k s.
Proof.
  unfold calls_of. rewrite list_elem_of_fmap. split.
  - intros H. exists (k, c). split; [done|]. by apply list_elem_of_filter.
  - intros ([j c'] & -> & [Hj H]%list_elem_of_filter). simpl in Hj. by subst.
Qed.

(** The calls of a task *)
Lemma came_calls url i l st cs c :
  came url i l st cs -> c ∈ cs ->
  c = VerifyRead url i \/ c = ReadMetainfo url \/
  exists m v, c = WriteMetainfo url v (alter e m d) /\ (2 <= checks l)%nat /\ Exists (carries m v) l.
Proof.
  intros Hc H.
  assert (Forall (fun c => c = VerifyRead url i \/ c = ReadMetainfo url) cs \/ exists m v,
    cs = [VerifyRead url i; VerifyRead url i; ReadMetainfo url; WriteMetainfo url v (alter e m d)] /\
    (2 <= checks l)%nat /\ Exists (carries m v) l) as [Hcs|(m & v & -> & Hn & He)].
  { destruct st; simpl in Hc; [subst cs|destruct Hc as [-> _]|destruct Hc as [-> _]|tauto|tauto];
      left; repeat constructor; by (left + right). }
  - rewrite Forall_forall in Hcs. specialize (Hcs c H). tauto.
  - rewrite !elem_of_cons, elem_of_nil in H. destruct H as [->|[->|[->|[->|[]]]]]; eauto 10.
Qed.

Lemma call_of_task now setup entities es k c :
  let s := run es (alter_slot now setup entities) in
  let answers := now k ++ answers_of k es in
  (k, c) ∈ calls s ->
  exists t, tasks s !! k = Some t /\
    (c = VerifyRead (t_url t) (t_identity t) \/ c = ReadMetainfo (t_url t) \/
     exists m v, c = WriteMetainfo (t_url t) v (alter e m d) /\ (2 <= checks answers)%nat /\ Exists (carries m v) answers).
Proof.
  intros s answers. rewrite elem_of_calls_of. intros H.
  destruct (run_separate now es _ (alter_slot_separate now setup entities)) as [H1 H2]. fold s in H1, H2.
  destruct (tasks s !! k) as [t|] eqn:Ek; [|rewrite H2 in H by done; by apply elem_of_nil in H].
  exists t. split; [done|]. eapply came_calls; [|exact H].
  pose proof (task_came (t_url t) (t_identity t) answers) as Hc. unfold answers in Hc. by rewrite <- (H1 k t Ek) in Hc.
Qed.

(** A record is written only for a client whose access has been accepted twice, and
    what is written is the record that was read for the entity, of the version that was
    read, with the change applied; whatever is answered to the other entities of the
    request, and in whatever order. *)
Theorem written_after_checks (now : nat -> list answer_t) setup (entities : list entity_type) (es : list (nat * answer_t))
    (k : nat) (url : url_t) (version : Z) (m' : metainfo_t) :
  (k, WriteMetainfo url version m') ∈ calls (run es (alter_slot now setup entities)) ->
  let answers := now k ++ answers_of k es in
  (2 <= checks answers)%nat /\ exists m, m' = alter e m d /\ Exists (carries m version) answers.
Proof.
  intros H answers. apply call_of_task in H as (t & _ & [?|[?|(m & v & [= -> -> ->] & Hn & He)]]); [done|done|].
  split; [done|]. by exists m.
Qed.

(** The access to write is never asked for: a client who may only read a record can
    alter it.  Both checks of an entity ask for the access to read. *)
Theorem write_access_not_checked (now : nat -> list answer_t) setup (entities : list entity_type) (es : list (nat * answer_t))
    (k : nat) (url : url_t) (i : identity_t) :
  (k, VerifyWrite url i) ∉ calls (run es (alter_slot now setup entities)).
Proof. intros H. by apply call_of_task in H as (t & _ & [?|[?|(m & v & ? & _)]]). Qed.

(** *** The answer *)

Definition done_urls (ts : list task_t) : list url_t := t_url <$> filter (fun t => t_stage t = finished) ts.

Record slot_wf (s : slot_t) : Prop := {
  sw_completions : completion_url <$> completions s ≡ₚ done_urls (tasks s);
  sw_denied : Forall (fun c => forall u ec op, c = Denied u ec op -> ec <> 0) (completions s);
  sw_destroyed : destroyed s = negb (frame s) && negb (pending s);
  sw_replies : replies s = if destroyed s then [finalize (completions s)] else []
}.

Lemma release_wf s :
  completion_url <$> completions s ≡ₚ done_urls (tasks s) ->
  Forall (fun c => forall u ec op, c = Denied u ec op -> ec <> 0) (completions s) ->
  destroyed s = false -> replies s = [] -> slot_wf (release s).
Proof.
  intros H1 H2 H3 H4. unfold Unicat.release.
  destruct (frame s) eqn:Ef; [split; simpl; rewrite ?H3, ?Ef; done|].
  destruct (pending s) eqn:Ep; simpl; [split; rewrite ?H3, ?Ef, ?Ep; done|]. rewrite H3.
  split; simpl; rewrite ?H4; try done. unfold pending in *. simpl. by rewrite Ep.
Qed.

Lemma pending_lookup s k t : tasks s !! k = Some t -> t_stage t <> finished -> pending s = true.
Proof.
  intros Hk Ht. apply existsb_exists. exists t. split; [apply list_elem_of_In; by eapply list_elem_of_lookup_2|].
  unfold active. by rewrite bool_decide_false.
Qed.

Lemma done_urls_insert k (t t' : task_t) (ts : list task_t) :
  ts !! k = Some t -> t_stage t <> finished ->
  done_urls (<[k := t']> ts) ≡ₚ done_urls ts ++ (if decide (t_stage t' = finished) then [t_url t'] else []).
Proof.
  intros Hk Ht. pose proof (lookup_lt_Some _ _ _ Hk). unfold done_urls.
  rewrite insert_take_drop by done. rewrite <- (take_drop_middle ts k t Hk) at 3.
  rewrite !filter_app, !filter_cons. rewrite (decide_False (P := t_stage t = finished)) by done.
  rewrite !fmap_app. rewrite <- app_assoc. f_equiv. case_decide; simpl; [|by rewrite app_nil_r].
  apply Permutation_cons_append.
Qed.

Lemma deliver_wf k a s : slot_wf s -> slot_wf (deliver k a s).
Proof.
  intros Hs. unfold Unicat.deliver. destruct (tasks s !! k) as [t|] eqn:Ek; [|done].
  destruct (decide (t_stage t = finished)) as [Ef|Hne].
  - rewrite Ef, task_step_finished. simpl. rewrite !app_nil_r.
    assert (<[k := mk_task (t_url t) (t_identity t) finished]> (tasks s) = tasks s) as ->.
    { rewrite <- Ef. apply list_insert_id. rewrite Ek. by destruct t. }
    destruct s as [f ts cs cl r de]. destruct Hs as [H1 H2 H3 H4]. simpl in *. unfold Unicat.release. simpl.
    unfold pending in *. simpl in *. subst de. destruct f, (existsb active ts) eqn:Ep; simpl; split; simpl; unfold pending; simpl; rewrite ?Ep; done.
  - destruct (task_step (t_url t) (t_identity t) (t_stage t) a) as [[st cs] c] eqn:Es.
    apply task_step_completes in Es; [|done]. destruct Hs as [H1 H2 H3 H4].
    rewrite (pending_lookup s k t Ek Hne), andb_false_r in H3. rewrite H3 in *. apply release_wf; simpl; try done.
    + rewrite fmap_app, (done_urls_insert k t _ _ Ek Hne), H1. f_equiv. destruct c as [x|]; simpl.
      * destruct Es as (-> & -> & _). by rewrite decide_True.
      * by rewrite decide_False.
    + apply Forall_app. split; [done|]. destruct c; simpl; [|done]. constructor; [|done]. by destruct Es as (_ & _ & Hd).
Qed.

Lemma start_task_wf now url i s : frame s = true -> slot_wf s -> frame (start_task now url i s) = true /\ slot_wf (start_task now url i s).
Proof.
  intros Hf [H1 H2 H3 H4]. unfold Unicat.start_task. apply (foldl_keeps (fun s => frame s = true /\ slot_wf s)).
  - intros s' a [Hf' Hw]. split; [|by apply deliver_wf]. unfold Unicat.deliver. destruct (tasks s' !! _); [|done].
    destruct (task_step _ _ _ a) as [[]]. by rewrite (proj1 (release_fields _)).
  - rewrite Hf in *. split; [done|]. simpl in H3. split; simpl; try done; unfold done_urls in *.
    rewrite filter_app, fmap_app, filter_cons, decide_False by done. simpl. by rewrite app_nil_r.
Qed.

Lemma deliver_urls k a s : t_url <$> tasks (deliver k a s) = t_url <$> tasks s.
Proof.
  unfold Unicat.deliver. destruct (tasks s !! k) as [t|] eqn:Ek; [|done].
  destruct (task_step _ _ _ a) as [[st cs] c]. rewrite (proj1 (proj2 (release_fields _))). simpl.
  rewrite list_fmap_insert. simpl. apply list_insert_id. by rewrite list_lookup_fmap, Ek.
Qed.

Lemma run_urls es s : t_url <$> tasks (run es s) = t_url <$> tasks s.
Proof. revert s. induction es as [|x es IH]; intros s; [done|]. simpl. by rewrite IH, deliver_urls. Qed.

Lemma start_task_urls now url i s : t_url <$> tasks (start_task now url i s) = (t_url <$> tasks s) ++ [url].
Proof. unfold Unicat.start_task. rewrite foldl_deliver, run_urls. simpl. by rewrite fmap_app. Qed.

Lemma start_schemes_returns now setup m s :
  (forall sch n, returns (setup sch n) = true) ->
  (start_schemes now setup m s).1 = Ret tt /\
  t_url <$> tasks (start_schemes now setup m s).2 = (t_url <$> tasks s) ++ urls_of m.
Proof.
  intros Hset.
  assert (forall sch srvs s, exists s', start_services now setup sch srvs s = (Ret tt, s') /\
    t_url <$> tasks s' = (t_url <$> tasks s) ++ (srvs ≫= fun y => mk_url sch y.1 <$> y.2)) as Hsrv.
  { clear s. intros sch srvs. unfold Unicat.start_services. induction srvs as [|[name es] srvs IH]; intros s.
    - exists s. by rewrite app_nil_r.
    - simpl. specialize (Hset sch name). destruct (setup sch name) as [i|]; [|done].
      erewrite st_bind_Ret by reflexivity.
      destruct (IH (foldl (fun s en => start_task now (mk_url sch name en) i s) s es)) as (s' & E & Hu).
      exists s'. split; [done|]. rewrite Hu, app_assoc. f_equal. clear. revert s.
      induction es as [|en es IH]; intros s; simpl; [by rewrite app_nil_r|]. rewrite IH, start_task_urls. by rewrite <- app_assoc. }
  unfold Unicat.start_schemes. revert s. induction m as [|[sch srvs] m IH]; intros s; [split; [done|]; by rewrite app_nil_r|].
  simpl. destruct (Hsrv sch srvs s) as (s' & E & Hu). rewrite (st_bind_Ret _ _ _ _ _ E).
  destruct (IH s') as [-> ->]. rewrite Hu. by rewrite <- app_assoc.
Qed.

Lemma finalize_value cs :
  Forall (fun c => forall u ec op, c = Denied u ec op -> ec <> 0) cs ->
  finalize cs = Value <-> forall c, c ∈ cs -> exists u, c = Done u.
Proof.
  intros Hd. unfold Unicat.finalize. transitivity (omap (completion_error message code_text) cs = []).
  { by destruct (omap _ cs). }
  induction Hd as [|c cs Hc _ IH]; [split; [by intros _ c ?%elem_of_nil|done]|].
  simpl. destruct c as [u|u ec op|u x]; simpl.
  - rewrite IH. set_solver.
  - specialize (Hc u ec op eq_refl). rewrite (proj2 (Z.eqb_neq ec 0)) by done. simpl. split; [done|].
    intros H. destruct (H (Denied u ec op)) as [? ?]; [by left|done].
  - split; [done|]. intros H. destruct (H (Failed u x)) as [? ?]; [by left|done].
Qed.

(** C16: a request for known schemes, whose services can be used, is answered exactly
    once, when its last entity is completed: every entity is completed once, in any
    order, and the answer is a success exactly when all of them are done; otherwise it
    is an error with the first ten reasons. *)
Theorem alter_answered_once (now : nat -> list answer_t) setup (entities : list entity_type) (es : list (nat * answer_t)) :
  Forall (fun x => is_Some (url_of x)) entities -> (forall sch n, returns (setup sch n) = true) ->
  let s := run es (alter_slot now setup entities) in
  t_url <$> tasks s ≡ₚ omap url_of entities /\
  completion_url <$> completions s ≡ₚ done_urls (tasks s) /\
  replies s = (if pending s then [] else [finalize (completions s)]) /\
  (finalize (completions s) = Value <-> forall c, c ∈ completions s -> exists u, c = Done u).
Proof.
  intros Hent Hset s. pose proof (separate_by_scheme_spec entities) as Hsep.
  assert (exists s1, alter_slot now setup entities = s1 /\ slot_wf s1 /\ frame s1 = false /\
    t_url <$> tasks s1 ≡ₚ omap url_of entities) as (s1 & E1 & Hw & Hf & Hu).
  { unfold Unicat.alter_slot. destruct (separate_by_scheme entities) as [m|x].
    2:{ exfalso. apply Exists_exists in Hsep as (x' & Hx & E). rewrite Forall_forall in Hent. apply Hent in Hx. rewrite E in Hx. by destruct Hx. }
    set (s0 := mk_slot _ _ _ _ _ _). destruct (start_schemes_returns now setup m s0 Hset) as [Hr Hurls].
    assert (frame s0 = true /\ slot_wf s0) as H0 by (by split; [|split; constructor]).
    pose proof (start_schemes_keeps (fun s => frame s = true /\ slot_wf s) now setup m
      (fun url i s H => start_task_wf now url i s (proj1 H) (proj2 H)) s0 H0) as [Hf [H1 H2 H3 H4]].
    destruct (start_schemes now setup m s0) as [r s2]. simpl in *. subst r. rewrite Hf in H3. simpl in H3. rewrite H3 in H4.
    eexists. split; [done|]. rewrite (proj1 (release_fields _)), (proj1 (proj2 (release_fields _))). simpl. split_and!; [|done|].
    - by apply release_wf.
    - rewrite Hurls. apply Hsep. }
  assert (slot_wf s /\ frame s = false) as [[H1 H2 H3 H4] Hfs].
  { subst s. rewrite E1. unfold Unicat.run. apply (foldl_keeps (fun s => slot_wf s /\ frame s = false)); [|done].
    intros s2 [k a] [Hw2 Hf2]. split; [by apply deliver_wf|]. unfold Unicat.deliver. destruct (tasks s2 !! _); [|done].
    simpl. destruct (task_step _ _ _ a) as [[]]. by rewrite (proj1 (release_fields _)). }
  split_and!.
  - unfold s. by rewrite run_urls, E1.
  - done.
  - rewrite H4, H3, Hfs. by destruct (pending s).
  - by apply finalize_value.
Qed.

(** A request that names an unknown scheme is answered twice, and first with a
    success: the exception drops the last pointer to the completion state, whose
    destructor finds no errors, before the handler of the exception sends the error. *)
Theorem unknown_scheme_reports_success (now : nat -> list answer_t) setup (entities : list entity_type) (es : list (nat * answer_t)) :
  Exists (fun x => url_of x = None) entities ->
  exists text, replies (run es (alter_slot now setup entities)) = [Value; Error uncaught_error text] /\
               calls (run es (alter_slot now setup entities)) = [].
Proof.
  intros Hent. pose proof (separate_by_scheme_spec entities) as Hsep.
  assert (exists text, separate_by_scheme entities = Throw (OtherError text)) as [text E].
  { destruct (separate_by_scheme entities) as [m|x] eqn:E.
    { exfalso. destruct Hsep as [_ Hall]. apply Exists_exists in Hent as (y & Hy & Ey). rewrite Forall_forall in Hall.
      apply Hall in Hy. rewrite Ey in Hy. by destruct Hy. }
    clear -E. revert x E. unfold separate_by_scheme. induction entities as [|y l IH] using rev_ind; intros x E; [done|].
    rewrite foldl_snoc in E. destruct (foldl _ _ l) as [m|x'].
    - simpl in E. unfold separate_one in E. unfold scheme_from_string in E. repeat case_match; simplify_eq/=. by eexists.
    - simpl in E. simplify_eq. by eapply IH. }
  exists text. unfold Unicat.alter_slot. rewrite E. simpl.
  assert (forall s, tasks s = [] -> run es s = s) as Hrun.
  { clear. induction es as [|[k a] es IH]; intros s Hs; [done|]. simpl.
    assert (deliver k a s = s) as -> by (unfold Unicat.deliver; by rewrite Hs). by apply IH. }
  by rewrite Hrun.
Qed.

(** The result of a write is not looked at: a write that the unicorn has refused
    because the record has changed since it was read is reported as a success, though
    nothing has been granted or revoked. *)
Theorem refused_write_reported_done (k : nat) (s : slot_t) (t : task_t) :
  tasks s !! k = Some t -> t_stage t = writing ->
  completions (deliver k (Written (Ret false)) s) = completions s ++ [Done (t_url t)].
Proof. intros Hk Hst. unfold Unicat.deliver. rewrite Hk, Hst. simpl. by rewrite (proj1 (proj2 (proj2 (release_fields _)))). Qed.
End facts.

(** ** The cache of authorization handlers: [auth_cache.cpp] *)

(** One map per kind of handler; [make] is the factory of the framework, which is given
    the number of handlers made so far. *)
Record handlers_cache_t := mk_cache { storages : gmap string nat; unicorns : gmap string nat; made : nat }.

Definition get_or_insert (cache : gmap string nat) (name : string) (next : nat) : nat * gmap string nat * nat :=
  match cache !! name with
  | Some h => (h, cache, next)
  | None => (next, <[name := next]> cache, S next)
  end.

Definition make_handler (scheme : scheme_t) (name : string) (c : handlers_cache_t) : nat * handlers_cache_t :=
  match scheme with
  | storage => let '(h, m, n) := get_or_insert (storages c) name (made c) in (h, mk_cache m (unicorns c) n)
  | unicorn => let '(h, m, n) := get_or_insert (unicorns c) name (made c) in (h, mk_cache (storages c) m n)
  end.

Definition handler_of (scheme : scheme_t) (name : string) (c : handlers_cache_t) : option nat :=
  match scheme with storage => storages c !! name | unicorn => unicorns c !! name end.

Record cache_wf (c : handlers_cache_t) : Prop := {
  cw_bound : forall sch name h, handler_of sch name c = Some h -> (h < made c)%nat;
  cw_inj : forall sch name sch' name' h, handler_of sch name c = Some h -> handler_of sch' name' c = Some h -> sch = sch' /\ name = name'
}.

Lemma make_handler_lookup sch name sch' name' c :
  handler_of sch' name' (make_handler sch name c).2 =
    if decide (sch' = sch /\ name' = name) then Some (make_handler sch name c).1 else handler_of sch' name' c.
Proof.
  unfold make_handler, get_or_insert.
  destruct sch, sch'; simpl; try (rewrite decide_False by (by intros [? _])); destruct (_ !! name) eqn:E; simpl; try done.
  all: destruct (decide (name' = name)) as [->|Hn]; [rewrite decide_True by done|rewrite decide_False by tauto]; try done.
  all: by rewrite ?lookup_insert_eq, ?lookup_insert_ne by congruence.
Qed.

(** Handlers are made once per kind and name and are never replaced, so that none of them
    is destroyed while the service lives. *)
Lemma handlers_made_once names :
  let c := foldl (fun c x => (make_handler x.1 x.2 c).2) (mk_cache ∅ ∅ 0) names in
  cache_wf c /\ forall sch name sch' name' h, handler_of sch' name' c = Some h ->
    handler_of sch' name' (make_handler sch name c).2 = Some h.
Proof.
  intros c. split.
  - subst c. apply (foldl_keeps cache_wf); [|split; intros [] ?; simpl; by rewrite lookup_empty].
    intros c [sch name] [Hb Hi]. simpl.
    assert ((made c <= made (make_handler sch name c).2)%nat /\ ((make_handler sch name c).1 < made (make_handler sch name c).2)%nat /\
      (handler_of sch name c = Some (make_handler sch name c).1 \/ (make_handler sch name c).1 = made c)) as (Hm & Hlt & Hnew).
    { pose proof (Hb sch name). unfold make_handler, get_or_insert.
      destruct sch; simpl in *; destruct (_ !! name) eqn:E; simpl; split_and!; try lia; auto. }
    split.
    + intros sch' name' h. rewrite make_handler_lookup. case_decide; [intros [= <-]; lia|]. intros Hh. apply Hb in Hh. lia.
    + intros s1 n1 s2 n2 h. rewrite !make_handler_lookup. repeat case_decide; intros H1 H2; simplify_eq/=.
      * naive_solver.
      * destruct Hnew as [Hnew|Hnew]; [destruct (Hi _ _ _ _ _ Hnew H2); naive_solver|]. apply Hb in H2. lia.
      * destruct Hnew as [Hnew|Hnew]; [destruct (Hi _ _ _ _ _ Hnew H1); naive_solver|]. apply Hb in H1. lia.
      * by eapply Hi.
  - intros sch name sch' name' h H. rewrite make_handler_lookup. case_decide as Hd; [|done]. destruct Hd as [-> ->].
    unfold make_handler, get_or_insert. destruct sch; simpl in *; by rewrite H.
Qed.

(** ** Witnesses *)

Definition codes (c : Z) : string := "code".
Definition framing : exn := SystemError 1 "invalid framing".
Definition owner : identity_t := mk_identity [1] [].
Definition to_all : alter_data_t := mk_alter [1; 2] [] flag_both.

Lemma altered_access_witness :
  allowed flag_read (mk_identity [1; 2] [7]) (alter grant (mk_meta ∅ ∅) to_all) = true /\
  allowed flag_both (mk_identity [3; 2] []) (alter revoke (mk_meta {[2 := 3; 3 := 3]} ∅) to_all) = false.
Proof.
  split.
  - destruct (altered_access flag_read (mk_identity [1; 2] [7]) (mk_meta ∅ ∅) to_all) as [H _]. apply H; [by left|done|].
    left. split; [done|]. intros id Hid. exact Hid.
  - destruct (altered_access flag_both (mk_identity [3; 2] []) (mk_meta {[2 := 3; 3 := 3]} ∅) to_all) as (_ & H & _).
    apply H; [done| |by left].
    right. exists 2. split; [right; left|right; left].
Defined.

Definition two_entities : list entity_type := [("unicorn", None, "/b"); ("storage", Some "s", "a")]%string.
Definition let_in (sch : scheme_t) (name : string) : outcome exn identity_t := Ret owner.
Definition accepted_answers : list (nat * answer_t) :=
  [(1%nat, Verified 0); (0%nat, Verified 0); (1%nat, Verified 0); (1%nat, ReadValue (Ret (Acl (mk_meta ∅ ∅) 4)) None);
   (0%nat, Verified 5); (1%nat, Written (Ret true))].

Lemma alter_answered_witness :
  let s := run codes codes 9 framing framing grant to_all accepted_answers
             (alter_slot codes codes (fun _ w => w) 9 framing framing grant to_all (fun _ => []) let_in two_entities) in
  replies s = [Error 9 "write permission denied for storage:s:a with error code"].
Proof.
  intros s.
  destruct (alter_answered_once codes codes (fun _ w => w) 9 framing framing grant to_all (fun _ => []) let_in two_entities accepted_answers)
    as (_ & _ & H & _); [|done|etransitivity; [exact H|vm_compute; reflexivity]].
  repeat constructor; eexists; reflexivity.
Defined.

Lemma written_after_checks_witness :
  (2 <= checks (answers_of 1 accepted_answers))%nat.
Proof.
  apply (written_after_checks codes codes (fun _ w => w) 9 framing framing grant to_all (fun _ => []) let_in two_entities accepted_answers
    1 (mk_url unicorn "core" "/b") 4 (mk_meta {[1 := 3; 2 := 3]} ∅)).
  apply list_elem_of_lookup. exists 5%nat. vm_compute. reflexivity.
Defined.

Lemma unknown_scheme_witness :
  exists text, replies (alter_slot codes codes (fun _ w => w) 9 framing framing grant to_all (fun _ => []) let_in
                          [("unicorn", None, "/b"); ("mongo", None, "c")]%string) = [Value; Error 9 text].
Proof.
  destruct (unknown_scheme_reports_success codes codes (fun _ w => w) 9 framing framing grant to_all (fun _ => []) let_in
    [("unicorn", None, "/b"); ("mongo", None, "c")]%string []) as (text & H & _); [right; left; reflexivity|].
  exists text. exact H.
Defined.

Lemma refused_write_witness :
  completions (deliver codes codes 9 framing framing grant to_all 0 (Written (Ret false))
    (mk_slot false [mk_task (mk_url unicorn "core" "/b") owner writing] [] [] [] false)) = [Done (mk_url unicorn "core" "/b")].
Proof.
  apply (refused_write_reported_done codes codes 9 framing framing grant to_all 0
    (mk_slot false [mk_task (mk_url unicorn "core" "/b") owner writing] [] [] [] false)
    (mk_task (mk_url unicorn "core" "/b") owner writing)); reflexivity.
Defined.
