(* ===== verification/UnicatBackends.v ===== *)
(** * The backends of the access control service

    [unicat/src/backend/storage.cpp] and [unicorn.cpp]: where the records of an entity are
    kept, how they are written as values and read again
    ([unicat/include/cocaine/service/unicat/auth/metainfo.hpp], and the same converter in
    [unicorn/src/authorization/unicorn.cpp]), and the scopes of the requests
    ([backend/backend.hpp]).

    [unicat_changes_authorization] puts the two services together: what [Unicat.v] writes
    for a prefix is what the authorization of the unicorn ([UnicornAuth.v]) decides by. *)

From Stdlib Require Import Ascii.
From S2P Require Import Prelude LogFilter Dynamic Zookeeper UnicornAuth Unicat.

Local Open Scope Z_scope.
Local Open Scope cpp_scope.

(** ** Calls *)

(** What a backend asks: the authorization of its scheme about an event, and the storage
    or the unicorn of its service.  The storage has no versions. *)
Inductive verified_event := io_storage_read | io_storage_write | io_unicorn_get | io_unicorn_put.
Inductive backend_call :=
| VerifyStorage (event : verified_event) (collection key : string) (i : identity_t)
| VerifyUnicorn (event : verified_event) (path : string) (i : identity_t)
| StorageGet (collection key : string)
| StoragePut (collection key : string) (m : metainfo_t) (tags : list string)
| UnicornGet (path : string)
| UnicornPut (path : string) (value : dynamic_t) (version : Z).

Definition ACL_COLLECTION : string := ".collection-acls".
Definition COLLECTION_ACLS_TAGS : list string := ["storage-acls"].
Definition ACL_NODE : string := "/.acls".
Definition make_acl_path (path : string) : string := (ACL_NODE ++ path)%string.

Section conversion.
(** How a key of a map is written and read ([lexical_cast]), and a flag *)
Context (key_text : Z -> string) (lexical_cast : string -> option Z)
  (flag_dynamic : Z -> dynamic_t) (flag_of : dynamic_t -> option Z).

Definition perms_dynamic (perms : gmap Z Z) : dynamic_t :=
  DObject ((fun kf => (key_text kf.1, flag_dynamic kf.2)) <$> map_to_list perms).
Definition make_dynamic_from_meta (m : metainfo_t) : dynamic_t :=
  DArray [perms_dynamic (c_perms m); perms_dynamic (u_perms m)].

Definition storage_call (c : call_t) : backend_call :=
  match c with
  | VerifyRead url i => VerifyStorage io_storage_read ACL_COLLECTION (entity url) i
  | VerifyWrite url i => VerifyStorage io_storage_write ACL_COLLECTION (entity url) i
  | ReadMetainfo url => StorageGet ACL_COLLECTION (entity url)
  | WriteMetainfo url _ m => StoragePut ACL_COLLECTION (entity url) m COLLECTION_ACLS_TAGS
  end.

Definition unicorn_call (c : call_t) : backend_call :=
  match c with
  | VerifyRead url i => VerifyUnicorn io_unicorn_get (entity url) i
  | VerifyWrite url i => VerifyUnicorn io_unicorn_put (entity url) i
  | ReadMetainfo url => UnicornGet (make_acl_path (entity url))
  | WriteMetainfo url v m => UnicornPut (make_acl_path (entity url)) (make_dynamic_from_meta m) v
  end.

Definition url_of_call (c : call_t) : url_t :=
  match c with VerifyRead url _ | VerifyWrite url _ | ReadMetainfo url | WriteMetainfo url _ _ => url end.
Definition perform (c : call_t) : backend_call :=
  match u_scheme (url_of_call c) with storage => storage_call c | unicorn => unicorn_call c end.

(** *** The converter *)

Definition convertible (d : dynamic_t) : bool := match d with DArray [_; _] => true | _ => false end.

(** The loop over an object: [insert] keeps an entry that is there. *)
Fixpoint convert_perms (l : list (string * dynamic_t)) (result : gmap Z Z) : option (gmap Z Z) :=
  match l with
  | [] => Some result
  | (k, v) :: l =>
      lexical_cast k ≫= fun k => flag_of v ≫= fun f =>
      convert_perms l (match result !! k with Some _ => result | None => <[k := f]> result end)
  end.

Definition convert (d : dynamic_t) : option metainfo_t :=
  match d with
  | DArray [c; u] =>
      (as_object c ≫= fun l => convert_perms l ∅) ≫= fun cs =>
      (as_object u ≫= fun l => convert_perms l ∅) ≫= fun us => Some (mk_meta cs us)
  | _ => None
  end.

(** What is found under a path: nothing, or a value with its version *)
Definition read_stored (v : option (dynamic_t * Z)) : stored :=
  match v with
  | None => Missing
  | Some (d, n) =>
      if convertible d then match convert d with Some m => Acl m n | None => Unconvertible end
      else NotAPair
  end.

(** *** What is written is read *)

(** The keys and flags of a record survive being written. *)
Definition writable (m : metainfo_t) : Prop :=
  forall k f, c_perms m !! k = Some f \/ u_perms m !! k = Some f ->
    lexical_cast (key_text k) = Some k /\ flag_of (flag_dynamic f) = Some f.

Lemma convert_perms_spec (l : list (Z * Z)) : forall acc,
  NoDup l.*1 -> (forall k, k ∈ l.*1 -> acc !! k = None) ->
  (forall k f, (k, f) ∈ l -> lexical_cast (key_text k) = Some k /\ flag_of (flag_dynamic f) = Some f) ->
  convert_perms ((fun kf => (key_text kf.1, flag_dynamic kf.2)) <$> l) acc = Some (list_to_map l ∪ acc).
Proof.
  induction l as [|[k f] l IH]; intros acc Hd Ha Hw; simpl; [by rewrite (left_id_L ∅ (∪))|].
  apply NoDup_cons in Hd as [Hk Hd]. destruct (Hw k f) as [-> ->]; [apply list_elem_of_here|]. simpl.
  rewrite (Ha k) by (simpl; set_solver). rewrite IH; [|done| |intros; apply Hw; set_solver].
  - f_equal. rewrite <- insert_union_r, insert_union_l; [done|]. by apply not_elem_of_list_to_map_1.
  - intros k' Hk'. rewrite lookup_insert_ne by (intros ->; done). apply Ha. simpl. set_solver.
Qed.

Lemma perms_roundtrip perms :
  (forall k f, perms !! k = Some f -> lexical_cast (key_text k) = Some k /\ flag_of (flag_dynamic f) = Some f) ->
  (as_object (perms_dynamic perms) ≫= fun l => convert_perms l ∅) = Some perms.
Proof.
  intros Hw. simpl. rewrite convert_perms_spec.
  - by rewrite list_to_map_to_list, (right_id_L ∅ (∪)).
  - apply NoDup_fst_map_to_list.
  - intros. apply lookup_empty.
  - intros k f Hkf%elem_of_map_to_list. by apply Hw.
Qed.

Lemma read_written m v : writable m -> read_stored (Some (make_dynamic_from_meta m, v)) = Acl m v.
Proof.
  intros Hw. unfold read_stored, make_dynamic_from_meta, convert, convertible.
  rewrite (perms_roundtrip (c_perms m)), (perms_roundtrip (u_perms m)) by (intros; apply Hw; auto). by destruct m.
Qed.

(** A record that the access control service writes is the one that it reads later, with
    the version that the unicorn gives it, if the keys and the flags survive being written;
    and it is read from where it was written. *)
Theorem metainfo_roundtrip (url : url_t) (version v : Z) (m : metainfo_t) :
  writable m ->
  match perform (WriteMetainfo url version m), perform (ReadMetainfo url) with
  | UnicornPut p d _, UnicornGet p' => p = p' /\ read_stored (Some (d, v)) = Acl m v
  | StoragePut c k m' _, StorageGet c' k' => c = c' /\ k = k' /\ m' = m
  | _, _ => False
  end.
Proof. intros Hw. unfold perform. simpl. destruct (u_scheme url); simpl; [done|]. split; [done|by apply read_written]. Qed.

(** *** Together with the authorization of the unicorn *)

Definition no_slash (s : string) : Prop := first_token s = s.

Lemma first_token_app p rest : no_slash p -> first_token (p ++ String slash rest) = p.
Proof.
  unfold no_slash. induction p as [|c p IH]; string_simpl; simpl; [first [done|by case_decide]|].
  case_decide; [done|]. intros [= E]. by rewrite IH.
Qed.

(** The record of a prefix is kept where the authorization looks for it. *)
Lemma acl_path_of_prefix p : make_acl_path ("/" ++ p) = make_path p.
Proof. done. Qed.

(** The path of an entity below a prefix is not that of any prefix. *)
Lemma acl_path_below p rest q : no_slash q -> make_acl_path ("/" ++ p ++ String slash rest) <> make_path q.
Proof.
  intros Hq E. assert ((p ++ String slash rest)%string = q) as <- by (by injection E). revert Hq. unfold no_slash. clear.
  change (first_token (p ++ String slash rest) <> (p ++ String slash rest)%string). induction p as [|c p IH]; string_simpl; simpl; [first [done|by case_decide]|].
  case_decide; [done|]. intros [= X]. by apply IH.
Qed.

(** C36: What changing the record of a prefix does to its users.  The value that the access
    control service puts is under the path that the authorization looks up for any path
    under the prefix, whoever asks; once it is there, the clients whose ids have been
    granted the rights to an operation are let in, and those whose ids have been revoked
    are refused, unless nothing is left of the record.  It is said of the operations that
    have rights of their own, all but [named_lock], and of records whose ids and flags
    are read back as they were written ([writable]); the prefix is not empty and has no
    slash in it.  To let a client in is to call its callback without an error ([t] is what
    the callback throws, if anything). *)
Theorem unicat_changes_authorization (e : event_t) (d : alter_data_t) (m : metainfo_t) (p : string) (version v : Z)
    (mt : method) (flag : Z) (i : identity_t) (rest : string) (t : option error_t) (a : enabled_t) :
  no_slash p -> p <> ""%string -> writable (alter e m d) -> operation_from mt = Some flag ->
  meta_empty (alter e m d) = false ->
  exists value,
    perform (WriteMetainfo (mk_url unicorn DEFAULT_SERVICE_NAME ("/" ++ p)) version (alter e m d))
      = UnicornPut (make_path p) value version /\
    let asked' := verify mt ("/" ++ p ++ String slash rest) i a in
    let id := S (counter a) in
    asked asked' = asked a ++ [GetAcl (make_path p)] /\
    let a' := on_get t id (Ret (read_stored (Some (value, v)))) asked' in
    (e = grant -> Z.land flag (a_flags d) = flag ->
       (cids i <> [] /\ (forall id, id ∈ cids i -> id ∈ a_cids d)) \/ (uids i <> [] /\ (forall id, id ∈ uids i -> id ∈ a_uids d)) ->
       a' = UnicornAuth.allow t id (drop_lookup id asked')) /\
    (e = revoke -> Z.land flag (a_flags d) <> 0 ->
       (cids i = [] \/ exists id, id ∈ cids i /\ id ∈ a_cids d) -> (uids i = [] \/ exists id, id ∈ uids i /\ id ∈ a_uids d) ->
       a' = UnicornAuth.spawn id permission_denied (drop_lookup id asked')).
Proof.
  intros Hp Hne Hw Hop Hm. eexists. split; [reflexivity|].
  assert (verify mt ("/" ++ p ++ String slash rest) i a = start_lookup (mk_lookup mt i p) a) as ->.
  { assert (extract_prefix (p ++ String slash rest) = Some p) as X
      by (unfold extract_prefix; rewrite first_token_app by done; by destruct p).
    unfold verify. string_simpl. destruct (decide (slash = slash)); [|done]. by rewrite X. }
  split; [done|]. rewrite read_written by done.
  assert (lookups (start_lookup (mk_lookup mt i p) a) !! S (counter a) = Some (mk_lookup mt i p)) as L by apply lookup_insert_eq.
  generalize dependent (start_lookup (mk_lookup mt i p) a). intros s L. unfold on_get. cbv zeta. rewrite L.
  unfold lookup_permissions, decide_access. cbn [l_method l_identity l_prefix]. rewrite Hop, Hm.
  destruct (altered_access flag i m d) as (Hg & Hr & _).
  assert (flag = flag_read \/ flag = flag_both) as Hf by (destruct mt; simplify_eq/=; auto).
  split; intros ->.
  - intros Hfl Hi. by rewrite (Hg Hf Hfl Hi).
  - intros Hfl Hc Hu. by rewrite (Hr Hfl Hc Hu).
Qed.
End conversion.

(** ** Scopes of requests *)

(** [scope_ctl_t]: the scope of the request of a handler; [closed] are those it has
    closed. *)
Record scope_ctl_t := mk_ctl { current : option nat; closed : list nat }.
Definition close_current (s : scope_ctl_t) : list nat := match current s with Some k => closed s ++ [k] | None => closed s end.
Definition attach_scope (k : nat) (s : scope_ctl_t) : scope_ctl_t := mk_ctl (Some k) (close_current s).
Definition destroy (s : scope_ctl_t) : scope_ctl_t := mk_ctl None (close_current s).

(** Every scope that a handler was given is closed once, in their order, when it goes. *)
Theorem scopes_closed_once (ks : list nat) :
  closed (destroy (foldl (fun s k => attach_scope k s) (mk_ctl None []) ks)) = ks.
Proof.
  assert (forall s, closed (destroy (foldl (fun s k => attach_scope k s) s ks)) = close_current s ++ ks) as H.
  { induction ks as [|k ks IH]; intros s; cbn [foldl]; [by rewrite app_nil_r|]. rewrite IH. unfold close_current at 1. simpl.
    by rewrite <- app_assoc. }
  rewrite H. done.
Qed.

(** ** Examples *)

Definition text_of (k : Z) : string := if k =? 7 then "7" else "8".
Definition cast (s : string) : option Z := if String.eqb s "7" then Some 7 else if String.eqb s "8" then Some 8 else None.

Lemma only_seven k f : ({[7 := 3]} : gmap Z Z) !! k = Some f -> k = 7 /\ f = 3.
Proof. intros [-> ->]%lookup_singleton_Some. done. Qed.

Lemma seven_writable : writable text_of cast DUint as_uint (alter grant (mk_meta ∅ ∅) (mk_alter [7] [] 3)).
Proof.
  intros k f. assert (alter grant (mk_meta ∅ ∅) (mk_alter [7] [] 3) = mk_meta {[7 := 3]} ∅) as -> by (vm_compute; reflexivity).
  intros [[-> ->]%only_seven|E]; [done|]. simpl in E. by rewrite lookup_empty in E.
Qed.

Lemma metainfo_roundtrip_witness :
  read_stored cast as_uint (Some (make_dynamic_from_meta text_of DUint (mk_meta {[7 := 3]} ∅), 5)) = Acl (mk_meta {[7 := 3]} ∅) 5.
Proof.
  pose proof (metainfo_roundtrip text_of cast DUint as_uint (mk_url unicorn "core" "/app") 4 5
    (alter grant (mk_meta ∅ ∅) (mk_alter [7] [] 3)) seven_writable) as H.
  exact (proj2 H).
Defined.

(** A client is granted both rights to a prefix and then increments below it. *)
Lemma unicat_changes_authorization_witness :
  called (on_get None 1 (Ret (read_stored cast as_uint (Some (make_dynamic_from_meta text_of DUint (alter grant (mk_meta ∅ ∅) (mk_alter [7] [] 3)), 5))))
    (verify m_increment "/app/counter" (mk_identity [7] []) enabled_construct)) = [(1%nat, Ok)].
Proof.
  destruct (unicat_changes_authorization text_of cast DUint as_uint grant (mk_alter [7] [] 3) (mk_meta ∅ ∅) "app" 4 5
    m_increment flag_both (mk_identity [7] []) "counter" None enabled_construct) as (value & E & _ & H & _);
    [done|done|exact seven_writable|done|done|].
  injection E as <-. etransitivity; [apply (f_equal called), H|reflexivity]; try done.
  left. split; [done|]. intros id Hid. exact Hid.
Defined.
