(* ===== verification/Metrics.v ===== *)
(** * The metrics service: [metrics/src/service/]

    A client asks for the metrics of the process that satisfy a query, in one of two
    formats.  A query is a tree of objects with one name each ([registry.hpp], the
    filters of [filter/] and the extractors of [extract.hpp]) which is compiled to a
    function on metrics; the formats are a flat object ([visitor/plain.hpp]) and a tree
    of objects by the components of the name ([visitor/dendroid.hpp]).

    Metrics and the comparison of [dynamic_t] values are those of libraries: a metric is
    its name, its tags and the numbers it reports, and the comparison is a parameter. *)

From Stdlib Require Import Ascii SpecFloat.
From S2P Require Import Prelude LogFilter Dynamic.

Set Warnings "-register-all".

Local Open Scope Z_scope.

(** ** Metrics *)

Record snapshot_t := mk_snapshot {
  s_median : double.t; s_p75 : double.t; s_p90 : double.t; s_p95 : double.t; s_p98 : double.t; s_p99 : double.t;
  s_mean : double.t; s_stddev : double.t
}.

(** What a metric reports to a visitor, one constructor per group of overloads *)
Inductive reading_t :=
| Gauge (v : dynamic_t)
| Counter (v : dynamic_t)
| Meter (count : Z) (m01 m05 m15 : double.t)
| Timer (count : Z) (m01 m05 m15 : double.t) (s : snapshot_t).

Record metric_t := mk_metric { m_name : string; m_tags : gmap string string; m_reading : reading_t }.

Inductive metrics_error :=
| not_an_object | not_one_name | not_an_array_arg | unknown_name | wrong_arguments | not_a_string | unknown_output_type
| no_value.   (** the value of an empty [boost::optional], or an element out of range *)

Abbreviation node R := (metric_t -> outcome metrics_error R).
Abbreviation query_t := (node bool).

Definition as_string (v : dynamic_t) : outcome metrics_error string :=
  match v with DString s => Ret s | _ => Throw not_a_string end.

(** [std::transform] with a function that may throw *)
Definition transform {A B} (f : A -> outcome metrics_error B) : list A -> outcome metrics_error (list B) :=
  fix go l :=
    match l with
    | [] => Ret []
    | a :: l => outcome_bind (f a) (fun b => outcome_bind (go l) (fun bs => Ret (b :: bs)))
    end.

(** [std::all_of] and [std::any_of] over functions of the metric *)
Fixpoint all_of (fs : list query_t) (m : metric_t) : outcome metrics_error bool :=
  match fs with
  | [] => Ret true
  | f :: fs => outcome_bind (f m) (fun b => if (b : bool) then all_of fs m else Ret false)
  end.
Fixpoint any_of (fs : list query_t) (m : metric_t) : outcome metrics_error bool :=
  match fs with
  | [] => Ret false
  | f :: fs => outcome_bind (f m) (fun b => if (b : bool) then Ret true else any_of fs m)
  end.

Section service.
(** The equality of [dynamic_t]; which operand of [f1(metric) == f2(metric)] the compiler
    has evaluated first, an order that C++ does not fix *)
Context (dynamic_eq : dynamic_t -> dynamic_t -> bool) (right_first : bool).

(** ** The registry *)

Inductive filter_kind := eq_t | ge_t | or_t | and_t | contains_t.
Inductive extractor_kind := const_t | name_t | type_t | tag_t.

Definition filter_name (k : filter_kind) : string :=
  match k with eq_t => "eq" | ge_t => "ge" | or_t => "or" | and_t => "and" | contains_t => "contains" end.
Definition extractor_name (k : extractor_kind) : string :=
  match k with const_t => "const" | name_t => "name" | type_t => "type" | tag_t => "tag" end.

Definition arity (k : filter_kind) : option nat :=
  match k with or_t | and_t => None | _ => Some 2%nat end.
Definition children (k : extractor_kind) : option nat :=
  match k with const_t | tag_t => Some 1%nat | name_t | type_t => Some 0%nat end.

Record registry_t := mk_registry { filters : gmap string filter_kind; extractors : gmap string extractor_kind }.

Definition add_filter (k : filter_kind) (r : registry_t) : registry_t :=
  mk_registry (<[filter_name k := k]> (filters r)) (extractors r).
Definition add_extractor (k : extractor_kind) (r : registry_t) : registry_t :=
  mk_registry (filters r) (<[extractor_name k := k]> (extractors r)).

(** What the constructor of the service registers *)
Definition the_registry : registry_t :=
  foldr add_filter (foldr add_extractor (mk_registry ∅ ∅) [const_t; type_t; name_t; tag_t])
    [contains_t; and_t; or_t; ge_t; eq_t].

(** The number of arguments is checked before construction. *)
Definition check_count (n : option nat) (args : list dynamic_t) : bool :=
  match n with Some n => bool_decide (n = length args) | None => true end.

Definition const_construct (args : list dynamic_t) : outcome metrics_error (node dynamic_t) :=
  match args with v :: _ => Ret (fun _ => Ret v) | [] => Throw no_value end.
Definition name_construct : outcome metrics_error (node dynamic_t) := Ret (fun m => Ret (DString (m_name m))).
Definition type_construct : outcome metrics_error (node dynamic_t) :=
  Ret (fun m => match m_tags m !! "type"%string with Some t => Ret (DString t) | None => Throw no_value end).
Definition tag_construct (ex : outcome metrics_error (node dynamic_t)) : outcome metrics_error (node dynamic_t) :=
  outcome_bind ex (fun ex => Ret (fun m =>
    outcome_bind (ex m) (fun v => outcome_bind (as_string v) (fun name =>
    Ret (match m_tags m !! name with Some t => DString t | None => DString "" end))))).

Fixpoint make_extractor (r : registry_t) (tree : dynamic_t) : outcome metrics_error (node dynamic_t) :=
  match tree with
  | DObject [(name, DArray args)] =>
      match extractors r !! name with
      | None => Throw unknown_name
      | Some k =>
          if negb (check_count (children k) args) then Throw wrong_arguments
          else match k with
               | const_t => const_construct args
               | name_t => name_construct
               | type_t => type_construct
               | tag_t =>
                   (* [args.back()] *)
                   tag_construct ((fix back l := match l with
                                                 | [] => Throw no_value
                                                 | [a] => make_extractor r a
                                                 | _ :: l => back l
                                                 end) args)
               end
      end
  | DObject [(_, _)] => Throw not_an_array_arg
  | DObject _ => Throw not_one_name
  | _ => Throw not_an_object
  end.

(** [f] of the two extractors of a binary filter *)
Definition binary_create (r : registry_t) (f : node dynamic_t -> node dynamic_t -> query_t) (args : list dynamic_t) :
    outcome metrics_error query_t :=
  match args with
  | a0 :: a1 :: _ =>
      outcome_bind (make_extractor r a0) (fun f1 => outcome_bind (make_extractor r a1) (fun f2 => Ret (f f1 f2)))
  | _ => Throw no_value
  end.

Definition eq_create (r : registry_t) (args : list dynamic_t) : outcome metrics_error query_t :=
  binary_create r (fun f1 f2 m =>
    if right_first then outcome_bind (f2 m) (fun b => outcome_bind (f1 m) (fun a => Ret (dynamic_eq a b)))
    else outcome_bind (f1 m) (fun a => outcome_bind (f2 m) (fun b => Ret (dynamic_eq a b)))) args.
(** The arguments are not used. *)
Definition ge_create (args : list dynamic_t) : outcome metrics_error query_t := Ret (fun _ => Ret true).
Definition contains_create (r : registry_t) (args : list dynamic_t) : outcome metrics_error query_t :=
  binary_create r (fun f1 f2 m =>
    outcome_bind (f1 m) (fun a => outcome_bind (as_string a) (fun name =>
    outcome_bind (f2 m) (fun b => outcome_bind (as_string b) (fun substring =>
    Ret (match String.index 0 substring name with Some _ => true | None => false end)))))) args.
Definition and_create (functions : outcome metrics_error (list query_t)) : outcome metrics_error query_t :=
  outcome_bind functions (fun fs => Ret (all_of fs)).
Definition or_create (functions : outcome metrics_error (list query_t)) : outcome metrics_error query_t :=
  outcome_bind functions (fun fs => Ret (any_of fs)).

Fixpoint registry_make_filter (r : registry_t) (tree : dynamic_t) : outcome metrics_error query_t :=
  match tree with
  | DObject [(name, DArray args)] =>
      match filters r !! name with
      | None => Throw unknown_name
      | Some k =>
          if negb (check_count (arity k) args) then Throw wrong_arguments
          else match k with
               | eq_t => eq_create r args
               | ge_t => ge_create args
               | contains_t => contains_create r args
               | and_t => and_create (transform (registry_make_filter r) args)
               | or_t => or_create (transform (registry_make_filter r) args)
               end
      end
  | DObject [(_, _)] => Throw not_an_array_arg
  | DObject _ => Throw not_one_name
  | _ => Throw not_an_object
  end.

(** ** The two formats *)

Abbreviation object_t := (list (string * dynamic_t)).

(** [out[k] = v] *)
Fixpoint object_set (k : string) (v : dynamic_t) (out : object_t) : object_t :=
  match out with
  | [] => [(k, v)]
  | (k', v') :: out' => if String.eqb k' k then (k', v) :: out' else (k', v') :: object_set k v out'
  end.

(** [x / 1e6] *)
Definition milliseconds (x : double.t) : dynamic_t := DDouble (SFdiv 53 1024 x (double.of_Z 1000000)).

Definition rate_fields (count : Z) (m01 m05 m15 : double.t) : object_t :=
  [("count", DUint count); ("m01rate", DDouble m01); ("m05rate", DDouble m05); ("m15rate", DDouble m15)]%string.
Definition snapshot_fields (s : snapshot_t) : object_t :=
  [("p50", milliseconds (s_median s)); ("p75", milliseconds (s_p75 s)); ("p90", milliseconds (s_p90 s));
   ("p95", milliseconds (s_p95 s)); ("p98", milliseconds (s_p98 s)); ("p99", milliseconds (s_p99 s));
   ("mean", milliseconds (s_mean s)); ("stddev", milliseconds (s_stddev s))]%string.

Definition plain_set (name : string) (fields : object_t) (out : object_t) : object_t :=
  foldl (fun out f => object_set (name ++ "." ++ f.1) f.2 out) out fields.

Definition plain_visit (m : metric_t) (out : object_t) : object_t :=
  match m_reading m with
  | Gauge v | Counter v => object_set (m_name m) v out
  | Meter count m01 m05 m15 => plain_set (m_name m) (rate_fields count m01 m05 m15) out
  | Timer count m01 m05 m15 s => plain_set (m_name m) (rate_fields count m01 m05 m15 ++ snapshot_fields s) out
  end.

Definition is_dot (c : ascii) : bool := Ascii.eqb c ".".

(** [boost::split] by dots with [token_compress_on]: adjacent dots separate once. *)
Fixpoint split_name (s : string) : list string :=
  match s with
  | EmptyString => [""%string]
  | String c s' =>
      if is_dot c then
        match s' with
        | String c' _ => if is_dot c' then split_name s' else ""%string :: split_name s'
        | EmptyString => ""%string :: split_name s'
        end
      else match split_name s' with
           | t :: ts => String c t :: ts
           | [] => [String c ""]
           end
  end.

(** [traverse] and then [f] on the object it ends at *)
Fixpoint traverse (parts : list string) (f : object_t -> object_t) (out : object_t) : object_t :=
  match parts with
  | [] => f out
  | part :: parts =>
      let sub := match object_at out part with Some (DObject o) => o | _ => [] end in
      object_set part (DObject (traverse parts f sub)) out
  end.

Definition object_sets (fields : object_t) (out : object_t) : object_t :=
  foldl (fun out f => object_set f.1 f.2 out) out fields.

Definition dendroid_visit (m : metric_t) (out : object_t) : outcome metrics_error object_t :=
  match rev (split_name (m_name m)) with
  | [] => Throw no_value
  | name :: rparts =>
      Ret (match m_reading m with
           | Gauge v | Counter v => traverse (rev rparts) (object_set name v) out
           | Meter count m01 m05 m15 => traverse (split_name (m_name m)) (object_sets (rate_fields count m01 m05 m15)) out
           | Timer count m01 m05 m15 s =>
               traverse (split_name (m_name m)) (object_sets (rate_fields count m01 m05 m15 ++ snapshot_fields s)) out
           end)
  end.

(** ** The service *)

Inductive output_type := json | plain.

Definition make_type (type : string) : outcome metrics_error output_type :=
  if String.eqb type "" then Ret plain
  else if String.eqb type "json" then Ret json
  else if String.eqb type "plain" then Ret plain
  else Throw unknown_output_type.

Definition make_filter (query : dynamic_t) : outcome metrics_error query_t :=
  match query with
  | DNull => Ret (fun _ => Ret true)
  | _ => registry_make_filter the_registry query
  end.

(** [hub.select(filter)]: the metrics of the hub that satisfy the query *)
Fixpoint select (f : query_t) (hub : list metric_t) : outcome metrics_error (list metric_t) :=
  match hub with
  | [] => Ret []
  | m :: hub => outcome_bind (f m) (fun b => outcome_bind (select f hub) (fun ms => Ret (if (b : bool) then m :: ms else ms)))
  end.

Definition construct_plain (f : query_t) (hub : list metric_t) : outcome metrics_error object_t :=
  outcome_bind (select f hub) (fun ms => Ret (foldl (fun out m => plain_visit m out) [] ms)).

Definition construct_dendroid (f : query_t) (hub : list metric_t) : outcome metrics_error object_t :=
  outcome_bind (select f hub) (fun ms =>
    foldl (fun out m => outcome_bind out (dendroid_visit m)) (Ret []) ms).

Definition metrics (type : string) (query : dynamic_t) (hub : list metric_t) : outcome metrics_error object_t :=
  outcome_bind (make_type type) (fun ty => outcome_bind (make_filter query) (fun f =>
  match ty with json => construct_dendroid f hub | plain => construct_plain f hub end)).

(** *** The constructor *)

(** What a sender of metrics calls for its data; the hub is read at each call. *)
Definition data_provider_t : Type := list metric_t -> outcome metrics_error object_t.

Inductive construct_error := bad_args | sender_failed (name : string).

(** The senders one after the other; [made] is which of them the repository can make. *)
Fixpoint make_senders (made : string -> bool) (filter_ast : dynamic_t) (names : list dynamic_t)
  : outcome construct_error (list (string * data_provider_t)) :=
  match names with
  | [] => Ret []
  | n :: names =>
      outcome_bind (access bad_args (Dynamic.as_string n)) (fun name =>
      if made name then
        outcome_bind (make_senders made filter_ast names) (fun l => Ret ((name, metrics "json" filter_ast) :: l))
      else Throw (sender_failed name))
  end.

Definition metrics_construct (made : string -> bool) (args : dynamic_t)
  : outcome construct_error (list (string * data_provider_t)) :=
  outcome_bind (access bad_args (as_object args)) (fun m =>
  outcome_bind (access bad_args (as_array (field "senders" (DArray []) m))) (fun sender_names =>
  make_senders made (field "filter_ast" DNull m) sender_names)).
End service.

(** ** Queries *)

Inductive extractor := EConst (v : dynamic_t) | EName | EType | ETag (e : extractor).
Inductive query :=
| QEq (e1 e2 : extractor)
| QGe (a b : dynamic_t)
| QContains (e1 e2 : extractor)
| QAnd (qs : list query)
| QOr (qs : list query).

Definition query_nested_ind (P : query -> Prop)
    (Heq : forall e1 e2, P (QEq e1 e2)) (Hge : forall a b, P (QGe a b)) (Hco : forall e1 e2, P (QContains e1 e2))
    (Hand : forall qs, Forall P qs -> P (QAnd qs)) (Hor : forall qs, Forall P qs -> P (QOr qs)) : forall q, P q :=
  fix go q :=
    match q with
    | QEq e1 e2 => Heq e1 e2
    | QGe a b => Hge a b
    | QContains e1 e2 => Hco e1 e2
    | QAnd qs => Hand qs ((fix all l := match l as l return Forall P l with [] => Forall_nil_2 P | q :: l => Forall_cons_2 P q l (go q) (all l) end) qs)
    | QOr qs => Hor qs ((fix all l := match l as l return Forall P l with [] => Forall_nil_2 P | q :: l => Forall_cons_2 P q l (go q) (all l) end) qs)
    end.

Definition call (name : string) (args : list dynamic_t) : dynamic_t := DObject [(name, DArray args)].

Fixpoint print_extractor (e : extractor) : dynamic_t :=
  match e with
  | EConst v => call "const" [v]
  | EName => call "name" []
  | EType => call "type" []
  | ETag e => call "tag" [print_extractor e]
  end.

Fixpoint print_query (q : query) : dynamic_t :=
  match q with
  | QEq e1 e2 => call "eq" [print_extractor e1; print_extractor e2]
  | QGe a b => call "ge" [a; b]
  | QContains e1 e2 => call "contains" [print_extractor e1; print_extractor e2]
  | QAnd qs => call "and" (map print_query qs)
  | QOr qs => call "or" (map print_query qs)
  end.

(** The meaning of a query *)
Fixpoint eval_extractor (e : extractor) (m : metric_t) : outcome metrics_error dynamic_t :=
  match e with
  | EConst v => Ret v
  | EName => Ret (DString (m_name m))
  | EType => match m_tags m !! "type"%string with Some t => Ret (DString t) | None => Throw no_value end
  | ETag e =>
      match eval_extractor e m with
      | Ret (DString name) => Ret (DString (default ""%string (m_tags m !! name)))
      | Ret _ => Throw not_a_string
      | Throw x => Throw x
      end
  end.

Definition includes (sub s : string) : bool := match String.index 0 sub s with Some _ => true | None => false end.

Section queries.
Context (dynamic_eq : dynamic_t -> dynamic_t -> bool).

(** The meaning of a query, given the meaning of [ge] *)
Section meaning.
Context (right_first : bool) (ge : dynamic_t -> dynamic_t -> query_t).

Fixpoint eval_query (q : query) (m : metric_t) : outcome metrics_error bool :=
  match q with
  | QEq e1 e2 =>
      match eval_extractor e1 m, eval_extractor e2 m with
      | Ret a, Ret b => Ret (dynamic_eq a b)
      | Throw x, Throw y => Throw (if right_first then y else x)
      | Throw x, _ | _, Throw x => Throw x
      end
  | QGe a b => ge a b m
  | QContains e1 e2 =>
      match eval_extractor e1 m with
      | Throw x => Throw x
      | Ret (DString name) =>
          match eval_extractor e2 m with
          | Throw x => Throw x
          | Ret (DString sub) => Ret (includes sub name)
          | Ret _ => Throw not_a_string
          end
      | Ret _ => Throw not_a_string
      end
  | QAnd qs => foldr (fun q r => match eval_query q m with Ret true => r | x => x end) (Ret true) qs
  | QOr qs => foldr (fun q r => match eval_query q m with Ret false => r | x => x end) (Ret false) qs
  end.

End meaning.

(** No part of the query is a [ge]. *)
Fixpoint ge_free (q : query) : bool :=
  match q with
  | QGe _ _ => false
  | QAnd qs | QOr qs => forallb ge_free qs
  | _ => true
  end.

(** What the code makes of [ge] *)
Definition accepts (a b : dynamic_t) : query_t := fun _ => Ret true.

(** Both return the same, or both throw. *)
Definition same_answer (x y : outcome metrics_error bool) : Prop :=
  match x, y with Ret a, Ret b => a = b | Throw _, Throw _ => True | _, _ => False end.

Lemma same_answer_refl x : same_answer x x.
Proof. by destruct x. Qed.

(** The order of evaluation only decides which of two exceptions is thrown. *)
Lemma eval_order q r r' ge m : same_answer (eval_query r ge q m) (eval_query r' ge q m).
Proof.
  induction q as [e1 e2|a b|e1 e2|qs IH|qs IH] using query_nested_ind; simpl; try apply same_answer_refl.
  - by destruct (eval_extractor e1 m), (eval_extractor e2 m).
  - induction IH as [|q qs Hq _ IH]; [done|]. simpl.
    by destruct (eval_query r ge q m) as [[]|], (eval_query r' ge q m) as [[]|].
  - induction IH as [|q qs Hq _ IH]; [done|]. simpl.
    by destruct (eval_query r ge q m) as [[]|], (eval_query r' ge q m) as [[]|].
Qed.

(** A query without [ge] means the same whatever [ge] means. *)
Lemma eval_ge_free q r ge ge' m : ge_free q = true -> eval_query r ge q m = eval_query r ge' q m.
Proof.
  induction q as [e1 e2|a b|e1 e2|qs IH|qs IH] using query_nested_ind; simpl; intros H; try done;
    (induction IH as [|q qs Hq _ IH]; [done|]; simpl in H |- *; apply andb_true_iff in H as [H1 H2];
     by rewrite (Hq H1), (IH H2)).
Qed.

Section compiler.
Context (right_first : bool).
Local Abbreviation compile := (registry_make_filter dynamic_eq right_first the_registry).

Lemma compile_extractor e :
  exists f, make_extractor the_registry (print_extractor e) = Ret f /\ forall m, f m = eval_extractor e m.
Proof.
  induction e as [v| | |e (f & E & Hf)]; simpl; [by eexists|by eexists|by eexists|].
  rewrite E. eexists. split; [done|]. intros m. simpl. rewrite Hf.
  destruct (eval_extractor e m) as [[]|]; simpl; try done. by destruct (m_tags m !! s).
Qed.

Lemma compile_list (qs : list query) :
  Forall (fun q => exists f, compile (print_query q) = Ret f /\ forall m, f m = eval_query right_first accepts q m) qs ->
  exists fs, transform compile (map print_query qs) = Ret fs /\ Forall2 (fun q (f : query_t) => forall m, f m = eval_query right_first accepts q m) qs fs.
Proof.
  induction 1 as [|q qs (f & E & Hf) _ (fs & E' & Hfs)]; [exists []; by split|].
  exists (f :: fs). split; [|by constructor]. simpl. rewrite E. simpl. by rewrite E'.
Qed.

Lemma compile_query q : exists f, compile (print_query q) = Ret f /\ forall m, f m = eval_query right_first accepts q m.
Proof.
  induction q as [e1 e2|a b|e1 e2|qs IH|qs IH] using query_nested_ind.
  - destruct (compile_extractor e1) as (f1 & E1 & H1), (compile_extractor e2) as (f2 & E2 & H2).
    eexists. split; [simpl; unfold eq_create, binary_create; by rewrite E1; simpl; rewrite E2|].
    intros m. simpl. rewrite H1, H2. by destruct right_first, (eval_extractor e1 m), (eval_extractor e2 m).
  - by eexists.
  - destruct (compile_extractor e1) as (f1 & E1 & H1), (compile_extractor e2) as (f2 & E2 & H2).
    eexists. split; [simpl; unfold contains_create, binary_create; by rewrite E1; simpl; rewrite E2|].
    intros m. simpl. rewrite H1, H2. destruct (eval_extractor e1 m) as [[]|]; simpl; try done.
    by destruct (eval_extractor e2 m) as [[]|].
  - destruct (compile_list qs IH) as (fs & E & Hfs). eexists. split; [simpl; by rewrite E|].
    intros m. simpl. clear -Hfs. induction Hfs as [|q f qs fs Hf _ IH]; [done|]. simpl. rewrite Hf, IH.
    by destruct (eval_query right_first accepts q m) as [[]|].
  - destruct (compile_list qs IH) as (fs & E & Hfs). eexists. split; [simpl; by rewrite E|].
    intros m. simpl. clear -Hfs. induction Hfs as [|q f qs fs Hf _ IH]; [done|]. simpl. rewrite Hf, IH.
    by destruct (eval_query right_first accepts q m) as [[]|].
Qed.

(** A tree is below another one. *)
Fixpoint depth (t : dynamic_t) : nat :=
  match t with
  | DArray l => S (list_max (map depth l))
  | DObject m => S (list_max (map (fun x => depth x.2) m))
  | _ => 0
  end.

Lemma depth_arg name args a : In a args -> (depth a < depth (call name args))%nat.
Proof.
  intros Ha. simpl. assert (depth a <= list_max (map depth args))%nat; [|lia].
  pose proof (proj1 (list_max_le (map depth args) _) (le_n _)) as H. rewrite List.Forall_forall in H. by apply H, in_map.
Qed.

(** What each table has under a name *)
Lemma the_filters name k : filters the_registry !! name = Some k -> name = filter_name k.
Proof.
  unfold the_registry. simpl. rewrite !lookup_insert_Some, lookup_empty. naive_solver.
Qed.
Lemma the_extractors name k : extractors the_registry !! name = Some k -> name = extractor_name k.
Proof.
  unfold the_registry. simpl. rewrite !lookup_insert_Some, lookup_empty. naive_solver.
Qed.

#[local] Opaque the_registry.

Lemma make_extractor_sound t f : make_extractor the_registry t = Ret f -> exists e, t = print_extractor e.
Proof.
  remember (depth t) as n eqn:Hn. revert t Hn f. induction (lt_wf n) as [n _ IH]. intros t -> f H.
  destruct t as [| | | | | | |[|[name [| | | | | |args|]] [|]]]; try done. simpl in H.
  destruct (extractors the_registry !! name) as [k|] eqn:E; [|done]. apply the_extractors in E. subst name.
  destruct k; simpl in H; case_bool_decide as Hlen; simpl in H; try done.
  - destruct args as [|v [|]]; try done. by exists (EConst v).
  - destruct args; [|done]. by exists EName.
  - destruct args; [|done]. by exists EType.
  - destruct args as [|a [|]]; try done. destruct (make_extractor the_registry a) as [g|] eqn:Ea; [|done].
    destruct (IH _ (depth_arg "tag" [a] a (or_introl eq_refl)) a eq_refl g Ea) as [x ->]. by exists (ETag x).
Qed.

Lemma binary_create_sound h args f :
  length args = 2%nat -> binary_create the_registry h args = Ret f ->
  exists e1 e2, args = [print_extractor e1; print_extractor e2].
Proof.
  destruct args as [|a [|b [|]]]; try done. intros _. simpl.
  destruct (make_extractor _ a) eqn:Ea; [|done]. destruct (make_extractor _ b) eqn:Eb; [|done]. intros _.
  apply make_extractor_sound in Ea as [e1 ->], Eb as [e2 ->]. by exists e1, e2.
Qed.

Lemma transform_sound args fs :
  (forall a f, In a args -> compile a = Ret f -> exists q, a = print_query q) ->
  transform compile args = Ret fs -> exists qs, args = map print_query qs.
Proof.
  revert fs. induction args as [|a args IH]; intros fs Ha H; [by exists []|]. simpl in H.
  destruct (compile a) as [f|] eqn:Ea; [|done]. simpl in H.
  destruct (transform compile args) as [gs|] eqn:Et; [|done].
  destruct (Ha a f (or_introl eq_refl) Ea) as [q ->].
  destruct (IH gs) as [qs ->]; [intros b g Hb; by apply Ha; right|done|]. by exists (q :: qs).
Qed.

Lemma compile_sound t f : compile t = Ret f -> exists q, t = print_query q.
Proof.
  remember (depth t) as n eqn:Hn. revert t Hn f. induction (lt_wf n) as [n _ IH]. intros t -> f H.
  destruct t as [| | | | | | |[|[name [| | | | | |args|]] [|]]]; try done. simpl in H.
  destruct (filters the_registry !! name) as [k|] eqn:E; [|done]. apply the_filters in E. subst name.
  assert (forall a f, In a args -> compile a = Ret f -> exists q, a = print_query q) as Hargs.
  { intros a g Ha Hg. by eapply (IH _ (depth_arg (filter_name k) args a Ha) a eq_refl g). }
  destruct k; simpl in H.
  - case_bool_decide as Hlen; [|done]. apply binary_create_sound in H as (e1 & e2 & ->); [|done]. by exists (QEq e1 e2).
  - case_bool_decide as Hlen; [|done]. destruct args as [|a [|b [|]]]; try done. by exists (QGe a b).
  - destruct (transform compile args) as [fs|] eqn:Et; [|done]. apply transform_sound in Et as [qs ->]; [|done]. by exists (QOr qs).
  - destruct (transform compile args) as [fs|] eqn:Et; [|done]. apply transform_sound in Et as [qs ->]; [|done]. by exists (QAnd qs).
  - case_bool_decide as Hlen; [|done]. apply binary_create_sound in H as (e1 & e2 & ->); [|done]. by exists (QContains e1 e2).
Qed.

#[local] Transparent the_registry.

(** C14: the compiler of queries accepts exactly the trees that print a query, and what it
    compiles to computes the meaning of that query on every metric, exceptions included,
    where the meaning of [ge] is the code's, which accepts every metric.  So a query
    without [ge] is computed under any meaning of [ge], the documented comparison of two
    values included, and a [ge] accepts metrics which that comparison would refuse.
    This holds for either order in which the operands of an equality are evaluated; the
    order only decides which exception is thrown when both operands throw. *)
Theorem make_filter_compiles (tree : dynamic_t) :
  match registry_make_filter dynamic_eq right_first the_registry tree with
  | Ret f => exists q, tree = print_query q /\
      (forall m, f m = eval_query right_first accepts q m) /\
      (ge_free q = true -> forall ge m, f m = eval_query right_first ge q m) /\
      (forall m, same_answer (f m) (eval_query (negb right_first) accepts q m))
  | Throw _ => forall q, tree <> print_query q
  end.
Proof.
  destruct (compile tree) as [f|x] eqn:E.
  - destruct (compile_sound tree f E) as [q ->]. exists q. split; [done|].
    destruct (compile_query q) as (g & E' & Hg). rewrite E in E'. injection E' as ->. split; [done|]. split.
    + intros Hq ge m. rewrite Hg. by apply eval_ge_free.
    + intros m. rewrite Hg. apply eval_order.
  - intros q ->. destruct (compile_query q) as (f & E' & _). congruence.
Qed.

(** *** Queries that do not throw *)

(** The extractor yields a string. *)
Fixpoint stringy (e : extractor) : bool :=
  match e with
  | EConst (DString _) => true
  | EConst _ => false
  | EName | EType => true
  | ETag e => stringy e
  end.
Definition sound_extractor (e : extractor) : bool :=
  match e with EConst _ => true | e => stringy e end.
Fixpoint sound_query (q : query) : bool :=
  match q with
  | QEq e1 e2 => sound_extractor e1 && sound_extractor e2
  | QGe _ _ => true
  | QContains e1 e2 => stringy e1 && stringy e2
  | QAnd qs | QOr qs => forallb sound_query qs
  end.

Lemma stringy_eval e m : is_Some (m_tags m !! "type"%string) -> stringy e = true -> exists s, eval_extractor e m = Ret (DString s).
Proof.
  intros [t Ht]. induction e as [v| | |e IH]; simpl; intros H.
  - destruct v; try done. by eexists.
  - by eexists.
  - rewrite Ht. by eexists.
  - destruct (IH H) as [s ->]. by eexists.
Qed.

Lemma sound_extractor_eval e m :
  is_Some (m_tags m !! "type"%string) -> sound_extractor e = true -> exists v, eval_extractor e m = Ret v.
Proof.
  intros Ht H. destruct e; [by eexists| | |];
    (edestruct stringy_eval as [s Es]; [exact Ht|exact H|]; by exists (DString s)).
Qed.

(** A query whose tags and substrings are given by strings decides every metric that has
    a type. *)
Lemma sound_query_decides (q : query) (m : metric_t) :
  is_Some (m_tags m !! "type"%string) -> sound_query q = true -> returns (eval_query right_first accepts q m) = true.
Proof.
  intros Ht. induction q as [e1 e2|a b|e1 e2|qs IH|qs IH] using query_nested_ind; simpl; intros H.
  - apply andb_true_iff in H as [H1 H2].
    destruct (sound_extractor_eval e1 m Ht H1) as [v1 ->], (sound_extractor_eval e2 m Ht H2) as [v2 ->]. done.
  - done.
  - apply andb_true_iff in H as [H1 H2].
    destruct (stringy_eval e1 m Ht H1) as [v1 ->], (stringy_eval e2 m Ht H2) as [v2 ->]. done.
  - induction IH as [|q qs Hq _ IH]; [done|]. simpl in *. apply andb_true_iff in H as [H1 H2].
    specialize (Hq H1). specialize (IH H2). by destruct (eval_query right_first accepts q m) as [[]|].
  - induction IH as [|q qs Hq _ IH]; [done|]. simpl in *. apply andb_true_iff in H as [H1 H2].
    specialize (Hq H1). specialize (IH H2). by destruct (eval_query right_first accepts q m) as [[]|].
Qed.
End compiler.
End queries.

(** ** The formats carry the same readings *)

Lemma object_at_set (o : list (string * dynamic_t)) k v k' :
  object_at (object_set k v o) k' = if decide (k = k') then Some v else object_at o k'.
Proof.
  induction o as [|[j w] o IH]; simpl.
  - destruct (String.eqb_spec k k'), (decide (k = k')); congruence.
  - destruct (String.eqb_spec j k) as [->|Hn]; simpl.
    + destruct (String.eqb_spec k k'), (decide (k = k')); congruence.
    + rewrite IH. destruct (String.eqb_spec j k'), (decide (k = k')); congruence.
Qed.

Lemma object_set_set k v w o : object_set k w (object_set k v o) = object_set k w o.
Proof.
  induction o as [|[j x] o IH]; simpl; [by rewrite String.eqb_refl|].
  destruct (String.eqb j k) eqn:E; simpl; rewrite E; [done|]. by rewrite IH.
Qed.

Lemma traverse_traverse ps f g o : traverse ps g (traverse ps f o) = traverse ps (fun o => g (f o)) o.
Proof.
  revert o. induction ps as [|p ps IH]; intros o; [done|]. simpl.
  rewrite object_at_set, decide_True by done. by rewrite IH, object_set_set.
Qed.

(** One number a metric reports: where it is in the tree, its name in the flat object *)
Record leaf_t := mk_leaf { l_parts : list string; l_key : string; l_flat : string; l_value : dynamic_t }.

Definition l_path (l : leaf_t) : list string := l_parts l ++ [l_key l].

Definition field_leaves (name : string) (fields : list (string * dynamic_t)) : list leaf_t :=
  (fun f => mk_leaf (split_name name) f.1 (name ++ "." ++ f.1) f.2) <$> fields.

Definition leaves (m : metric_t) : list leaf_t :=
  match m_reading m with
  | Gauge v | Counter v =>
      let parts := split_name (m_name m) in [mk_leaf (removelast parts) (List.last parts "") (m_name m) v]
  | Meter count m01 m05 m15 => field_leaves (m_name m) (rate_fields count m01 m05 m15)
  | Timer count m01 m05 m15 s => field_leaves (m_name m) (rate_fields count m01 m05 m15 ++ snapshot_fields s)
  end.

Definition tree_put (o : list (string * dynamic_t)) (l : leaf_t) := traverse (l_parts l) (object_set (l_key l) (l_value l)) o.
Definition flat_put (o : list (string * dynamic_t)) (l : leaf_t) := object_set (l_flat l) (l_value l) o.

Lemma split_name_nonempty s : split_name s <> [].
Proof. induction s as [|c s IH]; [done|]. simpl. destruct (is_dot c), s as [|c' s]; try done; [by destruct (is_dot c')|]. by destruct (split_name (String c' s)). Qed.

Lemma plain_visit_leaves m o : plain_visit m o = foldl flat_put o (leaves m).
Proof.
  unfold plain_visit, leaves, plain_set, field_leaves. destruct (m_reading m); try done;
    rewrite foldl_fmap; done.
Qed.

Lemma traverse_sets ps fields o :
  traverse ps (object_sets fields) o =
  match fields with [] => traverse ps (fun o => o) o | _ => foldl (fun o f => traverse ps (object_set f.1 f.2) o) o fields end.
Proof.
  destruct fields as [|f fields]; [done|]. revert f o. induction fields as [|g fields IH]; intros f o; [done|].
  etransitivity; [|exact (IH g (traverse ps (object_set f.1 f.2) o))].
  by rewrite traverse_traverse.
Qed.

(** The constructor's check never fires: a name always has a part. *)
Lemma dendroid_visit_leaves m o : dendroid_visit m o = Ret (foldl tree_put o (leaves m)).
Proof.
  unfold dendroid_visit. pose proof (split_name_nonempty (m_name m)) as Hne.
  destruct (exists_last Hne) as (parts & name & E). rewrite E, rev_unit. f_equal.
  unfold leaves, tree_put. destruct (m_reading m); simpl; rewrite ?E, ?rev_involutive, ?removelast_last, ?last_last; try done.
  all: rewrite traverse_sets; unfold field_leaves; by rewrite ?foldl_fmap.
Qed.

(** What the tree has at the place of a leaf *)
Fixpoint tree_get (parts : list string) (key : string) (o : list (string * dynamic_t)) : option dynamic_t :=
  match parts with
  | [] => object_at o key
  | p :: parts => match object_at o p with Some (DObject o') => tree_get parts key o' | _ => None end
  end.

(** Neither place is above the other. *)
Definition apart (p q : list string) : Prop := ~ p `prefix_of` q /\ ~ q `prefix_of` p.

Lemma apart_cons x p q : apart (x :: p) (x :: q) -> apart p q.
Proof. intros [H1 H2]. split; intros H; [apply H1|apply H2]; by apply prefix_cons. Qed.

Lemma tree_get_put ps k v o : tree_get ps k (traverse ps (object_set k v) o) = Some v.
Proof.
  revert o. induction ps as [|p ps IH]; intros o; simpl; rewrite object_at_set, decide_True by done; [done|]. apply IH.
Qed.

Lemma tree_get_other ps k qs j w o :
  apart (ps ++ [k]) (qs ++ [j]) -> tree_get ps k (traverse qs (object_set j w) o) = tree_get ps k o.
Proof.
  revert qs o. induction ps as [|p ps IH]; intros [|q qs] o H; simpl; rewrite object_at_set.
  - rewrite decide_False; [done|]. intros ->. by apply (proj1 H).
  - rewrite decide_False; [done|]. intros ->. apply (proj1 H). simpl. apply prefix_cons, prefix_nil.
  - rewrite decide_False; [done|]. intros ->. apply (proj2 H). simpl. apply prefix_cons, prefix_nil.
  - case_decide as E; [subst q|done]. rewrite IH by (by eapply apart_cons).
    destruct (object_at o p) as [[]|]; try done; by destruct ps.
Qed.

(** Values that are put apart from each other are all there in the end. *)
Section puts.
Context {S L V : Type} (put : S -> L -> S) (get : L -> S -> option V) (value : L -> V) (R : L -> L -> Prop).
Hypothesis get_same : forall l s, get l (put s l) = Some (value l).
Hypothesis get_other : forall l l' s, R l l' -> get l (put s l') = get l s.

Lemma puts_kept l s ls : Forall (R l) ls -> get l (foldl put s ls) = get l s.
Proof using get_other.
  intros H. revert s. induction H as [|l' ls Hl _ IH]; intros s; [done|]. simpl. by rewrite IH, get_other.
Qed.

Lemma puts_get l s ls : ForallOrdPairs R ls -> l ∈ ls -> get l (foldl put s ls) = Some (value l).
Proof using get_same get_other.
  intros H. revert s. induction H as [|l' ls Hl _ IH]; intros s Hin; [by apply elem_of_nil in Hin|].
  apply elem_of_cons in Hin as [->|Hin]; simpl; [|by apply IH].
  rewrite puts_kept; [done|]. by apply Forall_forall; intros; apply (proj1 (List.Forall_forall _ _) Hl), list_elem_of_In.
Qed.
End puts.

Fixpoint ends_with_dot (s : string) : bool :=
  match s with
  | EmptyString => false
  | String c EmptyString => is_dot c
  | String _ s => ends_with_dot s
  end.

Fixpoint dotless (s : string) : bool :=
  match s with EmptyString => true | String c s => negb (is_dot c) && dotless s end.

Lemma split_dotless s : dotless s = true -> split_name s = [s].
Proof.
  induction s as [|c s IH]; [done|]. simpl. intros [Hc Hs]%andb_true_iff. apply negb_true_iff in Hc.
  rewrite Hc. by rewrite IH.
Qed.

Lemma split_name_cons c c' s :
  split_name (String c (String c' s)) =
  if is_dot c then if is_dot c' then split_name (String c' s) else ""%string :: split_name (String c' s)
  else match split_name (String c' s) with t :: ts => String c t :: ts | [] => [String c ""] end.
Proof. done. Qed.

Lemma split_name_field s k :
  ends_with_dot s = false -> dotless k = true -> split_name (s ++ "." ++ k) = split_name s ++ [k].
Proof.
  intros Hs Hk. induction s as [|c s IH].
  - change (("" ++ "." ++ k)%string) with (String "." k). simpl.
    destruct k as [|c' k]; [done|]. pose proof Hk as Hk'. simpl in Hk'. apply andb_true_iff in Hk' as [Hc _]. apply negb_true_iff in Hc.
    rewrite Hc. by rewrite (split_dotless (String c' k)).
  - destruct s as [|c' s].
    + specialize (IH eq_refl). change ((String c "" ++ "." ++ k)%string) with (String c (String "." k)).
      change ("" ++ "." ++ k)%string with (String "." k) in IH. rewrite split_name_cons, IH. simpl in Hs. simpl. by rewrite Hs.
    + specialize (IH Hs). change ((String c (String c' s) ++ "." ++ k)%string) with (String c (String c' (s ++ "." ++ k))).
      change (String c' s ++ "." ++ k)%string with (String c' (s ++ "." ++ k)) in IH.
      rewrite !split_name_cons, IH. destruct (is_dot c); [by destruct (is_dot c')|].
      pose proof (split_name_nonempty (String c' s)). by destruct (split_name (String c' s)).
Qed.

(** The fields of meters and timers *)
Lemma fields_dotless count m01 m05 m15 s k v :
  (k, v) ∈ rate_fields count m01 m05 m15 ++ snapshot_fields s -> dotless k = true.
Proof. rewrite elem_of_app. unfold rate_fields, snapshot_fields. rewrite !elem_of_cons, elem_of_nil. naive_solver. Qed.

Lemma leaf_path m l : ends_with_dot (m_name m) = false -> l ∈ leaves m -> l_path l = split_name (l_flat l).
Proof.
  intros Hm Hl.
  assert (forall fields, (forall k v, (k, v) ∈ fields -> dotless k = true) -> l ∈ field_leaves (m_name m) fields -> l_path l = split_name (l_flat l)) as Hf.
  { intros fields Hd ([k v] & -> & Hk)%list_elem_of_fmap. unfold l_path. simpl. rewrite split_name_field; eauto. }
  unfold leaves in Hl. destruct (m_reading m) as [v|v|count m01 m05 m15|count m01 m05 m15 s].
  1, 2: apply list_elem_of_singleton in Hl as ->; unfold l_path; simpl; symmetry; apply app_removelast_last, split_name_nonempty.
  - eapply Hf; [|exact Hl]. intros k v Hk. eapply (fields_dotless count m01 m05 m15
      (mk_snapshot m01 m01 m01 m01 m01 m01 m01 m01)), elem_of_app. by left.
  - eapply Hf; [|exact Hl]. intros k v. apply fields_dotless.
Qed.

Lemma construct_plain_leaves f hub ms :
  select f hub = Ret ms -> construct_plain f hub = Ret (foldl flat_put [] (ms ≫= leaves)).
Proof.
  unfold construct_plain. intros ->. simpl. f_equal. generalize ([] : list (string * dynamic_t)).
  induction ms as [|m ms IH]; intros o; [done|]. simpl. by rewrite plain_visit_leaves, IH, foldl_app.
Qed.

Lemma construct_dendroid_leaves f hub ms :
  select f hub = Ret ms -> construct_dendroid f hub = Ret (foldl tree_put [] (ms ≫= leaves)).
Proof.
  unfold construct_dendroid. intros ->. simpl. generalize ([] : list (string * dynamic_t)).
  induction ms as [|m ms IH]; intros o; [done|]. simpl. by rewrite dendroid_visit_leaves, IH, foldl_app.
Qed.

Lemma flat_entries ls o k v :
  object_at (foldl flat_put o ls) k = Some v -> object_at o k = Some v \/ exists l, l ∈ ls /\ l_flat l = k /\ l_value l = v.
Proof.
  revert o. induction ls as [|l ls IH]; intros o H; [by left|]. simpl in H.
  destruct (IH _ H) as [E|(l' & Hl & ?)]; [|right; exists l'; split; [by right|done]].
  unfold flat_put in E. rewrite object_at_set in E. case_decide; [|by left].
  right. exists l. split_and!; [by left|done|congruence].
Qed.

Lemma ForallOrdPairs_strengthen {A} (R R' : A -> A -> Prop) (l : list A) :
  (forall a b, a ∈ l -> b ∈ l -> R a b -> R' a b) -> ForallOrdPairs R l -> ForallOrdPairs R' l.
Proof.
  intros H Hl. induction Hl as [|a l Ha _ IH]; constructor.
  - apply List.Forall_forall. intros b Hb. rewrite List.Forall_forall in Ha.
    apply H; [by left|right; by apply list_elem_of_In|by apply Ha].
  - apply IH. intros x y Hx Hy. apply H; by right.
Qed.

(** The two formats carry the same readings.  When no metric that is selected is at
    or above the place of another, every number is in the tree under the components of
    its name and in the flat object under its name, and the flat object has nothing
    else. *)
Theorem formats_agree (f : query_t) (hub ms : list metric_t) :
  select f hub = Ret ms -> Forall (fun m => ends_with_dot (m_name m) = false) ms ->
  ForallOrdPairs (fun a b => apart (l_path a) (l_path b)) (ms ≫= leaves) ->
  exists tree flat, construct_dendroid f hub = Ret tree /\ construct_plain f hub = Ret flat /\
    (forall l, l ∈ ms ≫= leaves -> tree_get (l_parts l) (l_key l) tree = Some (l_value l)) /\
    (forall k v, object_at flat k = Some v <-> exists l, l ∈ ms ≫= leaves /\ l_flat l = k /\ l_value l = v).
Proof.
  intros Hsel Hdot Hap. exists (foldl tree_put [] (ms ≫= leaves)), (foldl flat_put [] (ms ≫= leaves)).
  rewrite (construct_dendroid_leaves f hub ms Hsel), (construct_plain_leaves f hub ms Hsel). split_and!; try done.
  - intros l Hl. apply (puts_get tree_put (fun l => tree_get (l_parts l) (l_key l)) l_value (fun a b => apart (l_path a) (l_path b))); try done.
    + intros. apply tree_get_put.
    + intros a b s H. by apply tree_get_other.
  - intros k v. split.
    + intros [H|H]%flat_entries; [done|exact H].
    + intros (l & Hl & <- & <-).
      assert (forall l, l ∈ ms ≫= leaves -> l_path l = split_name (l_flat l)) as Hpath.
      { intros l' (m & Hl' & Hm)%list_elem_of_bind. rewrite Forall_forall in Hdot. eapply leaf_path; eauto. }
      apply (puts_get flat_put (fun l o => object_at o (l_flat l)) l_value (fun a b => l_flat a <> l_flat b)); [..|done].
      * intros. unfold flat_put. by rewrite object_at_set, decide_True.
      * intros a b s H. unfold flat_put. by rewrite object_at_set, decide_False.
      * eapply ForallOrdPairs_strengthen; [|exact Hap]. intros a b Ha Hb [H _] E. apply H.
        by rewrite (Hpath a Ha), (Hpath b Hb), E.
Qed.

Lemma select_returns f hub : Forall (fun m => returns (f m) = true) hub -> returns (select f hub) = true.
Proof.
  induction 1 as [|m hub Hm _ IH]; [done|]. simpl. destruct (f m); [|done]. simpl. by destruct (select f hub).
Qed.

Lemma construct_returns f hub :
  returns (construct_plain f hub) = returns (select f hub) /\ returns (construct_dendroid f hub) = returns (select f hub).
Proof.
  destruct (select f hub) as [ms|x] eqn:E; [by rewrite (construct_plain_leaves f hub ms E), (construct_dendroid_leaves f hub ms E)|].
  unfold construct_plain, construct_dendroid. by rewrite E.
Qed.

(** A request is answered.  For every query whose tags and substrings are given by
    strings, and metrics that all have a type, the service answers, whatever the names
    and the numbers, exactly when the format is one it knows. *)
Theorem metrics_answers (dynamic_eq : dynamic_t -> dynamic_t -> bool) (right_first : bool) (type : string) (q : query) (hub : list metric_t) :
  Forall (fun m => is_Some (m_tags m !! "type"%string)) hub -> sound_query q = true ->
  returns (metrics dynamic_eq right_first type (print_query q) hub) = bool_decide (type ∈ ["json"; "plain"; ""]%string).
Proof.
  intros Hhub Hq. unfold metrics, make_type. rewrite (bool_decide_ext _ (type = "json" \/ type = "plain" \/ type = "")%string) by set_solver.
  destruct (compile_query dynamic_eq right_first q) as (f & E & Hf).
  assert (returns (select f hub) = true) as Hs.
  { apply select_returns. eapply Forall_impl; [exact Hhub|]. intros m Hm. rewrite Hf. by apply sound_query_decides. }
  assert (make_filter dynamic_eq right_first (print_query q) = Ret f) as Ef by (rewrite <- E; by destruct q).
  destruct (construct_returns f hub) as [H1 H2].
  destruct (bool_decide_reflect (type = "json" \/ type = "plain" \/ type = "")%string) as [Ht|Ht].
  - destruct Ht as [->|[->| ->]]; simpl; rewrite Ef; simpl; by rewrite ?H1, ?H2, Hs.
  - destruct (String.eqb_spec type ""), (String.eqb_spec type "json"), (String.eqb_spec type "plain"); tauto.
Qed.

Lemma make_senders_providers (dynamic_eq : dynamic_t -> dynamic_t -> bool) (right_first : bool) made t names l :
  make_senders dynamic_eq right_first made t names = Ret l -> Forall (fun x => x.2 = metrics dynamic_eq right_first "json" t) l.
Proof.
  revert l. induction names as [|n names IH]; simpl; intros l; [intros [= <-]; constructor|].
  destruct (Dynamic.as_string n) as [name|]; simpl; [|done]. destruct (made name); [|done].
  destruct (make_senders _ _ _ _ names) as [l'|]; simpl; [|done]. intros [= <-]. constructor; [done|by apply IH].
Qed.

(** A filter of the configuration that is no query is not noticed by the constructor: the
    service and its senders are made, and none of the senders ever gets any data. *)
Lemma malformed_providers (dynamic_eq : dynamic_t -> dynamic_t -> bool) (right_first : bool) (made : string -> bool)
    (fields : list (string * dynamic_t)) (senders : list (string * data_provider_t)) (t : dynamic_t) :
  metrics_construct dynamic_eq right_first made (DObject fields) = Ret senders ->
  find_field "filter_ast" fields = Some t -> t <> DNull -> (forall q, t <> print_query q) ->
  Forall (fun x => forall hub, returns (x.2 hub) = false) senders.
Proof.
  unfold metrics_construct. simpl. destruct (as_array _) as [names|]; simpl; [|done].
  intros H%make_senders_providers F Hn Hq. unfold field in H. rewrite F in H. simpl in H.
  eapply Forall_impl; [exact H|]. intros x -> hub. unfold metrics. simpl.
  assert (make_filter dynamic_eq right_first t = registry_make_filter dynamic_eq right_first the_registry t) as -> by (by destruct t).
  destruct (registry_make_filter dynamic_eq right_first the_registry t) as [f|] eqn:E; [|done].
  apply compile_sound in E as [q ->]. by destruct (Hq q).
Qed.

(** A name that is above another one: the tree keeps only the later of them. *)
Lemma nested_names_lose (a b : leaf_t) (rest : list string) o :
  l_parts b = l_path a ++ rest -> (forall x, l_value a <> DObject x) ->
  (exists x, tree_get (l_parts a) (l_key a) (tree_put (tree_put o a) b) = Some (DObject x)) /\
  tree_get (l_parts b) (l_key b) (tree_put (tree_put o b) a) = None.
Proof.
  unfold tree_put, l_path. intros -> Hv. generalize (traverse (l_parts a) (object_set (l_key a) (l_value a)) o). intros o1.
  generalize (traverse ((l_parts a ++ [l_key a]) ++ rest) (object_set (l_key b) (l_value b)) o). clear o. intros o2.
  revert o1 o2. induction (l_parts a) as [|p ps IH]; intros o1 o2; simpl.
  - split; [rewrite object_at_set, decide_True by done; by eexists|].
    rewrite object_at_set, decide_True by done. destruct (l_value a); try done. by destruct (Hv m).
  - rewrite !object_at_set, !decide_True by done. apply IH.
Qed.

(** ** Witnesses *)

Definition some_metrics : list metric_t :=
  [mk_metric "node.queue" {["type"%string := "gauge"%string]} (Gauge (DUint 3));
   mk_metric "node.rate" {["type"%string := "meter"%string]} (Meter 7 double.zero double.zero double.zero)].

Definition about_node : query := QContains EName (EConst (DString "node")).

Lemma metrics_answers_witness :
  returns (metrics (fun _ _ => true) false "json" (print_query about_node) some_metrics) = true.
Proof.
  etransitivity; [apply (metrics_answers (fun _ _ => true) false "json" about_node some_metrics)|reflexivity];
    [repeat constructor; by eexists|reflexivity].
Defined.

Lemma formats_agree_witness :
  exists tree flat, construct_dendroid (fun _ => Ret true) some_metrics = Ret tree /\
    construct_plain (fun _ => Ret true) some_metrics = Ret flat /\
    (exists l, l ∈ some_metrics ≫= leaves /\ l_flat l = "node.queue"%string /\ l_value l = DUint 3) /\
    object_at flat "node.queue" = Some (DUint 3).
Proof.
  destruct (formats_agree (fun _ => Ret true) some_metrics some_metrics) as (tree & flat & H1 & H2 & _ & H).
  - reflexivity.
  - repeat constructor.
  - repeat constructor; intros H; vm_compute in H; destruct H as [x Hx]; discriminate Hx.
  - exists tree, flat. split_and!; [exact H1|exact H2| |].
    + eexists. split; [left|done].
    + apply H. eexists. split; [left|done].
Defined.
