(* ===== verification/Ipvs.v ===== *)
(** * The IPVS gateway: [ipvs/gateway.cpp]

    The gateway keeps, for every service of the cluster, a virtual service in the
    balancer of the kernel with the nodes that run it as destinations.  [remote_t] is one
    virtual service, [ipvs_t] the table of them.

    The kernel is behind a library: every call of it is recorded, and its results are
    taken in order from a list, [None] for success or [errno].  The port a virtual service
    gets from the mapper of the context is an argument. *)

From stdpp Require Import sorting.
From S2P Require Import Prelude.

Local Open Scope Z_scope.

(** ** Data *)

Inductive family := PF_INET | PF_INET6.
#[export] Instance family_eq_dec : EqDecision family.
Proof. solve_decision. Defined.
#[export] Instance family_countable : Countable family.
Proof.
  refine (inj_countable' (fun f => match f with PF_INET => true | PF_INET6 => false end)
                         (fun b : bool => if b then PF_INET else PF_INET6) _); by intros [].
Defined.

(** The order of the values of the protocol families, [AF_INET] < [AF_INET6] *)
Definition families : list family := [PF_INET; PF_INET6].

Record address_t := mk_address { addr_family : family; addr_bytes : list Z }.
#[export] Instance address_eq_dec : EqDecision address_t.
Proof. solve_decision. Defined.
Record endpoint_t := mk_endpoint { e_address : address_t; e_port : Z }.
#[export] Instance endpoint_eq_dec : EqDecision endpoint_t.
Proof. solve_decision. Defined.

Definition e_family (e : endpoint_t) : family := addr_family (e_address e).

(** [htons] on a little-endian machine *)
Definition htons (p : Z) : Z := Z.lor (Z.shiftl (Z.land p 255) 8) (Z.shiftr (Z.land p 65280) 8).

(** [format_address]: the bytes of the address, by family *)
Definition format_address (e : endpoint_t) : list Z := addr_bytes (e_address e).

(** [ipvs_service_t] and [ipvs_dest_t], the fields the gateway fills *)
Record ipvs_service_t := mk_service { sv_af : family; sv_addr : list Z; sv_netmask : Z; sv_port : Z; sv_sched : string }.
Record ipvs_dest_t := mk_dest { ds_af : family; ds_addr : list Z; ds_port : Z; ds_weight : Z }.
#[export] Instance service_eq_dec : EqDecision ipvs_service_t.
Proof. solve_decision. Defined.
#[export] Instance dest_eq_dec : EqDecision ipvs_dest_t.
Proof. solve_decision. Defined.

Record ipvs_config_t := mk_config { scheduler : string; weight : Z; x_cocaine_cluster : string }.

Inductive kernel_call :=
| AddService (s : ipvs_service_t)
| DelService (s : ipvs_service_t)
| AddDest (s : ipvs_service_t) (d : ipvs_dest_t)
| DelDest (s : ipvs_service_t) (d : ipvs_dest_t).

(** The calls made, with what they returned, and the results to come; a call after the
    last of them succeeds. *)
Record kernel_t := mk_kernel { made : list (kernel_call * option Z); results : list (option Z) }.

Definition invoke (c : kernel_call) (k : kernel_t) : option Z * kernel_t :=
  match results k with
  | [] => (None, mk_kernel (made k ++ [(c, None)]) [])
  | r :: rs => (r, mk_kernel (made k ++ [(c, r)]) rs)
  end.

(** ** [remote_t] *)

Section gateway.
Context {protocol_t : Type}.

Record remote_t := mk_remote {
  r_service : string;
  r_version : nat;
  r_endpoints : list endpoint_t;
  r_protocol : protocol_t;
  services : gmap family ipvs_service_t;
  backends : list (string * ipvs_dest_t)      (** the multimap, in the order of its keys *)
}.

Inductive error_t :=
| address_not_available | host_unreachable | service_not_available | ipvs_error (errno : Z) | no_ports
| out_of_range                                (** [std::map::at] *)
| crash.                                      (** a null pointer, or a function that ends without a value *)

Record ipvs_t := mk_ipvs {
  m_cfg : ipvs_config_t;
  m_endpoints : list address_t;
  m_remotes : gmap string (option remote_t);  (** [None] is an empty [unique_ptr] *)
  kernel : kernel_t
}.

Definition set_remotes (m : gmap string (option remote_t)) (g : ipvs_t) : ipvs_t :=
  mk_ipvs (m_cfg g) (m_endpoints g) m (kernel g).
Definition set_kernel (k : kernel_t) (g : ipvs_t) : ipvs_t :=
  mk_ipvs (m_cfg g) (m_endpoints g) (m_remotes g) k.

Abbreviation G := (ST ipvs_t error_t).

Definition kernel_do (c : kernel_call) : G (option Z) :=
  fun g => let '(r, k) := invoke c (kernel g) in (Ret r, set_kernel k g).

(** [strncpy] copies at most this many characters. *)
Definition IP_VS_SCHEDNAME_MAXLEN : nat := 16.

Definition handle_service (cfg : ipvs_config_t) (e : endpoint_t) : ipvs_service_t :=
  mk_service (e_family e) (format_address e) (match e_family e with PF_INET => 32 | PF_INET6 => 128 end)
    (htons (e_port e)) (String.substring 0 IP_VS_SCHEDNAME_MAXLEN (scheduler cfg)).

(** The loop of the constructor: one service per protocol family *)
Fixpoint add_services (cfg : ipvs_config_t) (port : Z) (addresses : list address_t)
    (acc : list endpoint_t * gmap family ipvs_service_t) : G (list endpoint_t * gmap family ipvs_service_t) :=
  match addresses with
  | [] => st_ret acc
  | a :: addresses =>
      let endpoint := mk_endpoint a port in
      match acc.2 !! e_family endpoint with
      | Some _ => add_services cfg port addresses acc
      | None =>
          let handle := handle_service cfg endpoint in
          (let! r := kernel_do (AddService handle) in
           match r with
           | Some _ => add_services cfg port addresses acc
           | None => add_services cfg port addresses (acc.1 ++ [endpoint], <[sv_af handle := handle]> acc.2)
           end)%cpp
      end
  end.

(** [port] is what the mapper assigns, [None] when it has no port left. *)
Definition remote_construct (name : string) (version : nat) (protocol : protocol_t) (port : option Z) : G remote_t :=
  match port with
  | None => st_throw no_ports
  | Some port =>
      (let! g := st_get in
       let! r := add_services (m_cfg g) port (m_endpoints g) ([], ∅) in
       if decide (r.2 = ∅) then st_throw address_not_available
       else st_ret (mk_remote name version r.1 protocol r.2 []))%cpp
  end.

Definition serving (backends : list (string * ipvs_dest_t)) (e : endpoint_t) : bool :=
  existsb (fun b => bool_decide (ds_af b.2 = e_family e)) backends.

Definition reduce (r : remote_t) : outcome error_t (list endpoint_t * protocol_t * nat) :=
  match backends r with
  | [] => Throw service_not_available
  | _ => Ret (filter (fun e => serving (backends r) e = true) (r_endpoints r), r_protocol r, r_version r)
  end.

Definition handle_dest (cfg : ipvs_config_t) (e : endpoint_t) : ipvs_dest_t :=
  mk_dest (e_family e) (format_address e) (htons (e_port e)) (weight cfg).

(** The loop of [insert]: one destination per protocol family that has a service *)
Fixpoint add_dests (cfg : ipvs_config_t) (services : gmap family ipvs_service_t) (endpoints : list endpoint_t)
    (handles : gmap family ipvs_dest_t) : G (gmap family ipvs_dest_t) :=
  match endpoints with
  | [] => st_ret handles
  | e :: endpoints =>
      match services !! e_family e, handles !! e_family e with
      | Some s, None =>
          let handle := handle_dest cfg e in
          (let! r := kernel_do (AddDest s handle) in
           match r with
           | Some _ => add_dests cfg services endpoints handles
           | None => add_dests cfg services endpoints (<[ds_af handle := handle]> handles)
           end)%cpp
      | _, _ => add_dests cfg services endpoints handles
      end
  end.

(** [multimap::insert]: after the entries with the same key *)
Fixpoint multimap_insert (k : string) (d : ipvs_dest_t) (m : list (string * ipvs_dest_t)) : list (string * ipvs_dest_t) :=
  match m with
  | [] => [(k, d)]
  | (k', d') :: m' => if String.ltb k k' then (k, d) :: m else (k', d') :: multimap_insert k d m'
  end.

Definition set_backends (b : list (string * ipvs_dest_t)) (r : remote_t) : remote_t :=
  mk_remote (r_service r) (r_version r) (r_endpoints r) (r_protocol r) (services r) b.

Definition insert_handles (uuid : string) (handles : gmap family ipvs_dest_t) (b : list (string * ipvs_dest_t)) :
    list (string * ipvs_dest_t) :=
  foldl (fun b f => match handles !! f with Some d => multimap_insert uuid d b | None => b end) b families.

Definition insert (uuid : string) (endpoints : list endpoint_t) (r : remote_t) : G remote_t :=
  (let! g := st_get in
   let! handles := add_dests (m_cfg g) (services r) endpoints ∅ in
   if decide (handles = ∅) then st_throw host_unreachable
   else st_ret (set_backends (insert_handles uuid handles (backends r)) r))%cpp.

(** The loop of [remove] over the equal range of the key *)
Fixpoint del_dests (services : gmap family ipvs_service_t) (ds : list ipvs_dest_t) : G unit :=
  match ds with
  | [] => st_ret tt
  | d :: ds =>
      match services !! ds_af d with
      | None => st_throw out_of_range
      | Some s =>
          (let! r := kernel_do (DelDest s d) in
           match r with
           | Some errno => st_throw (ipvs_error errno)
           | None => del_dests services ds
           end)%cpp
      end
  end.

Definition of_uuid (uuid : string) (r : remote_t) : list ipvs_dest_t :=
  (filter (fun b => b.1 = uuid) (backends r)).*2.

Definition remove (uuid : string) (r : remote_t) : G remote_t :=
  (del_dests (services r) (of_uuid uuid r) ;;;
   st_ret (set_backends (filter (fun b => b.1 <> uuid) (backends r)) r))%cpp.

(** The destructor: results are ignored; an exception of [at] leaves a destructor and
    ends the process. *)
Fixpoint drop_dests (services : gmap family ipvs_service_t) (ds : list ipvs_dest_t) : G unit :=
  match ds with
  | [] => st_ret tt
  | d :: ds =>
      match services !! ds_af d with
      | None => st_throw crash
      | Some s => (kernel_do (DelDest s d) ;;; drop_dests services ds)%cpp
      end
  end.

Fixpoint drop_services (ss : list ipvs_service_t) : G unit :=
  match ss with
  | [] => st_ret tt
  | s :: ss => (kernel_do (DelService s) ;;; drop_services ss)%cpp
  end.

Definition remote_destroy (r : remote_t) : G unit :=
  (drop_dests (services r) (backends r).*2 ;;; drop_services (omap (fun f => services r !! f) families))%cpp.

(** ** [ipvs_t] *)

(** A gateway with no remotes, after the table of the kernel has been flushed *)
Definition ipvs_start (cfg : ipvs_config_t) (addresses : list address_t) (results : list (option Z)) : ipvs_t :=
  mk_ipvs cfg addresses ∅ (mk_kernel [] results).

Definition is_unspecified (a : address_t) : bool := forallb (Z.eqb 0) (addr_bytes a).

(** The constructor: [init] is the result of initializing the library, [ports] the shared
    ports and [endpoint] the address of the configuration, [resolved] what the name of the
    host resolves to. *)
Definition ipvs_construct (cfg : ipvs_config_t) (init : option Z) (ports : Z * Z) (endpoint : address_t)
    (resolved : option (list address_t)) (results : list (option Z)) : outcome error_t ipvs_t :=
  match init with
  | Some errno => Throw (ipvs_error errno)
  | None =>
      if (ports.1 =? 0) && (ports.2 =? 0) then Throw no_ports
      else if is_unspecified endpoint then
        match resolved with
        | None => Throw address_not_available
        | Some addresses => Ret (ipvs_start cfg addresses results)
        end
      else Ret (ipvs_start cfg [endpoint] results)
  end.

Definition put_remote (name : string) (r : option remote_t) : G unit :=
  st_modify (fun g => set_remotes (<[name := r]> (m_remotes g)) g).

(** [ptr->at(name)->...] *)
Definition remote_at (name : string) : G remote_t :=
  (let! g := st_get in
   match m_remotes g !! name with
   | None => st_throw out_of_range
   | Some None => st_throw crash
   | Some (Some r) => st_ret r
   end)%cpp.

Definition resolve (name : string) : G (list endpoint_t * protocol_t * nat) :=
  (let! g := st_get in
   match m_remotes g !! name with
   | None => st_throw service_not_available
   | Some _ => let! r := remote_at name in fun g => (reduce r, g)
   end)%cpp.

(** In [( *ptr)[name] = std::make_unique<remote_t>(...)] the left operand, which creates
    the entry, may be evaluated before the right one, which may throw; it is so before
    C++17 at the compiler's choice. *)
Definition consume (lhs_first : bool) (uuid name : string) (version : nat) (endpoints : list endpoint_t)
    (protocol : protocol_t) (cluster : string) (port : option Z) : G unit :=
  (let! g := st_get in
   if negb (String.eqb (x_cocaine_cluster (m_cfg g)) cluster) then st_ret tt
   else
     (match m_remotes g !! name with
      | Some _ => st_ret tt
      | None =>
          st_when lhs_first (put_remote name None) ;;;
          let! r := remote_construct name version protocol port in
          put_remote name (Some r)
      end) ;;;
     let! r := remote_at name in
     let! r := insert uuid endpoints r in
     put_remote name (Some r))%cpp.

Definition cleanup (uuid name : string) : G unit :=
  (let! g := st_get in
   match m_remotes g !! name with
   | None => st_ret tt
   | Some _ => let! r := remote_at name in let! r := remove uuid r in put_remote name (Some r)
   end)%cpp.

(** The names of a [std::map] in order *)
Definition remote_names (g : ipvs_t) : list string := merge_sort String.le (map_to_list (m_remotes g)).*1.

Fixpoint cleanup_loop (uuid : string) (names : list string) : G unit :=
  match names with
  | [] => st_ret tt
  | name :: names =>
      (let! r := remote_at name in
       let! r := remove uuid r in
       put_remote name (Some r) ;;;
       cleanup_loop uuid names)%cpp
  end.

Definition cleanup_uuid (uuid : string) : G unit :=
  (let! g := st_get in cleanup_loop uuid (remote_names g))%cpp.

(** The function ends without a value when there is no such service. *)
Definition total_count (name : string) : G nat :=
  (let! g := st_get in
   match m_remotes g !! name with
   | Some _ => let! r := remote_at name in st_ret (length (backends r))
   | None => st_throw crash
   end)%cpp.

(** [m_remotes->clear()] in the destructor *)
Fixpoint destroy_loop (names : list string) : G unit :=
  match names with
  | [] => st_ret tt
  | name :: names =>
      (let! g := st_get in
       (match m_remotes g !! name with
        | Some (Some r) => remote_destroy r
        | _ => st_ret tt
        end) ;;;
       st_modify (fun g => set_remotes (delete name (m_remotes g)) g) ;;;
       destroy_loop names)%cpp
  end.
Definition ipvs_destroy : G unit := (let! g := st_get in destroy_loop (remote_names g))%cpp.
End gateway.

(** ** What the kernel has *)

Definition flow (x : ipvs_service_t * ipvs_dest_t) (c : kernel_call * option Z) : Z :=
  match c with
  | (AddDest s d, None) => if decide ((s, d) = x) then 1 else 0
  | (DelDest s d, None) => if decide ((s, d) = x) then -1 else 0
  | _ => 0
  end.
(** Successful additions of a destination less successful removals *)
Definition balance (x : ipvs_service_t * ipvs_dest_t) (log : list (kernel_call * option Z)) : Z := zsum (flow x) log.

(** No removal has failed. *)
Definition clean (log : list (kernel_call * option Z)) : Prop :=
  Forall (fun c => match c with (DelDest _ _, Some _) => False | _ => True end) log.

Lemma balance_app x l l' : balance x (l ++ l') = balance x l + balance x l'.
Proof. apply zsum_app. Qed.

Lemma clean_app l l' : clean (l ++ l') <-> clean l /\ clean l'.
Proof. apply Forall_app. Qed.

Section facts.
Context {protocol_t : Type}.
Implicit Types (g : @ipvs_t protocol_t) (r : @remote_t protocol_t).

Definition extends g g' (log : list (kernel_call * option Z)) : Prop :=
  m_cfg g' = m_cfg g /\ m_endpoints g' = m_endpoints g /\ m_remotes g' = m_remotes g /\
  made (kernel g') = made (kernel g) ++ log.

Lemma extends_refl g : extends g g [].
Proof. unfold extends. by rewrite app_nil_r. Qed.

Lemma extends_trans g1 g2 g3 l l' : extends g1 g2 l -> extends g2 g3 l' -> extends g1 g3 (l ++ l').
Proof. intros (A1 & A2 & A3 & A4) (B1 & B2 & B3 & B4). unfold extends. rewrite B4, A4, app_assoc. split_and!; congruence. Qed.

Lemma kernel_do_spec c g : exists rc g', kernel_do c g = (Ret rc, g') /\ extends g g' [(c, rc)].
Proof.
  unfold kernel_do, invoke. destruct (results (kernel g)) as [|rc rs]; eexists _, _; by (split; [done|]; unfold extends).
Qed.

(** *** Construction of a virtual service *)

Record services_ok (eps : list endpoint_t) (ss : gmap family ipvs_service_t) : Prop := {
  so_family : forall f s, ss !! f = Some s -> sv_af s = f;
  so_endpoint : forall f, is_Some (ss !! f) <-> exists e, e ∈ eps /\ e_family e = f
}.

Definition quiet (log : list (kernel_call * option Z)) : Prop := (forall x, balance x log = 0) /\ clean log.

Lemma quiet_nil : quiet [].
Proof. split; [done|constructor]. Qed.

Lemma add_services_spec cfg port addresses acc g :
  services_ok acc.1 acc.2 ->
  exists acc' g' log, add_services cfg port addresses acc g = (Ret acc', g') /\ extends g g' log /\ quiet log /\ services_ok acc'.1 acc'.2.
Proof.
  revert acc g. induction addresses as [|a addresses IH]; intros acc g Hok.
  - exists acc, g, []. split_and!; [done|apply extends_refl|apply quiet_nil|done].
  - simpl. destruct (acc.2 !! e_family (mk_endpoint a port)) as [s|] eqn:E; [by apply IH|].
    destruct (kernel_do_spec (AddService (handle_service cfg (mk_endpoint a port))) g) as (rc & g1 & E1 & H1).
    rewrite (st_bind_Ret _ _ _ _ _ E1).
    assert (quiet [(AddService (handle_service cfg (mk_endpoint a port)), rc)]) as Hq by (split; [done|by repeat constructor]).
    set (acc1 := match rc with Some _ => acc | None => (acc.1 ++ [mk_endpoint a port],
      <[addr_family a := handle_service cfg (mk_endpoint a port)]> acc.2) end).
    assert (services_ok acc1.1 acc1.2) as Hok1.
    { unfold acc1. destruct rc; [done|]. destruct Hok as [Hf He]. split; simpl.
      - intros f s. rewrite lookup_insert_Some. intros [[<- <-]|[_ ?]]; [done|by apply Hf].
      - intros f. destruct (decide (f = addr_family a)) as [->|Hn].
        + rewrite lookup_insert_eq. split; [intros _|by eexists]. exists (mk_endpoint a port). split; [set_solver|done].
        + rewrite lookup_insert_ne by done. rewrite He. split; intros (e & He1 & He2); exists e; split; try done; [set_solver|].
          apply elem_of_app in He1 as [?|He1]; [done|]. apply list_elem_of_singleton in He1 as ->. by destruct Hn. }
    destruct (IH acc1 g1 Hok1) as (acc' & g' & log & E2 & H2 & [Hb Hc] & Hok').
    exists acc', g', ([(AddService (handle_service cfg (mk_endpoint a port)), rc)] ++ log). split_and!.
    + by destruct rc.
    + by eapply extends_trans.
    + destruct Hq as [Hb1 Hc1]. split; [|by apply Forall_app]. intros x. by rewrite balance_app, Hb1, Hb.
    + done.
Qed.

(** *** Destinations *)

(** How often a destination is recorded *)
Definition hit (x : ipvs_service_t * ipvs_dest_t) (ss : gmap family ipvs_service_t) (d : ipvs_dest_t) : Z :=
  match ss !! ds_af d with Some s => if decide ((s, d) = x) then 1 else 0 | None => 0 end.
Definition recorded_in x r : Z := zsum (fun b => hit x (services r) b.2) (backends r).
Definition recorded x g : Z := msum (fun _ o => match o with Some r => recorded_in x r | None => 0 end) (m_remotes g).

Definition handles_hit x (ss : gmap family ipvs_service_t) (hs : gmap family ipvs_dest_t) : Z :=
  zsum (fun f => match hs !! f with Some d => hit x ss d | None => 0 end) families.

Record remote_wf r : Prop := {
  rw_services : services_ok (r_endpoints r) (services r);
  rw_some : services r <> ∅;
  rw_backends : forall b, b ∈ backends r -> is_Some (services r !! ds_af b.2)
}.

Definition handles_ok (ss : gmap family ipvs_service_t) (hs : gmap family ipvs_dest_t) : Prop :=
  forall f d, hs !! f = Some d -> ds_af d = f /\ is_Some (ss !! f).

Lemma handles_hit_insert x ss hs d :
  hs !! ds_af d = None -> handles_hit x ss (<[ds_af d := d]> hs) = handles_hit x ss hs + hit x ss d.
Proof.
  intros H. unfold handles_hit. simpl. destruct (ds_af d) eqn:E; rewrite H, lookup_insert_eq, lookup_insert_ne by done; lia.
Qed.

Lemma add_dests_spec cfg ss endpoints hs g :
  handles_ok ss hs ->
  exists hs' g' log, add_dests cfg ss endpoints hs g = (Ret hs', g') /\ extends g g' log /\ clean log /\ handles_ok ss hs' /\
    forall x, balance x log + handles_hit x ss hs = handles_hit x ss hs'.
Proof.
  revert hs g. induction endpoints as [|e endpoints IH]; intros hs g Hok.
  - exists hs, g, []. split_and!; [done|apply extends_refl|constructor|done|done].
  - simpl. destruct (ss !! e_family e) as [s|] eqn:Es; [|by apply IH]. destruct (hs !! e_family e) eqn:Eh; [by apply IH|].
    destruct (kernel_do_spec (AddDest s (handle_dest cfg e)) g) as (rc & g1 & E1 & H1).
    rewrite (st_bind_Ret _ _ _ _ _ E1).
    set (hs1 := match rc with Some _ => hs | None => <[e_family e := handle_dest cfg e]> hs end).
    assert (handles_ok ss hs1) as Hok1.
    { unfold hs1. destruct rc; [done|]. intros f d. rewrite lookup_insert_Some. intros [[<- <-]|[_ H]]; [|by apply Hok].
      split; [done|by eexists]. }
    assert (forall x, balance x [(AddDest s (handle_dest cfg e), rc)] + handles_hit x ss hs = handles_hit x ss hs1) as Hb1.
    { intros x. unfold hs1. destruct rc; [done|]. etransitivity; [|symmetry; exact (handles_hit_insert x ss hs (handle_dest cfg e) Eh)]. unfold hit. change (ds_af (handle_dest cfg e)) with (e_family e). rewrite Es. unfold balance. simpl. lia. }
    destruct (IH hs1 g1 Hok1) as (hs' & g' & log & E2 & H2 & Hc & Hok' & Hb).
    exists hs', g', ([(AddDest s (handle_dest cfg e), rc)] ++ log). split_and!.
    + by destruct rc.
    + by eapply extends_trans.
    + apply Forall_app. split; [by repeat constructor|done].
    + done.
    + intros x. rewrite balance_app. specialize (Hb x). specialize (Hb1 x). lia.
Qed.

Lemma multimap_insert_perm k d m : multimap_insert k d m ≡ₚ (k, d) :: m.
Proof.
  induction m as [|[k' d'] m IH]; [done|]. simpl. destruct (String.ltb k k'); [done|]. rewrite IH. apply Permutation_swap.
Qed.

Lemma insert_handles_perm uuid hs b :
  insert_handles uuid hs b ≡ₚ (pair uuid <$> omap (fun f => hs !! f) families) ++ b.
Proof.
  unfold insert_handles. simpl. destruct (hs !! PF_INET), (hs !! PF_INET6); simpl; rewrite ?multimap_insert_perm; try done.
  apply Permutation_swap.
Qed.

Lemma insert_spec uuid endpoints r g :
  remote_wf r ->
  exists res g' log, insert uuid endpoints r g = (res, g') /\ extends g g' log /\ clean log /\
    match res with
    | Ret r' => remote_wf r' /\ (forall x, recorded_in x r' = recorded_in x r + balance x log)
    | Throw e => e = host_unreachable /\ forall x, balance x log = 0
    end.
Proof.
  intros [Hs Hne Hb]. unfold insert. erewrite st_bind_Ret by reflexivity.
  destruct (add_dests_spec (m_cfg g) (services r) endpoints ∅ g) as (hs & g' & log & E & He & Hc & Hok & Hbal); [by intros f d; rewrite lookup_empty|].
  rewrite (st_bind_Ret _ _ _ _ _ E).
  assert (forall x, handles_hit x (services r) ∅ = 0) as H0 by (intros; unfold handles_hit; simpl; by rewrite !lookup_empty).
  destruct (decide (hs = ∅)) as [->|Hhs]; eexists _, _, log; (split; [reflexivity|]); split_and!; try done.
  - intros x. specialize (Hbal x). rewrite H0 in Hbal. lia.
  - split; simpl; [done|done|]. intros b. rewrite insert_handles_perm, elem_of_app. intros [Hin|Hin]; [|by apply Hb].
    apply list_elem_of_fmap in Hin as (d & -> & Hd). apply list_elem_of_omap in Hd as (f & _ & Hf). simpl.
    destruct (Hok f d Hf) as [-> ?]. done.
  - intros x. unfold recorded_in. simpl. rewrite (zsum_perm _ _ _ (insert_handles_perm uuid hs (backends r))), zsum_app.
    specialize (Hbal x). rewrite H0 in Hbal. rewrite Z.add_0_r in Hbal. rewrite Hbal. unfold handles_hit. simpl.
    destruct (hs !! PF_INET), (hs !! PF_INET6); simpl; lia.
Qed.

Lemma del_dests_spec ss ds g :
  (forall d, d ∈ ds -> is_Some (ss !! ds_af d)) ->
  exists res g' log, del_dests ss ds g = (res, g') /\ extends g g' log /\ (forall x, balance x log <= 0) /\
    match res with
    | Ret _ => clean log /\ forall x, balance x log = - zsum (hit x ss) ds
    | Throw e => (exists errno, e = ipvs_error errno) /\ ~ clean log
    end.
Proof.
  revert g. induction ds as [|d ds IH]; intros g Hds.
  - exists (Ret tt), g, []. split_and!; [done|apply extends_refl|done|constructor|done].
  - simpl. destruct (Hds d ltac:(left)) as [s Es]. rewrite Es.
    destruct (kernel_do_spec (DelDest s d) g) as (rc & g1 & E1 & H1). rewrite (st_bind_Ret _ _ _ _ _ E1).
    destruct rc as [errno|].
    + exists (Throw (ipvs_error errno)), g1, [(DelDest s d, Some errno)]. split_and!; try done; [by eexists|].
      intros H. by inversion_clear H.
    + destruct (IH g1) as (res & g' & log & E2 & H2 & Hle & Hres); [intros d' Hd'; apply Hds; by right|].
      assert (forall x, balance x [(DelDest s d, None)] = - hit x ss d) as Hb.
      { intros x. unfold balance, hit. rewrite Es. simpl. by case_decide. }
      exists res, g', ([(DelDest s d, None)] ++ log). split_and!; [done|by eapply extends_trans| |].
      * intros x. rewrite balance_app, Hb. specialize (Hle x). unfold hit. rewrite Es. case_decide; lia.
      * destruct res as [[]|e].
        -- destruct Hres as [Hc Hbal]. split; [apply Forall_app; split; [by repeat constructor|done]|].
           intros x. rewrite balance_app, Hb, Hbal. simpl. lia.
        -- destruct Hres as [He Hc]. split; [done|]. intros H%Forall_app. tauto.
Qed.

Lemma remove_spec uuid r g :
  remote_wf r ->
  exists res g' log, remove uuid r g = (res, g') /\ extends g g' log /\
    match res with
    | Ret r' => remote_wf r' /\ backends r' = filter (fun b => b.1 <> uuid) (backends r) /\ clean log /\
                forall x, recorded_in x r' = recorded_in x r + balance x log
    | Throw e => (exists errno, e = ipvs_error errno) /\ ~ clean log /\ forall x, balance x log <= 0
    end.
Proof.
  intros [Hs Hne Hb]. unfold remove.
  destruct (del_dests_spec (services r) (of_uuid uuid r) g) as (res & g' & log & E & He & Hle & Hres).
  { intros d (b & -> & [_ Hin]%list_elem_of_filter)%list_elem_of_fmap. by apply Hb. }
  destruct res as [[]|e]; [rewrite (st_bind_Ret _ _ _ _ _ E)|rewrite (st_bind_Throw _ _ _ _ _ E)];
    eexists _, g', log; (split; [reflexivity|]); split_and!; try done; try tauto.
  - split; simpl; [done|done|]. intros b [_ Hin]%list_elem_of_filter. by apply Hb.
  - intros x. destruct Hres as [_ ->]. unfold recorded_in. simpl.
    rewrite (zsum_filter _ (fun b => b.1 = uuid) (backends r)).
    assert (zsum (hit x (services r)) (of_uuid uuid r) = zsum (fun b => hit x (services r) b.2) (filter (fun b => b.1 = uuid) (backends r))) as ->.
    { unfold of_uuid. generalize (filter (fun b => b.1 = uuid) (backends r)). intros l.
      induction l as [|b l IH]; [done|]. rewrite fmap_cons. simpl. f_equal. exact IH. }
    lia.
Qed.

(** *** The gateway *)

Record ipvs_wf g : Prop := {
  iw_remote : forall name r, m_remotes g !! name = Some (Some r) -> remote_wf r;
  iw_le : forall x, balance x (made (kernel g)) <= recorded x g;
  iw_eq : clean (made (kernel g)) -> forall x, balance x (made (kernel g)) = recorded x g
}.

Lemma recorded_put x name o g :
  recorded x (set_remotes (<[name := o]> (m_remotes g)) g) =
  recorded x g + (match o with Some r => recorded_in x r | None => 0 end) -
  (match m_remotes g !! name with Some (Some r) => recorded_in x r | _ => 0 end).
Proof. unfold recorded. simpl. rewrite msum_insert. by destruct (m_remotes g !! name) as [[]|]. Qed.

(** A remote has been changed together with the kernel. *)
Lemma put_remote_wf name r' g g' log :
  ipvs_wf g -> extends g g' log -> clean log -> remote_wf r' ->
  (forall x, recorded_in x r' = (match m_remotes g !! name with Some (Some r) => recorded_in x r | _ => 0 end) + balance x log) ->
  ipvs_wf (set_remotes (<[name := Some r']> (m_remotes g')) g').
Proof.
  intros [H2 H3 H4] (_ & _ & Em & Ek) Hc Hr Hrec.
  assert (forall x, recorded x (set_remotes (<[name := Some r']> (m_remotes g')) g') = recorded x g + balance x log) as Hall.
  { intros x. rewrite recorded_put, Em, Hrec. unfold recorded. rewrite Em. lia. }
  split; simpl.
  - intros n r. rewrite lookup_insert_Some, Em. intros [[_ [= <-]]|[_ ?]]; [done|by apply (H2 n)].
  - intros x. rewrite Hall, Ek, balance_app. specialize (H3 x). lia.
  - intros Hcl x. rewrite Ek, clean_app in Hcl. rewrite Hall, Ek, balance_app. rewrite H4; tauto.
Qed.

(** The kernel has been asked for something and nothing has been recorded. *)
Lemma kernel_only_wf g g' log :
  ipvs_wf g -> extends g g' log -> (forall x, balance x log <= 0) -> (clean log -> forall x, balance x log = 0) -> ipvs_wf g'.
Proof.
  intros [H2 H3 H4] (_ & _ & Em & Ek) Hle Heq.
  assert (forall x, recorded x g' = recorded x g) as Hrec by (intros; unfold recorded; by rewrite Em).
  split.
  - intros n r. rewrite Em. apply H2.
  - intros x. rewrite Ek, balance_app, Hrec. specialize (H3 x). specialize (Hle x). lia.
  - intros Hc x. rewrite Ek, clean_app in Hc. rewrite Ek, balance_app, Hrec, H4, Heq by tauto. lia.
Qed.

Lemma quiet_wf g g' log : ipvs_wf g -> extends g g' log -> quiet log -> ipvs_wf g'.
Proof. intros Hg He [Hb _]. eapply kernel_only_wf; [done|done| |by intros _]. intros x. rewrite Hb. lia. Qed.

Lemma remote_construct_spec name version (protocol : protocol_t) port g :
  exists res g' log, remote_construct name version protocol port g = (res, g') /\ extends g g' log /\ quiet log /\
    match res with
    | Ret r => remote_wf r /\ backends r = []
    | Throw e => e = no_ports \/ e = address_not_available
    end.
Proof.
  unfold remote_construct. destruct port as [port|].
  2:{ exists (Throw no_ports), g, []. split_and!; [done|apply extends_refl|apply quiet_nil|by left]. }
  erewrite st_bind_Ret by reflexivity.
  destruct (add_services_spec (m_cfg g) port (m_endpoints g) ([], ∅) g) as (acc & g' & log & E & He & Hq & Hok).
  { split; simpl; [by intros f s; rewrite lookup_empty|]. intros f. rewrite lookup_empty. split; [by intros []|set_solver]. }
  rewrite (st_bind_Ret _ _ _ _ _ E). destruct (decide (acc.2 = ∅)); eexists _, g', log; (split; [reflexivity|]); split_and!; try done.
  - by right.
  - split; simpl; [done|done|]. by intros b ?%elem_of_nil.
Qed.

Lemma remote_at_spec name r g : m_remotes g !! name = Some (Some r) -> remote_at name g = (Ret r, g).
Proof. intros H. unfold remote_at. erewrite st_bind_Ret by reflexivity. by rewrite H. Qed.

Inductive op :=
| Consume (uuid name : string) (version : nat) (endpoints : list endpoint_t) (protocol : protocol_t) (cluster : string) (port : option Z)
| Cleanup (uuid name : string)
| CleanupUuid (uuid : string).

(** A null pointer in the table *)
Definition null_at (name : string) (g : @ipvs_t protocol_t) : Prop := m_remotes g !! name = Some None.

Section order.
(** Which operand of the assignment in [consume] the compiler has evaluated first *)
Context (lhs_first : bool).

Definition perform (o : op) : ST (@ipvs_t protocol_t) error_t unit :=
  match o with
  | Consume u n v e p c port => consume lhs_first u n v e p c port
  | Cleanup u n => cleanup u n
  | CleanupUuid u => cleanup_uuid u
  end.

Definition run (os : list op) g : @ipvs_t protocol_t := foldl (fun g o => (perform o g).2) g os.

(** A virtual service could not be made. *)
Definition unmade {A} (x : outcome error_t A) : Prop := x = Throw no_ports \/ x = Throw address_not_available.

(** A call that leaves the gateway in order: it follows a null pointer only if there is
    one, and leaves a new one only when the left operand comes first and a virtual service
    could not be made. *)
Definition fine {A} g (x : outcome error_t A * @ipvs_t protocol_t) : Prop :=
  ipvs_wf x.2 /\ x.1 <> Throw out_of_range /\ (x.1 = Throw crash -> exists name, null_at name g) /\
  forall name, null_at name x.2 -> null_at name g \/ (lhs_first = true /\ unmade x.1).

Lemma fine_from {A} g g' (x : outcome error_t A * _) :
  (forall name, null_at name g' -> null_at name g) -> fine g' x -> fine g x.
Proof.
  intros H (H1 & H2 & H3 & H4). split_and!; try done.
  - intros E. destruct (H3 E) as [n Hn]. exists n. by apply H.
  - intros n Hn. destruct (H4 n Hn) as [?|?]; [left; by apply H|by right].
Qed.

Lemma crash_fine {A} name g : ipvs_wf g -> null_at name g -> fine g ((Throw crash, g) : outcome error_t A * _).
Proof. intros Hg Hn. split_and!; try done; [by eexists|by left]. Qed.

Lemma ret_fine {A} (x : A) g : ipvs_wf g -> fine g ((Ret x, g) : outcome error_t A * _).
Proof. intros Hg. split_and!; try done. by left. Qed.

(** The table after a remote has been put *)
Lemma put_null name r g g' n :
  m_remotes g' = m_remotes g -> null_at n (set_remotes (<[name := Some r]> (m_remotes g')) g') -> null_at n g.
Proof. unfold null_at. simpl. intros ->. rewrite lookup_insert_Some. by intros [[_ ?]|[_ ?]]. Qed.

Lemma insert_at_fine uuid endpoints name g :
  ipvs_wf g -> is_Some (m_remotes g !! name) ->
  fine g (st_bind (remote_at name) (fun r => st_bind (insert uuid endpoints r) (fun r => put_remote name (Some r))) g).
Proof.
  intros Hg [[r|] Hr].
  2:{ unfold st_bind at 1, remote_at, st_bind, st_get. rewrite Hr. by eapply crash_fine. }
  rewrite (st_bind_Ret _ _ _ _ _ (remote_at_spec name r g Hr)).
  destruct (insert_spec uuid endpoints r g (iw_remote g Hg name r Hr)) as (res & g' & log & E & He & Hc & Hres).
  pose proof He as (_ & _ & Em & _).
  destruct res as [r'|e]; [rewrite (st_bind_Ret _ _ _ _ _ E)|rewrite (st_bind_Throw _ _ _ _ _ E)].
  - destruct Hres as [Hw Hrec]. split_and!; try done; [|intros n Hn; left; exact (put_null name r' g g' n Em Hn)].
    eapply put_remote_wf; try done. intros x. by rewrite Hrec, Hr.
  - destruct Hres as [-> Hb]. split_and!; try done; [|intros n; unfold null_at; simpl; rewrite Em; by left].
    eapply quiet_wf; [exact Hg|exact He|by split].
Qed.

Lemma remove_at_fine uuid name g :
  ipvs_wf g -> is_Some (m_remotes g !! name) ->
  fine g (st_bind (remote_at name) (fun r => st_bind (remove uuid r) (fun r => put_remote name (Some r))) g).
Proof.
  intros Hg [[r|] Hr].
  2:{ unfold st_bind at 1, remote_at, st_bind, st_get. rewrite Hr. by eapply crash_fine. }
  rewrite (st_bind_Ret _ _ _ _ _ (remote_at_spec name r g Hr)).
  destruct (remove_spec uuid r g (iw_remote g Hg name r Hr)) as (res & g' & log & E & He & Hres).
  pose proof He as (_ & _ & Em & _).
  destruct res as [r'|e]; [rewrite (st_bind_Ret _ _ _ _ _ E)|rewrite (st_bind_Throw _ _ _ _ _ E)].
  - destruct Hres as (Hw & _ & Hc & Hrec). split_and!; try done; [|intros n Hn; left; exact (put_null name r' g g' n Em Hn)].
    eapply put_remote_wf; try done. intros x. by rewrite Hrec, Hr.
  - destruct Hres as ((errno & ->) & Hn & Hb). split_and!; try done; [by eapply kernel_only_wf|].
    intros n; unfold null_at; simpl; rewrite Em; by left.
Qed.

Lemma consume_fine u n v e p c port g : ipvs_wf g -> fine g (consume lhs_first u n v e p c port g).
Proof.
  intros Hg. unfold consume. erewrite st_bind_Ret by reflexivity.
  destruct (negb _); [by apply ret_fine|]. destruct (m_remotes g !! n) as [o|] eqn:En.
  { erewrite st_bind_Ret by reflexivity. apply insert_at_fine; [done|]. rewrite En. by eexists. }
  set (g0 := if lhs_first then set_remotes (<[n := None]> (m_remotes g)) g else g).
  assert (ipvs_wf g0 /\ forall x, recorded x g0 = recorded x g) as [Hg0 Hrec0].
  { unfold g0. destruct lhs_first; [|done].
    assert (forall x, recorded x (set_remotes (<[n := None]> (m_remotes g)) g) = recorded x g) as Hx.
    { intros x. rewrite recorded_put, En. lia. }
    split; [|done]. destruct Hg as [H2 H3 H4]. split; [|intros x; rewrite Hx; apply H3|intros Hc x; rewrite Hx; by apply H4].
    intros m r. simpl. rewrite lookup_insert_Some. intros [[_ ?]|[_ ?]]; [done|by apply (H2 m)]. }
  assert (forall m, null_at m g0 -> null_at m g \/ (lhs_first = true /\ m = n)) as Hnull0.
  { intros m. unfold g0, null_at. destruct lhs_first; [|by left]. simpl. rewrite lookup_insert_Some.
    intros [[-> _]|[_ ?]]; [by right|by left]. }
  assert (st_when lhs_first (put_remote n None) g = (Ret tt, g0)) as Ew by (unfold g0; by destruct lhs_first).
  destruct (remote_construct_spec n v p port g0) as (res & g' & log & E & He & Hq & Hres).
  pose proof He as (_ & _ & Em & _). destruct res as [r|x].
  - erewrite (st_bind_Ret _ _ g); [|rewrite (st_bind_Ret _ _ _ _ _ Ew), (st_bind_Ret _ _ _ _ _ E); reflexivity].
    destruct Hres as [Hw Hb]. apply (fine_from _ (set_remotes (<[n := Some r]> (m_remotes g')) g')).
    { intros m Hm. destruct (decide (m = n)) as [->|Hne].
      - unfold null_at in Hm. simpl in Hm. by rewrite lookup_insert_eq in Hm.
      - destruct (Hnull0 m) as [?|[_ ?]]; [exact (put_null n r g0 g' m Em Hm)|done|done]. }
    apply insert_at_fine; [|simpl; rewrite lookup_insert_eq; by eexists].
    eapply put_remote_wf; try done; [apply Hq|]. intros x.
    assert (match m_remotes g0 !! n with Some (Some r0) => recorded_in x r0 | _ => 0 end = 0) as ->.
    { unfold g0. destruct lhs_first; simpl; [by rewrite lookup_insert_eq|by rewrite En]. }
    unfold recorded_in. rewrite Hb. simpl. by rewrite (proj1 Hq).
  - erewrite (st_bind_Throw _ _ g); [|rewrite (st_bind_Ret _ _ _ _ _ Ew), (st_bind_Throw _ _ _ _ _ E); reflexivity].
    split_and!; [by eapply quiet_wf|by destruct Hres as [->| ->]|by destruct Hres as [->| ->]|].
    intros m Hm. unfold null_at in Hm. simpl in Hm. rewrite Em in Hm.
    destruct (Hnull0 m Hm) as [?|[? _]]; [by left|]. right. split; [done|]. unfold unmade. simpl.
    destruct Hres as [->| ->]; auto.
Qed.

Lemma cleanup_loop_fine u names g :
  ipvs_wf g -> (forall n, n ∈ names -> is_Some (m_remotes g !! n)) -> fine g (cleanup_loop u names g).
Proof.
  revert g. induction names as [|n names IH]; intros g Hg Hn; [by apply ret_fine|]. simpl.
  pose proof (remove_at_fine u n g Hg (Hn n ltac:(left))) as Hf. destruct (Hn n ltac:(left)) as [[r|] Hr].
  2:{ unfold st_bind at 1, remote_at, st_bind, st_get. rewrite Hr. by eapply crash_fine. }
  rewrite (st_bind_Ret _ _ _ _ _ (remote_at_spec n r g Hr)) in Hf. rewrite (st_bind_Ret _ _ _ _ _ (remote_at_spec n r g Hr)).
  destruct (remove_spec u r g (iw_remote g Hg n r Hr)) as (res & g' & log & E & He & _). pose proof He as (_ & _ & Em & _).
  destruct res as [r'|e]; rewrite ?(st_bind_Ret _ _ _ _ _ E), ?(st_bind_Throw _ _ _ _ _ E) in Hf;
    rewrite ?(st_bind_Ret _ _ _ _ _ E), ?(st_bind_Throw _ _ _ _ _ E); [|exact Hf].
  erewrite st_bind_Ret by reflexivity. eapply fine_from; [|apply IH; [apply Hf|]]; [intros m; exact (put_null n r' g g' m Em)|].
  intros m Hm. simpl. rewrite Em.
  destruct (decide (m = n)) as [->|Hne]; [rewrite lookup_insert_eq; by eexists|]. rewrite lookup_insert_ne by done. apply Hn. by right.
Qed.

Lemma perform_fine o g : ipvs_wf g -> fine g (perform o g).
Proof.
  intros Hg. destruct o as [u n v e p c port|u n|u]; simpl.
  - by apply consume_fine.
  - unfold cleanup. erewrite st_bind_Ret by reflexivity. destruct (m_remotes g !! n) as [o|] eqn:En; [|by apply ret_fine].
    apply remove_at_fine; [done|]. rewrite En. by eexists.
  - unfold cleanup_uuid. erewrite st_bind_Ret by reflexivity. apply cleanup_loop_fine; [done|].
    intros n Hn. unfold remote_names in Hn. rewrite merge_sort_Permutation in Hn.
    apply list_elem_of_fmap in Hn as ([n' o] & -> & Hin). apply elem_of_map_to_list in Hin. by eexists.
Qed.

Lemma run_wf_ipvs cfg addresses rs os : ipvs_wf (run os (ipvs_start cfg addresses rs)).
Proof.
  unfold run. assert (ipvs_wf (ipvs_start cfg addresses rs : @ipvs_t protocol_t)) as H0.
  { split; simpl; [by intros n r; rewrite lookup_empty|done|done]. }
  revert H0. generalize (ipvs_start cfg addresses rs : @ipvs_t protocol_t).
  induction os as [|o' os IH]; intros g Hg; [done|]. by apply IH, perform_fine.
Qed.

Lemma run_no_null cfg addresses rs os name :
  lhs_first = false -> ~ null_at name (run os (ipvs_start cfg addresses rs)).
Proof.
  intros Hl. induction os as [|o os IH] using rev_ind; [unfold null_at; simpl; by rewrite lookup_empty|].
  unfold run in *. rewrite foldl_app. simpl. intros Hn.
  destruct (perform_fine o _ (run_wf_ipvs cfg addresses rs os)) as (_ & _ & _ & H).
  destruct (H name Hn) as [?|[? _]]; [by apply IH|congruence].
Qed.

(** C15: the gateway knows what it has put into the kernel.  After any announcements and
    removals, whatever calls of the kernel fail and in whichever order the compiler
    evaluates the assignment of a new virtual service, no destination is in the kernel
    more often than the gateway has recorded it, so that none is forgotten; and when no
    removal has failed the two agree.  No operation looks up a missing virtual service.
    An operation follows a null pointer only if there is one in the table; and there is
    one only if the left operand of the assignment is evaluated first, left by an
    announcement whose virtual service could not be made. *)
Theorem kernel_agrees (cfg : ipvs_config_t) (addresses : list address_t) (rs : list (option Z)) (os : list op) (o : op) :
  let g := run os (ipvs_start cfg addresses rs) in
  (forall x, balance x (made (kernel g)) <= recorded x g /\
             (clean (made (kernel g)) -> balance x (made (kernel g)) = recorded x g)) /\
  (perform o g).1 <> Throw out_of_range /\
  ((perform o g).1 = Throw crash -> exists name, null_at name g) /\
  (forall name, null_at name (perform o g).2 -> null_at name g \/ (lhs_first = true /\ unmade (perform o g).1)) /\
  (lhs_first = false -> forall name, ~ null_at name g).
Proof.
  intros g. pose proof (run_wf_ipvs cfg addresses rs os : ipvs_wf g) as Hg.
  destruct (perform_fine o g Hg) as (_ & H1 & H2 & H3). split_and!; try done; [|intros; by apply run_no_null].
  intros x. split; [apply Hg|]. intros Hc. by apply Hg.
Qed.
End order.

Lemma present cfg addresses rs os name :
  let g := run false os (ipvs_start cfg addresses rs) in
  is_Some (m_remotes g !! name) -> exists r, m_remotes g !! name = Some (Some r).
Proof. intros g [[r|] E]; [by exists r|]. by destruct (run_no_null false cfg addresses rs os name eq_refl). Qed.

(** With the right operand of the assignment evaluated first: a service is resolved exactly when a node that runs it has been registered; then
    there is an endpoint to give, and the endpoints given are those of the virtual service
    whose protocol family some registered node serves. *)
Theorem resolve_serving (cfg : ipvs_config_t) (addresses : list address_t) (rs : list (option Z)) (os : list op) (name : string) :
  let g := run false os (ipvs_start cfg addresses rs) in
  match (resolve name g).1 with
  | Ret (eps, protocol, version) =>
      eps <> [] /\ exists r, m_remotes g !! name = Some (Some r) /\ backends r <> [] /\ protocol = r_protocol r /\ version = r_version r /\
      forall e, e ∈ eps <-> e ∈ r_endpoints r /\ exists b, b ∈ backends r /\ ds_af b.2 = e_family e
  | Throw x => x = service_not_available /\ forall r, m_remotes g !! name = Some (Some r) -> backends r = []
  end.
Proof.
  intros g. pose proof (run_wf_ipvs false cfg addresses rs os : ipvs_wf g) as Hg. unfold resolve. erewrite st_bind_Ret by reflexivity.
  destruct (m_remotes g !! name) as [o|] eqn:En; [|by split].
  destruct (present cfg addresses rs os name) as [r Hr]; [fold g; by rewrite En|]. fold g in Hr. rewrite (st_bind_Ret _ _ _ _ _ (remote_at_spec name r g Hr)).
  rewrite En in Hr. injection Hr as ->. destruct (iw_remote g Hg name r En) as [[_ Hs] Hne Hb]. simpl. unfold reduce.
  destruct (backends r) as [|b bs] eqn:Eb; [split; [done|]; by intros r' [= ->]|].
  assert (forall e, serving (b :: bs) e = true <-> exists b', b' ∈ b :: bs /\ ds_af b'.2 = e_family e) as Hserv.
  { intros e. unfold serving. rewrite existsb_exists. split.
    - intros (b' & Hin%list_elem_of_In & E%bool_decide_eq_true). by exists b'.
    - intros (b' & Hin%list_elem_of_In & E). exists b'. split; [done|by apply bool_decide_eq_true]. }
  assert (forall e, e ∈ filter (fun e => serving (b :: bs) e = true) (r_endpoints r) <->
    e ∈ r_endpoints r /\ exists b', b' ∈ b :: bs /\ ds_af b'.2 = e_family e) as Hf.
  { intros e. rewrite list_elem_of_filter, Hserv. tauto. }
  split; [|exists r; split_and!; try done; by rewrite Eb].
  destruct (Hb b ltac:(left)) as [s Es]. destruct (proj1 (Hs (ds_af b.2)) ltac:(by eexists)) as (e & He & Ef).
  intros E. assert (e ∈ filter (fun e => serving (b :: bs) e = true) (r_endpoints r)) as Hin.
  { apply Hf. split; [done|]. exists b. split; [left|done]. }
  rewrite E in Hin. by apply elem_of_nil in Hin.
Qed.

(** *** Destruction *)

(** How often the removal of a destination has been asked for *)
Definition asked (x : ipvs_service_t * ipvs_dest_t) (log : list (kernel_call * option Z)) : Z :=
  zsum (fun c => match c.1 with DelDest s d => if decide ((s, d) = x) then 1 else 0 | _ => 0 end) log.

Lemma drop_dests_spec ss ds g :
  (forall d, d ∈ ds -> is_Some (ss !! ds_af d)) ->
  exists g' log, drop_dests ss ds g = (Ret tt, g') /\ extends g g' log /\ forall x, asked x log = zsum (hit x ss) ds.
Proof.
  revert g. induction ds as [|d ds IH]; intros g Hds; [exists g, []; split_and!; [done|apply extends_refl|done]|].
  simpl. destruct (Hds d ltac:(left)) as [s Es]. rewrite Es.
  destruct (kernel_do_spec (DelDest s d) g) as (rc & g1 & E1 & H1). rewrite (st_bind_Ret _ _ _ _ _ E1).
  destruct (IH g1) as (g' & log & E2 & H2 & Ha); [intros d' Hd'; apply Hds; by right|].
  exists g', ([(DelDest s d, rc)] ++ log). split_and!; [done|by eapply extends_trans|].
  intros x. unfold asked in *. rewrite zsum_app, Ha. unfold hit at 2. rewrite Es. simpl. lia.
Qed.

Lemma drop_services_spec ss g :
  exists g' log, drop_services ss g = (Ret tt, g') /\ extends g g' log /\ forall x, asked x log = 0.
Proof.
  revert g. induction ss as [|s ss IH]; intros g; [exists g, []; split_and!; [done|apply extends_refl|done]|].
  simpl. destruct (kernel_do_spec (DelService s) g) as (rc & g1 & E1 & H1). rewrite (st_bind_Ret _ _ _ _ _ E1).
  destruct (IH g1) as (g' & log & E2 & H2 & Ha). exists g', ([(DelService s, rc)] ++ log).
  split_and!; [done|by eapply extends_trans|]. intros x. unfold asked in *. by rewrite zsum_app, Ha.
Qed.

Lemma remote_destroy_spec r g :
  remote_wf r -> exists g' log, remote_destroy r g = (Ret tt, g') /\ extends g g' log /\ forall x, asked x log = recorded_in x r.
Proof.
  intros [_ _ Hb]. unfold remote_destroy.
  destruct (drop_dests_spec (services r) (backends r).*2 g) as (g1 & l1 & E1 & H1 & A1).
  { intros d (b & -> & Hin)%list_elem_of_fmap. by apply Hb. }
  rewrite (st_bind_Ret _ _ _ _ _ E1).
  destruct (drop_services_spec (omap (fun f => services r !! f) families) g1) as (g2 & l2 & E2 & H2 & A2).
  exists g2, (l1 ++ l2). split_and!; [done|by eapply extends_trans|]. intros x. unfold asked in *. rewrite zsum_app, A1, A2, Z.add_0_r.
  unfold recorded_in. clear. induction (backends r) as [|b l IH]; [done|]. rewrite fmap_cons. simpl. f_equal. exact IH.
Qed.

Lemma destroy_loop_spec names g :
  ipvs_wf g -> (forall n, ~ null_at n g) -> NoDup names -> (forall n, n ∈ names <-> is_Some (m_remotes g !! n)) ->
  exists g' log, destroy_loop names g = (Ret tt, g') /\ m_remotes g' = ∅ /\ made (kernel g') = made (kernel g) ++ log /\
    forall x, asked x log = recorded x g.
Proof.
  intros [Hrem _ _]. revert g Hrem. induction names as [|n names IH]; intros g Hrem Hnull Hnd Hn.
  - assert (m_remotes g = ∅) as Hem by (apply map_empty; intros n; apply eq_None_not_Some; rewrite <- Hn; apply not_elem_of_nil).
    exists g, []. split_and!; [done|done|by rewrite app_nil_r|].
    intros x. unfold recorded. rewrite Hem. unfold msum. by rewrite map_to_list_empty.
  - apply NoDup_cons in Hnd as [Hnin Hnd]. simpl. erewrite st_bind_Ret by reflexivity.
    destruct (proj1 (Hn n) ltac:(left)) as [[r|] Er]; [|by destruct (Hnull n)]. rewrite Er.
    destruct (remote_destroy_spec r g (Hrem n r Er)) as (g1 & l1 & E1 & (H1 & H2 & H3 & H4) & A1).
    rewrite (st_bind_Ret _ _ _ _ _ E1). erewrite st_bind_Ret by reflexivity.
    destruct (IH (set_remotes (delete n (m_remotes g1)) g1)) as (g' & l2 & E2 & Em & Ek & A2).
    + intros m r'. simpl. rewrite H3, lookup_delete_Some. intros [_ H]. by apply (Hrem m).
    + intros m. unfold null_at. simpl. rewrite H3, lookup_delete_Some. intros [_ H]. by apply (Hnull m).
    + done.
    + intros m. simpl. rewrite H3. destruct (decide (m = n)) as [->|Hne].
      * rewrite lookup_delete_eq. split; [done|by intros []].
      * rewrite lookup_delete_ne by done. rewrite <- Hn. set_solver.
    + exists g', (l1 ++ l2). split_and!; [done|done|rewrite Ek; simpl; by rewrite H4, app_assoc|].
      intros x. unfold asked in *. rewrite zsum_app, A1, A2. unfold recorded. simpl. rewrite H3.
      rewrite (msum_delete _ _ n (Some r) Er). lia.
Qed.

(** The destructor leaves nothing behind (when no null pointer is in the table): it empties the table, cannot fail, and asks
    the kernel to remove every destination that is recorded, exactly as often as it is
    recorded, whatever the kernel answers. *)
Theorem destructor_removes_all (cfg : ipvs_config_t) (addresses : list address_t) (rs : list (option Z)) (os : list op) :
  let g := run false os (ipvs_start cfg addresses rs) in
  exists g' log, ipvs_destroy g = (Ret tt, g') /\ m_remotes g' = ∅ /\ made (kernel g') = made (kernel g) ++ log /\
    forall x, asked x log = recorded x g.
Proof.
  intros g. pose proof (run_wf_ipvs false cfg addresses rs os : ipvs_wf g) as Hg. unfold ipvs_destroy. erewrite st_bind_Ret by reflexivity.
  apply destroy_loop_spec; [done|intros n; by apply run_no_null| |]; unfold remote_names; [|intros n]; rewrite merge_sort_Permutation.
  - apply NoDup_fst_map_to_list.
  - rewrite list_elem_of_fmap. split.
    + intros ([n' o] & -> & Hin%elem_of_map_to_list). by eexists.
    + intros [o Ho]. exists (n, o). split; [done|]. by apply elem_of_map_to_list.
Qed.

(** Two ways to undefined behaviour.  When the entry of the table is created before
    the virtual service, as the compiler may choose, a virtual service that could not be
    made leaves an empty pointer, which every later use of the name follows; and counting
    a service that has never been seen runs past the end of the function. *)
Theorem missing_service_crashes (uuid name : string) (version : nat) (endpoints : list endpoint_t) (protocol : protocol_t) (g : ipvs_t) :
  m_remotes g !! name = None ->
  (total_count name g).1 = Throw crash /\
  let g' := (consume true uuid name version endpoints protocol (x_cocaine_cluster (m_cfg g)) None g).2 in
  (resolve name g').1 = Throw crash /\ (cleanup uuid name g').1 = Throw crash /\
  (consume true uuid name version endpoints protocol (x_cocaine_cluster (m_cfg g)) (Some 1) g').1 = Throw crash.
Proof.
  intros Hn. split; [unfold total_count; erewrite st_bind_Ret by reflexivity; by rewrite Hn|].
  intros g'. assert (g' = set_remotes (<[name := None]> (m_remotes g)) g) as ->.
  { subst g'. unfold consume. erewrite st_bind_Ret by reflexivity. rewrite String.eqb_refl. simpl. rewrite Hn.
    unfold st_bind. done. }
  unfold resolve, cleanup, consume, remote_at, st_bind, st_get. simpl. rewrite String.eqb_refl. simpl.
  by rewrite !lookup_insert_eq; simpl; rewrite ?lookup_insert_eq.
Qed.
End facts.

(** ** Witnesses *)

Definition wlc : ipvs_config_t := mk_config "wlc" 1 "".
Definition v4 : address_t := mk_address PF_INET [127; 0; 0; 1].
Definition v6 : address_t := mk_address PF_INET6 [0; 1].
Definition both_families : list endpoint_t := [mk_endpoint v4 80; mk_endpoint v6 80].

Lemma missing_service_witness :
  (total_count "app" (ipvs_start wlc [v4] [] : @ipvs_t nat)).1 = Throw crash.
Proof.
  apply (missing_service_crashes "u" "app" 1 both_families 0%nat (ipvs_start wlc [v4] [])). reflexivity.
Defined.

(** A removal that fails halfway: the first destination has left the kernel and is still
    recorded, so that it is removed again by the next attempt. *)
Example half_removed :
  let g := run false [Consume "u" "app" 1 both_families 0%nat "" (Some 1000); Cleanup "u" "app"]
             (ipvs_start wlc [v4; v6] [None; None; None; None; None; Some 2]) in
  let d := handle_dest wlc (mk_endpoint v4 80) in
  let s := handle_service wlc (mk_endpoint v4 1000) in
  balance (s, d) (made (kernel g)) = 0 /\ recorded (s, d) g = 1.
Proof. split; vm_compute; reflexivity. Qed.
