(* ===== verification/Isolates.v ===== *)
(** * Applications over their isolates

    An application ([App.v]) is started by asking an isolate to spool it, and hears of the
    isolate through a handle.  The class [Isolate] states what the application needs of a
    call of [spool]: that it either throws or tells the handle once, never both.  Which
    calls of the isolates of this repository keep that promise is proved here, and what
    becomes of an application when one does not.  The end of the file is about the metrics
    that a retriever ([Isometrics.v]) gets over them. *)

From S2P Require Import Prelude Isometrics ProcessSpawn Http Docker Profile Channel Machine Engine EngineMachine EngineTheorems App.

Local Open Scope Z_scope.

(** ** The interface *)

Inductive answer := IsReady | IsAbort (ec : error_code).

(** One call of [spool]: what the caller sees, and all that its handle will be told *)
Record spooled := mk_spooled { sp_result : spool_result; sp_answers : list answer }.

Definition told_once (s : spooled) : Prop :=
  (length (sp_answers s) + match sp_result s with SpoolStarted => 0 | _ => 1 end = 1)%nat.

Class Isolate (C : Type) := {
  spool_of : C -> spooled;
  promised : C -> Prop;
  spool_told_once : forall c, promised c -> told_once (spool_of c)
}.

(** ** The isolate of processes *)

Section process.
(** [boost::filesystem::path::operator/] *)
Context (append : string -> string -> string).
(** The code of an exception, when it has one *)
Context (code : Z -> option error_code).

Record process_call := mk_process_call {
  pc_process : process_t;
  pc_storage : outcome Z (outcome Z (list (outcome Z entry_t)));
  pc_children : option (list string);
  pc_disk : disk_t
}.

Definition process_spool (c : process_call) : spooled :=
  match (ProcessSpawn.spool append (pc_process c) (pc_storage c) (pc_children c) (pc_disk c)).1 with
  | Ret _ => mk_spooled SpoolStarted [IsReady]
  | Throw e => mk_spooled (SpoolThrew (code e)) []
  end.

(** It keeps its promise whatever the storage, the archive and the disk do. *)
#[export, refine] Instance process_isolate : Isolate process_call := {| spool_of := process_spool; promised := fun _ => True |}.
Proof. intros c _. unfold told_once, process_spool. by destruct (ProcessSpawn.spool _ _ _ _ _) as [[]]. Defined.
End process.

(** ** The isolate of containers *)

Section docker.
Context (iequals : string -> string -> bool) (print_number : Z -> string).
Context (write_json : json -> string) (parse_stream : string -> list (option json)).
(** The category of the errors of curl *)
Context (curl_category : category_t).

Definition docker_answer (c : handle_call) : list answer :=
  match c with
  | SpoolReady => [IsReady]
  | SpoolAbort ec => [IsAbort (mk_ec curl_category ec)]
  | SpawnReady => []
  end.

Abbreviation spool := (Docker.spool iequals print_number write_json parse_stream).

(** The exceptions that leave [spool] carry no code. *)
Definition docker_spool (w : world_t) : spooled :=
  let r := spool w in
  mk_spooled (match r.1 with Ret _ => SpoolStarted | Throw _ => SpoolThrew None end)
    (concat (map docker_answer (drop (length (calls w)) (calls r.2)))).

(** It keeps its promise only with a registry. *)
#[export, refine] Instance docker_isolate : Isolate world_t := {| spool_of := docker_spool; promised := fun w => m_do_pool (isolate w) = true |}.
Proof.
  intros w Hp. unfold told_once, docker_spool. pose proof (spool_calls iequals print_number write_json parse_stream w Hp) as H.
  destruct (spool w) as [[[]|e] w']; cbn [fst snd sp_result sp_answers] in *.
  - destruct H as (c & -> & Hc). rewrite drop_app_length. by destruct Hc as [->|[ec ->]].
  - destruct H as [-> _]. by rewrite drop_all.
Defined.
End docker.

(** ** The application *)

Section application.
Context {S Load Env : Type} `{SL : !Slave S Load Env}.
Context (gen : nat -> string).

Abbreviation app_event := (@app_event Load Env).
Abbreviation app_t := (@app_t S Load).

(** The answers of the isolate in a history of the application *)
Definition answers_in (es : list app_event) : list answer :=
  omap (fun e => match e with Ready => Some IsReady | Abort ec => Some (IsAbort ec) | _ => None end) es.

Lemma answers_in_length es : answers es = length (answers_in es).
Proof. induction es as [|e es IH]; [done|]. unfold answers, answers_in in *. by destruct e; simpl; rewrite ?IH. Qed.


Definition destroyed (e : app_event) : bool := match e with Cancelled _ => true | _ => false end.

Lemma nothing_happens es n p (sv : gset string) :
  answers_in es = [] -> forallb (fun e => negb (destroyed e)) es = true ->
  app_run gen es (sv, mk_app n p (spooling_t true) [] [] 0) = (sv, mk_app n p (spooling_t true) [] [] 0).
Proof.
  intros Ha Hd. induction es as [|e es IH]; [done|]. unfold answers_in in Ha. simpl in Hd. apply andb_true_iff in Hd as [He Hd].
  change (app_run gen (e :: es) (sv, mk_app n p (spooling_t true) [] [] 0)) with
    (app_run gen es (app_step gen e (sv, mk_app n p (spooling_t true) [] [] 0))).
  destruct e; try done; apply IH; done.
Qed.
End application.

(** Without a registry, which means that only local images are to be used, the isolate
    of containers never says anything: an application over it stays in spooling and whoever
    asked for it is never answered, whatever happens, until it is destroyed. *)
Theorem docker_never_starts {S Load Env : Type} `{SL : !Slave S Load Env} (gen : nat -> string)
    (iequals : string -> string -> bool) (print_number : Z -> string) (write_json : json -> string)
    (parse_stream : string -> list (option json)) (curl_category : category_t)
    (d : world_t) (n : string) (p : profile_t) (sv : gset string) (es : list (@app_event Load Env)) (a : @app_t S Load) :
  m_do_pool (isolate d) = false ->
  let s := docker_spool iequals print_number write_json parse_stream curl_category d in
  app_construct n p (sp_result s) = Ret a -> answers_in es = sp_answers s ->
  forallb (fun e => negb (destroyed e)) es = true ->
  let w := app_run gen es (sv, a) in callbacks w.2 = [] /\ state_name w.2 = "spooling"%string.
Proof.
  intros Hp s Ha He Hd w.
  assert (Docker.spool iequals print_number write_json parse_stream d = (Ret tt, d)) as E
    by (unfold Docker.spool, st_bind, st_get; by rewrite Hp).
  assert (s = mk_spooled SpoolStarted []) as Es by (unfold s, docker_spool; rewrite E; cbn; by rewrite drop_all).
  rewrite Es in Ha, He.
  assert (a = mk_app n p (spooling_t true) [] [] 0) as Hw by (symmetry; by injection Ha). unfold w. by rewrite Hw, nothing_happens.
Qed.

(** ** Metrics of workers *)

(** [process_t::metrics] and [docker_t::metrics]: the handle gets an empty response. *)
Definition metrics (query : list string) : Isometrics.response_type := [].

(** A retriever over such an isolate *)
Definition measured_by_isolate (e : Isometrics.event) : Prop :=
  match e with Data d _ => exists query, d = metrics query | _ => True end.

Lemma assign_nothing (h : hub_t) (name : string) (now : Z) : make_uint_counter h name "mem" = 0 ->
  Isometrics.assign proxy_construct (worker_construct h name now) = worker_construct h name now.
Proof. intros E. unfold worker_construct, init_metrics_desc. cbn [foldl fst snd common_counters set_counters]. rewrite E. reflexivity. Qed.

(** An application over processes or containers has no metrics: whatever the polls, the
    deaths and the failures, no worker is ever recorded, the metrics of the application
    are those it began with, if it began without memory, and no uuid has been received. *)
Theorem isolates_measure_nothing (h : hub_t) (name : string) (interval now : Z) (isolate : bool) (es : list Isometrics.event) :
  make_uint_counter h (name ++ ".isolate") "mem" = 0 -> Forall measured_by_isolate es ->
  let r := Isometrics.run es (retriever_construct h name interval isolate now) in
  table r = ∅ /\ app_aggregate_metrics r = worker_construct h (name ++ ".isolate") now /\ uuids_recieved (self_metrics r) = 0.
Proof.
  intros Hh H. cbv zeta.
  assert (forall r, table r = ∅ /\ app_aggregate_metrics r = worker_construct h (name ++ ".isolate") now /\ uuids_recieved (self_metrics r) = 0 ->
    let r' := Isometrics.run es r in
    table r' = ∅ /\ app_aggregate_metrics r' = worker_construct h (name ++ ".isolate") now /\ uuids_recieved (self_metrics r') = 0) as K; [|by apply K].
  induction es as [|e es IH]; intros r (Ht & Ha & Hu); [by repeat split|]. apply Forall_cons in H as [He H].
  cbn [Isometrics.run foldl]. apply IH; [done|].
  destruct e as [id|c alive|d clock|nc]; cbn [Isometrics.step].
  - unfold add_post_mortem. destruct (purgatory_queue_bound <=? _); by repeat split.
  - unfold poll_metrics. destruct c; [by repeat split|]. destruct alive as [alive|]; [|by repeat split].
    cbn [has_isolate]. destruct (Isometrics.has_isolate r); simpl; [|by repeat split]. rewrite Ht. by repeat split.
  - destruct He as [query ->]. unfold on_data, metrics, process. cbn [foldl]. repeat split; simpl; [done| |by rewrite Hu].
    rewrite Ht, Ha. by apply assign_nothing.
  - unfold on_error. destruct nc; by repeat split.
Qed.

(** ** Witnesses *)

Definition local_only : world_t :=
  mk_world (mk_wire [] []) (docker_construct "/run" "app" (mk_config (unix_endpoint "/var/run/docker.sock") None None None None None None None None)) [].

Lemma docker_never_starts_witness :
  exists a, app_construct (S := machine_t) (Load := machine_request) "app" unlimited_profile
      (sp_result (docker_spool String.eqb toy_print (fun _ => "{}"%string) (fun _ => []) system_category local_only)) = Ret a /\
    state_name (app_run uuid_of (SL := machine_slave unlimited_profile) [RunTask None None true None; Despawned true] (∅, a)).2 = "spooling"%string.
Proof.
  eexists. split; [reflexivity|].
  apply (docker_never_starts (SL := machine_slave unlimited_profile) uuid_of
    String.eqb toy_print (fun _ => "{}"%string) (fun _ => []) system_category local_only "app" unlimited_profile ∅
    [RunTask None None true None; Despawned true]); reflexivity.
Defined.

Definition empty_archive : process_call := mk_process_call a_process (Ret (Ret [])) None (mk_disk [] [] []).

(** The client has gone when it is told: the application is cancelled. *)
Definition deaf_client : list (@app_event machine_request Machine.inject_env) := [Ready; RunTask None None true (Some (Some broken_pipe))].


Lemma isolates_measure_nothing_witness :
  table (Isometrics.run [Isometrics.Despawned "u"; Polled false (Some ["a"%string]); Data (metrics ["a"%string; "u"%string]) (fun _ => 0)]
           (retriever_construct ∅ "app" 5 true 0)) = ∅.
Proof.
  apply (isolates_measure_nothing ∅ "app" 5 0 true); [reflexivity|].
  repeat constructor. by exists ["a"%string; "u"%string].
Defined.
