(* ===== verification/Uniresis.v ===== *)
(** * The resources service: [uniresis/src/uniresis.cpp]

    Reports the processors and the memory of the machine, less what the configuration
    restricts, and announces them in the unicorn: a node with the resources is created
    under the id of the machine, watched, and created again when the watch fails.

    What the system reports and what the unicorn answers are arguments; a request to the
    unicorn may throw instead of being started. *)

From S2P Require Import Prelude LogFilter.

Local Open Scope Z_scope.

(** ** Resources *)

Record resources_t := mk_resources { cpu : Z; mem : Z }.

Inductive uniresis_errc := failed_calculate_cpu_count | failed_calculate_system_memory.

(** [pages * page_size] of two [long], as a [std::uint64_t] *)
Definition total_system_memory (pages page_size : Z) : Z := u64 (i64 (pages * page_size)).

(** The part of the constructor that determines the resources: a restriction is a 64-bit
    number of the configuration, and that of processors is cast to 32 bits. *)
Definition restrict (concurrency pages page_size : Z) (cpu_limit mem_limit : option Z) : outcome uniresis_errc resources_t :=
  let r := mk_resources concurrency (total_system_memory pages page_size) in
  if cpu r =? 0 then Throw failed_calculate_cpu_count
  else if mem r =? 0 then Throw failed_calculate_system_memory
  else Ret (mk_resources (Z.min (cpu r) (u32 (default (cpu r) cpu_limit))) (Z.min (mem r) (u64 (default (mem r) mem_limit)))).

Definition make_path (prefix : option string) (uuid : string) : string :=
  (default "/resources" prefix ++ "/" ++ uuid)%string.

(** ** The updater *)

Record endpoint_t := mk_endpoint { address : string; port : Z }.

Record updater_t := mk_updater {
  path : string;
  hostname : string;
  endpoints : list endpoint_t;
  extra : list (string * dynamic_t);
  resources : resources_t;
  creating : bool;                  (** the creation of the node is under way *)
  watching : bool;                  (** the subscription is *)
  timer : bool;                     (** the timer is pending *)
  created : list (string * dynamic_t);  (** what the unicorn was asked to create *)
  terminated : bool                 (** an exception has left a callback *)
}.

Definition make_value (u : updater_t) : dynamic_t :=
  DObject [("hostname", DString (hostname u));
           ("endpoints", DArray ((fun e => DArray [DString (address e); DUint (port e)]) <$> endpoints u));
           ("extra", DObject (extra u));
           ("resources", DObject [("cpu", DUint (cpu (resources u))); ("mem", DUint (mem (resources u)))])]%string.

Definition set_flags (c w t : bool) (u : updater_t) : updater_t :=
  mk_updater (path u) (hostname u) (endpoints u) (extra u) (resources u) c w t (created u) (terminated u).

Definition terminate (u : updater_t) : updater_t :=
  mk_updater (path u) (hostname u) (endpoints u) (extra u) (resources u) (creating u) (watching u) (timer u) (created u) true.

(** [throws]: the unicorn throws from [create]; no caller of [notify] catches it. *)
Definition notify (throws : bool) (u : updater_t) : updater_t :=
  if throws then terminate u
  else mk_updater (path u) (hostname u) (endpoints u) (extra u) (resources u) true (watching u) (timer u)
         (created u ++ [(path u, make_value u)]) (terminated u).

Definition notify_later (u : updater_t) : updater_t := set_flags (creating u) (watching u) true u.

Definition on_timer (cancelled throws : bool) (u : updater_t) : updater_t :=
  let u := set_flags (creating u) (watching u) false u in
  if cancelled then u else notify throws u.

(** [subscribe]; an exception of it is caught in [on_create]. *)
Definition on_create (r : outcome unit bool) (subscribe_throws : bool) (u : updater_t) : updater_t :=
  let u := set_flags false (watching u) (timer u) u in
  match r with
  | Ret true => if subscribe_throws then notify_later u else set_flags (creating u) true (timer u) u
  | _ => notify_later u
  end.

(** [on_subscribe]: a value does not end the subscription, an exception does. *)
Definition on_subscribe (r : outcome unit Z) (throws : bool) (u : updater_t) : updater_t :=
  match r with
  | Ret _ => u
  | Throw _ => notify throws (set_flags (creating u) false (timer u) u)
  end.

Inductive event :=
| Timer (cancelled throws : bool)
| Created (r : outcome unit bool) (subscribe_throws : bool)
| Updated (r : outcome unit Z) (throws : bool).

(** Callbacks come only for what is under way. *)
Definition step (u : updater_t) (e : event) : updater_t :=
  match e with
  | Timer c t => if timer u then on_timer c t u else u
  | Created r t => if creating u then on_create r t u else u
  | Updated r t => if watching u then on_subscribe r t u else u
  end.

Definition updater_construct (p h : string) (es : list endpoint_t) (x : list (string * dynamic_t)) (r : resources_t) : updater_t :=
  mk_updater p h es x r false false false [] false.

Definition run (es : list event) (u : updater_t) : updater_t := foldl step u es.

(** No request to the unicorn throws and no timer is cancelled. *)
Definition fair (e : event) : bool :=
  match e with
  | Timer c t => negb c && negb t
  | Created _ _ => true
  | Updated _ t => negb t
  end.

(** ** Properties *)

(** The resources announced are never more than the machine has, nor more than the
    restrictions that fit their types. *)
Lemma restrict_bounds concurrency pages page_size cl ml r :
  0 <= concurrency < 2 ^ 32 ->
  restrict concurrency pages page_size cl ml = Ret r ->
  cpu r <= concurrency /\ mem r <= total_system_memory pages page_size /\
  (forall l, cl = Some l -> 0 <= l < 2 ^ 32 -> cpu r <= l) /\ (forall l, ml = Some l -> 0 <= l < 2 ^ 64 -> mem r <= l).
Proof.
  intros Hc H. unfold restrict in H. simpl in H. destruct (concurrency =? 0); [done|].
  destruct (total_system_memory pages page_size =? 0); [done|]. injection H as <-. simpl. split_and!; [lia|lia| |].
  - intros l -> Hl. simpl. unfold u32. rewrite Z.mod_small by lia. lia.
  - intros l -> Hl. simpl. rewrite u64_small by (unfold u64_modulus; lia). lia.
Qed.

(** A restriction that means "no limit" may leave no processors. *)
Example truncated_restriction : restrict 8 1000 4096 (Some (2 ^ 32)) None = Ret (mk_resources 0 4096000).
Proof. reflexivity. Qed.

Record updater_wf (u : updater_t) : Prop := {
  uw_alive : terminated u = false;
  uw_busy : creating u = true \/ watching u = true \/ timer u = true;
  uw_created : Forall (fun x => x = (path u, make_value u)) (created u)
}.

Lemma step_wf_updater u e : fair e = true -> updater_wf u -> updater_wf (step u e).
Proof.
  intros Hf Hu. pose proof Hu as [H1 H2 H3]. assert (forall throws c w t, throws = false -> updater_wf (notify throws (set_flags c w t u))) as Hn.
  { intros ? c w t ->. split; simpl; [done|by left|]. apply Forall_app. split; [done|]. by repeat constructor. }
  destruct e as [c t|r t|r t]; simpl in *.
  - apply andb_true_iff in Hf as [->%negb_true_iff ->%negb_true_iff]. destruct (timer u); [exact (Hn false _ _ _ eq_refl)|done].
  - destruct (creating u); [|done]. unfold on_create.
    destruct r as [[]|]; [destruct t| |]; split; simpl; auto.
  - apply negb_true_iff in Hf as ->. destruct (watching u); [|done]. destruct r; [done|exact (Hn false _ _ _ eq_refl)].
Qed.

(** What an updater is made with does not change. *)
Definition same (u v : updater_t) : Prop :=
  path v = path u /\ hostname v = hostname u /\ endpoints v = endpoints u /\ extra v = extra u /\ resources v = resources u.

Lemma step_same u e : same u (step u e).
Proof.
  destruct e as [c t|r t|r t]; simpl.
  - destruct (timer u); [|done]. unfold on_timer, notify. by destruct c, t.
  - destruct (creating u); [|done]. unfold on_create. by destruct r as [[]|], t.
  - destruct (watching u); [|done]. unfold on_subscribe, notify. by destruct r, t.
Qed.

(** A machine never stops announcing its resources.  From the start of the service,
    whatever the unicorn answers and in whatever order, its node is being created, is
    watched, or a new attempt is scheduled; and what is created is always the same node
    with the same resources. *)
Theorem resources_stay_announced (p h : string) (eps : list endpoint_t) (x : list (string * dynamic_t)) (r : resources_t) (es : list event) :
  forallb fair es = true ->
  let u := run es (notify false (updater_construct p h eps x r)) in
  terminated u = false /\ (creating u = true \/ watching u = true \/ timer u = true) /\
  Forall (fun y => y = (p, make_value (updater_construct p h eps x r))) (created u).
Proof.
  intros Hes u.
  assert (same (updater_construct p h eps x r) u /\ updater_wf u) as [(Hp & Hh & He & Hx & Hr) [H1 H2 H3]].
  { subst u. unfold run. assert (same (updater_construct p h eps x r) (notify false (updater_construct p h eps x r)) /\
      updater_wf (notify false (updater_construct p h eps x r))) as H0 by (split; [done|split; [done|by left|by repeat constructor]]).
    revert H0. generalize (notify false (updater_construct p h eps x r)). induction es as [|e es IH]; intros v [Hs Hv]; [done|].
    simpl in Hes. apply andb_true_iff in Hes as [He Hes]. simpl. apply (IH Hes). split; [|by apply step_wf_updater].
    destruct (step_same v e) as (? & ? & ? & ? & ?), Hs as (? & ? & ? & ? & ?). split_and!; congruence. }
  split_and!; [done|done|]. unfold make_value in *. rewrite Hp, Hh, He, Hx, Hr in H3. exact H3.
Qed.

(** A value that is not the one created only makes a warning: when the node is gone before
    it is watched, the machine stays unregistered until the watch fails. *)
Lemma lost_registration_unnoticed (v : Z) (throws : bool) (u : updater_t) : step u (Updated (Ret v) throws) = u.
Proof. simpl. by destruct (watching u). Qed.

(** ** Witness *)

Lemma resources_announced_witness :
  let u := run [Created (Throw tt) false; Timer false false; Created (Ret true) false; Updated (Ret 0) false; Updated (Throw tt) false]
             (notify false (updater_construct "/resources/u" "h" [] [] (mk_resources 4 1024))) in
  terminated u = false /\ (creating u = true \/ watching u = true \/ timer u = true).
Proof.
  destruct (resources_stay_announced "/resources/u" "h" [] [] (mk_resources 4 1024)
    [Created (Throw tt) false; Timer false false; Created (Ret true) false; Updated (Ret 0) false; Updated (Throw tt) false]) as (H1 & H2 & _);
    [reflexivity|]. exact (conj H1 H2).
Defined.
