(* ===== verification/NodeInfo.v ===== *)
(** * What the node reports of its applications

    [node/src/node/info]: the collectors that fill the report of an application, the
    report of the engine ([engine_t::info]) and of the states of an application
    ([app.cpp]).  A report is a [dynamic_t] object; [object_set] is the assignment of one
    of its fields.  Doubles are those of the machine.

    What the metrics library keeps, meters, timers and averages, is read through
    parameters; the average of the queue's depth is also written, since a report adds
    a reading to it. *)

From Stdlib Require Import SpecFloat.
From S2P Require Import Prelude LogFilter Metafilter Profile Channel Machine Engine EngineFacts EngineMachine EngineTheorems App Metrics.

Local Open Scope string_scope.
Local Open Scope Z_scope.

Abbreviation object_t := (list (string * dynamic_t)).
Abbreviation object_at := LogFilter.object_at.

(** ** Rounding *)

(** [std::ceil] *)
Definition ceil (f : double.t) : double.t :=
  match f with
  | S754_finite s m e =>
      if 0 <=? e then f else
      let a := Z.shiftr (Zpos m) (- e) in
      if s then (if a =? 0 then S754_zero true else double.of_Z (- a))
      else double.of_Z (if Z.shiftl a (- e) =? Zpos m then a else a + 1)
  | _ => f
  end.

Definition trunc (v : double.t) (n : Z) : double.t :=
  let table := double.of_Z (10 ^ n) in SFdiv 53 1024 (ceil (SFmul 53 1024 v table)) table.

(** ** Flags *)

Definition overseer_report : Z := 1.
Definition expand_manifest : Z := 2.
Definition expand_profile : Z := 4.
Definition has (flags flag : Z) : bool := negb (Z.land flags flag =? 0).

(** ** The environment of a report *)

Record meter_t := mk_meter { m01rate : double.t; m05rate : double.t; m15rate : double.t; mean_rate : double.t }.

Record timings_t := mk_timings {
  median : double.t; p75 : double.t; p90 : double.t; p95 : double.t; p98 : double.t; p99 : double.t; p9995 : double.t;
  phi : double.t -> double.t
}.

(** A profile or a manifest as a document *)
Record named_t := mk_named { doc_name : string; doc_object : object_t }.

Section info.
Context {S Load Env : Type} `{SL : !Slave S Load Env}.
(** [slave_t::stats], [slave_t::uptime], the profile of a slave *)
Context (slave_stats : S -> stats_t) (slave_uptime : S -> Z) (slave_profile : S -> named_t).
(** [ewma_t] *)
Context {A : Type} (ewma_add : Z -> A -> A) (ewma_get : A -> double.t).
(** [std::error_code::message] *)
Context (message : error_code -> string).

Abbreviation pool_type := (gmap string S).

(** ** Collectors *)

Definition manifest_apply (flags : Z) (m : object_t) (result : object_t) : object_t :=
  if has flags expand_manifest then object_set "manifest" (DObject m) result else result.

Definition profile_info (flags : Z) (p : named_t) : object_t :=
  let info := object_set "name" (DString (doc_name p)) [] in
  if has flags expand_profile then object_set "data" (DObject (doc_object p)) info else info.

Definition profile_apply (flags : Z) (p : named_t) (result : object_t) : object_t :=
  object_set "profile" (DObject (profile_info flags p)) result.

(** [collector_t]: the number of slaves that are active and loaded, and their load *)
Definition collect (pool : pool_type) : Z * Z :=
  foldl (fun c kv =>
    let load := Z.of_nat (slave_load kv.2) in
    if slave_active kv.2 && negb (load =? 0) then (u64 (c.1 + 1), u64 (c.2 + load)) else c) (0, 0) (map_to_list pool).

Definition visit_requests (accepted rejected : Z) (result : object_t) : object_t :=
  object_set "requests" (DObject (object_sets [("accepted", DInt accepted); ("rejected", DInt rejected)] [])) result.

Definition visit_queue (capacity now : Z) (queue : list (request Load)) (depth : A) (result : object_t) : object_t * A :=
  let depth := ewma_add (Z.of_nat (length queue)) depth in
  let age := match min_element (map birthstamp queue) with Some b => Z.quot (now - b) 1000000 | None => 0 end in
  (object_set "queue" (DObject (object_sets
     [("capacity", DUint capacity); ("depth", DUint (Z.of_nat (length queue)));
      ("depth_average", DDouble (trunc (ewma_get depth) 3)); ("oldest_event_age", DInt age)] [])) result, depth).

Definition visit_meter (meter : meter_t) (result : object_t) : object_t :=
  object_sets [("rate", DArray [DDouble (trunc (m01rate meter) 3); DDouble (trunc (m05rate meter) 3); DDouble (trunc (m15rate meter) 3)]);
               ("rate_mean", DDouble (trunc (mean_rate meter) 3))] result.

Definition in_milliseconds (x : double.t) : dynamic_t := DDouble (trunc (SFdiv 53 1024 x (double.of_Z 1000000)) 3).
Definition percent (x : double.t) : dynamic_t := DDouble (trunc (SFmul 53 1024 (double.of_Z 100) x) 2).

Definition visit_timer (t : timings_t) (result : object_t) : object_t :=
  let find := fun ms => percent (phi t (double.of_Z ms)) in
  object_sets
    [("timings", DObject (object_sets
       [("50.00%", in_milliseconds (median t)); ("75.00%", in_milliseconds (p75 t)); ("90.00%", in_milliseconds (p90 t));
        ("95.00%", in_milliseconds (p95 t)); ("98.00%", in_milliseconds (p98 t)); ("99.00%", in_milliseconds (p99 t));
        ("99.95%", in_milliseconds (p9995 t))] []));
     ("timings_reversed", DObject (object_sets
       [("1ms", find 1000000); ("2ms", find 2000000); ("5ms", find 5000000); ("10ms", find 10000000); ("20ms", find 20000000);
        ("50ms", find 50000000); ("100ms", find 100000000); ("500ms", find 500000000); ("1000ms", find 1000000000)] []))] result.

Definition slave_info (flags now : Z) (s : S) : object_t :=
  let st := slave_stats s in
  object_sets
    [("accepted", DUint (total st)); ("load:tx", DUint (Z.of_nat (tx st))); ("load:rx", DUint (Z.of_nat (rx st)));
     ("load:total", DUint (Z.of_nat (load_ st))); ("state", DString (state_ st)); ("uptime", DInt (slave_uptime s));
     ("profile", DObject (profile_info flags (slave_profile s)));
     ("oldest_channel_age", DInt (match age st with Some a => Z.quot (now - a) 1000000 | None => 0 end))] [].

Definition slaves_info (flags now : Z) (pool : pool_type) : object_t :=
  foldl (fun slaves kv => object_set kv.1 (DObject (slave_info flags now kv.2)) slaves) [] (map_to_list pool).

Definition visit_pool (flags capacity spawned crashed now : Z) (pool : pool_type) (result : object_t) : object_t :=
  let '(active, cumload) := collect pool in
  object_sets
    [("load", DUint cumload);
     ("pool", DObject (object_sets
       [("active", DUint active); ("idle", DUint (u64 (Z.of_nat (size pool) - active))); ("capacity", DUint capacity);
        ("slaves", DObject (slaves_info flags now pool)); ("total:spawned", DInt spawned); ("total:crashed", DInt crashed)] []))] result.

(** ** The engine *)

Record report_env := mk_report {
  uptime_now : Z;                    (** seconds *)
  queue_now : Z;
  pool_now : Z;
  the_manifest : object_t;
  the_profile : named_t;
  meter : meter_t;
  timer : timings_t
}.

Definition engine_info (profile : profile_t) (flags : Z) (e : report_env) (st : @engine_t S Load) (depth : A) : object_t * A :=
  let result := object_set "uptime" (DInt (uptime_now e)) [] in
  let result := manifest_apply flags (the_manifest e) result in
  let result := profile_apply flags (the_profile e) result in
  let result := visit_requests (accepted st) (rejected st) result in
  let '(result, depth) := visit_queue (queue_limit profile) (queue_now e) (queue st) depth result in
  let result := visit_meter (meter e) result in
  let result := visit_timer (timer e) result in
  (visit_pool flags (pool_limit profile) (spawned st) (crashed st) (pool_now e) (pool st) result, depth).

(** ** The application *)

Definition app_info (flags : Z) (e : report_env) (published : gset string) (a : @app_t S Load) (depth : A) : object_t * A :=
  match state a with
  | stopped_t ec =>
      let failed := is_error ec in
      (object_sets [("state", DString (if failed then "broken" else "stopped")); ("error", DInt (Channel.value ec));
                    ("cause", DString (if failed then message ec else "manually stopped"))] [], depth)
  | spooling_t _ => (object_sets [("state", DString "spooling")] [], depth)
  | running_t o =>
      let '(info, depth) := if has flags overseer_report then engine_info (profile a) flags e o depth
                            else (object_set "uptime" (DInt (uptime_now e)) [], depth) in
      (object_sets [("state", DString "running"); ("publushed", DBool (bool_decide (name a ∈ published)))] info, depth)
  end.

(** The report of the application's own service, while its overseer lives *)
Definition on_info (profile : profile_t) (e : report_env) (o : option (@engine_t S Load)) (depth : A) : outcome error_code (object_t * A) :=
  match o with
  | Some o => Ret (engine_info profile overseer_report e o depth)
  | None => Throw broken_pipe
  end.
End info.

(** ** Facts *)

Ltac report_at := unfold object_sets; cbn [foldl fst snd]; rewrite !object_at_set;
  repeat (rewrite decide_True by done || rewrite decide_False by done).

Section facts.
Context {S Load Env : Type} `{SL : !Slave S Load Env}.
Context (slave_stats : S -> stats_t) (slave_uptime : S -> Z) (slave_profile : S -> named_t).
Context {A : Type} (ewma_add : Z -> A -> A) (ewma_get : A -> double.t) (message : error_code -> string).

Definition loaded (s : S) : bool := slave_active s && negb (Z.of_nat (slave_load s) =? 0).

Lemma collect_fold (c : Z) l : forall n load,
  Forall (fun e => Z.of_nat (slave_load e.2) <= c) l -> 0 <= n -> 0 <= load ->
  n + Z.of_nat (length l) < 2 ^ 31 -> load + Z.of_nat (length l) * c < 2 ^ 31 ->
  foldl (fun c kv => let load := Z.of_nat (slave_load kv.2) in
    if slave_active kv.2 && negb (load =? 0) then (u64 (c.1 + 1), u64 (c.2 + load)) else c) (n, load) l =
  (n + Z.of_nat (length (filter (fun e => loaded e.2 = true) l)), load + loads (filter (fun e => loaded e.2 = true) l)).
Proof.
  induction l as [|e l IH]; intros n load Hl Hn Hload Hb Hc; [cbn; f_equal; lia|].
  inversion Hl as [|? ? He Hl']; subst. cbn [foldl length] in *.
  change (slave_active e.2 && negb (Z.of_nat (slave_load e.2) =? 0)) with (loaded e.2).
  destruct (loaded e.2) eqn:E.
  - cbn [fst snd]. rewrite !u64_small by (unfold u64_modulus; nia). rewrite IH by (done || nia).
    rewrite filter_cons_True by done. cbn [length loads foldr]. f_equal; [lia|]. unfold loads. lia.
  - rewrite IH by (done || nia). rewrite filter_cons_False by (by rewrite E). done.
Qed.

Lemma slaves_info_at flags now (l : list (string * S)) o id : NoDup (l.*1) ->
  object_at (foldl (fun slaves kv => object_set kv.1 (DObject (slave_info slave_stats slave_uptime slave_profile flags now kv.2)) slaves) o l) id =
  match (list_to_map l : gmap string S) !! id with
  | Some s => Some (DObject (slave_info slave_stats slave_uptime slave_profile flags now s))
  | None => object_at o id
  end.
Proof.
  revert o. induction l as [|[k s] l IH]; intros o Hn; [done|]. cbn [fmap list_fmap fst] in Hn. apply NoDup_cons in Hn as [Hk Hn].
  cbn [foldl list_to_map foldr uncurry fst snd]. rewrite IH by done. destruct (decide (k = id)) as [->|Hne].
  - rewrite lookup_insert_eq. rewrite (not_elem_of_list_to_map_1 l id) by done. by rewrite object_at_set, decide_True.
  - rewrite lookup_insert_ne by done. case_match; [done|]. by rewrite object_at_set, decide_False.
Qed.

Abbreviation engine_info := (engine_info slave_stats slave_uptime slave_profile ewma_add ewma_get).
Abbreviation app_info := (app_info slave_stats slave_uptime slave_profile ewma_add ewma_get message).

Lemma engine_info_pool profile flags e (st : @engine_t S Load) depth :
  exists result, (engine_info profile flags e st depth).1 =
    visit_pool slave_stats slave_uptime slave_profile flags (pool_limit profile) (spawned st) (crashed st) (pool_now e) (pool st) result.
Proof. unfold NodeInfo.engine_info. destruct (visit_queue _ _ _ _ _ _ _) as [result d]. cbn [fst]. by eexists. Qed.

(** What the report says of the pool is true in every state of the engine: the active
    slaves counted are those that are active and have requests, the load is theirs, no
    number of the report wraps around, every slave of the pool is either active or idle,
    and the report of a slave stands under its name, for all slaves of the pool and for
    nothing else. *)
Theorem pool_report (profile : profile_t) (gen : nat -> string) (flags : Z) (e : report_env) (st : @engine_t S Load) (depth : A) :
  sane profile gen -> reachable profile gen st ->
  let busy := filter (fun kv => loaded kv.2 = true) (map_to_list (pool st)) in
  let r := (engine_info profile flags e st depth).1 in
  exists report slaves,
    object_at r "pool" = Some (DObject report) /\ object_at r "load" = Some (DUint (loads busy)) /\
    object_at report "active" = Some (DUint (Z.of_nat (length busy))) /\
    object_at report "idle" = Some (DUint (pool_size st - Z.of_nat (length busy))) /\
    0 <= Z.of_nat (length busy) <= pool_size st /\ 0 <= loads busy <= pool_limit profile * concurrency profile /\
    object_at report "slaves" = Some (DObject slaves) /\
    forall id, object_at slaves id =
      (fun s => DObject (slave_info slave_stats slave_uptime slave_profile flags (pool_now e) s)) <$> pool st !! id.
Proof.
  intros Hs Hr busy r. pose proof (reachable_wf profile gen Hs st Hr) as Hw. pose proof (ew_size _ _ st Hw) as Hsize.
  pose proof (concurrency_pos _ _ Hs) as Hc. pose proof (pool_limit_pos _ _ Hs) as Hp. pose proof (sane_capacity _ _ Hs) as Hcap.
  assert (Z.of_nat (length (map_to_list (pool st))) = pool_size st) as El by (unfold pool_size; by rewrite length_map_to_list).
  assert (Forall (fun e => Z.of_nat (slave_load e.2) <= concurrency profile) (map_to_list (pool st))) as Hl.
  { apply Forall_forall. intros [id s] Hin%elem_of_map_to_list. by apply (ew_load _ _ st Hw id). }
  assert (length busy <= length (map_to_list (pool st)))%nat as Hb by apply length_filter.
  assert (0 <= loads busy <= pool_limit profile * concurrency profile) as Hload.
  { pose proof (loads_bound (concurrency profile) busy (Forall_filter_sub _ _ _ Hl)). nia. }
  unfold r. destruct (engine_info_pool profile flags e st depth) as [result ->]. unfold visit_pool, collect.
  rewrite (collect_fold (concurrency profile)) by (done || nia). fold busy. rewrite !Z.add_0_l.
  change (Z.of_nat (size (pool st))) with (pool_size st). assert (pool_size st < 2 ^ 31) by nia.
  rewrite u64_small by (unfold u64_modulus; lia).
  do 2 eexists. split; [by report_at|]. split; [by report_at|]. split; [by report_at|]. split; [by report_at|].
  split; [lia|]. split; [done|]. split; [by report_at|].
  intros id. unfold slaves_info. rewrite slaves_info_at by apply NoDup_fst_map_to_list. rewrite list_to_map_to_list. by destruct (pool st !! id).
Qed.

Lemma min_element_spec (l : list Z) :
  match min_element l with
  | Some m => m ∈ l /\ Forall (fun x => m <= x) l
  | None => l = []
  end.
Proof.
  induction l as [|x l IH]; [done|]. simpl. destruct (min_element l) as [m|].
  - destruct IH as [Hm Hl]. destruct (Z.ltb_spec m x).
    + split; [by right|]. constructor; [lia|done].
    + split; [by left|]. constructor; [lia|]. eapply Forall_impl; [exact Hl|]. simpl. lia.
  - subst l. split; [by left|]. by repeat constructor.
Qed.

(** The age reported of the queue is that of its oldest request, as long as no request
    has been born after the clock was read; an empty queue has no age.  A report is not
    free: it adds a reading to the average of the depth that it reports. *)
Theorem queue_report (capacity now : Z) (queue : list (request Load)) (depth : A) (result : object_t) :
  let r := visit_queue ewma_add ewma_get capacity now queue depth result in
  r.2 = ewma_add (Z.of_nat (length queue)) depth /\
  exists report age,
    object_at r.1 "queue" = Some (DObject report) /\ object_at report "depth" = Some (DUint (Z.of_nat (length queue))) /\
    object_at report "oldest_event_age" = Some (DInt age) /\
    (queue = [] -> age = 0) /\
    (queue <> [] -> exists q, q ∈ queue /\ age = Z.quot (now - birthstamp q) 1000000) /\
    (Forall (fun q => birthstamp q <= now) queue -> Forall (fun q => Z.quot (now - birthstamp q) 1000000 <= age) queue).
Proof.
  cbv zeta. unfold visit_queue. split; [done|]. do 2 eexists. cbn [fst]. split; [by report_at|]. split; [by report_at|]. split; [by report_at|].
  pose proof (min_element_spec (map birthstamp queue)) as Hm. destruct (min_element (map birthstamp queue)) as [m|].
  - destruct Hm as [Hm Hall]. apply list_elem_of_In, in_map_iff in Hm as (q & <- & Hq). apply list_elem_of_In in Hq.
    split; [intros ->; by apply elem_of_nil in Hq|]. split; [by exists q|].
    rewrite !Forall_forall in *. intros Hn x Hx. apply Z.quot_le_mono; [done|].
    assert (birthstamp q <= birthstamp x) by (apply Hall, list_elem_of_In, in_map, list_elem_of_In, Hx). lia.
  - apply map_eq_nil in Hm. subst queue. split; [done|]. split; [done|by constructor].
Qed.

(** What the report of an application says of its state: a running one is asked for
    the report of its engine exactly when the flag is set, and without it says its uptime,
    its state and whether its service is published, whatever the other flags; the others
    ignore the flags, and an application that failed carries the code. *)
Theorem app_report (flags : Z) (e : report_env) (published : gset string) (a : @app_t S Load) (depth : A) :
  let r := app_info flags e published a depth in
  object_at r.1 "state" = Some (DString (match state a with
    | stopped_t ec => if is_error ec then "broken" else "stopped" | spooling_t _ => "spooling" | running_t _ => "running" end)) /\
  match state a with
  | stopped_t ec => object_at r.1 "error" = Some (DInt (Channel.value ec)) /\ r.2 = depth
  | spooling_t _ => r = ([("state", DString "spooling")], depth)
  | running_t o =>
      object_at r.1 "publushed" = Some (DBool (bool_decide (name a ∈ published))) /\
      if has flags overseer_report then
        r.2 = (engine_info (profile a) flags e o depth).2 /\
        forall k, k <> "state" -> k <> "publushed" -> object_at r.1 k = object_at (engine_info (profile a) flags e o depth).1 k
      else r = ([("uptime", DInt (uptime_now e)); ("state", DString "running");
                 ("publushed", DBool (bool_decide (name a ∈ published)))], depth)
  end.
Proof.
  cbv zeta. unfold NodeInfo.app_info. destruct (state a) as [ec|sp|o]; [by destruct (is_error ec)|done|].
  destruct (has flags overseer_report); [|done]. destruct (engine_info (profile a) flags e o depth) as [i d]. cbn [fst snd].
  split; [by report_at|]. split; [by report_at|]. split; [done|]. intros k H1 H2. unfold object_sets. cbn [foldl fst snd].
  rewrite !object_at_set. by rewrite !decide_False.
Qed.

(** The report of an application's own service expands neither the manifest nor the
    profile. *)
Lemma on_info_brief profile e (o : @engine_t S Load) depth r d :
  on_info slave_stats slave_uptime slave_profile ewma_add ewma_get profile e (Some o) depth = Ret (r, d) ->
  object_at r "manifest" = None /\ object_at r "profile" = Some (DObject [("name", DString (doc_name (the_profile e)))]).
Proof.
  intros [= <- <-]. cbn [fst]. unfold NodeInfo.engine_info, visit_queue, visit_pool. destruct (collect (pool o)). cbn [fst].
  unfold visit_timer, visit_meter, visit_requests, profile_apply, manifest_apply.
  change (has overseer_report expand_manifest) with false. change (profile_info overseer_report (the_profile e)) with [("name", DString (doc_name (the_profile e)))].
  cbv iota. split; by report_at.
Qed.
End facts.

(** ** Examples *)

(** [trunc] rounds up: 0.1231 is 0.124, and a tenth of a thousandth is a thousandth. *)
Definition tenth_of_thousandth : double.t := SFdiv 53 1024 (double.of_Z 1) (double.of_Z 10000).
Example trunc_rounds_up :
  trunc tenth_of_thousandth 3 = SFdiv 53 1024 (double.of_Z 1) (double.of_Z 1000) /\
  trunc (SFdiv 53 1024 (double.of_Z 1231) (double.of_Z 10000)) 3 = SFdiv 53 1024 (double.of_Z 124) (double.of_Z 1000) /\
  trunc (SFdiv 53 1024 (double.of_Z (-1)) (double.of_Z 10000)) 3 = S754_zero true.
Proof. vm_compute. done. Qed.

Definition no_stats (_ : Machine.machine_t) : stats_t := Machine.mk_stats "active" 0 0 0 0 None.
Definition no_meter : meter_t := mk_meter double.zero double.zero double.zero double.zero.
Definition no_timer : timings_t := mk_timings double.zero double.zero double.zero double.zero double.zero double.zero double.zero (fun x => x).
Definition a_report : report_env := mk_report 60 5000000 5000000 [] (mk_named "default" []) no_meter no_timer.

Lemma pool_report_witness :
  exists report, object_at (engine_info no_stats (fun _ => 60) (fun _ => mk_named "default" []) (fun x _ => double.of_Z x) (fun d => d)
      (SL := machine_slave unlimited_profile) unlimited_profile 0 a_report busy_engine double.zero).1 "pool" = Some (DObject report) /\
    object_at report "idle" = Some (DUint 0) /\ object_at report "active" = Some (DUint 1).
Proof.
  destruct (pool_report (SL := machine_slave unlimited_profile) no_stats (fun _ => 60) (fun _ => mk_named "default" []) (fun x _ => double.of_Z x) (fun d => d)
    unlimited_profile uuid_of 0 a_report busy_engine double.zero unlimited_sane busy_reachable) as (report & slaves & H1 & _ & H2 & H3 & _).
  exists report. split; [exact H1|]. rewrite H3, H2. split; vm_compute; reflexivity.
Defined.
