(* ===== verification/Graphite.v ===== *)
(** * The Graphite service

    [graphite/src/graphite.cpp] and [metric.cpp]: metrics are buffered and sent to a
    Graphite server in batches, when the buffer has grown beyond its limit and by a timer.

    The service is called from several threads.  Its buffer and its timer are locked one by
    one, so a call is a sequence of tasks between which other tasks run: [tasks] holds, for
    every call that is under way, what it does next.  [accepted] and [taken] are histories:
    the metrics that were put in the buffer and the buffers that were taken, in the order of
    the locks.  A wait that is armed again cancels the armed one, whose handler is then run
    with an error; a handler that is already in the queue of the loop is not cancelled. *)

From Stdlib Require Import Ascii.
From S2P Require Import Prelude.

Local Open Scope string_scope.
Local Open Scope Z_scope.

Section graphite.
(** [double], [std::to_string] of it and of a time *)
Context {V : Type} (print_value : V -> string) (print_time : Z -> string).

(** ** Metrics *)

Record metric_t := mk_metric { name : string; value : V; ts : Z }.

(** [time(nullptr)] is [now]. *)
Definition metric_construct (n : string) (v : V) (now : Z) : metric_t := mk_metric n v now.
Definition metric_empty (m : metric_t) : bool := (name m =? "")%string.

Section unpack.
(** Objects of msgpack and their conversions *)
Context {O : Type} (as_array : O -> option (list O)) (as_string : O -> option string) (as_double : O -> option V)
  (as_time : O -> option Z).

Inductive unpack_failure := TypeError | UnpackError (what : string).

Definition converted {A} (o : option A) : ST metric_t unpack_failure A := fun m => (match o with Some a => Ret a | None => Throw TypeError end, m).

Local Open Scope cpp_scope.

(** The fields are assigned one by one: a failed conversion leaves the ones before it. *)
Definition msgpack_unpack (now : Z) (source : O) : ST metric_t unpack_failure unit :=
  match as_array source with
  | None => st_throw TypeError
  | Some ar =>
      match ar with
      | n :: v :: rest =>
          if (1 <? length rest)%nat then st_throw (UnpackError "Invalid data size to unpack graphite::metrics_t") else
          let! n := converted (as_string n) in
          st_modify (fun m => mk_metric n (value m) (ts m));;;
          let! v := converted (as_double v) in
          st_modify (fun m => mk_metric (name m) v (ts m));;;
          let! t := match rest with t :: _ => converted (as_time t) | [] => st_ret now end in
          st_modify (fun m => mk_metric (name m) (value m) t)
      | _ => st_throw (UnpackError "Invalid data size to unpack graphite::metrics_t")
      end
  end.
End unpack.

Fixpoint back (s : string) : option ascii :=
  match s with
  | EmptyString => None
  | String c s => match back s with Some d => Some d | None => Some c end
  end.

Definition newline : ascii := ascii_of_nat 10.

(** The prefix with its dot *)
Definition dotted (prefix : string) : string :=
  match back prefix with
  | Some c => if Ascii.eqb c "." then prefix else prefix ++ "."
  | None => prefix
  end.

Definition format (prefix : string) (m : metric_t) : string :=
  dotted prefix ++ name m ++ String " " (print_value (value m) ++ String " " (print_time (ts m) ++ String newline "")).

(** ** Configuration *)

Record cfg_args := mk_args {
  a_endpoint : option string; a_port : option Z; a_prefix : option string;
  a_flush_interval_ms : option Z; a_max_queue_size : option Z
}.

Record graphite_cfg_t := mk_cfg {
  endpoint : string * Z;
  prefix : string;
  flush_interval_ms : Z;
  max_queue_size : Z
}.

(** [parse_address] is [asio::ip::address::from_string]; a port of an endpoint has 16 bits. *)
Definition cfg_construct {E} (parse_address : string -> outcome E string) (a : cfg_args) : outcome E graphite_cfg_t :=
  outcome_bind (parse_address (default "127.0.0.1" (a_endpoint a))) (fun address =>
  Ret (mk_cfg (address, default 2003 (a_port a) mod 2 ^ 16) (default "cocaine" (a_prefix a))
         (default 1000 (a_flush_interval_ms a)) (default 1000 (a_max_queue_size a)))).

Context (config : graphite_cfg_t).

(** ** Senders *)

Inductive sender_state :=
| Connecting
| Sending (text : string)
| Sent (text : string) (transferred : nat)
| NotConnected
| NotSent.

Record sender_t := mk_sender { s_batch : list metric_t; s_state : sender_state }.

Definition sender_construct (batch : list metric_t) : sender_t := mk_sender batch Connecting.

Definition text_of (batch : list metric_t) : string := String.concat "" (map (format (prefix config)) batch).

Definition on_connect (ec : Z) (s : sender_t) : sender_t :=
  mk_sender (s_batch s) (if negb (ec =? 0) then NotConnected else Sending (text_of (s_batch s))).

(** The handler of [async_send] is also told how much was transferred, and does not look. *)
Definition on_send (ec : Z) (transferred : nat) (s : sender_t) : sender_t :=
  match s_state s with
  | Sending text => mk_sender (s_batch s) (if negb (ec =? 0) then NotSent else Sent text transferred)
  | _ => s
  end.

(** ** The service *)

Inductive task :=
| Push (ms : list metric_t)          (** [push_back] or [insert], and the size *)
| Swap                               (** [send] takes the buffer *)
| Launch (batch : list metric_t)     (** [send] goes on *)
| Reset.                             (** [reset_timer] *)

Record graphite_t := mk_graphite {
  buffer : list metric_t;
  armed : bool;                      (** the timer is waited for *)
  fired : list bool;                 (** the handlers of the timer in the loop's queue, [true] without an error *)
  tasks : list task;
  senders : list sender_t;
  accepted : list metric_t;
  taken : list (list metric_t)
}.

Definition set_tasks (x : list task) (g : graphite_t) : graphite_t :=
  mk_graphite (buffer g) (armed g) (fired g) x (senders g) (accepted g) (taken g).
Definition set_senders (x : list sender_t) (g : graphite_t) : graphite_t :=
  mk_graphite (buffer g) (armed g) (fired g) (tasks g) x (accepted g) (taken g).
Definition set_timer (a : bool) (f : list bool) (g : graphite_t) : graphite_t :=
  mk_graphite (buffer g) a f (tasks g) (senders g) (accepted g) (taken g).

Definition reset_timer (g : graphite_t) : graphite_t :=
  set_timer true (fired g ++ (if armed g then [false] else []))%list g.

Definition graphite_construct : graphite_t := reset_timer (mk_graphite [] false [] [] [] [] []).

Definition send : list task := [Swap].

Definition push (ms : list metric_t) (g : graphite_t) : graphite_t * list task :=
  let g := mk_graphite (buffer g ++ ms)%list (armed g) (fired g) (tasks g) (senders g) (accepted g ++ ms)%list (taken g) in
  (g, if max_queue_size config <? Z.of_nat (length (buffer g)) then send else []).

Definition swap (g : graphite_t) : graphite_t * list task :=
  (mk_graphite [] (armed g) (fired g) (tasks g) (senders g) (accepted g) (taken g ++ [buffer g])%list, [Launch (buffer g)]).

Definition launch (batch : list metric_t) (g : graphite_t) : graphite_t * list task :=
  (match batch with [] => g | _ => set_senders (senders g ++ [sender_construct batch])%list g end, [Reset]).

Definition run_task (t : task) (g : graphite_t) : graphite_t * list task :=
  match t with
  | Push ms => push ms g
  | Swap => swap g
  | Launch batch => launch batch g
  | Reset => (reset_timer g, [])
  end.

Definition on_send_one (m : metric_t) : list task := [Push [m]].
Definition on_send_bulk (ms : list metric_t) : list task := [Push ms].
Definition send_by_timer (ok : bool) : list task := if ok then send else [].

(** What happens without a call *)
Inductive internal (g : graphite_t) : graphite_t -> Prop :=
| step_task l t l' : tasks g = (l ++ t :: l')%list -> internal g (set_tasks (l ++ (run_task t g).2 ++ l')%list (run_task t g).1)
| step_expire : armed g = true -> internal g (set_timer false (fired g ++ [true])%list g)
| step_fired l ok l' : fired g = (l ++ ok :: l')%list ->
    internal g (set_tasks (tasks g ++ send_by_timer ok)%list (set_timer (armed g) (l ++ l')%list g))
| step_connected l s l' ec : senders g = (l ++ s :: l')%list -> s_state s = Connecting ->
    internal g (set_senders (l ++ on_connect ec s :: l')%list g)
| step_sent l s l' text ec n : senders g = (l ++ s :: l')%list -> s_state s = Sending text -> (n <= String.length text)%nat ->
    internal g (set_senders (l ++ on_send ec n s :: l')%list g).

Inductive step (g : graphite_t) : graphite_t -> Prop :=
| step_send_one m : step g (set_tasks (tasks g ++ on_send_one m)%list g)
| step_send_bulk ms : step g (set_tasks (tasks g ++ on_send_bulk ms)%list g)
| step_internal g' : internal g g' -> step g g'.

Definition reachable (g : graphite_t) : Prop := rtc step graphite_construct g.

(** ** The invariant *)

Definition launching (t : task) : list (list metric_t) := match t with Launch b => [b] | _ => [] end.
Definition nonempty (l : list (list metric_t)) : list (list metric_t) := filter (fun b => b <> []) l.

(** The task ends with the timer armed. *)
Definition rearms (t : task) : Prop := match t with Push _ => False | _ => True end.

(** A sender that sends, or has sent, has the text of its batch, and no more of it was
    transferred than there is. *)
Definition holds_text (s : sender_t) : Prop :=
  match s_state s with
  | Sending x => x = text_of (s_batch s)
  | Sent x n => x = text_of (s_batch s) /\ (n <= String.length x)%nat
  | _ => True
  end.

Record ok (g : graphite_t) : Prop := {
  ok_metrics : accepted g = (concat (taken g) ++ buffer g)%list;
  ok_batches : nonempty (taken g) ≡ₚ (map s_batch (senders g) ++ nonempty (tasks g ≫= launching))%list;
  ok_senders : Forall (fun s => s_batch s <> []) (senders g);
  ok_texts : Forall holds_text (senders g);
  ok_timer : armed g = true \/ true ∈ fired g \/ Exists rearms (tasks g);
  ok_size : Z.of_nat (length (buffer g)) <= Z.max 0 (max_queue_size config) \/ Swap ∈ tasks g
}.

Lemma nonempty_app l l' : nonempty (l ++ l')%list = (nonempty l ++ nonempty l')%list.
Proof. apply filter_app. Qed.

Lemma nonempty_one b : nonempty [b] = match b with [] => [] | _ => [b] end.
Proof. by destruct b. Qed.

Lemma ok_construct : ok graphite_construct.
Proof. split; simpl; [done|done|constructor|constructor|by left|left; lia]. Qed.

(** What a task leaves to do counts as before in the middle of the tasks. *)
Lemma exists_middle (P : task -> Prop) l t k l' :
  Exists P (l ++ t :: l')%list -> (P t -> Exists P k) -> Exists P (l ++ k ++ l')%list.
Proof. rewrite !Exists_app, Exists_cons. tauto. Qed.

Lemma elem_middle (x : task) l t k l' : x ∈ (l ++ t :: l')%list -> (x = t -> x ∈ k) -> x ∈ (l ++ k ++ l')%list.
Proof. rewrite !elem_of_app, elem_of_cons. tauto. Qed.

(** The batches between a taken buffer and its sender *)
Definition batches (l : list task) : list (list metric_t) := nonempty (l ≫= launching).

Lemma batches_app l l' : batches (l ++ l')%list = (batches l ++ batches l')%list.
Proof. unfold batches. by rewrite bind_app, nonempty_app. Qed.

Lemma batches_one t : batches [t] = match t with Launch b => nonempty [b] | _ => [] end.
Proof. by destruct t. Qed.

Lemma batches_cons t l : batches (t :: l) = (batches [t] ++ batches l)%list.
Proof. apply (batches_app [t]). Qed.

Lemma ok_task g l t l' : ok g -> tasks g = (l ++ t :: l')%list -> ok (set_tasks (l ++ (run_task t g).2 ++ l')%list (run_task t g).1).
Proof.
  intros [H1 H2 H3 H4 H5 H6] E. rewrite E in H5, H6. change (nonempty (tasks g ≫= launching)) with (batches (tasks g)) in H2.
  rewrite E, batches_app, batches_cons, batches_one in H2.
  split.
  - destruct t as [ms| |b|]; simpl; [by rewrite H1, app_assoc|by rewrite concat_app, H1; simpl; rewrite !app_nil_r|by destruct b|done].
  - change (nonempty (tasks _ ≫= launching)) with (batches (l ++ (run_task t g).2 ++ l')%list). rewrite !batches_app.
    destruct t as [ms| |b|]; cbn [run_task push swap launch fst snd set_tasks set_senders reset_timer set_timer taken senders send].
    + rewrite H2. do 3 f_equiv. by case_match.
    + rewrite nonempty_app, H2, batches_one. solve_Permutation.
    + rewrite batches_one. rewrite nonempty_one in H2. destruct b; [done|].
      cbn [set_senders senders taken]. rewrite map_app, H2. cbn [map sender_construct s_batch]. solve_Permutation.
    + done.
  - destruct t as [| |[]|]; simpl; try done. by rewrite Forall_app, Forall_singleton.
  - destruct t as [| |[]|]; simpl; try done. by rewrite Forall_app, Forall_singleton.
  - cbn [set_tasks armed fired tasks]. destruct t as [ms| |b|]; [| | |by left].
    all: replace (armed (run_task _ g).1) with (armed g) by (try destruct b; done).
    all: replace (fired (run_task _ g).1) with (fired g) by (try destruct b; done).
    all: destruct H5 as [?|[?|H5]]; [by left|by right; left|right; right].
    all: rewrite !Exists_app, ?Exists_cons, ?Exists_nil in *; simpl in *; rewrite ?Exists_cons, ?Exists_nil in *; simpl; tauto.
  - cbn [set_tasks tasks]. destruct t as [ms| |b|]; simpl.
    + case_match eqn:Ec; [right; apply elem_of_app; right; by left|left; lia].
    + left. lia.
    + destruct H6 as [?|?]; [left; by destruct b|right]. rewrite elem_of_app, !elem_of_cons in *. naive_solver.
    + destruct H6 as [?|?]; [by left|right]. rewrite !elem_of_app, !elem_of_cons in *. naive_solver.
Qed.


Lemma ok_call g ms : ok g -> ok (set_tasks (tasks g ++ [Push ms])%list g).
Proof.
  intros [H1 H2 H3 H4 H5 H6]. change (nonempty (tasks g ≫= launching)) with (batches (tasks g)) in H2. split; simpl; try done.
  - change (nonempty ((tasks g ++ [Push ms])%list ≫= launching)) with (batches (tasks g ++ [Push ms])%list). by rewrite batches_app, app_nil_r.
  - rewrite Exists_app. tauto.
  - rewrite elem_of_app. tauto.
Qed.

(** A handler of a sender leaves its batch alone. *)
Lemma ok_sender g l x x' l' : ok g -> senders g = (l ++ x :: l')%list -> s_batch x' = s_batch x ->
  holds_text x' -> ok (set_senders (l ++ x' :: l')%list g).
Proof.
  intros [H1 H2 H3 H4 H5 H6] E Hb Hx. rewrite E in *. split; simpl; try done.
  - rewrite H2, !map_app. cbn [map]. by rewrite Hb.
  - rewrite Forall_app, Forall_cons in *. by rewrite Hb.
  - rewrite Forall_app, Forall_cons in *. tauto.
Qed.

Lemma ok_internal g g' : ok g -> internal g g' -> ok g'.
Proof.
  intros H. destruct 1 as [l t l' E|E|l o l' E|l x l' ec E Ex|l x l' y ec n E Ex Hn]; [by apply ok_task| | | |].
  - destruct H as [H1 H2 H3 H4 H5 H6]. split; simpl; try done. rewrite elem_of_app. right; left; right. by left.
  - destruct H as [H1 H2 H3 H4 H5 H6]. change (nonempty (tasks g ≫= launching)) with (batches (tasks g)) in H2. split; simpl; try done.
    + change (nonempty ((tasks g ++ send_by_timer o)%list ≫= launching)) with (batches (tasks g ++ send_by_timer o)%list).
      rewrite batches_app, H2. destruct o; [|by rewrite app_nil_r]. unfold send_by_timer, send. by rewrite batches_one, app_nil_r.
    + rewrite E, elem_of_app, elem_of_cons in H5. rewrite elem_of_app, Exists_app.
      destruct H5 as [?|[[?|[<-|?]]|?]]; [tauto|tauto|right; right; right; by left|tauto|tauto].
    + rewrite elem_of_app. tauto.
  - apply (ok_sender g l x); [done..|]. unfold on_connect, holds_text. cbn. by destruct (ec =? 0).
  - pose proof (ok_texts _ H) as Ht. rewrite E, Forall_app, Forall_cons in Ht. destruct Ht as (_ & Ht & _).
    unfold holds_text in Ht. rewrite Ex in Ht. unfold on_send. rewrite Ex. apply (ok_sender g l x); [done..|].
    unfold holds_text. simpl. by destruct (ec =? 0).
Qed.

Lemma ok_reachable g : reachable g -> ok g.
Proof.
  unfold reachable. assert (forall h, rtc step h g -> ok h -> ok g) as H; [|intros Hg; exact (H _ Hg ok_construct)].
  intros h Hh. induction Hh as [h|h h' g' H _ IH]; [done|]. intros Hok. apply IH. destruct H; [by apply ok_call..|by eapply ok_internal].
Qed.

(** What a sender has sent is all that it will have sent. *)
Lemma sent_stays_internal g g' i s text n :
  internal g g' -> senders g !! i = Some s -> s_state s = Sent text n -> senders g' !! i = Some s.
Proof.
  intros H Hs E. apply lookup_lt_Some in Hs as Hi.
  assert (forall l x x' l', senders g = (l ++ x :: l')%list -> s_state x <> Sent text n -> (l ++ x' :: l')%list !! i = Some s) as Hm.
  { intros l x x' l' El Hx. rewrite El in Hs. destruct (lt_eq_lt_dec i (length l)) as [[Hlt| ->]|Hgt].
    - by rewrite lookup_app_l in Hs |- *.
    - rewrite list_lookup_middle in Hs by done. congruence.
    - rewrite lookup_app_r in Hs |- * by lia. destruct (i - length l)%nat eqn:Ei; [lia|]. done. }
  destruct H as [l [ms| |[]|] l' El| | |l x l' ec El Ex|l x l' y ec k El Ex Hk]; simpl; try done.
  - rewrite lookup_app_l by done. exact Hs.
  - apply (Hm l x _ l' El). by rewrite Ex.
  - apply (Hm l x _ l' El). by rewrite Ex.
Qed.

Lemma sent_stays g g' i s text n :
  rtc step g g' -> senders g !! i = Some s -> s_state s = Sent text n -> senders g' !! i = Some s.
Proof.
  induction 1 as [|g h g' H _ IH]; [done|]. intros Hs E. apply IH; [|done].
  destruct H; [done|done|by eapply sent_stays_internal].
Qed.

(** What one asynchronous send of the text has put on the connection *)
Definition written (s : sender_t) : string :=
  match s_state s with Sent text n => String.substring 0 n text | _ => "" end.

Lemma substring_length n t : (n <= String.length t)%nat -> String.length (String.substring 0 n t) = n.
Proof.
  revert t. induction n as [|n IH]; intros [|c t] Hn; simpl in *; try done; [lia|]. by rewrite IH by lia.
Qed.
Lemma substring_whole t : String.substring 0 (String.length t) t = t.
Proof. induction t as [|c t IH]; [done|]. simpl. by rewrite IH. Qed.

(** C21: no metric is lost before the senders, or sent twice.  However the calls of several
    threads, the timer and the network interleave, the metrics accepted so far are, in the
    order in which they were accepted, the batches that were taken followed by the buffer;
    every batch that is not empty is on its way to exactly one sender; and the buffer is
    beyond its limit only while a thread is about to take it.  A sender that is connected
    gives the text of its whole batch to one asynchronous send, and is done with it when
    that reports no error, whatever was transferred: what it has written is the whole
    text exactly if all of it was transferred, and it never writes again, so that the rest
    of a short write is lost. *)
Theorem metrics_conserved (g : graphite_t) :
  reachable g ->
  accepted g = (concat (taken g) ++ buffer g)%list /\
  filter (fun b => b <> []) (taken g) ≡ₚ (map s_batch (senders g) ++ filter (fun b => b <> []) (tasks g ≫= launching))%list /\
  (Z.of_nat (length (buffer g)) <= Z.max 0 (max_queue_size config) \/ Swap ∈ tasks g) /\
  forall i s, senders g !! i = Some s ->
    match s_state s with
    | Sending x => x = text_of (s_batch s)
    | Sent x n =>
        x = text_of (s_batch s) /\ (written s = text_of (s_batch s) <-> n = String.length x) /\
        forall g', rtc step g g' -> senders g' !! i = Some s
    | _ => True
    end.
Proof.
  intros [H1 H2 H3 H4 H5 H6]%ok_reachable. split_and!; try done. intros i s Hs.
  pose proof (proj1 (Forall_lookup _ _) H4 i s Hs) as Ht. unfold holds_text in Ht. destruct (s_state s) as [|x|x n| |] eqn:E; try done.
  destruct Ht as [Hx Hn]. split; [done|]. split; [|intros g' R; by eapply sent_stays].
  unfold written. rewrite E, <- Hx. split; [|intros ->; apply substring_whole].
  intros Hw. apply (f_equal String.length) in Hw. by rewrite substring_length in Hw.
Qed.

(** ** Progress *)

Lemma internal_ok g g' : rtc internal g g' -> ok g -> ok g'.
Proof. induction 1; [done|]. intros. apply IHrtc. by eapply ok_internal. Qed.

Lemma accepted_internal g g' : rtc internal g g' -> accepted g `prefix_of` accepted g'.
Proof.
  induction 1 as [|g h g' H _ IH]; [done|]. etrans; [|exact IH]. destruct H as [l [ms| |[]|] l' E| | | |]; simpl; try done. by exists ms.
Qed.

Definition weight (t : task) : nat := match t with Push _ => 4 | Swap => 3 | Launch _ => 2 | Reset => 1 end.

Lemma drain n : forall g, (sum_list_with weight (tasks g) <= n)%nat -> exists g', rtc internal g g' /\ tasks g' = [].
Proof.
  induction n as [|n IH]; intros g Hn; destruct (tasks g) as [|t l] eqn:E; [by exists g| |by exists g|].
  - destruct t; simpl in Hn; lia.
  - destruct (IH (set_tasks ((run_task t g).2 ++ l)%list (run_task t g).1)) as (g' & H1 & H2).
    + cbn [set_tasks tasks]. rewrite sum_list_with_app. cbn [sum_list_with] in Hn.
      destruct t as [ms| |b|]; simpl in *; [case_match; simpl; lia|lia..].
    + exists g'. split; [|done]. eapply rtc_l; [|exact H1]. by apply (step_task g []).
Qed.

(** With nothing else to do the buffer is taken by the timer. *)
Lemma take_by_timer g : ok g -> tasks g = [] -> true ∈ fired g -> exists g', rtc internal g g' /\ tasks g' = [] /\ buffer g' = [].
Proof.
  intros _ E (l & l' & Ef)%list_elem_of_split.
  eexists. split; [|]. 
  - eapply rtc_l; [by apply (step_fired g l true l')|]. eapply rtc_l; [apply (step_task _ [] Swap []); simpl; by rewrite E|].
    eapply rtc_l; [apply (step_task _ [] (Launch (buffer g)) []); done|]. eapply rtc_l; [apply (step_task _ [] Reset []); simpl; by destruct (buffer g)|].
    apply rtc_refl.
  - simpl. by destruct (buffer g).
Qed.

Lemma concat_nonempty l : concat (nonempty l) = concat l.
Proof. induction l as [|b l IH]; [done|]. change (b :: l) with ([b] ++ l)%list. rewrite nonempty_app, nonempty_one, !concat_app, IH. by destruct b. Qed.

(** C34: the buffer can always be sent.  From every state that the service can reach there
    is a way, without any further call, of running what is under way and the timer (some
    order of the threads and of the loop; it is not claimed that every order leads there)
    to a state in which nothing is left in the buffer and to be done: all metrics accepted
    are with the senders. *)
Theorem flush_ahead (g : graphite_t) :
  reachable g ->
  exists g', rtc internal g g' /\ buffer g' = [] /\ tasks g' = [] /\
    accepted g `prefix_of` accepted g' /\ accepted g' ≡ₚ concat (map s_batch (senders g')).
Proof.
  intros H%ok_reachable. destruct (drain _ g (Nat.le_refl _)) as (g1 & R1 & E1). pose proof (internal_ok _ _ R1 H) as H1.
  assert (exists g2, rtc internal g1 g2 /\ tasks g2 = [] /\ true ∈ fired g2) as (g2 & R2 & E2 & Hf).
  { destruct (ok_timer _ H1) as [Ha|[Hf|He]]; [|by exists g1|rewrite E1 in He; by inversion He].
    eexists. split; [apply rtc_once; by apply step_expire|]. split; [done|]. simpl. rewrite elem_of_app. right. by left. }
  pose proof (internal_ok _ _ R2 H1) as H2. destruct (take_by_timer g2 H2 E2 Hf) as (g3 & R3 & E3 & Eb).
  assert (rtc internal g g3) as R by (etrans; [exact R1|]; by etrans).
  exists g3. split; [done|]. split; [done|]. split; [done|]. split; [by apply accepted_internal|].
  destruct (internal_ok _ _ R3 H2) as [M1 M2 _ _ _ _]. rewrite M1, Eb, app_nil_r, <- concat_nonempty, M2, E3. by rewrite app_nil_r.
Qed.

(** ** The text *)

(** How a Graphite server reads: lines, and words of a line *)
Fixpoint split_on (c : ascii) (s : string) : list string :=
  match s with
  | EmptyString => [""]
  | String a s =>
      if Ascii.eqb a c then "" :: split_on c s
      else match split_on c s with w :: ws => String a w :: ws | [] => [String a ""] end
  end.

Definition read_metrics (text : string) : list (list string) := map (split_on " ") (removelast (split_on newline text)).

Fixpoint without (c : ascii) (s : string) : bool :=
  match s with EmptyString => true | String a s => negb (Ascii.eqb a c) && without c s end.

Lemma without_app c a b : without c (a ++ b) = without c a && without c b.
Proof. induction a as [|x a IH]; string_simpl; [done|]. simpl. by rewrite IH, andb_assoc. Qed.

Lemma split_on_app c a b : without c a = true -> split_on c (a ++ String c b) = a :: split_on c b.
Proof.
  induction a as [|x a IH]; string_simpl; simpl; [by rewrite Ascii.eqb_refl|].
  intros [Hx Ha]%andb_true_iff. apply negb_true_iff in Hx. by rewrite Hx, IH.
Qed.

Lemma split_on_none c a : without c a = true -> split_on c a = [a].
Proof. induction a as [|x a IH]; simpl; [done|]. intros [Hx Ha]%andb_true_iff. apply negb_true_iff in Hx. by rewrite Hx, IH. Qed.

Lemma split_on_cons c a : exists w ws, split_on c a = w :: ws.
Proof. induction a as [|x a (w & ws & E)]; simpl; [by do 2 eexists|]. rewrite E. destruct (Ascii.eqb x c); by do 2 eexists. Qed.

(** A text that a line of the protocol can carry *)
Definition plain (s : string) : bool := without " " s && without newline s.

Lemma plain_app a b : plain (a ++ b) = plain a && plain b.
Proof. unfold plain. rewrite !without_app. by destruct (without " " a), (without " " b), (without newline a). Qed.

Definition fields (p : string) (m : metric_t) : list string := [dotted p ++ name m; print_value (value m); print_time (ts m)].

Lemma plain_dotted p : plain p = true -> plain (dotted p) = true.
Proof.
  intros [H1 H2]%andb_true_iff. unfold dotted. destruct (back p) as [c|]; [destruct (Ascii.eqb c ".")|]; unfold plain; rewrite ?without_app, H1, H2; done.
Qed.

Lemma read_one p m rest :
  plain (dotted p ++ name m) = true -> plain (print_value (value m)) = true -> plain (print_time (ts m)) = true ->
  read_metrics (format p m ++ rest) = fields p m :: read_metrics rest.
Proof.
  intros [H1 H2]%andb_true_iff [H3 H4]%andb_true_iff [H5 H6]%andb_true_iff. unfold read_metrics, fields.
  set (line := (dotted p ++ name m) ++ String " " (print_value (value m) ++ String " " (print_time (ts m)))).
  assert (format p m ++ rest = line ++ String newline rest) as ->.
  { unfold format, line. repeat (rewrite !string_app_assoc; string_simpl). done. }
  rewrite split_on_app.
  - destruct (split_on_cons newline rest) as (w & ws & E). rewrite E. cbn [removelast map]. f_equal.
    unfold line. rewrite split_on_app by done. rewrite split_on_app by done. by rewrite split_on_none.
  - unfold line. rewrite without_app, H2. simpl. by rewrite without_app, H4.
Qed.

Lemma text_of_cons m batch : text_of (m :: batch) = format (prefix config) m ++ text_of batch.
Proof.
  unfold text_of. cbn [map]. destruct batch as [|m' batch]; [|done]. cbn [map String.concat].
  induction (format (prefix config) m) as [|c s IH]; string_simpl; [done|]. by rewrite <- IH.
Qed.

(** What Graphite reads.  With names and a prefix that a line of the protocol can carry,
    the text of a batch is read back as its metrics, in their order, each under the prefix
    followed by one dot. *)
Theorem lines_roundtrip (batch : list metric_t) :
  plain (prefix config) = true -> Forall (fun m => plain (name m) = true) batch ->
  (forall v, plain (print_value v) = true) -> (forall t, plain (print_time t) = true) ->
  read_metrics (text_of batch) = map (fields (prefix config)) batch.
Proof.
  intros Hp Hb Hv Ht. induction Hb as [|m batch Hm _ IH]; [done|]. rewrite text_of_cons, read_one; [by rewrite IH| |done..].
  by rewrite plain_app, Hm, plain_dotted.
Qed.

End graphite.

(** ** Examples *)

Definition toy_config : graphite_cfg_t := mk_cfg ("127.0.0.1", 2003) "cocaine" 1000 1.
Definition toy_value (v : Z) : string := if v =? 0 then "0.000000" else "1.000000".
Definition toy_time (t : Z) : string := "1500000000".
Definition load : metric_t := mk_metric "host.load" 1 0.
Definition errors : metric_t := mk_metric "host.errors" 0 0.

Example formatted : format toy_value toy_time "cocaine" load = "cocaine.host.load 1.000000 1500000000
".
Proof. reflexivity. Qed.

(** The default port of a number that does not fit *)
Example port_wraps : @cfg_construct unit (fun a => Ret a) (mk_args None (Some (2 ^ 16 + 80)) None None None) =
  Ret (mk_cfg ("127.0.0.1", 80) "cocaine" 1000 1000).
Proof. reflexivity. Qed.

(** The limit is one metric: the second one is sent with the first. *)
Definition overflowing : graphite_t (V := Z) :=
  mk_graphite [load; errors] true [] [Swap] [] [load; errors] [].

Lemma overflowing_reachable : reachable toy_value toy_time toy_config overflowing.
Proof.
  unfold reachable.
  eapply rtc_l; [apply (step_send_bulk _ _ _ _ [load; errors])|].
  eapply rtc_l; [apply step_internal, (step_task _ _ _ _ [] (Push [load; errors]) []); reflexivity|]. apply rtc_refl.
Qed.

Lemma metrics_conserved_witness :
  (concat (taken overflowing) ++ buffer overflowing)%list = [load; errors] /\
  accepted overflowing = (concat (taken overflowing) ++ buffer overflowing)%list.
Proof.
  split; [reflexivity|]. exact (proj1 (metrics_conserved toy_value toy_time toy_config overflowing overflowing_reachable)).
Defined.

Lemma flush_ahead_witness :
  exists g', rtc (internal toy_value toy_time toy_config) overflowing g' /\ buffer g' = [].
Proof.
  destruct (flush_ahead toy_value toy_time toy_config overflowing overflowing_reachable) as (g' & H & Hb & _). by exists g'.
Defined.

Lemma lines_roundtrip_witness :
  read_metrics (text_of toy_value toy_time toy_config [load; errors]) =
  [["cocaine.host.load"; "1.000000"; "1500000000"]; ["cocaine.host.errors"; "0.000000"; "1500000000"]].
Proof.
  apply (lines_roundtrip toy_value toy_time toy_config [load; errors]);
    [reflexivity|repeat constructor|intros v; unfold toy_value; by destruct (v =? 0)|intros t; reflexivity].
Defined.
