(* ===== verification/Postgres.v ===== *)
(** * The Postgres index of a storage, and its pool of connections

    [postgres/src/pool.cpp]: requests are posted to the threads that own a connection, and
    counted; [postgres/src/postgres.cpp]: a storage that keeps the data in another storage
    and the tags in a table; [metrics/src/sender/postgres.cpp] works over the same pool.

    The other storage and the server are not in this repository.  The storage answers its
    callbacks with a result, after having been changed or not; a statement is executed by
    the parameter [exec] inside a transaction whose start, statement and commit may fail,
    and of the table the class [IndexTable] says what the documentation of the server says
    of the three statements.  Requests of any number of clients are interleaved.  The two
    backends of the storage name one pool, as they do by default. *)

From S2P Require Import Prelude.

Local Open Scope string_scope.
Local Open Scope Z_scope.

(** ** The pool *)

Section pool.
Context {J : Type} (max_load : Z).

(** [refusing] callers have incremented the counter and not decremented it yet. *)
Record pool_t := mk_pool { load : Z; posted : list J; running : list J; refusing : nat }.

Definition pool_construct : pool_t := mk_pool 0 [] [] 0.

(** [load++ > max_load] *)
Definition enter (j : J) (p : pool_t) : bool * pool_t :=
  let refused := max_load <? load p in
  (negb refused,
   if refused then mk_pool (u64 (load p + 1)) (posted p) (running p) (S (refusing p))
   else mk_pool (u64 (load p + 1)) (posted p ++ [j])%list (running p) (refusing p)).

Definition refuse (p : pool_t) : pool_t := mk_pool (u64 (load p - 1)) (posted p) (running p) (refusing p - 1).

(** [execute] without a thread in between; [false] is the exception. *)
Definition execute (j : J) (p : pool_t) : bool * pool_t :=
  match enter j p with
  | (true, p) => (true, p)
  | (false, p) => (false, refuse p)
  end.

Definition take_job (j : J) (rest : list J) (p : pool_t) : pool_t := mk_pool (load p) rest (running p ++ [j])%list (refusing p).
Definition finish (rest : list J) (p : pool_t) : pool_t := mk_pool (u64 (load p - 1)) (posted p) rest (refusing p).

(** Those who are being refused are threads: there are fewer than 2^32. *)
Inductive pool_step (p : pool_t) : pool_t -> Prop :=
| step_enter j : Z.of_nat (refusing p) < 2 ^ 32 -> pool_step p (enter j p).2
| step_refuse : (0 < refusing p)%nat -> pool_step p (refuse p)
| step_take j rest : posted p = j :: rest -> pool_step p (take_job j rest p)
| step_finish l j l' : running p = (l ++ j :: l')%list -> pool_step p (finish (l ++ l') p).

Record pool_ok (p : pool_t) : Prop := {
  po_load : load p = Z.of_nat (length (posted p) + length (running p) + refusing p);
  po_bound : Z.of_nat (length (posted p) + length (running p)) <= max_load + 1;
  po_refusing : Z.of_nat (refusing p) <= 2 ^ 32
}.

Lemma pool_step_ok p p' : 0 <= max_load < 2 ^ 63 -> pool_ok p -> pool_step p p' -> pool_ok p'.
Proof.
  intros Hm [Hl Hb Hr]. destruct 1 as [j Hj|H|j rest E|l j l' E]; unfold enter, refuse, take_job, finish; split; cbn [snd].
  1-3: destruct (Z.ltb_spec max_load (load p)); cbn [load posted running refusing]; try rewrite u64_small by (unfold u64_modulus; lia);
    rewrite ?length_app; simpl; lia.
  all: cbn [load posted running refusing]; try rewrite E in *; rewrite ?length_app in *; simpl in *; try rewrite u64_small by (unfold u64_modulus; lia); lia.
Qed.

Lemma pool_reachable_ok p : 0 <= max_load < 2 ^ 63 -> rtc pool_step pool_construct p -> pool_ok p.
Proof.
  intros Hm H. assert (pool_ok pool_construct) as H0 by (split; simpl; lia). induction H as [p|p q p' Hs _ IH]; [done|].
  apply IH. by eapply pool_step_ok.
Qed.

(** How many requests the pool holds.  With any number of threads between the two
    steps of a refusal, the counter is exact and the pool never holds more than one
    request beyond its limit; a caller is admitted as long as the counter is not beyond
    the limit, so that the pool does hold [max_load + 1] of them. *)
Theorem pool_bounded (p : pool_t) (j : J) :
  0 <= max_load < 2 ^ 63 -> rtc pool_step pool_construct p ->
  load p = Z.of_nat (length (posted p) + length (running p) + refusing p) /\
  Z.of_nat (length (posted p) + length (running p)) <= max_load + 1 /\
  (if (execute j p).1 then posted (execute j p).2 = (posted p ++ [j])%list /\ load p <= max_load
   else (execute j p).2 = p /\ max_load < load p).
Proof.
  intros Hm H. destruct (pool_reachable_ok p Hm H) as [Hl Hb Hr]. split; [done|]. split; [done|].
  unfold execute, enter. destruct (Z.ltb_spec max_load (load p)); cbn [negb fst snd]; [|done].
  split; [|done]. unfold refuse. cbn [load posted running refusing]. rewrite (u64_small (load p + 1)) by (unfold u64_modulus; lia).
  rewrite u64_small by (unfold u64_modulus; lia). destruct p as [l q r n]. cbn [load posted running refusing]. f_equal; lia.
Qed.
End pool.

(** ** Transactions *)

Inductive pg_failure := BrokenConnection | PgError.
Inductive begin_result := Begun | NotBegun (e : pg_failure).

(** The attempts that are left are those of the loop. *)
Fixpoint start_transaction (attempt_count : nat) (attempts : list begin_result) : outcome pg_failure unit :=
  match attempt_count with
  | O => Throw BrokenConnection
  | S n =>
      match attempts with
      | Begun :: _ | [] => Ret tt
      | NotBegun BrokenConnection :: rest => match n with O => Throw BrokenConnection | _ => start_transaction n rest end
      | NotBegun e :: _ => Throw e
      end
  end.

(** The statements of the storage, with the names of the table and its columns *)
Record index_names := mk_names { table_name : string; collection_column_name : string; key_column_name : string; tags_column_name : string }.

Inductive statement :=
| Upsert (n : index_names) (collection key tags : string)
| Delete (n : index_names) (collection key : string)
| Select (n : index_names) (collection tags : string).

(** The text that is sent, with [esc] and [quote] of the connection *)
Definition sql (esc quote : string -> string) (q : statement) : string :=
  match q with
  | Upsert n c k t =>
      "INSERT INTO " ++ esc (table_name n) ++ " (" ++ esc (collection_column_name n) ++ ", " ++ esc (key_column_name n) ++ ", "
      ++ esc (tags_column_name n) ++ ") VALUES (" ++ quote c ++ ", " ++ quote k ++ ", " ++ quote t ++ ") "
      ++ "ON CONFLICT (key, collection) DO UPDATE SET " ++ esc (tags_column_name n) ++ " = " ++ quote t ++ ";"
  | Delete n c k =>
      "DELETE FROM " ++ esc (table_name n) ++ " WHERE " ++ esc (collection_column_name n) ++ " = " ++ quote c ++ " AND "
      ++ esc (key_column_name n) ++ " = " ++ quote k ++ ";"
  | Select n c t =>
      "SELECT " ++ esc (key_column_name n) ++ " FROM " ++ esc (table_name n) ++ " WHERE " ++ esc (collection_column_name n) ++ " = "
      ++ quote c ++ " AND " ++ esc (tags_column_name n) ++ " @> " ++ quote t ++ ";"
  end.

(** What a transaction meets: its attempts to begin, the failure of the commit and whether
    the work was committed none the less *)
Record tx_env := mk_tx { tx_begin : list begin_result; tx_commit : option (pg_failure * bool) }.

Section storage.
Context {D : Type} (exec : statement -> D -> outcome pg_failure (list string * D)).

Definition transaction (q : statement) (e : tx_env) (d : D) : outcome pg_failure (list string) * D :=
  match start_transaction 3 (tx_begin e) with
  | Throw x => (Throw x, d)
  | Ret _ =>
      match exec q d with
      | Throw x => (Throw x, d)
      | Ret (rows, d') =>
          match tx_commit e with
          | None => (Ret rows, d')
          | Some (x, committed) => (Throw x, if committed then d' else d)
          end
      end
  end.

(** A lookup does not commit. *)
Definition lookup_transaction (q : statement) (e : tx_env) (d : D) : outcome pg_failure (list string) :=
  match start_transaction 3 (tx_begin e) with
  | Throw x => Throw x
  | Ret _ => match exec q d with Throw x => Throw x | Ret (rows, _) => Ret rows end
  end.

(** ** The storage *)

Context (names : index_names) (max_load : Z).
(** The list of tags as a JSON array *)
Context (tags_string : list string -> string).

Inductive storage_error := UnderlyingError (e : Z) | PoolRefused | UnknownPgError.
Inductive reply := Done | Found (keys : list string) | Failed (e : storage_error).

(** What a call of a callback does: it returns, or throws an [std::exception] or something else. *)
Inductive conduct_t := Returned | Threw (std : bool).
#[export] Instance conduct_eq : EqDecision conduct_t.
Proof. solve_decision. Defined.

(** What a callback still has to do, with the number of its request *)
Record job_t := mk_job { j_request : nat; j_statement : statement }.

Record storage_t := mk_storage {
  blobs : gmap (string * string) string;          (** the wrapped storage *)
  index : D;
  pool : pool_t (J := job_t);
  waiting : list (nat * statement);               (** callbacks that the wrapped storage holds *)
  replies : list (nat * reply);
  requested : nat;
  stored : list statement                         (** what the wrapped storage has confirmed, in its order *)
}.

Definition storage_construct (d : D) : storage_t := mk_storage ∅ d pool_construct [] [] 0 [].

Definition reply_to (id : nat) (r : reply) (s : storage_t) : storage_t :=
  mk_storage (blobs s) (index s) (pool s) (waiting s) (replies s ++ [(id, r)])%list (requested s) (stored s).
Definition set_pool (p : pool_t) (s : storage_t) : storage_t := mk_storage (blobs s) (index s) p (waiting s) (replies s) (requested s) (stored s).

Definition new_request (q : statement) (s : storage_t) : storage_t :=
  mk_storage (blobs s) (index s) (pool s) (waiting s ++ [(requested s, q)])%list (replies s) (S (requested s)) (stored s).

(** [read] is passed on. *)
Definition read (collection key : string) (s : storage_t) : option string := blobs s !! (collection, key).

(** [write] and [remove] begin at the wrapped storage, which is given no tags. *)
Definition write (collection key : string) (tags : list string) : storage_t -> storage_t :=
  new_request (Upsert names collection key (tags_string tags)).
Definition remove (collection key : string) : storage_t -> storage_t := new_request (Delete names collection key).

(** The callback given to the wrapped storage: its error is passed on, and so is the refusal
    of the pool. *)
Definition on_wrapped (id : nat) (q : statement) (r : outcome Z unit) (s : storage_t) : storage_t :=
  match r with
  | Throw e => reply_to id (Failed (UnderlyingError e)) s
  | Ret _ =>
      match execute max_load (mk_job id q) (pool s) with
      | (true, p) => set_pool p s
      | (false, p) => reply_to id (Failed PoolRefused) (set_pool p s)
      end
  end.

(** The callbacks of the clients may throw: what each call of the callback of a request does. *)
Context (conduct : nat -> nat -> conduct_t).

(** The refusal leaves [find]: its client is told by an exception. *)
Definition find (collection : string) (tags : list string) (s : storage_t) : bool * storage_t :=
  let q := Select names collection (tags_string tags) in
  match execute max_load (mk_job (requested s) q) (pool s) with
  | (true, p) => (true, mk_storage (blobs s) (index s) p (waiting s) (replies s) (S (requested s)) (stored s))
  | (false, p) => (false, set_pool p s)
  end.

(** The handler of the exceptions of a job: the callback is called with the error, and what
    it throws ends the thread and with it the process ([false]). *)
Definition report_failure (id call : nat) (s : storage_t) : bool * storage_t :=
  (bool_decide (conduct id call = Returned), reply_to id (Failed UnknownPgError) s).

(** The callback is called inside the [try] of the job, so that its own exception is handled
    as one of the transaction; what is no [std::exception] is not caught. *)
Definition report_success (id : nat) (r : reply) (s : storage_t) : bool * storage_t :=
  let s := reply_to id r s in
  match conduct id 0 with
  | Returned => (true, s)
  | Threw true => report_failure id 1 s
  | Threw false => (false, s)
  end.

(** A function that a thread of the pool runs *)
Definition run_job (j : job_t) (e : tx_env) (s : storage_t) : bool * storage_t :=
  match j_statement j with
  | Select n c t =>
      match lookup_transaction (Select n c t) e (index s) with
      | Ret keys => report_success (j_request j) (Found keys) s
      | Throw _ => report_failure (j_request j) 0 s
      end
  | q =>
      let '(r, d) := transaction q e (index s) in
      let s := mk_storage (blobs s) d (pool s) (waiting s) (replies s) (requested s) (stored s) in
      match r with
      | Ret _ => report_success (j_request j) Done s
      | Throw _ => report_failure (j_request j) 0 s
      end
  end.

(** The wrapped storage executes what a waiting request asks of it; an error may come with
    or without the change. *)
Definition apply_blob (q : statement) (blob : string) (b : gmap (string * string) string) : gmap (string * string) string :=
  match q with
  | Upsert _ c k _ => <[(c, k) := blob]> b
  | Delete _ c k => delete (c, k) b
  | Select _ _ _ => b
  end.

Definition wrapped_answers (id : nat) (q : statement) (rest : list (nat * statement)) (applied : bool) (blob : string)
    (r : outcome Z unit) (s : storage_t) : storage_t :=
  on_wrapped id q r (mk_storage (if applied then apply_blob q blob (blobs s) else blobs s) (index s) (pool s) rest (replies s)
    (requested s) (if returns r then stored s ++ [q] else stored s)%list).

Inductive step (s : storage_t) : storage_t -> Prop :=
| step_write c k t : step s (write c k t s)
| step_remove c k : step s (remove c k s)
| step_find c t : step s (find c t s).2
| step_wrapped l id q l' applied blob r :
    waiting s = (l ++ (id, q) :: l')%list -> (returns r = true -> applied = true) ->
    step s (wrapped_answers id q (l ++ l') applied blob r s)
| step_begin j rest : posted (pool s) = j :: rest -> step s (set_pool (take_job j rest (pool s)) s)
| step_end l j l' e s' : running (pool s) = (l ++ j :: l')%list ->
    run_job j e (set_pool (finish (l ++ l') (pool s)) s) = (true, s') -> step s s'.

Definition reachable (d : D) (s : storage_t) : Prop := rtc step (storage_construct d) s.
End storage.

(** ** What the documentation says of the table

    The statements use the names of the table and have an effect on nothing else. *)
Class IndexTable {D : Type} (names : index_names) (exec : statement -> D -> outcome pg_failure (list string * D)) (covers : string -> string -> bool) := {
  table : D -> gmap (string * string) string;
  upsert_law : forall c k t d rows d', exec (Upsert names c k t) d = Ret (rows, d') -> table d' = <[(c, k) := t]> (table d);
  delete_law : forall c k d rows d', exec (Delete names c k) d = Ret (rows, d') -> table d' = delete (c, k) (table d);
  select_law : forall c t d rows d', exec (Select names c t) d = Ret (rows, d') ->
    forall k, k ∈ rows <-> exists tags, table d !! (c, k) = Some tags /\ covers tags t = true
}.

(** ** Facts *)

(** A reference table: a map of the tags, with the statements as documented *)
Definition reference_exec (covers : string -> string -> bool) (q : statement) (d : gmap (string * string) string)
    : outcome pg_failure (list string * gmap (string * string) string) :=
  match q with
  | Upsert _ c k t => Ret ([], <[(c, k) := t]> d)
  | Delete _ c k => Ret ([], delete (c, k) d)
  | Select _ c t => Ret (map (fun e => e.1.2) (filter (fun e => e.1.1 = c /\ covers e.2 t = true) (map_to_list d)), d)
  end.

#[export] Instance reference_table names covers : IndexTable names (reference_exec covers) covers.
Proof.
  refine {| table := fun d => d |}.
  - by intros c k t d rows d' [= _ <-].
  - by intros c k d rows d' [= _ <-].
  - intros c t d rows d' [= <- _] k. rewrite list_elem_of_In, in_map_iff. split.
    + intros ([[c' k'] tags] & <- & H%list_elem_of_In%list_elem_of_filter). destruct H as [[Hc Ht] H%elem_of_map_to_list]. simpl in *. subst. by eexists.
    + intros (tags & H & Ht). exists ((c, k), tags). split; [done|]. apply list_elem_of_In, list_elem_of_filter. split; [done|]. by apply elem_of_map_to_list.
Defined.

Section facts.
Context {D : Type} (exec : statement -> D -> outcome pg_failure (list string * D)) (names : index_names) (covers : string -> string -> bool).
Context `{TABLE : !IndexTable names exec covers} (max_load : Z) (tags_string : list string -> string).
Context (conduct : nat -> nat -> conduct_t).

Abbreviation storage_t := (storage_t (D := D)).
Abbreviation step := (step exec names max_load tags_string conduct).
Abbreviation run_job := (run_job exec conduct).

(** What the callback of a request was called with *)
Definition answers (s : storage_t) (id : nat) : list reply := (filter (fun x => x.1 = id) (replies s)).*2.

(** What the callback of a request may be called with: once; and a second time, with the
    error, when it was told of a success and threw. *)
Definition well_answered (id : nat) (rs : list reply) : Prop :=
  match rs with
  | [Failed _] => True
  | [_] => conduct id 0 = Returned
  | [Failed _; _] => False
  | [_; Failed UnknownPgError] => conduct id 0 = Threw true /\ conduct id 1 = Returned
  | _ => False
  end.

(** Where the requests are *)
Definition places (s : storage_t) : list nat :=
  ((waiting s).*1 ++ map j_request (posted (pool s)) ++ map j_request (running (pool s)) ++ remove_dups (replies s).*1)%list.

Definition about_index (q : statement) : Prop :=
  match q with Upsert n _ _ _ | Delete n _ _ | Select n _ _ => n = names end.
(** A job that writes an entry has its data in the wrapped storage. *)
Definition confirmed (s : storage_t) (j : job_t) : Prop :=
  match j_statement j with Upsert _ _ _ _ => j_statement j ∈ stored s | _ => True end.
Definition entries_stored (s : storage_t) : Prop :=
  forall c k t, table (index s) !! (c, k) = Some t -> Upsert names c k t ∈ stored s.
Definition found_stored (s : storage_t) : Prop :=
  forall id keys k, (id, Found keys) ∈ replies s -> k ∈ keys -> exists c t, Upsert names c k t ∈ stored s.

Record storage_ok (s : storage_t) : Prop := {
  so_places : places s ≡ₚ seq 0 (requested s);
  so_names : Forall (fun w => about_index w.2) (waiting s) /\ Forall (fun j => about_index (j_statement j)) (posted (pool s) ++ running (pool s))%list;
  so_jobs : Forall (confirmed s) (posted (pool s) ++ running (pool s))%list;
  so_entries : entries_stored s;
  so_found : found_stored s;
  so_answers : forall id, answers s id = [] \/ well_answered id (answers s id)
}.

Lemma execute_posted (j : job_t) p :
  if (execute max_load j p).1 then posted (execute max_load j p).2 = (posted p ++ [j])%list /\ running (execute max_load j p).2 = running p
  else posted (execute max_load j p).2 = posted p /\ running (execute max_load j p).2 = running p.
Proof. unfold execute, enter. by destruct (max_load <? load p). Qed.

(** A callback that has not been called before is called with [rs]. *)
Lemma replied_places (s s' : storage_t) id rs :
  replies s' = (replies s ++ map (pair id) rs)%list -> rs <> [] -> id ∉ (replies s).*1 ->
  remove_dups (replies s').*1 ≡ₚ id :: remove_dups (replies s).*1.
Proof.
  intros E Hr Hid. assert (forall i, i ∈ (map (pair id) rs).*1 <-> i = id) as Hi.
  { intros i. destruct rs as [|r rs]; [done|]. clear. induction rs as [|r' rs IH]; cbn in *; set_solver. }
  apply NoDup_Permutation; [apply NoDup_remove_dups|constructor; [by rewrite elem_of_remove_dups|apply NoDup_remove_dups]|].
  intros i. rewrite elem_of_cons, !elem_of_remove_dups, E, fmap_app, elem_of_app, Hi. tauto.
Qed.

Lemma replied_answers (s s' : storage_t) id rs i :
  replies s' = (replies s ++ map (pair id) rs)%list -> id ∉ (replies s).*1 -> well_answered id rs ->
  answers s i = [] \/ well_answered i (answers s i) -> answers s' i = [] \/ well_answered i (answers s' i).
Proof.
  intros E Hid Hw Hi. unfold answers in *. rewrite E, filter_app, fmap_app. destruct (decide (id = i)) as [<-|Hne].
  - assert (filter (fun x : nat * reply => x.1 = id) (replies s) = []) as ->.
    { clear -Hid. induction (replies s) as [|[i r] l IH]; [done|]. cbn in Hid. rewrite not_elem_of_cons in Hid.
      rewrite filter_cons_False by (cbn; naive_solver). apply IH. tauto. }
    right. cbn. assert ((filter (fun x : nat * reply => x.1 = id) (map (pair id) rs)).*2 = rs) as ->; [|done].
    clear. induction rs as [|r rs IH]; [done|]. cbn [map]. rewrite filter_cons_True by done. cbn. by rewrite IH.
  - assert (filter (fun x : nat * reply => x.1 = i) (map (pair id) rs) = []) as ->; [|by rewrite app_nil_r].
    clear -Hne. induction rs as [|r rs IH]; [done|]. cbn [map]. by rewrite filter_cons_False.
Qed.

Lemma answers_some (s : storage_t) id : answers s id <> [] <-> id ∈ (replies s).*1.
Proof.
  unfold answers. induction (replies s) as [|[i r] l IH]; [set_solver|]. cbn [fmap list_fmap fst]. rewrite elem_of_cons, <- IH.
  destruct (decide (i = id)) as [->|Hne]; [rewrite filter_cons_True by done; cbn; naive_solver|].
  rewrite filter_cons_False by done. naive_solver.
Qed.

Lemma well_answered_some id rs : well_answered id rs -> rs <> [].
Proof. by intros H ->. Qed.

(** A request that is held is not answered yet. *)
Lemma held_unanswered s id :
  places s ≡ₚ seq 0 (requested s) ->
  id ∈ ((waiting s).*1 ++ map j_request (posted (pool s)) ++ map j_request (running (pool s)))%list -> id ∉ (replies s).*1.
Proof.
  intros H Hid Hin. assert (NoDup (places s)) as Hn by (rewrite H; apply NoDup_seq). unfold places in Hn.
  rewrite !app_assoc in Hn. apply NoDup_app in Hn as (_ & Hn & _). rewrite app_assoc in Hid. apply (Hn id); [done|].
  by rewrite elem_of_remove_dups.
Qed.

Lemma new_request_ok q s : about_index q -> storage_ok s -> storage_ok (new_request q s).
Proof.
  intros Hq [H1 [H2 H2'] H3 H4 H5 H6]. split; try done.
  - unfold places in *. cbn [new_request waiting pool replies requested]. rewrite fmap_app, seq_S. cbn. rewrite <- H1. solve_Permutation.
  - split; [|done]. cbn. by rewrite Forall_app, Forall_singleton.
Qed.

Lemma find_ok c t s : storage_ok s -> storage_ok (find names max_load tags_string c t s).2.
Proof.
  intros [H1 [H2 H2'] H3 H4 H5 H6]. unfold find. set (j := mk_job _ _). pose proof (execute_posted j (pool s)) as He.
  destruct (execute max_load j (pool s)) as [[] p]; cbn [fst snd] in *; destruct He as [Ep Er]; split; try done;
    cbn [set_pool waiting pool]; rewrite ?Ep, ?Er; try done.
  - unfold places in *. cbn [waiting pool replies requested]. rewrite Ep, Er, map_app, seq_S. cbn [map j_request j]. rewrite <- H1. solve_Permutation.
  - split; [done|]. rewrite !Forall_app in *. destruct H2'. split_and!; [done|by repeat constructor|done].
  - rewrite !Forall_app in *. destruct H3. split_and!; [done|by repeat constructor|done].
  - unfold places in *. cbn [set_pool waiting pool replies requested]. by rewrite Ep, Er.
Qed.

Lemma confirmed_more l s s' : (forall q, q ∈ stored s -> q ∈ stored s') -> Forall (confirmed s) l -> Forall (confirmed s') l.
Proof. intros Hs H. eapply Forall_impl; [exact H|]. intros j. unfold confirmed. destruct (j_statement j); auto. Qed.

Lemma wrapped_ok l id q l' applied blob r s :
  waiting s = (l ++ (id, q) :: l')%list -> storage_ok s ->
  storage_ok (wrapped_answers max_load id q (l ++ l') applied blob r s).
Proof.
  intros E [H1 [H2 H2'] H3 H4 H5 H6]. assert (id ∉ (replies s).*1) as Hid.
  { apply held_unanswered; [done|]. rewrite E, fmap_app. cbn. set_solver. }
  unfold places in H1. rewrite E, fmap_app in H1. cbn [fmap list_fmap fst] in H1.
  rewrite E, Forall_app, Forall_cons in H2. destruct H2 as (Hl & Hq & Hl'). cbn [snd] in Hq.
  assert (Forall (fun w => about_index w.2) (l ++ l')%list) as Hw by by apply Forall_app.
  unfold wrapped_answers. set (s1 := mk_storage _ _ _ _ _ _ _).
  assert (forall p, p ∈ stored s -> p ∈ stored s1) as Hs by (intros p Hp; simpl; case_match; [apply elem_of_app; by left|done]).
  assert (entries_stored s1) as H4' by (intros c k t Ht; by apply Hs, H4).
  assert (found_stored s1) as H5' by (intros i keys k Hi Hk; destruct (H5 i keys k Hi Hk) as (c & t & Hc); exists c, t; by apply Hs).
  assert (forall rep, match rep with Failed _ => True | _ => False end -> forall p, posted p = posted (pool s) -> running p = running (pool s) ->
    storage_ok (reply_to id rep (set_pool p s1))) as Hrep.
  { intros rep Hr p Ep Er. assert (well_answered id [rep]) as Hw1 by by destruct rep. split.
    - unfold places. rewrite (replied_places s _ id [rep]) by done.
      cbn [reply_to set_pool waiting pool requested s1]. rewrite Ep, Er, !fmap_app, <- H1. cbn. solve_Permutation.
    - cbn [reply_to set_pool waiting pool s1]. by rewrite Ep, Er.
    - cbn [reply_to set_pool pool]. rewrite Ep, Er. by apply (confirmed_more _ s).
    - done.
    - intros i keys k Hi. cbn [reply_to set_pool replies s1] in Hi. apply elem_of_app in Hi as [Hi|Hi]; [by apply (H5' i)|].
      apply list_elem_of_singleton in Hi as [= -> <-]. done.
    - intros i. by apply (replied_answers s _ id [rep]). }
  destruct r as [[]|e]; [|apply (Hrep (Failed (UnderlyingError e)) I (pool s1)); done].
  cbn [on_wrapped]. pose proof (execute_posted (mk_job id q) (pool s1)) as He.
  destruct (execute max_load (mk_job id q) (pool s1)) as [[] p]; cbn [fst snd] in He; destruct He as [Ep Er]; [|by apply Hrep].
  split; [| | |done|done|done]; cbn [set_pool waiting pool replies requested s1].
  - unfold places. cbn [set_pool waiting pool replies requested s1]. rewrite Ep, Er, map_app, !fmap_app, <- H1. cbn. solve_Permutation.
  - split; [done|]. rewrite Ep, Er. rewrite !Forall_app in *. destruct H2'. split_and!; [done|by repeat constructor|done].
  - rewrite Ep, Er. apply (confirmed_more _ s s1 Hs) in H3. rewrite !Forall_app in *. destruct H3. split_and!; [done| |done].
    constructor; [|done]. unfold confirmed. cbn [j_statement]. destruct q; [|done|done]. simpl. apply elem_of_app. right. by left.
Qed.

(** The state in which a job has left the running ones *)
Definition taken_off (l l' : list job_t) (s : storage_t) : storage_t := set_pool (finish (l ++ l')%list (pool s)) s.

(** What a job leaves: the index, and what it calls the callback of its request with. *)
Lemma job_ok l j l' d rs s s' :
  running (pool s) = (l ++ j :: l')%list -> storage_ok s ->
  (forall c k t, table d !! (c, k) = Some t -> Upsert names c k t ∈ stored s) ->
  (forall keys k, Found keys ∈ rs -> k ∈ keys -> exists c t, Upsert names c k t ∈ stored s) ->
  well_answered (j_request j) rs ->
  s' = mk_storage (blobs s) d (pool (taken_off l l' s)) (waiting s) (replies s ++ map (pair (j_request j)) rs)%list (requested s) (stored s) ->
  storage_ok s'.
Proof.
  intros E [H1 [H2 H2'] H3 H4 H5 H6] Hd Hr Hw Es. assert (j_request j ∉ (replies s).*1) as Hid.
  { apply held_unanswered; [done|]. rewrite E, map_app. cbn. set_solver. }
  pose proof (well_answered_some _ _ Hw) as Hne. assert (replies s' = replies s ++ map (pair (j_request j)) rs)%list as Hs by by rewrite Es.
  unfold places in H1. rewrite E, map_app in H1. cbn [map] in H1. rewrite E, !Forall_app, Forall_cons in H2', H3. split.
  - unfold places. rewrite (replied_places s s' (j_request j) rs) by done. rewrite Es.
    cbn [taken_off set_pool finish waiting pool posted running requested]. rewrite map_app, <- H1. cbn. solve_Permutation.
  - rewrite Es. split; [done|]. cbn. rewrite !Forall_app. tauto.
  - rewrite Es. cbn [taken_off set_pool finish pool posted running]. apply (confirmed_more _ s _ (fun q H => H)). rewrite !Forall_app. tauto.
  - by rewrite Es.
  - rewrite Es. intros i keys k Hi Hk. cbn [replies] in Hi. apply elem_of_app in Hi as [Hi|Hi]; [by apply (H5 i keys)|].
    apply list_elem_of_In, in_map_iff in Hi as (r & [= -> ->] & Hi). apply (Hr keys); [by apply list_elem_of_In|done].
  - intros i. by apply (replied_answers s s' (j_request j) rs).
Qed.

(** As long as the process lives, a job calls the callback as it should. *)
Lemma report_success_spec id r (s s' : storage_t) :
  match r with Failed _ => False | _ => True end -> report_success conduct id r s = (true, s') ->
  exists rs, well_answered id rs /\ (forall keys, Found keys ∈ rs -> Found keys = r) /\
    s' = mk_storage (blobs s) (index s) (pool s) (waiting s) (replies s ++ map (pair id) rs)%list (requested s) (stored s).
Proof.
  intros Hr. unfold report_success, report_failure. destruct (conduct id 0) as [|[]] eqn:E0; [intros [= <-]| |done].
  - exists [r]. split; [by destruct r|]. split; [|done]. intros keys H. by apply list_elem_of_singleton in H.
  - intros [= E1%bool_decide_eq_true <-]. exists [r; Failed UnknownPgError]. split; [by destruct r|]. split; [set_solver|].
    unfold reply_to. cbn. by rewrite <- app_assoc.
Qed.

Lemma transaction_table q e d r d' : transaction exec q e d = (r, d') -> d' = d \/ exists rows, exec q d = Ret (rows, d').
Proof.
  unfold transaction. destruct (start_transaction _ _); [|intros [= _ <-]; by left].
  destruct (exec q d) as [[rows d1]|x]; [|intros [= _ <-]; by left].
  destruct (tx_commit e) as [[x []]|]; intros [= _ <-]; [right|left|right]; done || by eexists.
Qed.

Lemma run_job_ok l j l' e s s' :
  running (pool s) = (l ++ j :: l')%list -> storage_ok s -> run_job j e (taken_off l l' s) = (true, s') -> storage_ok s'.
Proof.
  intros E H. pose proof (so_entries _ H) as H4. pose proof (so_names _ H) as [_ Hn]. pose proof (so_jobs _ H) as Hj.
  rewrite E, !Forall_app, Forall_cons in Hn, Hj. destruct Hn as (_ & _ & Hn & _), Hj as (_ & _ & Hj & _).
  assert (forall d (r : outcome pg_failure (list string)) rep, entries_stored (mk_storage (blobs s) d (pool s) (waiting s) (replies s) (requested s) (stored s)) ->
    match rep with Failed _ => False | _ => True end ->
    (forall keys k, rep = Found keys -> k ∈ keys -> exists c t, Upsert names c k t ∈ stored s) ->
    (if returns r then report_success conduct (j_request j) rep else report_failure conduct (j_request j) 0)
      (mk_storage (blobs s) d (pool (taken_off l l' s)) (waiting s) (replies s) (requested s) (stored s)) = (true, s') -> storage_ok s') as Hfin.
  { intros d r rep Hd Hr Hk Hs. destruct r as [x|x]; cbn [returns] in Hs.
    - apply report_success_spec in Hs as (rs & Hw & Hf & ->); [|done]. eapply (job_ok l j l' d rs s); try done.
      intros keys k Hin. apply (Hk keys). symmetry. by apply Hf.
    - injection Hs as _ <-. eapply (job_ok l j l' d [Failed UnknownPgError] s); try done. intros keys k Hin. set_solver. }
  unfold Postgres.run_job, confirmed in *. destruct (j_statement j) as [n c k t|n c k|n c t]; cbn in Hn; subst n.
  - destruct (transaction exec (Upsert names c k t) e (index (taken_off l l' s))) as [r d] eqn:Et. intros Hs.
    apply (Hfin d r Done); [|done..|by destruct r]. intros c' k' t' Ht. cbn in Ht |- *.
    apply transaction_table in Et as [->|[rows Ex]]; [by apply H4|]. erewrite upsert_law in Ht by exact Ex.
    destruct (decide ((c, k) = (c', k'))) as [[= <- <-]|Hne]; [rewrite lookup_insert_eq in Ht; by injection Ht as <-|].
    rewrite lookup_insert_ne in Ht by done. by apply H4.
  - destruct (transaction exec (Delete names c k) e (index (taken_off l l' s))) as [r d] eqn:Et. intros Hs.
    apply (Hfin d r Done); [|done..|by destruct r]. intros c' k' t' Ht. cbn in Ht |- *.
    apply transaction_table in Et as [->|[rows Ex]]; [by apply H4|]. erewrite delete_law in Ht by exact Ex.
    apply lookup_delete_Some in Ht as [_ Ht]. by apply H4.
  - unfold lookup_transaction. intros Hs. destruct (start_transaction _ _); [|by apply (Hfin (index s) (Throw BrokenConnection) Done)].
    destruct (exec (Select names c t) _) as [[rows d]|x] eqn:Ex; [|by apply (Hfin (index s) (Throw BrokenConnection) Done)].
    apply (Hfin (index s) (Ret rows) (Found rows)); [done|done| |done]. intros keys k [= <-] Hk.
    apply (select_law c t _ _ _ Ex) in Hk as (tags & Ht & _). exists c, tags. by apply H4.
Qed.

Lemma storage_step_ok s s' : storage_ok s -> step s s' -> storage_ok s'.
Proof.
  intros H. destruct 1 as [c k t|c k|c t|l id q l' applied blob r E Ha|j rest E|l j l' e s' E Ej].
  - by apply new_request_ok.
  - by apply new_request_ok.
  - by apply find_ok.
  - by apply wrapped_ok.
  - destruct H as [H1 [H2 H2'] H3 H4 H5 H6]. unfold places in *. rewrite E in *. split; try done.
    + unfold places. cbn. rewrite map_app. rewrite <- H1. cbn. solve_Permutation.
    + split; [done|]. cbn. rewrite !Forall_app, Forall_singleton in *. rewrite Forall_cons in H2'. tauto.
    + cbn. apply (confirmed_more _ s _ (fun q H => H)). rewrite !Forall_app, Forall_singleton in *. rewrite Forall_cons in H3. tauto.
  - by eapply run_job_ok.
Qed.

Lemma reachable_ok d s : table d = ∅ -> reachable exec names max_load tags_string conduct d s -> storage_ok s.
Proof.
  intros Hd H. assert (storage_ok (storage_construct d)) as H0.
  { split; [done|done|constructor| | |by left]; [intros c k t; cbn; by rewrite Hd, lookup_empty|intros id keys k Hi; by apply elem_of_nil in Hi]. }
  unfold reachable in H. induction H as [s|s s1 s2 Hs _ IH]; [done|]. apply IH. by eapply storage_step_ok.
Qed.

Lemma run_job_ends j e s : (run_job j e s).1 = false -> exists call, conduct (j_request j) call <> Returned.
Proof.
  assert (forall r (s : storage_t), (report_success conduct (j_request j) r s).1 = false -> exists call, conduct (j_request j) call <> Returned) as Hs.
  { intros r s0. unfold report_success. destruct (conduct (j_request j) 0) as [|std] eqn:E0; [done|]. intros _. exists 0%nat. congruence. }
  assert (forall (s : storage_t), (report_failure conduct (j_request j) 0 s).1 = false -> exists call, conduct (j_request j) call <> Returned) as Hf.
  { intros s0 H%bool_decide_eq_false. by exists 0%nat. }
  unfold Postgres.run_job. destruct (j_statement j) as [n c k t|n c k|n c t]; try destruct (transaction _ _ _ _) as [[] d]; try destruct (lookup_transaction _ _ _ _); eauto.
Qed.

(** C22: the callback of every request that was taken is called once, whatever the order
    in which the wrapped storage and the threads of the pool get to the requests and
    whatever fails on the way, with one exception: a callback that is told of a success
    of the index and throws an [std::exception] is called a second time, with an error,
    though the index was changed; it is the only way to a second call.  When nothing is
    on its way any more every request has been answered.  The process ends under a job
    only when its callback throws.  And the index says nothing of data that were never
    stored: if the table was empty in the beginning, an entry of the table, and a key
    that a lookup finds, belong to a write that the wrapped storage confirmed. *)
Theorem index_follows_storage (d : D) (s : storage_t) :
  table d = ∅ -> reachable exec names max_load tags_string conduct d s ->
  (forall id, match answers s id with
              | [] => True
              | [Failed _] => True
              | [_] => conduct id 0 = Returned
              | [r; r'] => r' = Failed UnknownPgError /\ (r = Done \/ exists keys, r = Found keys) /\ conduct id 0 = Threw true
              | _ => False
              end) /\
  (waiting s = [] -> posted (pool s) = [] -> running (pool s) = [] -> forall id, answers s id <> [] <-> (id < requested s)%nat) /\
  (forall j e, (run_job j e s).1 = false -> exists call, conduct (j_request j) call <> Returned) /\
  (forall c k t, table (index s) !! (c, k) = Some t -> Upsert names c k t ∈ stored s) /\
  (forall id keys k, (id, Found keys) ∈ replies s -> k ∈ keys -> exists c t, Upsert names c k t ∈ stored s).
Proof.
  intros Hd Hr. destruct (reachable_ok d s Hd Hr) as [H1 _ _ H4 H5 H6]. split; [|split; [|split; [|done]]].
  - intros id. destruct (H6 id) as [->|Hw]; [done|]. destruct (answers s id) as [|[|keys|x] [|[| |[]] [|]]]; cbn in Hw |- *; naive_solver.
  - intros E1 E2 E3 id. unfold places in H1. rewrite E1, E2, E3 in H1. cbn in H1.
    rewrite answers_some, <- elem_of_remove_dups, H1, elem_of_seq. lia.
  - intros j e. apply run_job_ends.
Qed.
End facts.

(** ** Examples *)

Definition the_names : index_names := mk_names "cocaine_index" "collection" "key" "tags".
Definition no_trouble : tx_env := mk_tx [] None.
Abbreviation example_storage := (storage_t (D := gmap (string * string) string)).
Definition covers_eq (a b : string) : bool := (a =? b)%string.
Definition first_tag (l : list string) : string := default "" (List.hd_error l).

Definition well_behaved (id call : nat) : conduct_t := Returned.

Definition start_jobs (s : example_storage) : example_storage :=
  set_pool (mk_pool (load (pool s)) [] (posted (pool s)) (refusing (pool s))) s.

(** Two writers of one key: the wrapped storage stores the first and then the second, but
    answers the second writer first.  The data of the second stay with the tags of the
    first. *)
Definition two_writers : example_storage :=
  let s := storage_construct ∅ in
  let s := write the_names first_tag "apps" "echo" ["old"] s in
  let s := write the_names first_tag "apps" "echo" ["new"] s in
  let s := wrapped_answers 10 1 (Upsert the_names "apps" "echo" "new") [(0%nat, Upsert the_names "apps" "echo" "old")] true "new data" (Ret tt) s in
  let s := wrapped_answers 10 0 (Upsert the_names "apps" "echo" "old") [] false "old data" (Ret tt) s in
  let s := start_jobs s in
  let s := (run_job (reference_exec covers_eq) well_behaved (mk_job 1 (Upsert the_names "apps" "echo" "new")) no_trouble s).2 in
  (run_job (reference_exec covers_eq) well_behaved (mk_job 0 (Upsert the_names "apps" "echo" "old")) no_trouble s).2.
Example tags_of_another_write :
  blobs two_writers !! ("apps", "echo") = Some "new data" /\ index two_writers !! ("apps", "echo") = Some "old" /\
  replies two_writers = [(1%nat, Done); (0%nat, Done)].
Proof. vm_compute. done. Qed.

Example upsert_text :
  sql (fun s => s) (fun s => "'" ++ s ++ "'") (Upsert the_names "apps" "echo" "[]") =
  "INSERT INTO cocaine_index (collection, key, tags) VALUES ('apps', 'echo', '[]') ON CONFLICT (key, collection) DO UPDATE SET tags = '[]';".
Proof. reflexivity. Qed.

(** With other columns the conflict is still asked for on [key] and [collection]. *)
Example conflict_of_default_columns :
  sql (fun s => s) (fun s => "'" ++ s ++ "'") (Upsert (mk_names "t" "c" "k" "l") "apps" "echo" "[]") =
  "INSERT INTO t (c, k, l) VALUES ('apps', 'echo', '[]') ON CONFLICT (key, collection) DO UPDATE SET l = '[]';".
Proof. reflexivity. Qed.

Lemma pool_bounded_witness :
  let p := (enter (J := nat) 0 8%nat (enter (J := nat) 0 7%nat pool_construct).2).2 in
  load p = 2 /\ posted p = [7%nat] /\ refusing p = 1%nat /\ load p = Z.of_nat (length (posted p) + length (running p) + refusing p).
Proof.
  cbv zeta. split; [reflexivity|]. split; [reflexivity|]. split; [reflexivity|].
  apply (pool_bounded (J := nat) 0 (enter (J := nat) 0 8%nat (enter (J := nat) 0 7%nat pool_construct).2).2 9%nat); [done|].
  eapply rtc_l; [by apply step_enter|]. eapply rtc_l; [by apply step_enter|]. apply rtc_refl.
Defined.

(** A client that is told of its write and throws is told that the write failed. *)
Definition once_bitten (id call : nat) : conduct_t := match call with O => Threw true | _ => Returned end.
Definition one_writer (conduct : nat -> nat -> conduct_t) : example_storage :=
  let s := write the_names first_tag "apps" "echo" ["new"] (storage_construct ∅) in
  let s := wrapped_answers 10 0 (Upsert the_names "apps" "echo" "new") [] true "new data" (Ret tt) s in
  let s := set_pool (take_job (mk_job 0 (Upsert the_names "apps" "echo" "new")) [] (pool s)) s in
  (run_job (reference_exec covers_eq) conduct (mk_job 0 (Upsert the_names "apps" "echo" "new")) no_trouble (set_pool (finish [] (pool s)) s)).2.
Example told_twice :
  answers (one_writer once_bitten) 0 = [Done; Failed UnknownPgError] /\ index (one_writer once_bitten) !! ("apps", "echo") = Some "new".
Proof. vm_compute. done. Qed.

Lemma index_follows_storage_witness : answers (one_writer once_bitten) 0 <> [] <-> (0 < 1)%nat.
Proof.
  apply (index_follows_storage (reference_exec covers_eq) the_names covers_eq 10 first_tag once_bitten ∅ (one_writer once_bitten)); [reflexivity| |reflexivity..].
  eapply rtc_l; [apply (step_write _ _ _ _ _ _ "apps" "echo" ["new"])|].
  eapply rtc_l; [apply (step_wrapped _ _ _ _ _ _ [] 0%nat (Upsert the_names "apps" "echo" "new") [] true "new data" (Ret tt)); done|].
  eapply rtc_l; [apply (step_begin _ _ _ _ _ _ (mk_job 0 (Upsert the_names "apps" "echo" "new")) []); reflexivity|].
  eapply rtc_l; [apply (step_end _ _ _ _ _ _ [] (mk_job 0 (Upsert the_names "apps" "echo" "new")) [] no_trouble); [reflexivity|vm_compute; reflexivity]|].
  apply rtc_refl.
Defined.
