(* ===== verification/PostgresPool.v ===== *)
(** * The threads of the Postgres pool

    [postgres/src/pool.cpp] with its threads, where [Postgres.v] has only the counter and
    the lists of requests: every slot owns a connection and a thread that runs the loop of
    the pool; a request that a thread has taken looks its slot up by the id of the thread,
    in a table behind a lock; the destructor lets the loop run out of work and clears the
    table, which joins the threads one by one, under the same lock.

    The loop and the threads are the standard's: [run] returns when nothing is left to do,
    in no thread, and a thread ends with it; [join] waits for that.  A request that throws
    ends the process.  [threads_refine_pool] shows that [Postgres.v] says the same of the
    requests, [destructor_settles] whether the destructor comes to its end. *)

From S2P Require Import Prelude LogFilter Dynamic Postgres.

Local Open Scope Z_scope.

Section threads.
Context {J : Type}.

(** ** The state *)

(** What a thread does: it waits in [run], or has taken a request and waits for the table
    of the slots, or executes the request on its connection, or has returned. *)
Inductive thread_t := InRun | AtLock (j : J) | Executing (j : J) | Returned.

(** The pool as its owner sees it.  While the table is cleared it is locked, and the slots
    of the list are still to be destroyed. *)
Inductive life_t := Alive | WorkReset | Clearing (slots : list nat) | Destroyed | Terminated.

Record threads_t := mk_threads {
  max_load : Z;
  life : life_t;
  counter : Z;
  refused : nat;
  queue : list J;
  threads : list thread_t
}.

Definition job_of (t : thread_t) : option J :=
  match t with AtLock j | Executing j => Some j | _ => None end.

(** What is left of the state without the threads *)
Definition to_pool (s : threads_t) : pool_t :=
  mk_pool (counter s) (queue s) (omap job_of (threads s)) (refused s).

(** ** The constructor *)

(** The slots one after the other; [made] is which of them can be made.  An exception
    leaves the loop, and the slots that exist are joined, without the lock. *)
Fixpoint make_slots (made : nat -> bool) (i n : nat) (slots : list thread_t) : outcome (list thread_t) (list thread_t) :=
  match n with
  | O => Ret slots
  | S n => if made i then make_slots made (S i) n (slots ++ [InRun]) else Throw slots
  end.

Inductive construct_error := bad_access | no_slot.

Definition threads_construct (made : nat -> bool) (args : dynamic_t) : outcome construct_error threads_t :=
  outcome_bind (access bad_access (as_object args)) (fun m =>
  outcome_bind (access bad_access (as_uint (field "max_load" (DUint 1000) m))) (fun max_load =>
  outcome_bind (access bad_access (as_uint (field "pool_size" (DUint 1) m))) (fun pool_size =>
  outcome_bind (access bad_access (as_string (field "connection_string" (DString "") m))) (fun _ =>
  match make_slots made 0 (Z.to_nat pool_size) [] with
  | Ret slots => Ret (mk_threads max_load Alive 0 0 [] slots)
  | Throw _ => Throw no_slot
  end)))).

(** ** What happens *)

Definition with_pool (p : pool_t) (s : threads_t) : threads_t :=
  mk_threads (max_load s) (life s) (load p) (refusing p) (posted p) (threads s).
Definition set_life (l : life_t) (s : threads_t) : threads_t :=
  mk_threads (max_load s) l (counter s) (refused s) (queue s) (threads s).
Definition set_thread (i : nat) (t : thread_t) (s : threads_t) : threads_t :=
  mk_threads (max_load s) (life s) (counter s) (refused s) (queue s) (<[i := t]> (threads s)).

(** [execute], in its two steps *)
Definition call_enter (j : J) (s : threads_t) : threads_t := with_pool (enter (max_load s) j (to_pool s)).2 s.
Definition call_refuse (s : threads_t) : threads_t := with_pool (refuse (to_pool s)) s.

(** The loop gives thread [i] the first handler. *)
Definition take_handler (i : nat) (s : threads_t) : threads_t :=
  match queue s with
  | [] => s
  | j :: l => mk_threads (max_load s) (life s) (counter s) (refused s) l (<[i := AtLock j]> (threads s))
  end.

(** The end of the handler *)
Definition end_handler (i : nat) (s : threads_t) : threads_t :=
  mk_threads (max_load s) (life s) (u64 (counter s - 1)) (refused s) (queue s) (<[i := InRun]> (threads s)).

(** Whether the lock of the table is free, and whether [run] returns: there is no work
    object, no handler in the queue and none being run. *)
Definition unlocked (s : threads_t) : bool := match life s with Alive | WorkReset => true | _ => false end.
Definition out_of_work (s : threads_t) : bool :=
  match life s, queue s, omap job_of (threads s) with
  | WorkReset, [], [] | Clearing _, [], [] => true
  | _, _, _ => false
  end.

(** The destructor: the work object, then the table, slot by slot *)
Definition clear_slots (s : threads_t) : threads_t := set_life (Clearing (seq 0 (length (threads s)))) s.

Inductive step (s : threads_t) : threads_t -> Prop :=
| s_enter j : life s = Alive -> Z.of_nat (refused s) < 2 ^ 32 -> step s (call_enter j s)
| s_refuse : life s = Alive -> (0 < refused s)%nat -> step s (call_refuse s)
| s_take i : life s <> Terminated -> queue s <> [] -> threads s !! i = Some InRun -> step s (take_handler i s)
| s_slot i j : unlocked s = true -> threads s !! i = Some (AtLock j) -> step s (set_thread i (Executing j) s)
| s_end i j : life s <> Terminated -> threads s !! i = Some (Executing j) -> step s (end_handler i s)
| s_throw i j : life s <> Terminated -> threads s !! i = Some (Executing j) -> step s (set_life Terminated s)
| s_return i : out_of_work s = true -> threads s !! i = Some InRun -> step s (set_thread i Returned s)
| s_reset : life s = Alive -> refused s = 0%nat -> step s (set_life WorkReset s)
| s_clear : life s = WorkReset -> step s (clear_slots s)
| s_join i l : life s = Clearing (i :: l) -> threads s !! i = Some Returned -> step s (set_life (Clearing l) s)
| s_gone : life s = Clearing [] -> step s (set_life Destroyed s).

Definition reachable (s : threads_t) : Prop :=
  exists made args s0, threads_construct made args = Ret s0 /\ rtc step s0 s.

(** ** The pool without threads *)

(** The order in which requests are being executed is not observable. *)
Definition same_pool (p q : pool_t (J := J)) : Prop :=
  load p = load q /\ posted p = posted q /\ running p ≡ₚ running q /\ refusing p = refusing q.
#[export] Instance same_pool_equivalence : Equivalence same_pool.
Proof.
  split.
  - by intros p.
  - intros p q (? & ? & ? & ?). by repeat split.
  - intros p q r (E1 & E2 & E3 & E4) (? & ? & ? & ?). repeat split; [by rewrite E1|by rewrite E2|by rewrite E3|by rewrite E4].
Qed.

Lemma jobs_insert (i : nat) (t t' : thread_t) (l : list thread_t) :
  l !! i = Some t -> exists a b, omap job_of l = a ++ option_list (job_of t) ++ b /\
                                 omap job_of (<[i := t']> l) = a ++ option_list (job_of t') ++ b.
Proof.
  intros H. exists (omap job_of (take i l)), (omap job_of (drop (S i) l)).
  rewrite insert_take_drop by (by eapply lookup_lt_Some). rewrite <-(take_drop_middle l i t H) at 1.
  rewrite !omap_app. simpl. by destruct (job_of t), (job_of t').
Qed.

(** A step of the threads is a step of the pool, or none. *)
Lemma step_simulates (s s' : threads_t) :
  step s s' -> max_load s' = max_load s /\
  (same_pool (to_pool s) (to_pool s') \/ exists q, pool_step (max_load s) (to_pool s) q /\ same_pool q (to_pool s')).
Proof.
  destruct 1 as [j Hl Hr|Hl Hr|i Hl Hq Hi|i j Hu Hi|i j Hl Hi|i j Hl Hi|i Ho Hi|Hl Hr|Hl|i l Hl Hi|Hl];
    (split; [by try (unfold take_handler; destruct (queue s))|]).
  - right. exists (enter (max_load s) j (to_pool s)).2. split; [by apply step_enter|].
    unfold call_enter, enter. by destruct (max_load s <? load (to_pool s)).
  - right. exists (refuse (to_pool s)). split; [by apply step_refuse|done].
  - right. unfold take_handler. destruct (queue s) as [|j l] eqn:E; [done|].
    destruct (jobs_insert i InRun (AtLock j) (threads s) Hi) as (a & b & Ea & Eb).
    exists (take_job j l (to_pool s)). split; [by apply step_take|].
    repeat split; simpl. rewrite Ea, Eb. simpl.
    etrans; [symmetry; apply Permutation_cons_append|apply Permutation_middle].
  - left. destruct (jobs_insert i (AtLock j) (Executing j) (threads s) Hi) as (a & b & Ea & Eb).
    repeat split; simpl. by rewrite Ea, Eb.
  - right. destruct (jobs_insert i (Executing j) InRun (threads s) Hi) as (a & b & Ea & Eb). simpl in Ea, Eb.
    exists (finish (a ++ b) (to_pool s)). split; [by apply (step_finish _ _ a j b)|].
    repeat split; simpl. by rewrite Eb.
  - by left.
  - left. destruct (jobs_insert i InRun Returned (threads s) Hi) as (a & b & Ea & Eb).
    repeat split; simpl. by rewrite Ea, Eb.
  - by left.
  - by left.
  - by left.
  - by left.
Qed.

Lemma pool_step_same (m : Z) (p q p' : pool_t (J := J)) :
  pool_step m p q -> same_pool p p' -> exists q', pool_step m p' q' /\ same_pool q q'.
Proof.
  destruct p as [a b r n], p' as [a' b' r' n']. intros H (E1 & E2 & E3 & E4). simpl in *. subst.
  inversion H as [j Hr|Hr|j rest E|l j l' E]; subst; simpl in *.
  - eexists. split; [by apply (step_enter m _ j)|]. unfold enter. simpl. by destruct (m <? a').
  - eexists. split; [by apply step_refuse|]. done.
  - eexists. split; [by apply (step_take m _ j rest)|]. repeat split; simpl. by rewrite E3.
  - assert (j ∈ r') as (l1 & l2 & ->)%list_elem_of_split
      by (rewrite <-E3; set_solver).
    eexists. split; [by apply (step_finish m _ l1 j l2)|]. repeat split; simpl.
    apply (Permutation_app_inv _ _ _ _ j). by rewrite <-E, <-E3.
Qed.

Lemma make_slots_Ret made n i slots l : make_slots made i n slots = Ret l -> l = slots ++ replicate n InRun.
Proof.
  revert i slots. induction n as [|n IH]; simpl; intros i slots; [intros [= <-]; by rewrite app_nil_r|].
  destruct (made i); [|done]. intros ->%IH. by rewrite <-app_assoc.
Qed.

Lemma constructed (made : nat -> bool) (args : dynamic_t) (s : threads_t) :
  threads_construct made args = Ret s -> exists m n, s = mk_threads m Alive 0 0 [] (replicate n InRun).
Proof.
  unfold threads_construct. destruct (as_object args) as [o|]; simpl; [|done].
  destruct (as_uint (field "max_load" _ _)) as [m|]; simpl; [|done].
  destruct (as_uint (field "pool_size" _ _)) as [n|]; simpl; [|done].
  destruct (as_string _); simpl; [|done].
  destruct (make_slots _ _ _ _) as [l|] eqn:E; [|done]. apply make_slots_Ret in E. intros [= <-]. simpl in E. subst l. eauto.
Qed.

(** ** The destructor *)

(** The invariant: the slots that are gone or joined had returned, and a thread has
    returned only when nothing was left to do. *)
Record threads_ok (s : threads_t) : Prop := {
  to_slots : forall l, life s = Clearing l -> Forall (fun i => (i < length (threads s))%nat) l;
  to_joined : forall l i t, life s = Clearing l -> threads s !! i = Some t -> i ∈ l \/ t = Returned;
  to_quiet : Returned ∈ threads s -> life s <> Alive /\ queue s = [] /\ omap job_of (threads s) = []
}.

Lemma has_job (i : nat) (t : thread_t) (j : J) (l : list thread_t) : l !! i = Some t -> job_of t = Some j -> omap job_of l <> [].
Proof. intros Hi Hj. destruct (jobs_insert i t t l Hi) as (a & b & -> & _). rewrite Hj. by destruct a. Qed.

Lemma returned_insert (i : nat) (t : thread_t) (l : list thread_t) : t <> Returned -> Returned ∈ <[i := t]> l -> Returned ∈ l.
Proof.
  intros Ht (k & Hk)%list_elem_of_lookup. apply list_lookup_insert_Some in Hk as [(_ & E & _)|[_ Hk]]; [done|].
  by eapply list_elem_of_lookup_2.
Qed.

Lemma out_of_work_spec (s : threads_t) :
  out_of_work s = true -> life s <> Alive /\ queue s = [] /\ omap job_of (threads s) = [].
Proof. unfold out_of_work. by destruct (life s), (queue s), (omap job_of (threads s)). Qed.

Lemma threads_step_ok (s s' : threads_t) : threads_ok s -> step s s' -> threads_ok s'.
Proof.
  intros [Hs Hj Hq] H.
  assert (forall i t, t <> Returned -> (exists t0, threads s !! i = Some t0 /\ t0 <> Returned) ->
            forall l i' t', life s = Clearing l -> <[i := t]> (threads s) !! i' = Some t' -> i' ∈ l \/ t' = Returned) as Hj'.
  { intros i t Ht (t0 & Hi & Ht0) l i' t' Hl [(<- & <- & _)|[_ E]]%list_lookup_insert_Some; [|by eapply Hj].
    left. by destruct (Hj l i t0 Hl Hi). }
  destruct H as [j Hl Hr|Hl Hr|i Hl Hne Hi|i j Hu Hi|i j Hl Hi|i j Hl Hi|i Ho Hi|Hl Hr|Hl|i l Hl Hi|Hl].
  - split; simpl; [congruence..|]. intros R. by destruct (Hq R).
  - split; simpl; [congruence..|]. intros R. by destruct (Hq R).
  - unfold take_handler. destruct (queue s) as [|j q] eqn:E; [done|]. split; simpl.
    + intros l. rewrite length_insert. by apply Hs.
    + intros l i' t'. apply Hj'; [done|by exists InRun].
    + intros R%returned_insert; [|done]. by destruct (Hq R) as (_ & ? & _).
  - split; simpl.
    + intros l. rewrite length_insert. by apply Hs.
    + intros l i' t'. apply Hj'; [done|by exists (AtLock j)].
    + intros R%returned_insert; [|done]. destruct (Hq R) as (_ & _ & E). by eapply has_job in E.
  - split; simpl.
    + intros l. rewrite length_insert. by apply Hs.
    + intros l i' t'. apply Hj'; [done|by exists (Executing j)].
    + intros R%returned_insert; [|done]. destruct (Hq R) as (_ & _ & E). by eapply has_job in E.
  - split; simpl; [done|done|]. intros R. destruct (Hq R) as (_ & ? & ?). by repeat split.
  - destruct (out_of_work_spec s Ho) as (? & ? & E). split; simpl.
    + intros l. rewrite length_insert. by apply Hs.
    + intros l i' t' Hl [(<- & <- & _)|[_ ?]]%list_lookup_insert_Some; [by right|by eapply Hj].
    + intros _. repeat split; [done|done|]. destruct (jobs_insert i InRun Returned (threads s) Hi) as (a & b & Ea & ->).
      by rewrite Ea in E.
  - split; simpl; [done|done|]. intros R. by destruct (Hq R).
  - split; simpl.
    + intros l [= <-]. apply Forall_forall. intros i Hi%elem_of_seq. lia.
    + intros l i t [= <-] Hi. left. apply elem_of_seq. apply lookup_lt_Some in Hi. lia.
    + intros R. destruct (Hq R) as (_ & ? & ?). by repeat split.
  - split; simpl.
    + intros l' [= <-]. specialize (Hs _ Hl). by inversion Hs.
    + intros l' i' t [= <-] Hi'. destruct (Hj _ i' t Hl Hi') as [[->|?]%elem_of_cons|?]; [|by left|by right].
      right. congruence.
    + intros R. destruct (Hq R) as (_ & ? & ?). by repeat split.
  - split; simpl; [done|done|]. intros R. destruct (Hq R) as (_ & ? & ?). by repeat split.
Qed.

Lemma reachable_threads_ok (s : threads_t) : reachable s -> threads_ok s.
Proof.
  intros (made & args & s0 & (m & n & ->)%constructed & H).
  assert (threads_ok (mk_threads m Alive 0 0 [] (replicate n InRun))) as H0.
  { split; simpl; [done|done|]. by intros [? _]%elem_of_replicate. }
  induction H as [s|s s1 s2 H1 _ IH]; [done|]. by eapply IH, threads_step_ok.
Qed.

(** A request that has been accepted and has not got its slot yet *)
Definition pending (s : threads_t) : Prop := queue s <> [] \/ exists i j, threads s !! i = Some (AtLock j).

(** Every step after the end of the work object takes something away. *)
Definition thread_weight (t : thread_t) : nat :=
  match t with InRun => 1 | AtLock _ => 3 | Executing _ => 2 | Returned => 0 end.
Definition weight (s : threads_t) : nat :=
  match life s with
  | Alive | WorkReset => 3 + length (threads s)
  | Clearing l => 2 + length l
  | Destroyed => 1
  | Terminated => 0
  end + 3 * length (queue s) + sum_list (thread_weight <$> threads s).

Lemma weight_insert (i : nat) (t t' : thread_t) (l : list thread_t) :
  l !! i = Some t ->
  (sum_list (thread_weight <$> <[i := t']> l) + thread_weight t = sum_list (thread_weight <$> l) + thread_weight t')%nat.
Proof.
  intros H. rewrite insert_take_drop by (by eapply lookup_lt_Some). rewrite <-(take_drop_middle l i t H) at 3.
  rewrite !fmap_app. simpl.
  assert (forall a b : list nat, sum_list (a ++ b) = (sum_list a + sum_list b)%nat) as S by (intros a b; apply (sum_list_with_app id)).
  rewrite !S. simpl. lia.
Qed.

Lemma step_weight (s s' : threads_t) : life s <> Alive -> step s s' -> life s' <> Alive /\ (weight s' < weight s)%nat.
Proof.
  intros Ha H. destruct H as [j Hl Hr|Hl Hr|i Hl Hne Hi|i j Hu Hi|i j Hl Hi|i j Hl Hi|i Ho Hi|Hl Hr|Hl|i l Hl Hi|Hl];
    try done; unfold weight, unlocked in *.
  - unfold take_handler. destruct (queue s) as [|j q] eqn:E; [done|]. simpl.
    pose proof (weight_insert i InRun (AtLock j) (threads s) Hi). rewrite length_insert. simpl in *. split; [done|lia].
  - pose proof (weight_insert i (AtLock j) (Executing j) (threads s) Hi). simpl in *. rewrite length_insert. split; [done|lia].
  - pose proof (weight_insert i (Executing j) InRun (threads s) Hi). simpl in *. rewrite length_insert. split; [done|lia].
  - simpl. split; [done|]. destruct (life s); simpl in *; lia || done.
  - pose proof (weight_insert i InRun Returned (threads s) Hi). simpl in *. rewrite length_insert. split; [done|lia].
  - simpl. rewrite Hl, length_seq. split; [done|lia].
  - simpl. rewrite Hl. simpl. split; [done|lia].
  - simpl. rewrite Hl. simpl. split; [done|lia].
Qed.

(** When the table is locked, a request without its slot stays without it, and nothing returns. *)
Lemma pending_step (l : list nat) (s s' : threads_t) :
  threads_ok s -> threads s <> [] -> life s = Clearing l -> pending s -> step s s' ->
  life s' = Terminated \/ (life s' = Clearing l /\ pending s' /\ threads s' <> []).
Proof.
  intros [Hs Hj Hq] Hne Hl P H.
  assert (Returned ∈ threads s -> False) as NR.
  { intros R. destruct (Hq R) as (_ & E1 & E2). destruct P as [?|(i & j & Hi)]; [done|]. by eapply has_job in E2. }
  assert (forall i t, <[i := t]> (threads s) <> []) as Hne'.
  { intros i t E. apply Hne. apply length_zero_iff_nil. by rewrite <-(length_insert (threads s) i t), E. }
  destruct H as [j Hl' Hr|Hl' Hr|i Hl' Hq' Hi|i j Hu Hi|i j Hl' Hi|i j Hl' Hi|i Ho Hi|Hl' Hr|Hl'|i l' Hl' Hi|Hl'];
    try congruence.
  - right. unfold take_handler. destruct (queue s) as [|j q]; [done|]. split; [done|]. split; [|apply Hne'].
    right. exists i, j. simpl. apply list_lookup_insert_eq. by eapply lookup_lt_Some.
  - unfold unlocked in Hu. by rewrite Hl in Hu.
  - right. split; [done|]. split; [|apply Hne']. destruct P as [?|(k & j' & Hk)]; [by left|]. right. exists k, j'. simpl.
    rewrite list_lookup_insert_ne; [done|]. intros ->. congruence.
  - by left.
  - apply out_of_work_spec in Ho as (_ & E1 & E2). destruct P as [?|(k & j & Hk)]; [done|]. by apply (has_job k (AtLock j) j) in E2.
  - exfalso. by apply NR, (list_elem_of_lookup_2 _ i).
  - exfalso. destruct (threads s) as [|t0 ts] eqn:E; [done|]. rewrite <-E in *.
    assert (threads s !! 0%nat = Some t0) as E0 by (by rewrite E). rewrite Hl in Hl'. injection Hl' as ->.
    destruct (Hj _ _ _ Hl E0) as [[]%not_elem_of_nil| ->]. by apply NR, (list_elem_of_lookup_2 _ 0%nat).
Qed.

(** Without such requests there will be none. *)
Definition ending (s : threads_t) : Prop :=
  match life s with Clearing _ | Destroyed | Terminated => True | _ => False end.
Lemma calm_step (s s' : threads_t) : ending s -> ~ pending s -> step s s' -> ending s' /\ ~ pending s'.
Proof.
  intros He P H. unfold pending in P.
  assert (queue s = []) as Hq by (destruct (queue s); [done|exfalso; apply P; by left]).
  assert (forall i j, threads s !! i <> Some (AtLock j)) as Ha by (intros i j Hi; apply P; right; eauto).
  assert (forall i t, (forall j, t <> AtLock j) -> ~ pending (set_thread i t s)) as Hi'.
  { intros i t Ht [?|(k & j & [(_ & E & _)|[_ E]]%list_lookup_insert_Some)]; [done|by eapply Ht|by eapply Ha]. }
  unfold ending in *.
  destruct H as [j Hl Hr|Hl Hr|i Hl Hq' Hi|i j Hu Hi|i j Hl Hi|i j Hl Hi|i Ho Hi|Hl Hr|Hl|i l' Hl Hi|Hl];
    try (by rewrite Hl in He); try done; try (by exfalso; eapply Ha).
  - split; [done|]. by apply (Hi' i InRun).
  - split; [done|]. by apply Hi'.
Qed.

(** Where nothing can happen while the table is cleared, a thread waits for its lock. *)
Lemma stuck_clearing (s : threads_t) (l : list nat) :
  threads_ok s -> life s = Clearing l -> nf step s -> exists i j, threads s !! i = Some (AtLock j).
Proof.
  intros [Hs _ _] Hl N. assert (life s <> Terminated) as HT by (by rewrite Hl).
  destruct l as [|i l]; [exfalso; apply N; eexists; by apply s_gone|].
  pose proof (Hs _ Hl) as Hi. apply Forall_cons in Hi as [Hi _]. apply lookup_lt_is_Some in Hi as [t Hi].
  destruct t as [|j|j|].
  - destruct (queue s) as [|j q] eqn:Hq; [|exfalso; apply N; eexists; by apply (s_take _ i); [..|rewrite Hq|]].
    destruct (omap job_of (threads s)) as [|j js] eqn:Ho.
    { exfalso. apply N. eexists. apply (s_return _ i); [|done]. unfold out_of_work. by rewrite Hl, Hq, Ho. }
    assert (j ∈ omap job_of (threads s)) as (t & Ht & Hj)%list_elem_of_omap by (rewrite Ho; set_solver).
    apply list_elem_of_lookup in Ht as [k Hk]. destruct t as [|j'|j'|]; try done; [by exists k, j'|].
    exfalso. apply N. eexists. by apply (s_end _ k j').
  - by exists i, j.
  - exfalso. apply N. eexists. by apply (s_end _ i j).
  - exfalso. apply N. eexists. by apply (s_join _ i l).
Qed.

(** C32: Whether a pool can be destroyed is decided when the table is locked.  From there on
    every run is finite.  If no accepted request is without its slot, it ends with the pool
    destroyed; if there is one, it ends in a deadlock: the destructor waits for the threads
    with the lock that a thread waits for.  (Or a request has thrown, and the process is
    gone.) *)
Theorem destructor_settles (s : threads_t) (l : list nat) :
  reachable s -> life s = Clearing l -> threads s <> [] ->
  (forall n s', nsteps step n s s' -> (n <= weight s)%nat) /\
  forall s', rtc step s s' -> nf step s' -> life s' <> Terminated ->
    (~ pending s -> life s' = Destroyed) /\
    (pending s -> life s' = Clearing l /\ exists i j, threads s' !! i = Some (AtLock j)).
Proof.
  intros R Hl Hne. pose proof (reachable_threads_ok s R) as Hok. split.
  - assert (life s <> Alive) as Ha by (by rewrite Hl). clear -Ha. intros n s' H.
    induction H as [s|n s s1 s2 H _ IH]; [lia|]. apply step_weight in H as [? ?]; [|done]. specialize (IH ltac:(done)). lia.
  - intros s' H N NT. split.
    + intros P. assert (ending s) as He by (unfold ending; by rewrite Hl).
      assert (ending s' /\ ~ pending s' /\ threads_ok s') as (He' & P' & Hok').
      { clear -H He P Hok. induction H as [s|s s1 s2 H _ IH]; [done|].
        destruct (calm_step s s1 He P H). apply IH; [by apply (threads_step_ok s)|done|done]. }
      unfold ending in He'. destruct (life s') as [| |l'| |] eqn:Hl'; try done.
      exfalso. apply P'. right. by apply (stuck_clearing s' l').
    + intros P. assert (life s' = Clearing l /\ threads_ok s') as [Hl' Hok'].
      { clear -H Hl Hne P Hok NT. induction H as [s|s s1 s2 H H' IH]; [done|].
        destruct (pending_step l s s1 Hok Hne Hl P H) as [HT|(? & ? & ?)]; [|apply IH; [done|done|by apply (threads_step_ok s)|done|done]].
        exfalso. apply NT. clear -HT H'. induction H' as [s|s s1 s2 H _ IH]; [done|]. apply IH.
        destruct H; unfold unlocked, out_of_work in *; rewrite HT in *; done. }
      split; [done|]. by apply (stuck_clearing s' l).
Qed.

(** ** The threads and the pool *)

(** Whatever the threads do, the pool without them can do it too: the same requests are
    waiting and being executed, the counter is the same. *)
Theorem threads_refine_pool (s : threads_t) :
  reachable s -> exists p, rtc (pool_step (max_load s)) pool_construct p /\ same_pool p (to_pool s).
Proof.
  intros (made & args & s0 & (m & n & ->)%constructed & H).
  assert (forall s0, rtc step s0 s -> forall p, same_pool p (to_pool s0) ->
            max_load s = max_load s0 /\ exists q, rtc (pool_step (max_load s0)) p q /\ same_pool q (to_pool s)) as K.
  { clear. intros s0 H. induction H as [s|s s1 s2 H _ IH]; intros p E; [eauto using rtc_refl|].
    destruct (step_simulates s s1 H) as [Hm [E'|(q & Hq & E')]].
    - rewrite <-Hm. apply IH. by rewrite E.
    - symmetry in E. destruct (pool_step_same _ _ _ _ Hq E) as (q' & Hq' & E1).
      destruct (IH q') as (Hm' & r & Hr & E2); [by rewrite <-E1|]. rewrite Hm in *. split; [done|].
      exists r. split; [by eapply rtc_l|done]. }
  destruct (K _ H pool_construct) as (-> & q & Hq & E); [|by exists q].
  repeat split. simpl. clear. by induction n.
Qed.

(** A pool of no threads takes requests and begins none of them. *)
Theorem no_threads_no_answers (s s' : threads_t) :
  threads s = [] -> rtc step s s' -> threads s' = [] /\ queue s `prefix_of` queue s'.
Proof.
  intros E H. induction H as [s|s s1 s2 H _ IH]; [done|].
  assert (threads s1 = [] /\ queue s `prefix_of` queue s1) as [E1 Q1].
  { destruct H; try (rewrite E in *; done); split; try done.
    unfold call_enter, enter. simpl. destruct (max_load s <? counter s); simpl; [done|by apply prefix_app_r]. }
  destruct (IH E1) as [? ?]. split; [done|]. by etrans.
Qed.
End threads.

(** *** Examples *)

Definition two_slots : dynamic_t := DObject [("pool_size"%string, DUint 2)].

(** A pool of two threads that is destroyed when a request has been accepted, and the same
    after a thread has taken it *)
Definition destroyed_early : threads_t := clear_slots (set_life WorkReset (call_enter 7%nat (mk_threads 1000 Alive 0 0 [] [InRun; InRun]))).
Definition waiting_for_lock : threads_t := take_handler 0 destroyed_early.

Example destroyed_early_is : destroyed_early = mk_threads 1000 (Clearing [0; 1]%nat) 1 0 [7%nat] [InRun; InRun].
Proof. reflexivity. Qed.

Lemma destroyed_early_reachable : reachable destroyed_early.
Proof.
  exists (fun _ => true), two_slots, (mk_threads 1000 Alive 0 0 [] [InRun; InRun]). split; [reflexivity|].
  eapply rtc_l; [by apply (s_enter _ 7%nat)|]. eapply rtc_l; [by apply s_reset|]. eapply rtc_l; [by apply s_clear|]. apply rtc_refl.
Qed.

Lemma waiting_is_stuck : nf step waiting_for_lock.
Proof.
  intros [s' H]. unfold waiting_for_lock, take_handler in H.
  inversion H as [| |? ? Hq| |i ? ? Hi|i ? ? Hi|? Ho| | |i ? Hl Hi|]; subst; simpl in *; try done.
  - by destruct i as [|[|]].
  - by destruct i as [|[|]].
  - by simplify_eq.
Qed.

Lemma destructor_settles_witness :
  rtc step destroyed_early waiting_for_lock /\ life waiting_for_lock = Clearing [0; 1]%nat.
Proof.
  assert (rtc step destroyed_early waiting_for_lock) as H by (apply rtc_once; by apply (s_take _ 0)).
  split; [exact H|].
  destruct (destructor_settles destroyed_early [0; 1]%nat destroyed_early_reachable eq_refl) as [_ T]; [discriminate|].
  destruct (T waiting_for_lock H waiting_is_stuck) as [_ D]; [discriminate|].
  destruct D as [D _]; [left; discriminate|exact D].
Defined.

Lemma no_threads_witness :
  let s : threads_t := call_enter 7%nat (mk_threads 1000 Alive 0 0 [] []) in
  threads (call_enter 8%nat s) = [] /\ [7%nat] `prefix_of` queue (call_enter 8%nat s).
Proof.
  apply (no_threads_no_answers (call_enter 7%nat (mk_threads 1000 Alive 0 0 [] []))); [reflexivity|].
  apply rtc_once. by apply s_enter.
Defined.

Lemma threads_refine_pool_witness :
  exists p, rtc (pool_step 1000) pool_construct p /\ same_pool p (to_pool destroyed_early).
Proof. apply (threads_refine_pool destroyed_early), destroyed_early_reachable. Defined.
