(* ===== verification/MetricsSender.v ===== *)
(** * The sender of metrics to Postgres

    [metrics/src/sender/postgres.cpp]: by a timer the metrics are fetched and written to a
    table, and by another old rows are deleted; both through the pool of [Postgres.v],
    which may refuse.  [send_armed] and [gc_armed] say whether the timers are waited for.
    The server is the parameter [exec], a list of rows in the reference instance.  The data
    come from the service of [Metrics.v], which may throw. *)

From S2P Require Import Prelude LogFilter Dynamic Metrics Postgres.

Local Open Scope string_scope.
Local Open Scope Z_scope.
Local Open Scope cpp_scope.

Inductive policy_t := continous | update.

Inductive sender_error := InvalidPolicy (p : string) | ZeroPeriod | Refused | NotFetched.

(** ** Statements *)

Inductive sender_statement :=
| Insert (table ts host data : string)
| Count (table host : string)
| Update (table ts data host : string)
| Purge (table : string) (ttl : Z).

Definition sender_sql (esc quote : string -> string) (print_number : Z -> string) (q : sender_statement) : string :=
  match q with
  | Insert t ts h d =>
      "INSERT INTO " ++ esc t ++ " (ts, host, data) VALUES(to_timestamp(" ++ ts ++ "), " ++ quote h ++ ", " ++ quote d ++ ");"
  | Count t h => "SELECT count(*) FROM " ++ esc t ++ " WHERE host = " ++ quote h ++ ";"
  | Update t ts d h =>
      "UPDATE " ++ esc t ++ "  set ts = to_timestamp(" ++ ts ++ "), data = " ++ quote d ++ " WHERE host = " ++ quote h ++ ";"
  | Purge t ttl => "DELETE FROM " ++ esc t ++ " WHERE ts < now()-interval '" ++ print_number ttl ++ " seconds';"
  end.

Section sender.
(** A statement in a transaction: its count of rows, and the table *)
Context {D : Type} (exec : sender_statement -> D -> outcome pg_failure (nat * D)).

Record sender_args := mk_args {
  a_policy : option string; a_table : option string; a_send_period : option Z; a_use_gc : option bool;
  a_gc_period : option Z; a_gc_ttl : option Z
}.

Record sender_t := mk_sender {
  policy : policy_t;
  hostname : string;
  table_name : string;
  gc_ttl : Z;
  send_armed : bool;
  gc_armed : bool;
  sending : list string;             (** jobs of [send] in the pool, with their data *)
  purging : nat                      (** jobs of the collection in the pool *)
}.

Definition policy_of (s : string) : outcome sender_error policy_t :=
  if (s =? "")%string then Ret continous
  else if (s =? "continous")%string then Ret continous
  else if (s =? "update")%string then Ret update
  else Throw (InvalidPolicy s).

Definition sender_construct (host : string) (a : sender_args) : outcome sender_error sender_t :=
  outcome_bind (policy_of (default "" (a_policy a))) (fun p =>
  if default 1 (a_send_period a) =? 0 then Throw ZeroPeriod
  else Ret (mk_sender p host (default "cocaine_metrics" (a_table a)) (default 3600 (a_gc_ttl a)) true (default true (a_use_gc a)) [] 0)).

Definition M (A : Type) : Type := ST sender_t sender_error A.

(** [pool->execute]; [admitted] is its answer. *)
Definition send (admitted : bool) (data : string) : M unit :=
  if admitted then
    st_modify (fun s => mk_sender (policy s) (hostname s) (table_name s) (gc_ttl s) (send_armed s) (gc_armed s) (sending s ++ [data])%list (purging s))
  else st_throw Refused.

Definition arm_send (b : bool) : M unit :=
  st_modify (fun s => mk_sender (policy s) (hostname s) (table_name s) (gc_ttl s) b (gc_armed s) (sending s) (purging s)).
Definition arm_gc (b : bool) : M unit :=
  st_modify (fun s => mk_sender (policy s) (hostname s) (table_name s) (gc_ttl s) (send_armed s) b (sending s) (purging s)).
Definition set_purging (n : nat) : M unit :=
  st_modify (fun s => mk_sender (policy s) (hostname s) (table_name s) (gc_ttl s) (send_armed s) (gc_armed s) (sending s) n).

(** The timer is armed again after the data were handed over; without [data] the provider
    has thrown. *)
Definition on_send_timer (ok admitted : bool) (data : option string) : M unit :=
  if ok then
    match data with
    | Some data => send admitted data;;; arm_send true
    | None => st_throw NotFetched
    end
  else st_ret tt.

Definition on_gc_timer (ok admitted : bool) : M unit :=
  if ok then
    if admitted then let! s := st_get in set_purging (S (purging s)) else st_throw Refused
  else st_ret tt.

(** ** Jobs of the pool *)

(** Statements of one transaction; without a commit nothing stays. *)
Definition send_transaction (s : sender_t) (now data : string) (d : D) : outcome pg_failure (nat * D) :=
  match policy s with
  | continous => exec (Insert (table_name s) now (hostname s) data) d
  | update =>
      outcome_bind (exec (Count (table_name s) (hostname s)) d) (fun r =>
        if (r.1 =? 0)%nat then exec (Insert (table_name s) now (hostname s) data) r.2
        else exec (Update (table_name s) now data (hostname s)) r.2)
  end.

(** A failure is logged; [committed] says whether the transaction was begun and committed. *)
Definition run_send (committed : bool) (now data : string) (s : sender_t) (d : D) : D :=
  match send_transaction s now data d with
  | Ret (_, d') => if committed then d' else d
  | Throw _ => d
  end.

(** The timer is armed by the job, whether the query has failed or not. *)
Definition run_gc (committed : bool) (d : D) : ST sender_t sender_error D :=
  let! s := st_get in
  let d' := match exec (Purge (table_name s) (gc_ttl s)) d with Ret (_, d') => if committed then d' else d | Throw _ => d end in
  set_purging (purging s - 1);;;
  arm_gc true;;;
  st_ret d'.

(** ** Runs *)

(** A timer that expires is not waited for any more when its handler runs. *)
Inductive sender_event :=
| SendTimer (ok admitted : bool) (data : option string)
| GcTimer (ok admitted : bool)
| SendJob
| GcJob.

Definition sender_step (e : sender_event) (s : sender_t) : sender_t :=
  match e with
  | SendTimer ok admitted data => if send_armed s then ((arm_send false;;; on_send_timer ok admitted data) s).2 else s
  | GcTimer ok admitted => if gc_armed s then ((arm_gc false;;; on_gc_timer ok admitted) s).2 else s
  | SendJob => mk_sender (policy s) (hostname s) (table_name s) (gc_ttl s) (send_armed s) (gc_armed s) (tail (sending s)) (purging s)
  | GcJob => match purging s with O => s | _ => ((set_purging (purging s - 1);;; arm_gc true) s).2 end
  end.

Definition sender_run (es : list sender_event) (s : sender_t) : sender_t := foldl (fun s e => sender_step e s) s es.

(** The timers are not cancelled while the sender lives. *)
Definition undisturbed (e : sender_event) : bool :=
  match e with SendTimer ok _ _ | GcTimer ok _ => ok | _ => true end.
Definition refused (e : sender_event) : bool :=
  match e with SendTimer _ admitted data => negb admitted || match data with None => true | Some _ => false end | _ => false end.
Definition gc_refused (e : sender_event) : bool :=
  match e with GcTimer _ admitted => negb admitted | _ => false end.

Lemma send_stays_off es s : send_armed s = false -> send_armed (sender_run es s) = false.
Proof.
  revert s. induction es as [|e es IH]; intros s H; [done|]. apply IH. destruct e as [o a d|o a| |]; simpl; try done.
  - by rewrite H.
  - destruct (gc_armed s); [|done]. by destruct o, a.
  - by destruct (purging s).
Qed.

Lemma gc_stays_off es s : gc_armed s = false -> purging s = 0%nat -> gc_armed (sender_run es s) = false.
Proof.
  revert s. induction es as [|e es IH]; intros s H Hp; [done|]. destruct e as [o a d|o a| |]; simpl.
  - destruct (send_armed s); [|by apply IH]. destruct o, a, d; by apply IH.
  - rewrite H. by apply IH.
  - by apply IH.
  - rewrite Hp. by apply IH.
Qed.

(** The sender keeps sending as long as the pool takes its data: whatever happens, its
    timer is waited for after every handler; the rows are collected as long as the pool
    takes the collections, the timer being waited for, or the job that arms it in the pool.
    The first time that the data are refused, or cannot be fetched, is the end: no later
    event arms the timer again. *)
Theorem sender_until_refused (s : sender_t) (es : list sender_event) :
  Forall (fun e => undisturbed e = true) es -> send_armed s = true ->
  (Forall (fun e => refused e = false) es -> send_armed (sender_run es s) = true) /\
  (gc_armed s = true -> purging s = 0%nat -> Forall (fun e => gc_refused e = false) es ->
     gc_armed (sender_run es s) = true /\ purging (sender_run es s) = 0%nat \/
     gc_armed (sender_run es s) = false /\ purging (sender_run es s) = 1%nat) /\
  (forall admitted data later, refused (SendTimer true admitted data) = true ->
     send_armed (sender_run later (sender_step (SendTimer true admitted data) s)) = false).
Proof.
  intros Hu Hs. split; [|split].
  - intros Hr. revert s Hs. induction es as [|e es IH]; intros s Hs; [done|]. apply Forall_cons in Hu as [Hu1 Hu], Hr as [Hr1 Hr].
    apply IH; [done..|]. destruct e as [o a d|o a| |]; simpl in *; subst; try done.
    + rewrite Hs. by destruct a, d.
    + destruct (gc_armed s); [|done]. by destruct a.
    + by destruct (purging s).
  - intros Hg Hp Hr.
    assert (gc_armed s = true /\ purging s = 0%nat \/ gc_armed s = false /\ purging s = 1%nat) as H by by left. clear Hg Hp Hs. revert s H.
    induction es as [|e es IH]; intros s H; [done|]. apply Forall_cons in Hu as [Hu1 Hu], Hr as [Hr1 Hr].
    apply IH; [done..|]. destruct e as [o a d|o a| |]; simpl in *; subst; try done.
    + destruct (send_armed s); [|done]. by destruct a, d.
    + destruct a; [|done]. destruct H as [[Hg Hp]|[Hg Hp]]; rewrite Hg; simpl; [right; by rewrite Hp|by right].
    + destruct H as [[Hg Hp]|[Hg Hp]]; rewrite Hp; simpl; [by left|left; by split].
  - intros a d later Hr. apply send_stays_off. simpl. rewrite Hs. by destruct a, d.
Qed.

(** A metrics service whose filter is no query: whichever of its senders it is, and
    whatever the pool says, nothing has been sent by the first time of its timer, and
    nothing will be. *)
Theorem malformed_filter_sends_nothing (dynamic_eq : dynamic_t -> dynamic_t -> bool) (right_first : bool) (made : string -> bool)
    (fields : list (string * dynamic_t)) (senders : list (string * data_provider_t)) (t : dynamic_t)
    (name : string) (provider : data_provider_t) (print : list (string * dynamic_t) -> string) (s : sender_t) (hub : list metric_t)
    (admitted : bool) (later : list sender_event) :
  metrics_construct dynamic_eq right_first made (DObject fields) = Ret senders ->
  find_field "filter_ast" fields = Some t -> t <> DNull -> (forall q, t <> print_query q) ->
  (name, provider) ∈ senders -> sending s = [] ->
  let data := match provider hub with Ret o => Some (print o) | Throw _ => None end in
  let s' := sender_run later (sender_step (SendTimer true admitted data) s) in
  send_armed s' = false /\ sending s' = [].
Proof.
  intros Hc Hf Hn Hq Hin Hs. pose proof (malformed_providers dynamic_eq right_first made fields senders t Hc Hf Hn Hq) as F.
  rewrite Forall_forall in F. specialize (F _ Hin hub). simpl in F.
  destruct (provider hub) as [o|x]; [done|]. cbv zeta.
  set (s1 := sender_step _ s). assert (send_armed s1 = false /\ sending s1 = []) as [H1 H2].
  { unfold s1. simpl. by destruct (send_armed s) eqn:E. }
  split; [by apply send_stays_off|]. clearbody s1. clear -H1 H2. revert s1 H1 H2. induction later as [|e es IH]; intros s H1 H2; [done|].
  apply IH; destruct e as [o a d|o a| |]; simpl; rewrite ?H1, ?H2; try done.
  - by destruct (gc_armed s), o, a.
  - by destruct (purging s).
  - by destruct (gc_armed s), o, a.
  - by destruct (purging s).
Qed.
End sender.

(** ** One row for a host

    The reference table: rows of a host, a time and data; old rows are deleted by [old]. *)

Abbreviation rows := (list (string * (string * string))).

Definition rows_of (host : string) (d : rows) : rows := filter (fun r => r.1 = host) d.

Definition reference_rows (old : string -> Z -> bool) (q : sender_statement) (d : rows) : outcome pg_failure (nat * rows) :=
  match q with
  | Insert _ ts h data => Ret (1%nat, (d ++ [(h, (ts, data))])%list)
  | Count _ h => Ret (length (rows_of h d), d)
  | Update _ ts data h => Ret (length (rows_of h d), map (fun r => if decide (r.1 = h) then (h, (ts, data)) else r) d)
  | Purge _ ttl => Ret (0%nat, filter (fun r => old r.2.1 ttl = false) d)
  end.

Lemma rows_of_map h f (d : rows) :
  (forall r, (f r).1 = r.1) -> length (rows_of h (map f d)) = length (rows_of h d).
Proof.
  intros Hf. unfold rows_of. induction d as [|r d IH]; [done|]. cbn [map]. rewrite !filter_cons, Hf. destruct (decide (r.1 = h)); simpl; by rewrite IH.
Qed.

(** With the policy [update] the sends of a host, one after another, keep one row for
    it, which carries what was sent last; a send touches no other host. *)
Theorem update_keeps_one_row (old : string -> Z -> bool) (s : sender_t) (now data : string) (d : rows) :
  policy s = update -> (length (rows_of (hostname s) d) <= 1)%nat ->
  let d' := run_send (reference_rows old) true now data s d in
  rows_of (hostname s) d' = [(hostname s, (now, data))] /\ forall h, h <> hostname s -> rows_of h d' = rows_of h d.
Proof.
  intros Hp Hd. cbv zeta. unfold run_send, send_transaction. rewrite Hp. cbn [reference_rows outcome_bind fst snd].
  destruct (length (rows_of (hostname s) d)) as [|n] eqn:E; cbn [Nat.eqb].
  - apply length_zero_iff_nil in E. split.
    + unfold rows_of in *. rewrite filter_app, E, filter_cons_True by done. done.
    + intros h Hh. unfold rows_of. rewrite filter_app, filter_cons_False by done. by rewrite filter_nil, app_nil_r.
  - assert (n = 0)%nat as -> by lia. split.
    + clear Hd. revert E. unfold rows_of. induction d as [|r d IH]; [done|]. cbn [map].
      destruct (decide (r.1 = hostname s)) as [Hr|Hn].
      * rewrite !filter_cons_True by done. intros [= E]. f_equal. apply length_zero_iff_nil. rewrite <- E. fold (rows_of (hostname s) d).
        apply (rows_of_map (hostname s) (fun r => if decide (r.1 = hostname s) then (hostname s, (now, data)) else r)).
        intros x. by destruct (decide (x.1 = hostname s)).
      * rewrite !filter_cons_False by done. exact IH.
    + intros h Hh. clear Hd E. unfold rows_of. induction d as [|r d IH]; [done|]. cbn [map].
      destruct (decide (r.1 = hostname s)) as [Hr|Hn].
      * rewrite !filter_cons_False by (cbn; congruence). exact IH.
      * rewrite !filter_cons. by rewrite IH.
Qed.

(** ** Witnesses *)

Definition the_sender : sender_t := mk_sender update "host" "cocaine_metrics" 3600 true true [] 0.

(** A policy that is misspelt is refused, the one that is misspelt in the code is taken. *)
Example policies : policy_of "continuous" = Throw (InvalidPolicy "continuous") /\ policy_of "continous" = Ret continous.
Proof. done. Qed.

Lemma sender_until_refused_witness :
  let es := [SendTimer true true (Some "a"); SendJob; GcTimer true true; SendTimer true true (Some "b"); GcJob] in
  send_armed (sender_run es the_sender) = true /\ gc_armed (sender_run es the_sender) = true.
Proof.
  cbv zeta. split; [|reflexivity].
  apply (sender_until_refused the_sender [SendTimer true true (Some "a"); SendJob; GcTimer true true; SendTimer true true (Some "b"); GcJob]);
    [by repeat constructor|reflexivity|by repeat constructor].
Defined.

Lemma update_keeps_one_row_witness :
  rows_of "host" (run_send (reference_rows (fun _ _ => false)) true "2" "{}" the_sender [("host", ("1", "null")); ("other", ("1", "null"))]) =
  [("host", ("2", "{}"))].
Proof.
  apply (update_keeps_one_row (fun _ _ => false) the_sender "2" "{}" [("host", ("1", "null")); ("other", ("1", "null"))]); [reflexivity|].
  vm_compute. lia.
Defined.

Lemma malformed_filter_witness :
  let provider := metrics (fun _ _ => true) false "json" (DString "oops") in
  let data := match provider [] with Ret _ => Some "" | Throw _ => None end in
  send_armed (sender_run [SendTimer true true (Some "a")] (sender_step (SendTimer true true data) the_sender)) = false.
Proof.
  cbv zeta.
  apply (malformed_filter_sends_nothing (fun _ _ => true) false (fun _ => true)
           [("senders", DArray [DString "pg"]); ("filter_ast", DString "oops")]
           [("pg", metrics (fun _ _ => true) false "json" (DString "oops"))] (DString "oops") "pg"
           (metrics (fun _ _ => true) false "json" (DString "oops")) (fun _ => "") the_sender [] true);
    [reflexivity|reflexivity|discriminate|intros []; discriminate|by left|reflexivity].
Defined.
