(* ===== verification/Elliptics.v ===== *)
(** * The Elliptics storage and its service

    [elliptics/src/storage.cpp]: the configuration, the sessions with which commands are
    issued, and what the callbacks of a storage make of the results;
    [elliptics/src/service.cpp]: the service that speaks to the same storage directly, with
    the cache and with many keys at once.

    The client library is not in this repository.  A command is recorded with the session
    it is issued with; how addresses are parsed, whether the nodes are reached, the
    identifiers of keys, and the results of commands are parameters. *)

From S2P Require Import Prelude LogFilter Dynamic Channel.

Local Open Scope Z_scope.
Local Open Scope cpp_scope.

Definition invalid_argument : error_code := mk_ec generic_category 22.
Definition not_supported : error_code := mk_ec generic_category 95.

Section elliptics.
(** Identifiers of keys, and [session::transform] within a namespace *)
Context {Id : Type} `{!EqDecision Id, !Countable Id} (transform : string -> string -> Id).
Context {Address : Type} (parse_address : string -> option Address).

(** ** The configuration *)

Record dnet_config := mk_config {
  wait_timeout : Z; check_timeout : Z; io_thread_num : Z; net_thread_num : Z; flags : Z
}.

Inductive checker := at_least_one | quorum | all.

Record timeouts_t := mk_timeouts { t_read : Z; t_write : Z; t_remove : Z; t_find : Z }.

Record elliptics_storage_t := mk_storage {
  m_read_latest : bool;
  m_config : dnet_config;
  m_remotes : list Address;
  m_success_copies_num : checker;
  m_timeouts : timeouts_t;
  m_groups : list Z
}.

Inductive config_error :=
| bad_access                       (** an accessor of [dynamic_t], or [at] *)
| no_nodes | bad_remote | add_remote_failed
| unknown_success_copies_num | no_groups.

Definition uint_field (k : string) (d : Z) (args : list (string * dynamic_t)) : outcome config_error Z :=
  access bad_access (as_uint (field k (DUint d) args)).

Definition parse_json_config (args : list (string * dynamic_t)) : outcome config_error dnet_config :=
  outcome_bind (uint_field "wait-timeout" 5 args) (fun w =>
  outcome_bind (uint_field "check-timeout" 20 args) (fun c =>
  outcome_bind (uint_field "io-thread-num" 0 args) (fun i =>
  outcome_bind (uint_field "net-thread-num" 0 args) (fun n =>
  outcome_bind (uint_field "flags" 0 args) (fun f =>
  Ret (mk_config w c i n f)))))).

(** The loop over the nodes: the first that is not a string, or no address, ends it. *)
Fixpoint parse_remotes (nodes : list dynamic_t) : outcome config_error (list Address) :=
  match nodes with
  | [] => Ret []
  | d :: nodes =>
      outcome_bind (access bad_access (as_string d)) (fun s =>
      outcome_bind (access bad_remote (parse_address s)) (fun a =>
      outcome_bind (parse_remotes nodes) (fun l => Ret (a :: l))))
  end.

Definition parse_checker (scn : string) : outcome config_error checker :=
  if String.eqb scn "any" then Ret at_least_one
  else if String.eqb scn "quorum" then Ret quorum
  else if String.eqb scn "all" then Ret all
  else Throw unknown_success_copies_num.

(** The timeouts and the groups are [int]s. *)
Definition parse_timeouts (args : list (string * dynamic_t)) : outcome config_error timeouts_t :=
  outcome_bind (access bad_access (as_object (field "timeouts" (DObject []) args))) (fun t =>
  outcome_bind (uint_field "read" 5 t) (fun r =>
  outcome_bind (uint_field "write" 5 t) (fun w =>
  outcome_bind (uint_field "remove" 5 t) (fun m =>
  outcome_bind (uint_field "find" 5 t) (fun f =>
  Ret (mk_timeouts (i32 r) (i32 w) (i32 m) (i32 f))))))).

Definition parse_groups (args : list (string * dynamic_t)) : outcome config_error (list Z) :=
  outcome_bind (access bad_access (as_array (field "groups" (DArray []) args))) (fun groups =>
  match groups with
  | [] => Throw no_groups
  | _ => access bad_access (option_map (map i32) (all_of as_uint groups))
  end).

(** [reached] says whether [add_remote] returned. *)
Definition elliptics_construct (reached : list Address -> bool) (args : dynamic_t) : outcome config_error elliptics_storage_t :=
  outcome_bind (access bad_access (as_object args)) (fun args =>
  outcome_bind (access bad_access (as_bool (field "read_latest" (DBool false) args))) (fun latest =>
  outcome_bind (parse_json_config args) (fun config =>
  outcome_bind (access bad_access (find_field "nodes" args ≫= as_array)) (fun nodes =>
  match nodes with
  | [] => Throw no_nodes
  | _ =>
      outcome_bind (parse_remotes nodes) (fun remotes =>
      if negb (reached remotes) then Throw add_remote_failed else
      outcome_bind (access bad_access (as_string (field "success-copies-num" (DString "any") args))) (fun scn =>
      outcome_bind (parse_checker scn) (fun c =>
      outcome_bind (parse_timeouts args) (fun t =>
      outcome_bind (parse_groups args) (fun groups =>
      Ret (mk_storage latest config remotes c t groups))))))
  end)))).

(** ** Sessions and commands *)

Inductive filter_t := all_with_ack | all_results.
Inductive ioflag := IO_FLAGS_CACHE | IO_FLAGS_CACHE_ONLY.

(** [trace_t::current()]; an empty trace has no id *)
Record trace_t := mk_trace { trace_id : option Z; verbose : bool }.

(** What [session.clone()] takes over is [s_groups] and the policy of no exceptions; a
    filter or checker that is not set is the library's. *)
Record session_t := mk_session {
  s_namespace : string;
  s_groups : list Z;
  s_timeout : Z;
  s_trace_id : option Z;
  s_trace_bit : bool;
  s_filter : option filter_t;
  s_checker : option checker;
  s_ioflags : list ioflag
}.

Definition prepare_session (st : elliptics_storage_t) (trace : trace_t) (collection : string) (timeout : Z) : session_t :=
  mk_session collection (m_groups st) timeout (trace_id trace) (verbose trace) None None [].

Definition set_filter f s := mk_session (s_namespace s) (s_groups s) (s_timeout s) (s_trace_id s) (s_trace_bit s) (Some f) (s_checker s) (s_ioflags s).
Definition set_checker c s := mk_session (s_namespace s) (s_groups s) (s_timeout s) (s_trace_id s) (s_trace_bit s) (s_filter s) (Some c) (s_ioflags s).
Definition set_ioflags f s := mk_session (s_namespace s) (s_groups s) (s_timeout s) (s_trace_id s) (s_trace_bit s) (s_filter s) (s_checker s) f.

(** [dnet_io_attr] *)
Record io_attr := mk_io { io_id : Id; io_size : Z }.

Inductive command :=
| ReadData (key : string)
| ReadLatest (key : string)
| WriteData (key blob : string)
| RemoveKey (key : string)
| WriteCache (key blob : string) (timeout : Z)
| BulkRead (keys : list string)
| BulkWrite (ios : list io_attr) (blobs : list string).

Section storage.
Context (st : elliptics_storage_t) (trace : trace_t).

Definition async_read (collection key : string) : session_t * command :=
  (prepare_session st trace collection (t_read (m_timeouts st)), ReadData key).
Definition async_read_latest (collection key : string) : session_t * command :=
  (prepare_session st trace collection (t_read (m_timeouts st)), ReadLatest key).
(** The tags are dropped. *)
Definition async_write (collection key blob : string) (tags : list string) : session_t * command :=
  (set_checker (m_success_copies_num st) (set_filter all_with_ack (prepare_session st trace collection (t_write (m_timeouts st)))),
   WriteData key blob).
Definition async_remove (collection key : string) : session_t * command :=
  (set_checker (m_success_copies_num st) (prepare_session st trace collection (t_remove (m_timeouts st))), RemoveKey key).
Definition async_cache_read (collection key : string) : session_t * command :=
  (set_ioflags [IO_FLAGS_CACHE; IO_FLAGS_CACHE_ONLY] (prepare_session st trace collection (t_read (m_timeouts st))), ReadData key).
Definition async_cache_write (collection key blob : string) (timeout : Z) : session_t * command :=
  (set_checker (m_success_copies_num st)
     (set_ioflags [IO_FLAGS_CACHE; IO_FLAGS_CACHE_ONLY] (prepare_session st trace collection (t_write (m_timeouts st)))),
   WriteCache key blob timeout).

(** [key_name_map]: from identifiers back to names *)
Definition key_names (collection : string) (keys : list string) : gmap Id string :=
  foldl (fun m k => <[transform collection k := k]> m) ∅ keys.
Definition async_bulk_read (collection : string) (keys : list string) : (session_t * command) * gmap Id string :=
  ((prepare_session st trace collection (t_read (m_timeouts st)), BulkRead keys), key_names collection keys).

(** [keys[i]] for every blob: [None] is a read past the end of [keys]. *)
Definition async_bulk_write (collection : string) (keys blobs : list string) : option (session_t * command) :=
  ios ← mapM (fun x => k ← keys !! x.1; Some (mk_io (transform collection k) (Z.of_nat (String.length x.2))))
        (imap (fun i b => (i, b)) blobs);
  Some (set_checker (m_success_copies_num st)
          (set_filter all_results (prepare_session st trace collection (t_write (m_timeouts st)))), BulkWrite ios blobs).
End storage.

(** ** Results *)

Record entry_t := mk_entry { e_status : Z; e_data : string; e_file : string; e_id : Id }.
(** [error_info]: nothing, or a negative code with its text *)
Abbreviation error_info := (option (Z * string)).
Definition code_of (e : Z * string) : error_code := mk_ec generic_category (- e.1).

(** The future given to a callback of the storage *)
Abbreviation future := (outcome error_code).

Definition is_valid (r : entry_t) : bool := (e_status r =? 0) && negb (String.eqb (e_data r) "").

Fixpoint first_valid (results : list entry_t) : future string :=
  match results with
  | [] => Throw invalid_argument
  | r :: results => if is_valid r then Ret (e_file r) else first_valid results
  end.

Definition on_read (results : list entry_t) (error : error_info) : future string :=
  match error with Some e => Throw (code_of e) | None => first_valid results end.
(** The callbacks of [write] and [remove] *)
Definition on_acknowledged (error : error_info) : future unit :=
  match error with Some e => Throw (code_of e) | None => Ret tt end.

Inductive request :=
| Read (collection key : string)
| Write (collection key blob : string) (tags : list string)
| Remove (collection key : string)
| Find (collection : string) (tags : list string).

(** What a request of the storage issues; [find] answers at once. *)
Definition issue (st : elliptics_storage_t) (trace : trace_t) (r : request) : (session_t * command) + error_code :=
  match r with
  | Read c k => inl (if m_read_latest st then async_read_latest st trace c k else async_read st trace c k)
  | Write c k b t => inl (async_write st trace c k b t)
  | Remove c k => inl (async_remove st trace c k)
  | Find _ _ => inr not_supported
  end.

(** ** The service *)

(** What its promise is told; [Crash] is a read of a result that is not there. *)
Inductive reply :=
| Value (s : string)
| Values (m : gmap string string)
| Closed
| Aborted (ec : error_code)
| Crash.

Definition on_read_completed (results : list entry_t) (error : error_info) : reply :=
  match error with
  | Some e => Aborted (code_of e)
  | None => match results with r :: _ => Value (e_file r) | [] => Crash end
  end.
Definition on_write_completed (error : error_info) : reply :=
  match error with Some e => Aborted (code_of e) | None => Closed end.
Definition on_remove_completed (error : error_info) : reply :=
  match error with Some e => Aborted (code_of e) | None => Closed end.

Definition collect (keys : gmap Id string) (results : list entry_t) : gmap string string :=
  foldl (fun m e => match keys !! e_id e with Some k => <[k := e_file e]> m | None => m end) ∅ results.
Definition on_bulk_read_completed (keys : gmap Id string) (results : list entry_t) (error : error_info) : reply :=
  match error with Some e => Aborted (code_of e) | None => Values (collect keys results) end.

Inductive service_request :=
| SRead (collection key : string)
| SReadLatest (collection key : string)
| SWrite (collection key blob : string) (tags : list string)
| SRemove (collection key : string)
| SFind (collection : string) (tags : list string)
| SCacheRead (collection key : string)
| SCacheWrite (collection key blob : string) (timeout : Z)
| SBulkRead (collection : string) (keys : list string).

(** The command a request of the service issues, with the function that makes the reply of
    its results; or the reply itself. *)
Definition serve (st : elliptics_storage_t) (trace : trace_t) (r : service_request)
  : (session_t * command) * (list entry_t -> error_info -> reply) + reply :=
  match r with
  | SRead c k => inl (async_read st trace c k, on_read_completed)
  | SReadLatest c k => inl (async_read_latest st trace c k, on_read_completed)
  | SWrite c k b t => inl (async_write st trace c k b t, fun _ => on_write_completed)
  | SRemove c k => inl (async_remove st trace c k, fun _ => on_remove_completed)
  | SFind _ _ => inr (Aborted not_supported)
  | SCacheRead c k => inl (async_cache_read st trace c k, on_read_completed)
  | SCacheWrite c k b t => inl (async_cache_write st trace c k b t, fun _ => on_write_completed)
  | SBulkRead c ks => let '(issued, keys) := async_bulk_read st trace c ks in inl (issued, on_bulk_read_completed keys)
  end.
Definition bulk_write_reply : reply := Aborted not_supported.

(** [elliptics_service_t]: the storage it is given must be of this kind. *)
Definition service_construct {Other} (source : elliptics_storage_t + Other) : outcome error_code elliptics_storage_t :=
  match source with inl s => Ret s | inr _ => Throw (mk_ec generic_category (-1)) end.
End elliptics.

(** ** Facts *)

Section facts.
Context {Id : Type} `{!EqDecision Id, !Countable Id} (transform : string -> string -> Id).
Context {Address : Type}.

(** A read of the storage gives the first result that is good and not empty, and fails when
    there is none. *)
Theorem on_read_spec (results : list (entry_t (Id:=Id))) (file : string) :
  (on_read results None = Ret file <->
   exists l r l', results = l ++ r :: l' /\ Forall (fun x => is_valid x = false) l /\ is_valid r = true /\ file = e_file r) /\
  (on_read results None = Throw invalid_argument <-> Forall (fun x => is_valid x = false) results).
Proof.
  unfold on_read. induction results as [|x rs [IH1 IH2]]; simpl.
  - split; [|by split]. split; [done|]. by intros ([|? ?] & ? & ? & ? & _).
  - destruct (is_valid x) eqn:Ex.
    + split.
      * split; [intros [= <-]; by exists [], x, rs|]. intros ([|y l] & r & l' & E & Hl & Hr & ->); simplify_eq/=; [done|].
        inversion Hl; congruence.
      * split; [done|]. inversion 1; congruence.
    + rewrite IH1, IH2. split.
      * split; [intros (l & r & l' & -> & ? & ? & ?); exists (x :: l), r, l'; repeat split; try done; by constructor|].
        intros ([|y l] & r & l' & E & Hl & Hr & ->); simplify_eq/=; [congruence|]. inversion Hl; subst. by exists l, r, l'.
      * split; [by constructor|]. by inversion 1.
Qed.

Lemma key_names_lookup collection keys id k :
  (forall k1 k2, k1 ∈ keys -> k2 ∈ keys -> transform collection k1 = transform collection k2 -> k1 = k2) ->
  key_names transform collection keys !! id = Some k <-> k ∈ keys /\ transform collection k = id.
Proof.
  unfold key_names. induction keys as [|x keys IH] using rev_ind; intros Hinj; simpl.
  - rewrite lookup_empty. set_solver.
  - rewrite foldl_app. simpl. destruct (decide (id = transform collection x)) as [->|Hne].
    + rewrite lookup_insert_eq. split; [intros [= <-]; set_solver|]. intros [Hk E]. f_equal. apply Hinj; set_solver.
    + rewrite lookup_insert_ne, IH by set_solver. set_solver.
Qed.

(** The last of the results with an identifier *)
Definition last_with (id : Id) (results : list (entry_t (Id:=Id))) : option entry_t :=
  last (filter (fun e => e_id e = id) results).

(** Reading many keys at once gives each of them the last result found under its
    identifier, and nothing else, provided that no two of the keys share one. *)
Theorem bulk_read_spec (st : elliptics_storage_t (Address:=Address)) (trace : trace_t) (collection : string) (keys : list string)
    (results : list (entry_t (Id:=Id))) :
  (forall k1 k2, k1 ∈ keys -> k2 ∈ keys -> transform collection k1 = transform collection k2 -> k1 = k2) ->
  exists issued handler m,
    serve transform st trace (SBulkRead collection keys) = inl (issued, handler) /\
    issued.2 = BulkRead keys /\ handler results None = Values m /\
    forall k, m !! k = if bool_decide (k ∈ keys) then e_file <$> last_with (transform collection k) results else None.
Proof.
  intros Hinj. do 3 eexists. split; [reflexivity|]. split; [done|]. split; [reflexivity|]. intros k.
  unfold collect, last_with. induction results as [|e results IH] using rev_ind; simpl.
  - rewrite lookup_empty. by case_bool_decide.
  - rewrite foldl_app, filter_app. simpl. rewrite filter_cons, filter_nil.
    destruct (key_names transform collection keys !! e_id e) as [k'|] eqn:Ek.
    + apply key_names_lookup in Ek as [Hin Ek]; [|done]. destruct (decide (k = k')) as [->|Hne].
      * rewrite lookup_insert_eq, bool_decide_eq_true_2, decide_True, last_snoc by done. done.
      * rewrite lookup_insert_ne, IH by done. case_bool_decide; [|done]. rewrite decide_False, app_nil_r; [done|]. intros E.
        apply Hne. by apply Hinj; [| |congruence].
    + rewrite IH. case_bool_decide as Hk; [|done]. rewrite decide_False, app_nil_r; [done|]. intros E.
      assert (key_names transform collection keys !! e_id e = Some k) by (by apply key_names_lookup). congruence.
Qed.

(** Every command that a request of the service issues stays in the namespace of its
    collection and goes to the configured groups; a change of the data has to be
    acknowledged by the configured number of copies, and what is said of the cache never
    touches the disk. *)
Definition collection_of (r : service_request) : string :=
  match r with
  | SRead c _ | SReadLatest c _ | SWrite c _ _ _ | SRemove c _ | SFind c _ | SCacheRead c _ | SCacheWrite c _ _ _ | SBulkRead c _ => c
  end.
Definition changes (r : service_request) : bool :=
  match r with SWrite _ _ _ _ | SRemove _ _ | SCacheWrite _ _ _ _ => true | _ => false end.
Definition cached (r : service_request) : bool :=
  match r with SCacheRead _ _ | SCacheWrite _ _ _ _ => true | _ => false end.

Theorem commands_confined (st : elliptics_storage_t (Address:=Address)) (trace : trace_t) (r : service_request)
    (s : session_t) (c : command (Id:=Id)) handler :
  serve transform st trace r = inl ((s, c), handler) ->
  s_namespace s = collection_of r /\ s_groups s = m_groups st /\ s_trace_id s = trace_id trace /\
  (changes r = true -> s_checker s = Some (m_success_copies_num st)) /\
  s_ioflags s = (if cached r then [IO_FLAGS_CACHE; IO_FLAGS_CACHE_ONLY] else []).
Proof. destruct r; cbn; intros H; try discriminate H; injection H as <- _ _; repeat split; done. Qed.

(** The service does not look at what the storage looks at: the first result is the answer,
    good or not, and when there is none it is read all the same. *)
Theorem service_reads_first (results : list (entry_t (Id:=Id))) :
  Forall (fun x => is_valid x = false) results ->
  on_read results None = Throw invalid_argument /\
  on_read_completed results None = match results with [] => Crash | r :: _ => Value (e_file r) end.
Proof. intros H. split; [by apply (on_read_spec results ""%string)|done]. Qed.
End facts.

Section configuration.
Context {Address : Type} (parse_address : string -> option Address).

(** What a constructed storage can rely on: it has an address for every node it was given,
    there are groups, and all times and groups are [int]s. *)
Definition is_int (z : Z) : Prop := - 2 ^ 31 <= z < 2 ^ 31.
Lemma i32_is_int z : is_int (i32 z).
Proof. unfold is_int, i32, signed_wrap. pose proof (Z.mod_pos_bound (z + 2 ^ (32 - 1)) (2 ^ 32)). change (2 ^ (32 - 1)) with (2 ^ 31) in *. lia. Qed.

Lemma outcome_bind_Ret {E A B} (m : outcome E A) (k : A -> outcome E B) b :
  outcome_bind m k = Ret b -> exists a, m = Ret a /\ k a = Ret b.
Proof. destruct m; simpl; [eauto|done]. Qed.

Lemma parse_remotes_Ret nodes remotes :
  parse_remotes parse_address nodes = Ret remotes ->
  Forall2 (fun d a => exists s, d = DString s /\ parse_address s = Some a) nodes remotes.
Proof.
  revert remotes. induction nodes as [|d nodes IH]; simpl; intros remotes H; [injection H as <-; constructor|].
  apply outcome_bind_Ret in H as (s & Hs & H). apply outcome_bind_Ret in H as (a & Ha & H). apply outcome_bind_Ret in H as (l & Hl & [= <-]).
  apply access_Ret in Hs, Ha. constructor; [|by apply IH]. exists s. by destruct d; simplify_eq/=.
Qed.

Theorem elliptics_construct_sound (reached : list Address -> bool) (args : dynamic_t) (st : elliptics_storage_t) :
  elliptics_construct parse_address reached args = Ret st ->
  exists fields nodes,
    args = DObject fields /\ find_field "nodes" fields = Some (DArray nodes) /\ nodes <> [] /\
    Forall2 (fun d a => exists s, d = DString s /\ parse_address s = Some a) nodes (m_remotes st) /\
    reached (m_remotes st) = true /\
    m_groups st <> [] /\ Forall is_int (m_groups st) /\
    Forall is_int [t_read (m_timeouts st); t_write (m_timeouts st); t_remove (m_timeouts st); t_find (m_timeouts st)].
Proof.
  unfold elliptics_construct. intros H.
  apply outcome_bind_Ret in H as (fields & Hf & H). apply access_Ret in Hf. destruct args; simplify_eq/=.
  apply outcome_bind_Ret in H as (latest & _ & H). apply outcome_bind_Ret in H as (config & _ & H).
  apply outcome_bind_Ret in H as (nodes & Hn & H). apply access_Ret in Hn.
  destruct (find_field "nodes" fields) as [dn|] eqn:En; [|done]. simpl in Hn. destruct dn; simplify_eq/=.
  exists fields, nodes. split; [done|]. split; [done|]. destruct nodes as [|d nodes]; [done|]. split; [done|].
  apply outcome_bind_Ret in H as (remotes & Hr & H). destruct (reached remotes) eqn:Er; [simpl in H|done].
  apply outcome_bind_Ret in H as (scn & _ & H). apply outcome_bind_Ret in H as (c & _ & H).
  apply outcome_bind_Ret in H as (t & Ht & H). apply outcome_bind_Ret in H as (groups & Hg & [= <-]). simpl.
  split; [by apply parse_remotes_Ret|]. split; [done|]. split; [|split].
  - unfold parse_groups in Hg. apply outcome_bind_Ret in Hg as ([|g gs] & _ & Hg); [done|]. apply access_Ret in Hg.
    destruct (all_of as_uint (g :: gs)) as [l|] eqn:El; [|done]. apply all_of_Some in El. inversion El; subst. by injection Hg as <-.
  - unfold parse_groups in Hg. apply outcome_bind_Ret in Hg as ([|g gs] & _ & Hg); [done|]. apply access_Ret in Hg.
    destruct (all_of as_uint (g :: gs)) as [l|]; [|done]. injection Hg as <-. apply Forall_forall.
    intros x (y & -> & _)%list_elem_of_fmap. apply i32_is_int.
  - unfold parse_timeouts in Ht. repeat (apply outcome_bind_Ret in Ht as (? & _ & Ht)). injection Ht as <-. simpl.
    repeat constructor; apply i32_is_int.
Qed.

End configuration.

(** ** Witnesses *)

Definition plain_transform (collection key : string) : string := collection ++ "/" ++ key.

Lemma bulk_read_witness :
  collect (key_names plain_transform "c" ["a"; "b"])
    [mk_entry 0 "x" "1" "c/a"; mk_entry 0 "x" "2" "c/z"; mk_entry 0 "x" "3" "c/a"] !! "a" = Some "3".
Proof.
  destruct (bulk_read_spec plain_transform (mk_storage (Address:=string) false (mk_config 5 20 0 0 0) ["n"] quorum (mk_timeouts 5 5 5 5) [1])
              (mk_trace None false) "c" ["a"; "b"]
              [mk_entry 0 "x" "1" "c/a"; mk_entry 0 "x" "2" "c/z"; mk_entry 0 "x" "3" "c/a"]) as (i & h & m & H1 & _ & H2 & H3).
  - intros k1 k2 H1 H2. unfold plain_transform. intros H. apply (inj (String.append "c/")). exact H.
  - simpl in H1. injection H1 as _ <-. unfold on_bulk_read_completed in H2. injection H2 as <-. rewrite H3. vm_compute. reflexivity.
Defined.

Lemma service_reads_first_witness :
  on_read_completed [mk_entry 0 "" "" "c/a"] None = Value "" /\ on_read [mk_entry 0 "" "" "c/a"] None = Throw invalid_argument.
Proof.
  destruct (service_reads_first [mk_entry 0 "" "" "c/a"]) as [H1 H2]; [by repeat constructor|]. by split.
Defined.

(** A time of 2^32 + 1 seconds is taken as one. *)
Example timeouts_are_cut : parse_timeouts [("timeouts", DObject [("read", DUint 4294967297)])] = Ret (mk_timeouts 1 5 5 5).
Proof. reflexivity. Qed.
