(* ===== verification/UrlFetch.v ===== *)
(** * The URL fetcher, and services that fetch over an event loop

    [urlfetch/src/urlfetch.cpp]: requests are given to the fetcher of a library that
    completes them on an event loop, which a thread of the service runs until there is
    no more work for it.  [service_t] is what such a service shares with the one in
    [Elasticsearch.v]: requests that are outstanding, replies, and whether a thread runs
    the loop.  A completion happens only there. *)

From S2P Require Import Prelude LogFilter Dynamic Channel.

Local Open Scope Z_scope.

(** ** Requests and completions *)

Record response_t := mk_response {
  r_code : Z;
  r_request_url : string;
  r_headers : list (string * string)
}.
(** [boost::system::error_code]: its value and text, or success *)
Abbreviation boost_error := (option (Z * string)).

(** What is not set is the library's. *)
Record request_t := mk_request {
  q_url : string;
  q_follow_location : option bool;
  q_timeout : option Z;
  q_headers : list (string * string)
}.

Section service.
(** How a completion makes the reply of its request *)
Context {Reply : Type}.
Abbreviation handler := (response_t -> string -> boost_error -> Reply).

Record service_t := mk_service {
  outstanding : list (nat * handler);
  replies : list (nat * Reply);
  issued : list request_t;
  work : bool;          (** [io_service::work], which keeps the loop from running out *)
  thread : bool;        (** a thread runs the loop *)
  destroyed : bool
}.

(** A request goes to the fetcher. *)
Definition fetch (q : request_t) (h : handler) (s : service_t) : service_t :=
  mk_service (outstanding s ++ [(length (issued s), h)]) (replies s) (issued s ++ [q]) (work s) (thread s) (destroyed s).

(** What happens: requests while there is a service, completions where the loop is run,
    and the end: the work is reset, the loop runs out, the thread is joined. *)
Inductive step (s : service_t) : service_t -> Prop :=
| step_fetch q h : destroyed s = false -> work s = true -> step s (fetch q h s)
| step_complete l i h l' reply data error :
    thread s = true -> outstanding s = l ++ (i, h) :: l' ->
    step s (mk_service (l ++ l') (replies s ++ [(i, h reply data error)]) (issued s) (work s) true (destroyed s))
| step_reset_work :
    step s (mk_service (outstanding s) (replies s) (issued s) false (thread s) (destroyed s))
| step_run_out : work s = false -> outstanding s = [] ->
    step s (mk_service [] (replies s) (issued s) false false (destroyed s))
| step_joined : work s = false -> thread s = false ->
    step s (mk_service (outstanding s) (replies s) (issued s) false false true).

(** The constructor starts the thread, or does not. *)
Definition service_construct (starts_thread : bool) : service_t := mk_service [] [] [] true starts_thread false.
Definition reachable (starts_thread : bool) (s : service_t) : Prop := rtc step (service_construct starts_thread) s.
End service.
Arguments service_t : clear implicits.

(** ** [urlfetch_t] *)

Section urlfetch.
Definition headers_map (l : list (string * string)) : gmap string string :=
  foldl (fun m x => <[x.1 := x.2]> m) ∅ l.

(** [get_result_type] *)
Inductive reply :=
| Fetched (success : bool) (data : string) (code : Z) (headers : gmap string string)
| Aborted (ec : error_code) (what : string).

Definition success (code : Z) (error : boost_error) : bool :=
  match error with None => (code <? 400) || (600 <=? code) | Some _ => false end.

(** [urlfetch_get_handler] *)
Definition get_handler (r : response_t) (data : string) (error : boost_error) : reply :=
  match success (r_code r) error, r_code r, error with
  | false, 0, Some (value, message) =>
      Aborted (mk_ec generic_category value) ("Unable to download " ++ r_request_url r ++ ", error " ++ message)
  | ok, code, _ => Fetched ok data code (headers_map (r_headers r))
  end.

(** The maps are given in their order. *)
Definition prepare_request (url : string) (timeout : Z) (cookies headers : list (string * string)) (follow_location : bool) : request_t :=
  mk_request url (Some follow_location) (Some timeout)
    (headers ++ ((fun c => ("Cookie", c.1 ++ "=" ++ c.2)%string) <$> cookies)).

Inductive method := Get | Post (body : string).
Definition get (url : string) (timeout : Z) (cookies headers : list (string * string)) (follow_location : bool)
    (s : service_t reply) : method * service_t reply :=
  (Get, fetch (prepare_request url timeout cookies headers follow_location) get_handler s).
Definition post (url body : string) (timeout : Z) (cookies headers : list (string * string)) (follow_location : bool)
    (s : service_t reply) : method * service_t reply :=
  (Post body, fetch (prepare_request url timeout cookies headers follow_location) get_handler s).

(** The limit is read as an unsigned number and kept as an [int]. *)
Definition connections_limit (args : list (string * dynamic_t)) : option Z :=
  match find_field "connections-limit" args with
  | None => Some 10
  | Some (DUint z) => Some (i32 (u32 z))
  | Some (DInt z) => Some (i32 (u32 z))
  | Some _ => None
  end.

Definition urlfetch_construct (args : dynamic_t) : option (Z * service_t reply) :=
  as_object args ≫= fun args => connections_limit args ≫= fun limit => Some (limit, service_construct true).
End urlfetch.

(** *** The logger of the library *)

Inductive level := SWARM_LOG_ERROR | SWARM_LOG_INFO | SWARM_LOG_NOTICE | SWARM_LOG_DEBUG | SWARM_LOG_DATA | OtherLevel.
Inductive priority := p_error | p_info | p_debug.
(** The cases have no [break]: control falls through to the last assignment. *)
Definition case_debug (v : priority) : priority := p_debug.
Definition case_notice (v : priority) : priority := case_debug p_info.
Definition case_info (v : priority) : priority := case_notice p_info.
Definition case_error (v : priority) : priority := case_info p_error.
Definition verbosity (l : level) : priority :=
  match l with
  | SWARM_LOG_ERROR => case_error p_debug
  | SWARM_LOG_INFO => case_info p_debug
  | SWARM_LOG_NOTICE => case_notice p_debug
  | SWARM_LOG_DEBUG | SWARM_LOG_DATA | OtherLevel => case_debug p_debug
  end.

(** ** Facts *)

Section facts.
Context {Reply : Type}.
Implicit Types s : service_t Reply.

Record service_ok s : Prop := {
  so_ids : (outstanding s).*1 ++ (replies s).*1 ≡ₚ seq 0 (length (issued s));
  so_work : thread s = false -> outstanding s = []
}.

Lemma service_ok_step s s' : service_ok s -> step s s' -> (thread s = true \/ work s = false) ->
  service_ok s' /\ (thread s' = true \/ work s' = false).
Proof.
  intros [H1 H2] Hs Ht. destruct Hs as [q h _ Hw|l i h l' reply data error Ht' E| |Hw E|Hw Ht'].
  - split; [split|]; simpl; [|intros E; destruct Ht; congruence|tauto].
    rewrite length_app, seq_app. simpl. rewrite <- H1, fmap_app. simpl. solve_Permutation.
  - split; [split|]; simpl; [|done|by left]. rewrite <- H1, E, !fmap_app. simpl. solve_Permutation.
  - split; [by split|by right].
  - split; [split|]; simpl; [|done|by right]. by rewrite <- H1, E.
  - split; [split|]; simpl; [done|by intros _; apply H2|by right].
Qed.

(** A service whose constructor starts the thread answers every request once, and all of
    them before it is destroyed, whatever the order of completions. *)
Theorem answered_before_destruction s :
  reachable true s ->
  NoDup (replies s).*1 /\ (outstanding s = [] \/ destroyed s = true -> (replies s).*1 ≡ₚ seq 0 (length (issued s))).
Proof.
  intros Hr. assert ((service_ok s /\ (thread s = true \/ work s = false)) /\ (destroyed s = true -> thread s = false)) as [[[H1 H2] _] Hd].
  { unfold reachable in Hr. remember (service_construct true) as s0 eqn:E0.
    assert ((service_ok s0 /\ (thread s0 = true \/ work s0 = false)) /\ (destroyed s0 = true -> thread s0 = false)) as H0.
    { subst s0. split; [split; [by split|by left]|done]. }
    clear E0. induction Hr as [s|s s1 s2 Hs _ IH]; [done|]. apply IH. destruct H0 as [[Ho Ht] Hd]. split; [by eapply service_ok_step|].
    destruct Hs; simpl in *; try done. intros E. specialize (Hd E). congruence. }
  assert (NoDup ((outstanding s).*1 ++ (replies s).*1)) as Hn by (rewrite H1; apply NoDup_seq).
  split; [by apply NoDup_app in Hn as (_ & _ & Hn)|]. intros [E|E]; [by rewrite E in H1|]. by rewrite (H2 (Hd E)) in H1.
Qed.

(** A service whose constructor does not start one answers none. *)
Lemma never_answered s : reachable false s -> replies s = [] /\ thread s = false.
Proof.
  intros Hr. unfold reachable in Hr. remember (service_construct false) as s0 eqn:E0.
  assert (replies s0 = [] /\ thread s0 = false) as H0 by (by subst). clear E0.
  induction Hr as [s|s s1 s2 Hs _ IH]; [done|]. apply IH. destruct H0 as [H1 H2]. destruct Hs; simpl in *; try done. congruence.
Qed.
End facts.

(** What the client is told: a code the server sent is always passed on, with a success
    unless the transfer failed or the code is that of an error; only a transfer that brought
    no code at all is an error of the request. *)
Theorem get_handler_spec (r : response_t) (data : string) (error : boost_error) :
  match get_handler r data error with
  | Fetched ok d code headers =>
      d = data /\ code = r_code r /\ (ok = true <-> error = None /\ (code < 400 \/ 600 <= code)) /\
      (forall k v, headers !! k = Some v -> (k, v) ∈ r_headers r) /\ (forall k v, (k, v) ∈ r_headers r -> is_Some (headers !! k))
  | Aborted ec what => r_code r = 0 /\ exists value message, error = Some (value, message) /\ ec = mk_ec generic_category value
  end.
Proof.
  assert (forall l, (forall k v, headers_map l !! k = Some v -> (k, v) ∈ l) /\ (forall k v, (k, v) ∈ l -> is_Some (headers_map l !! k))) as Hh.
  { unfold headers_map. intros l. induction l as [|[k0 v0] l [IH1 IH2]] using rev_ind; simpl; [split; intros k v; [by rewrite lookup_empty|set_solver]|].
    rewrite foldl_app. simpl. split; intros k v.
    - rewrite lookup_insert_Some. intros [[-> ->]|[_ H%IH1]]; set_solver.
    - rewrite lookup_insert_is_Some'. intros [H%IH2|H]%elem_of_app; [by right|]. left. set_solver. }
  unfold get_handler, success. destruct error as [[value message]|].
  - destruct (r_code r) eqn:E; simpl; try (repeat (split; [done || (split; [done|by intros [? _]])|]); apply Hh).
    split; [done|]. by exists value, message.
  - set (b := (r_code r <? 400) || (600 <=? r_code r)). assert (b = true <-> r_code r < 400 \/ 600 <= r_code r) as Hb by (unfold b; lia).
    clearbody b. destruct b; simpl; destruct (r_code r) eqn:E; simpl; (split; [done|]; split; [done|]; split; [|apply Hh]); try tauto; naive_solver.
Qed.

(** Every message of the library is logged with the priority of a debug message, errors too. *)
Theorem everything_is_debug (l : level) : verbosity l = p_debug.
Proof. by destruct l. Qed.

Lemma answered_before_destruction_witness :
  exists s : service_t reply, reachable true s /\ destroyed s = true /\ (replies s).*1 ≡ₚ seq 0 (length (issued s)).
Proof.
  set (q := prepare_request "http://a/" 1 [] [] true).
  set (r := mk_response 200 "http://a/" []).
  exists (mk_service [] [(0%nat, get_handler r "x" None)] [q] false false true).
  assert (reachable true (mk_service [] [(0%nat, get_handler r "x" None)] [q] false false true)) as H.
  { eapply rtc_l; [apply (step_fetch _ q get_handler); reflexivity|].
    eapply rtc_l; [apply (step_complete _ [] 0%nat get_handler [] r "x" None); reflexivity|].
    eapply rtc_l; [apply step_reset_work|]. eapply rtc_l; [apply step_run_out; reflexivity|]. eapply rtc_l; [apply step_joined; reflexivity|]. apply rtc_refl. }
  split; [exact H|]. split; [reflexivity|]. apply (answered_before_destruction _ H). right. reflexivity.
Defined.
