(* ===== verification/Elasticsearch.v ===== *)
(** * The Elasticsearch service

    [elasticsearch/src/elasticsearch.cpp] and the handlers of its responses
    ([elasticsearch/src/rest/]).  The library of JSON is a parameter: [parse] gives a
    document or the text of an error, and [print] is its writer.  An accessor of a value of
    another type, or of a member that is not there, is a failed assertion of that library:
    [Crash]. *)

From stdpp Require Import pretty.
From S2P Require Import Prelude LogFilter Dynamic Channel Http Docker UrlFetch.

Local Open Scope Z_scope.

(** [asio::error::operation_aborted] *)
Definition operation_aborted : error_code := mk_ec system_category 125.

Definition HTTP_OK : Z := 200.
Definition HTTP_ACCEPTED : Z := 202.

(** What the client is told *)
Inductive reply :=
| Text (status : bool) (text : string)                     (** [get] and [index] *)
| Hits (status : bool) (count : Z) (hits : string)         (** [search] *)
| Flag (status : bool)                                     (** [delete] *)
| Abort (ec : error_code) (what : string)
| Crash.

Section elasticsearch.
Context (parse : string -> json + string) (print : json -> string).

(** A document, or the abort of the request *)
Definition with_document (data : string) (k : list (string * json) -> reply) : reply :=
  match parse data with
  | inr error => Abort operation_aborted ("parsing failed - " ++ error)
  | inl (JObject root) => k root
  | inl _ => Crash
  end.

(** [format("{}[{}]", error, code)] *)
Definition reason (error : string) (code : Z) : string := (error ++ "[" ++ pretty code ++ "]")%string.

Definition get_handler (code : Z) (data : string) : reply :=
  if code =? HTTP_OK then Text true data else
  with_document data (fun root =>
    match member root "error" with
    | None => Text false (reason "" code)
    | Some (JString error) => Text false (reason error code)
    | Some _ => Crash
    end).

Definition index_handler (code : Z) (data : string) : reply :=
  with_document data (fun root =>
    match member root "_id" with
    | None => Text false "error - response has no field '_id'"
    | Some (JString id) => Text true id
    | Some _ => Crash
    end).

Definition search_handler (code : Z) (data : string) : reply :=
  with_document data (fun root =>
    if code =? HTTP_OK then
      match member root "hits" with
      | None => Hits false 0 ""
      | Some (JObject hits) =>
          match member hits "hits", member hits "total" with
          | Some h, Some (JInt total) => Hits true total (print h)
          | _, _ => Crash
          end
      | Some _ => Crash
      end
    else match member root "error" with
         | Some (JString error) => Hits false 0 (reason error code)
         | _ => Crash
         end).

Definition delete_handler (code : Z) (data : string) : reply :=
  Flag ((code =? HTTP_OK) || (code =? HTTP_ACCEPTED)).

(** [request_handler_t] *)
Definition request_handler (callback : Z -> string -> reply) (r : response_t) (data : string) (error : boost_error) : reply :=
  match UrlFetch.success (r_code r) error, r_code r, error with
  | false, 0, Some (_, message) =>
      Abort operation_aborted ("Unable to download " ++ r_request_url r ++ ", error " ++ message)
  | _, code, _ => callback code data
  end.

(** ** The service *)

(** [extract_endpoint]: the port is cut to 16 bits. *)
Definition extract_endpoint (args : list (string * dynamic_t)) : option string :=
  as_string (field "host" (DString "127.0.0.1") args) ≫= fun host =>
  match field "port" (DInt 9200) args with
  | DInt z | DUint z => Some ("http://" ++ host ++ ":" ++ pretty (z mod 2 ^ 16))%string
  | _ => None
  end.

Record impl_t := mk_impl { m_endpoint : string; fetcher : service_t reply }.

(** The constructor does not start a thread for its loop. *)
Definition elasticsearch_construct (args : dynamic_t) : option impl_t :=
  as_object args ≫= fun args => extract_endpoint args ≫= fun e => Some (mk_impl e (service_construct false)).

Definition do_rest (url : string) (callback : Z -> string -> reply) (d : impl_t) : impl_t :=
  mk_impl (m_endpoint d) (fetch (mk_request url None None []) (request_handler callback) (fetcher d)).

Inductive call := Pending | Answered (r : reply) | InvalidArgument.

Definition path (parts : list string) : string := foldr (fun p s => "/" ++ p ++ s)%string "" parts.

Definition get (index type id : string) (d : impl_t) : method * call * impl_t :=
  (Get, Pending, do_rest (m_endpoint d ++ path [index; type; id] ++ "/") get_handler d).
Definition index (data index type id : string) (d : impl_t) : method * call * impl_t :=
  (Post data, Pending, do_rest (m_endpoint d ++ path [index; type; id]) index_handler d).
Definition search (index type query : string) (size : Z) (d : impl_t) : method * call * impl_t :=
  if size <=? 0 then (Get, InvalidArgument, d) else
  (Get, Pending,
   do_rest (m_endpoint d ++ path [index; type] ++ "/_search?q=" ++ query ++ "&size=" ++ pretty size) search_handler d).
(** Without the support of the library *)
Definition delete_index (index type id : string) (d : impl_t) : method * call * impl_t :=
  (Get, Answered (Abort operation_aborted "Delete operation is not supported"), d).

(** Requests of the clients, and what the fetcher does *)
Inductive operation :=
| OpGet (index type id : string)
| OpIndex (data index type id : string)
| OpSearch (index type query : string) (size : Z)
| OpDelete (index type id : string).

Definition run_operation (o : operation) (d : impl_t) : method * call * impl_t :=
  match o with
  | OpGet i t k => get i t k d
  | OpIndex b i t k => index b i t k d
  | OpSearch i t q n => search i t q n d
  | OpDelete i t k => delete_index i t k d
  end.

Inductive impl_step (d : impl_t) : impl_t -> Prop :=
| impl_request o : destroyed (fetcher d) = false -> work (fetcher d) = true -> impl_step d (run_operation o d).2
| impl_fetcher s : step (fetcher d) s -> impl_step d (mk_impl (m_endpoint d) s).
End elasticsearch.

(** ** Facts *)

Section facts.
Context (parse : string -> json + string) (print : json -> string).

(** No request that is given to the fetcher is ever answered: the loop on which it would
    complete is not run by anybody. *)
Theorem requests_never_answered (args : dynamic_t) (d d' : impl_t) :
  elasticsearch_construct args = Some d -> rtc (impl_step parse print) d d' -> replies (fetcher d') = [].
Proof.
  intros Hc Hr. apply (never_answered (fetcher d')).
  assert (reachable false (fetcher d)) as H0.
  { unfold elasticsearch_construct in Hc. destruct (as_object args) as [m|]; [|done]. simpl in Hc.
    destruct (extract_endpoint m); simplify_eq/=. apply rtc_refl. }
  clear Hc. induction Hr as [d|d d1 d2 Hs _ IH]; [done|]. apply IH.
  destruct Hs as [o Hd Hw|s Hs]; [|simpl; by eapply rtc_r].
  destruct o as [i t k|b i t k|i t q n|i t k]; simpl; unfold search; try (eapply rtc_r; [done|]; by apply step_fetch); [|done].
  destruct (n <=? 0); simpl; [done|]. eapply rtc_r; [done|]. by apply step_fetch.
Qed.

(** The handlers of [get] and [index] abort the request exactly when the text is no JSON,
    and that of [search] needs an error for every code that is not 200: a response without
    one is a failed assertion, where [get] makes an answer of it. *)
Theorem handlers_total (code : Z) (data : string) (root : list (string * json)) :
  parse data = inl (JObject root) ->
  (forall error, member root "error" = Some error -> exists s, error = JString s) ->
  get_handler parse code data =
    (if code =? HTTP_OK then Text true data
     else Text false (reason (match member root "error" with Some (JString e) => e | _ => "" end) code)) /\
  (code <> HTTP_OK ->
   (search_handler parse print code data = Crash <-> member root "error" = None) /\
   (forall e, member root "error" = Some (JString e) -> search_handler parse print code data = Hits false 0 (reason e code))).
Proof.
  intros Hp He. unfold get_handler, search_handler, with_document. rewrite Hp.
  assert (match member root "error" with Some (JString _) | None => True | _ => False end) as Hm.
  { destruct (member root "error") as [e|]; [|done]. destruct (He e) as [s ->]; done. }
  split.
  - destruct (code =? HTTP_OK); [done|]. destruct (member root "error") as [[]|]; done.
  - intros Hc. rewrite (proj2 (Z.eqb_neq code HTTP_OK)) by done. destruct (member root "error") as [[]|]; (split; [by split|naive_solver]).
Qed.
End facts.

(** ** Witnesses and examples

    The examples are those of [elasticsearch/tests/test_ResponseHandling.cpp]. *)

Definition documents (s : string) : json + string :=
  if String.eqb s "missing" then inl (JObject [("error", JString "IndexMissingException[[index] missing]"); ("status", JInt 404)])
  else if String.eqb s "not found" then inl (JObject [("_index", JString "twitter"); ("exists", JBool false)])
  else if String.eqb s "indexed" then inl (JObject [("ok", JBool true); ("_id", JString "1")])
  else inr "Expect either an object or array at root".

Example normal_response : get_handler documents 200 "{answer}" = Text true "{answer}".
Proof. reflexivity. Qed.
Example missing_index : get_handler documents 404 "missing" = Text false "IndexMissingException[[index] missing][404]".
Proof. vm_compute. reflexivity. Qed.
Example not_found : get_handler documents 404 "not found" = Text false "[404]".
Proof. vm_compute. reflexivity. Qed.
Example not_json : get_handler documents 400 "Not a json" = Abort operation_aborted "parsing failed - Expect either an object or array at root".
Proof. reflexivity. Qed.
Example index_normal : index_handler documents 200 "indexed" = Text true "1".
Proof. reflexivity. Qed.
Example index_without_id : index_handler documents 200 "not found" = Text false "error - response has no field '_id'".
Proof. reflexivity. Qed.

Lemma handlers_total_witness :
  get_handler documents 404 "not found" = Text false "[404]" /\ search_handler documents (fun _ => "") 404 "not found" = Crash.
Proof.
  destruct (handlers_total documents (fun _ => "") 404 "not found" [("_index", JString "twitter"); ("exists", JBool false)]) as [H1 H2].
  - reflexivity.
  - intros e. discriminate.
  - split; [rewrite H1; vm_compute; reflexivity|]. apply H2; [discriminate|reflexivity].
Defined.

Lemma requests_never_answered_witness :
  exists d, elasticsearch_construct (DObject []) = Some d /\
  replies (fetcher (run_operation documents (fun _ => "") (OpGet "i" "t" "1") d).2) = [].
Proof.
  eexists. split; [reflexivity|].
  eapply (requests_never_answered documents (fun _ => "") (DObject [])); [reflexivity|].
  apply rtc_once. apply impl_request; reflexivity.
Defined.
