(* ===== verification/Mongo.v ===== *)
(** * The MongoDB storage

    [mongo/storage.cpp]: blobs are files of GridFS, and their tags documents of another
    collection.  The client library and the server are not in this repository: the class
    [MongoDB] states what their documentation says of the calls the storage makes, and
    every call may fail with an exception, before or after it has had its effect.

    GridFS keeps every file that is stored under a name, until the name is removed.  A
    query by the name gives one of them, and which one is not said: [find_file]. *)

From S2P Require Import Prelude.

Local Open Scope Z_scope.
Local Open Scope cpp_scope.

(** ** What the storage uses of the library *)

(** A document of [cocaine.meta.<collection>] *)
Record meta_t := mk_meta { meta_key : string; meta_tags : list string }.

Class MongoDB (D : Type) := {
  (** the files of a name, oldest first, and the documents of a collection *)
  files_of : D -> string -> string -> list string;
  documents : D -> string -> list meta_t;
  store_file : string -> string -> string -> D -> D;
  remove_file : string -> string -> D -> D;
  insert_document : string -> meta_t -> D -> D;
  remove_documents : string -> string -> D -> D;
  find_file : list string -> option string;

  find_file_none : find_file [] = None;
  find_file_some : forall b l, exists b', find_file (b :: l) = Some b' /\ b' ∈ b :: l;
  files_of_store : forall c k b c' k' d,
    files_of (store_file c k b d) c' k' = if bool_decide (c = c' /\ k = k') then files_of d c' k' ++ [b] else files_of d c' k';
  files_of_remove : forall c k c' k' d,
    files_of (remove_file c k d) c' k' = if bool_decide (c = c' /\ k = k') then [] else files_of d c' k';
  files_of_insert : forall c m c' k' d, files_of (insert_document c m d) c' k' = files_of d c' k';
  files_of_remove_documents : forall c k c' k' d, files_of (remove_documents c k d) c' k' = files_of d c' k';
  documents_store : forall c k b c' d, documents (store_file c k b d) c' = documents d c';
  documents_remove : forall c k c' d, documents (remove_file c k d) c' = documents d c';
  documents_insert : forall c m c' d,
    documents (insert_document c m d) c' = if bool_decide (c = c') then documents d c' ++ [m] else documents d c';
  documents_remove_documents : forall c k c' d,
    documents (remove_documents c k d) c' =
      if bool_decide (c = c') then filter (fun m => meta_key m <> k) (documents d c') else documents d c'
}.

Section storage.
Context {D : Type} `{M : !MongoDB D}.

(** The code of a [DBException], and that of a missing object *)
Inductive mongo_error := db_exception | not_found | unspecified_uri.

Abbreviation S := (ST D mongo_error).

(** How a call of the server goes: it is done, or throws with or without its effect. *)
Inductive fate := Done | Failed (applied : bool).
Definition call (f : fate) (op : D -> D) : S unit :=
  match f with
  | Done => st_modify op
  | Failed applied => st_modify (fun d => if applied then op d else d) ;;; st_throw db_exception
  end.

(** ** The operations *)

(** [connected] is what the connection string gives: a client or an exception. *)
Definition mongo_construct (connected : bool) : outcome mongo_error unit :=
  if connected then Ret tt else Throw db_exception.

Definition read (collection key : string) (ok : bool) : S string :=
  if negb ok then st_throw db_exception else
  let! d := st_get in
  match find_file (files_of d collection key) with
  | Some b => st_ret b
  | None => st_throw not_found
  end.

Definition write (collection key blob : string) (tags : list string) (f1 f2 : fate) : S unit :=
  call f1 (insert_document collection (mk_meta key tags)) ;;;
  call f2 (store_file collection key blob).

(** The query asks for all of the tags; the server refuses an empty conjunction. *)
Definition has_all (tags : list string) (m : meta_t) : Prop := Forall (fun t => t ∈ meta_tags m) tags.
#[export] Instance has_all_dec tags m : Decision (has_all tags m).
Proof. unfold has_all. apply _. Defined.
Definition find (collection : string) (tags : list string) (ok : bool) : S (list string) :=
  if negb ok || bool_decide (tags = []) then st_throw db_exception else
  st_gets (fun d => meta_key <$> filter (has_all tags) (documents d collection)).

Definition remove (collection key : string) (f1 f2 : fate) : S unit :=
  call f1 (remove_documents collection key) ;;;
  call f2 (remove_file collection key).

Inductive operation :=
| OWrite (collection key blob : string) (tags : list string) (f1 f2 : fate)
| ORemove (collection key : string) (f1 f2 : fate).
Definition run_operation (o : operation) : S unit :=
  match o with
  | OWrite c k b t f1 f2 => write c k b t f1 f2
  | ORemove c k f1 f2 => remove c k f1 f2
  end.
Definition run (os : list operation) (d : D) : D := foldl (fun d o => (run_operation o d).2) d os.

Definition succeeds (o : operation) : Prop :=
  match o with OWrite _ _ _ _ f1 f2 | ORemove _ _ f1 f2 => f1 = Done /\ f2 = Done end.

(** ** Facts *)

(** The keys that are known are those that are stored. *)
Definition consistent (d : D) : Prop :=
  forall c k, files_of d c k <> [] <-> k ∈ meta_key <$> documents d c.

Lemma find_file_iff l : is_Some (find_file l) <-> l <> [].
Proof.
  destruct l as [|b l]; [rewrite find_file_none; split; [by intros [? ?]|done]|].
  destruct (find_file_some b l) as (b' & -> & _). split; [done|eauto].
Qed.

Lemma app_single_not_nil {A} (l : list A) x : l ++ [x] <> [].
Proof. by destruct l. Qed.

Lemma write_effect c k b t d :
  (write c k b t Done Done d).2 = store_file c k b (insert_document c (mk_meta k t) d).
Proof. done. Qed.
Lemma remove_effect c k d : (remove c k Done Done d).2 = remove_file c k (remove_documents c k d).
Proof. done. Qed.

Lemma consistent_step o d : succeeds o -> consistent d -> consistent (run_operation o d).2.
Proof.
  intros Ho Hd. destruct o as [c k b t f1 f2|c k f1 f2]; destruct Ho as [-> ->]; intros c' k'; unfold run_operation.
  - rewrite write_effect, files_of_store, files_of_insert, documents_store, documents_insert. specialize (Hd c' k').
    destruct (decide (c = c')) as [->|Hc].
    + rewrite (bool_decide_eq_true_2 (c' = c')) by done. rewrite fmap_app, elem_of_app. simpl. rewrite list_elem_of_singleton.
      destruct (decide (k = k')) as [->|Hk].
      * rewrite bool_decide_eq_true_2 by done. split; [naive_solver|intros _; apply app_single_not_nil].
      * rewrite bool_decide_eq_false_2 by naive_solver. naive_solver.
    + rewrite (bool_decide_eq_false_2 (c = c')), bool_decide_eq_false_2 by naive_solver. done.
  - rewrite remove_effect, files_of_remove, files_of_remove_documents, documents_remove, documents_remove_documents. specialize (Hd c' k').
    destruct (decide (c = c')) as [->|Hc].
    + rewrite (bool_decide_eq_true_2 (c' = c')) by done.
      assert (k' ∈ meta_key <$> filter (fun m => meta_key m <> k) (documents d c') <-> k' <> k /\ k' ∈ meta_key <$> documents d c') as ->.
      { rewrite !list_elem_of_fmap. setoid_rewrite list_elem_of_filter. naive_solver. }
      destruct (decide (k = k')) as [->|Hk].
      * rewrite bool_decide_eq_true_2 by done. split; [done|naive_solver].
      * rewrite bool_decide_eq_false_2 by naive_solver. naive_solver.
    + rewrite (bool_decide_eq_false_2 (c = c')), bool_decide_eq_false_2 by naive_solver. done.
Qed.

(** As long as no call of the server fails, a key is found by some tags exactly when it is
    stored, and whatever a search finds can be read. *)
Theorem mongo_consistent (os : list operation) (d : D) :
  consistent d -> Forall succeeds os ->
  consistent (run os d) /\
  forall c tags keys k, (find c tags true (run os d)).1 = Ret keys -> k ∈ keys ->
    exists b, (read c k true (run os d)).1 = Ret b /\ b ∈ files_of (run os d) c k.
Proof.
  intros Hd Hos. assert (consistent (run os d)) as H.
  { unfold run. revert d Hd. induction Hos as [|o os Ho _ IH]; intros d Hd; [done|]. by apply IH, consistent_step. }
  split; [done|]. intros c tags keys k Hf Hk.
  assert (files_of (run os d) c k <> []) as Hne.
  { apply H. unfold find in Hf. simpl in Hf. destruct (bool_decide (tags = [])); [done|]. injection Hf as <-.
    apply list_elem_of_fmap in Hk as (m & -> & Hm). apply list_elem_of_filter in Hm as [_ Hm]. apply list_elem_of_fmap. eauto. }
  unfold read, st_bind, st_get. cbn [negb]. destruct (files_of (run os d) c k) as [|b l]; [done|].
  destruct (find_file_some b l) as (b' & -> & ?). by exists b'.
Qed.

Definition elsewhere (collection key : string) (o : operation) : Prop :=
  match o with OWrite c k _ _ _ _ | ORemove c k _ _ => c <> collection \/ k <> key end.

Lemma elsewhere_step collection key o d :
  elsewhere collection key o -> files_of (run_operation o d).2 collection key = files_of d collection key.
Proof.
  destruct o as [c k b t f1 f2|c k f1 f2]; simpl; intros Hne;
    unfold write, remove, call, st_bind, st_modify, st_throw; destruct f1 as [|[]], f2 as [|[]]; simpl;
    rewrite ?files_of_store, ?files_of_remove, ?bool_decide_eq_false_2, ?files_of_insert, ?files_of_remove_documents by naive_solver; done.
Qed.

Lemma elsewhere_run collection key os : forall d,
  Forall (elsewhere collection key) os -> files_of (run os d) collection key = files_of d collection key.
Proof.
  unfold run. induction os as [|o os IH]; intros d Hos; [done|]. apply Forall_cons in Hos as [Ho Hos]. simpl.
  rewrite IH by done. by apply elsewhere_step.
Qed.

(** A blob is read back as it was written, if the key has been removed or was never written
    before, until the key is written again or removed. *)
Theorem read_back (collection key blob : string) (tags : list string) (os : list operation) (d : D) :
  files_of d collection key = [] \/ (exists d0, d = (remove collection key Done Done d0).2) ->
  Forall (elsewhere collection key) os ->
  (read collection key true (run (OWrite collection key blob tags Done Done :: os) d)).1 = Ret blob.
Proof.
  intros Hd Hos. change (run (OWrite collection key blob tags Done Done :: os) d) with (run os (write collection key blob tags Done Done d).2).
  assert (files_of d collection key = []) as E.
  { destruct Hd as [Hd|[d0 ->]]; [done|]. by rewrite remove_effect, files_of_remove, bool_decide_eq_true_2. }
  unfold read, st_bind, st_get. cbn [negb]. rewrite elsewhere_run by done.
  rewrite write_effect, files_of_store, bool_decide_eq_true_2, files_of_insert, E by done. simpl.
  destruct (find_file_some blob []) as (b' & -> & ->%list_elem_of_singleton). done.
Qed.

(** A key that is written again keeps its former file: what is read then is one of the two,
    as the library chooses. *)
Theorem former_blob_remains (collection key blob blob' : string) (t1 t2 : list string) (d : D) :
  files_of d collection key = [] ->
  let d' := run [OWrite collection key blob t1 Done Done; OWrite collection key blob' t2 Done Done] d in
  (read collection key true d').1 = match find_file [blob; blob'] with Some b => Ret b | None => Throw not_found end.
Proof.
  intros Hd d'. unfold d', run. cbn [foldl run_operation]. unfold read, st_bind, st_get. cbn [negb].
  rewrite !write_effect, files_of_store, files_of_insert, files_of_store, files_of_insert, !bool_decide_eq_true_2, Hd by done.
  simpl. by destruct (find_file [blob; blob']).
Qed.

(** The document of a former write stays: a key that is written again is found by the tags
    it no longer has, and twice by those it has kept. *)
Theorem former_tags_remain (collection key blob blob' : string) (t1 t2 t : string) (d : D) :
  documents d collection = [] ->
  let d' := run [OWrite collection key blob [t; t1] Done Done; OWrite collection key blob' [t; t2] Done Done] d in
  (find collection [t1] true d').1 = Ret (if bool_decide (t1 = t \/ t1 = t2) then [key; key] else [key]) /\
  (find collection [t] true d').1 = Ret [key; key].
Proof.
  intros Hd d'.
  assert (documents d' collection = [mk_meta key [t; t1]; mk_meta key [t; t2]]) as E.
  { unfold d', run. cbn [foldl run_operation]. by rewrite !write_effect, documents_store, documents_insert, documents_store, documents_insert, !bool_decide_eq_true_2, Hd. }
  assert (forall x m, has_all [x] m <-> x ∈ meta_tags m) as Hx.
  { intros x m. unfold has_all. by rewrite Forall_singleton. }
  assert (forall x, (find collection [x] true d').1 = Ret (meta_key <$> filter (has_all [x]) [mk_meta key [t; t1]; mk_meta key [t; t2]])) as Hf.
  { intros x. unfold find, st_gets. by rewrite <- E. }
  rewrite !Hf, !filter_cons, !filter_nil.
  split; repeat (let H := fresh in destruct (decide (has_all _ _)) as [H|H]; rewrite Hx in H; simpl in H);
    try case_bool_decide; first [done|exfalso; set_solver].
Qed.

(** A write that fails between its calls leaves a key that is found and cannot be read. *)
Theorem write_half_done (collection key blob : string) (tags : list string) (d : D) :
  files_of d collection key = [] ->
  tags <> [] ->
  let '(r, d') := write collection key blob tags Done (Failed false) d in
  r = Throw db_exception /\ (read collection key true d').1 = Throw not_found /\
  exists keys, (find collection tags true d').1 = Ret keys /\ key ∈ keys.
Proof.
  intros Hd Ht. unfold write, call, st_bind, st_modify, st_throw. simpl. split; [done|]. unfold read, find, st_bind, st_get, st_gets. simpl.
  rewrite files_of_insert, Hd, find_file_none, (bool_decide_eq_false_2 (tags = [])) by done. split; [done|]. eexists. split; [done|]. rewrite documents_insert, bool_decide_eq_true_2 by done.
  rewrite filter_app, fmap_app. apply elem_of_app. right. rewrite filter_cons_True; [set_solver|]. by apply Forall_forall.
Qed.
End storage.

(** ** A server *)

Record server_t := mk_server { s_files : list (string * string * string); s_documents : gmap string (list meta_t) }.

#[export, refine] Instance map_server : MongoDB server_t := {|
  files_of d c k := (filter (fun f => f.1 = (c, k)) (s_files d)).*2;
  documents d c := default [] (s_documents d !! c);
  store_file c k b d := mk_server (s_files d ++ [(c, k, b)]) (s_documents d);
  remove_file c k d := mk_server (filter (fun f => f.1 <> (c, k)) (s_files d)) (s_documents d);
  insert_document c m d := mk_server (s_files d) (<[c := default [] (s_documents d !! c) ++ [m]]> (s_documents d));
  remove_documents c k d := mk_server (s_files d) (<[c := filter (fun m => meta_key m <> k) (default [] (s_documents d !! c))]> (s_documents d));
  find_file l := head l
|}.
Proof.
  - done.
  - intros b l. exists b. split; [done|apply list_elem_of_here].
  - intros c k b c' k' d. simpl. rewrite filter_app, fmap_app. case_bool_decide as H.
    + destruct H as [-> ->]. by rewrite filter_cons_True.
    + rewrite filter_cons_False by (simpl; naive_solver). simpl. by rewrite app_nil_r.
  - intros c k c' k' d. simpl. rewrite list_filter_filter. case_bool_decide as H.
    + destruct H as [-> ->]. rewrite (list_filter_iff _ (fun _ => False)) by naive_solver.
      by induction (s_files d).
    + f_equal. apply list_filter_iff. intros f. split; [by intros [? ?]|]. intros E. split; [done|]. rewrite E. intros [= -> ->]. by apply H.
  - done.
  - done.
  - done.
  - done.
  - intros c m c' d. simpl. case_bool_decide as H; [subst; by rewrite lookup_insert_eq|]. by rewrite lookup_insert_ne.
  - intros c k c' d. simpl. case_bool_decide as H; [subst; by rewrite lookup_insert_eq|]. by rewrite lookup_insert_ne.
Defined.

Definition empty_server : server_t := mk_server [] ∅.

Lemma mongo_consistent_witness :
  exists b, (read "c" "k" true (run [OWrite "c" "k" "blob" ["t"] Done Done; OWrite "c" "l" "x" ["u"] Done Done; ORemove "c" "l" Done Done] empty_server)).1 = Ret b.
Proof.
  destruct (mongo_consistent [OWrite "c" "k" "blob" ["t"] Done Done; OWrite "c" "l" "x" ["u"] Done Done; ORemove "c" "l" Done Done] empty_server) as [_ H].
  - intros c k. simpl. rewrite !lookup_empty. simpl. split; [done|by intros ?%not_elem_of_nil].
  - repeat constructor.
  - destruct (H "c" ["t"] ["k"] "k") as (b & E & _); [vm_compute; reflexivity|apply list_elem_of_here|]. by exists b.
Defined.

(** Here the library gives the oldest file. *)
Lemma former_blob_witness :
  (read "c" "k" true (run [OWrite "c" "k" "old" ["t"] Done Done; OWrite "c" "k" "new" ["t"] Done Done] empty_server)).1 = Ret "old".
Proof. rewrite (former_blob_remains (M := map_server) "c" "k" "old" "new" ["t"] ["t"] empty_server eq_refl). reflexivity. Defined.

Lemma read_back_witness :
  (read "c" "k" true (run [OWrite "c" "k" "blob" ["t"] Done Done; ORemove "c" "l" Done (Failed true)] empty_server)).1 = Ret "blob".
Proof.
  apply (read_back "c" "k" "blob" ["t"] [ORemove "c" "l" Done (Failed true)] empty_server); [by left|].
  apply Forall_singleton. by right.
Defined.

Lemma former_tags_witness :
  (find "c" ["old"] true (run [OWrite "c" "k" "1" ["app"; "old"] Done Done; OWrite "c" "k" "2" ["app"; "new"] Done Done] empty_server)).1 = Ret ["k"].
Proof.
  destruct (former_tags_remain "c" "k" "1" "2" "old" "new" "app" empty_server) as [H _]; [reflexivity|].
  rewrite H. reflexivity.
Defined.

Lemma write_half_done_witness :
  (read "c" "k" true (write "c" "k" "1" ["t"] Done (Failed false) empty_server).2).1 = Throw not_found.
Proof.
  pose proof (write_half_done "c" "k" "1" ["t"] empty_server eq_refl ltac:(discriminate)) as H.
  destruct (write "c" "k" "1" ["t"] Done (Failed false) empty_server) as [r d']. apply H.
Defined.
