(* ===== verification/Eblob.v ===== *)
(** * The eblob storage

    [eblob/eblob.cpp]: a storage of JSON values in files of the eblob library, a file for
    every namespace.  The file of a namespace is opened by the first [put] of the process;
    the other requests look only at files that are open, but for [all], which reads the
    file itself.

    The library is not in this repository.  The class [EblobLibrary] says what the storage
    relies on; every call may fail with an exception, before or after it has had its
    effect, and whether reading a key that is not there is a failure is left open.  So is
    the JSON library, of which the class [Json] says that a value can be read back. *)

From S2P Require Import Prelude.

Local Open Scope cpp_scope.

(** ** The libraries *)

(** A record of a file: whether it is marked as removed, its key and its data *)
Record record_t := mk_record { removed : bool; r_key : string; r_data : string }.

Class EblobLibrary (D : Type) := {
  hashed : string -> string;
  stored : D -> string -> gmap string string;
  records : D -> string -> list record_t;
  open_file : string -> D -> D;
  write_record : string -> string -> string -> D -> D;
  remove_record : string -> string -> D -> D;

  hashed_inj : forall a b, hashed a = hashed b -> a = b;
  stored_open : forall n d m, stored (open_file n d) m = stored d m;
  stored_write : forall n k v d m,
    stored (write_record n k v d) m = if bool_decide (n = m) then <[k := v]> (stored d m) else stored d m;
  stored_remove : forall n k d m,
    stored (remove_record n k d) m = if bool_decide (n = m) then delete k (stored d m) else stored d m;
  records_stored : forall d n,
    (fun r => (r_key r, r_data r)) <$> filter (fun r => removed r = false) (records d n) ≡ₚ map_to_list (stored d n)
}.

Class Json (J : Type) := {
  print_json : J -> string;
  parse_json : string -> option J;
  parse_print : forall v, parse_json (print_json v) = Some v;
  print_nonempty : forall v, print_json v <> ""%string
}.

Section storage.
Context {D J : Type} `{L : !EblobLibrary D} `{JS : !Json J}.

Inductive eblob_error := library_error | corrupted_data | no_directory.

(** The files that are open, and what the library has on the disk *)
Record eblob_storage_t := mk_eblob { m_eblobs : gset string; disk : D }.

Abbreviation E := (ST eblob_storage_t eblob_error).

Definition set_disk (f : D -> D) (s : eblob_storage_t) : eblob_storage_t := mk_eblob (m_eblobs s) (f (disk s)).

Inductive fate := Done | Failed (applied : bool).
Definition call (f : fate) (op : D -> D) : E unit :=
  match f with
  | Done => st_modify (set_disk op)
  | Failed applied => st_modify (fun s => if applied then set_disk op s else s) ;;; st_throw library_error
  end.

(** ** The storage *)

(** What is at the path of the configuration, and whether a directory can be made *)
Inductive path_t := Missing (created : bool) | Directory | OtherFile.
Definition eblob_construct (p : path_t) (d : D) : outcome eblob_error eblob_storage_t :=
  match p with
  | Missing true | Directory => Ret (mk_eblob ∅ d)
  | Missing false | OtherFile => Throw no_directory
  end.

Definition put (ns key : string) (value : J) (opened written : fate) : E unit :=
  let! s := st_get in
  (if bool_decide (ns ∈ m_eblobs s) then st_ret tt
   else call opened (open_file ns) ;;; st_modify (fun s => mk_eblob ({[ns]} ∪ m_eblobs s) (disk s))) ;;;
  call written (write_record ns (hashed key) (print_json value)).

(** [read_hashed]; a key that is not there has no data. *)
Definition read (ns key : string) (ok : bool) : E string :=
  if ok then st_gets (fun s => default ""%string (stored (disk s) ns !! hashed key)) else st_throw library_error.

Definition exists_ (ns key : string) (ok : bool) : E bool :=
  let! s := st_get in
  if bool_decide (ns ∈ m_eblobs s) then
    let! object := read ns key ok in
    st_ret (negb (String.eqb object ""))
  else st_ret false.

(** [None] is the empty object. *)
Definition get (ns key : string) (ok : bool) : E (option J) :=
  let! s := st_get in
  if bool_decide (ns ∈ m_eblobs s) then
    let! object := read ns key ok in
    if String.eqb object "" then st_ret None
    else match parse_json object with
         | Some v => st_ret (Some v)
         | None => st_throw corrupted_data
         end
  else st_ret None.

(** [eblob_collector_t::callback]: the values get random names of their own. *)
Fixpoint collect (ids : nat -> string) (l : list record_t) (root : list (string * J)) : outcome eblob_error (list (string * J)) :=
  match l with
  | [] => Ret root
  | r :: l =>
      if removed r then collect ids l root
      else match parse_json (r_data r) with
           | Some v => collect ids l (root ++ [(ids (length root), v)])
           | None => Throw corrupted_data
           end
  end.

(** Every exception is an empty object. *)
Definition all (ids : nat -> string) (ns : string) (ok : bool) : E (list (string * J)) :=
  st_gets (fun s =>
    if ok then match collect ids (records (disk s) ns) [] with Ret root => root | Throw _ => [] end else []).

Definition remove (ns key : string) (f : fate) : E unit :=
  let! s := st_get in
  if bool_decide (ns ∈ m_eblobs s) then call f (remove_record ns (hashed key)) else st_ret tt.

(** [eblob_purger_t::complete]: the first failure ends the loop. *)
Fixpoint purge_keys (ns : string) (keys : list string) (fs : nat -> fate) (i : nat) : E unit :=
  match keys with
  | [] => st_ret tt
  | k :: keys => call (fs i) (remove_record ns k) ;;; purge_keys ns keys fs (S i)
  end.

(** [eblob_purger_t] keeps the keys of all records, those that are marked as removed too. *)
Definition purge (ns : string) (ok : bool) (fs : nat -> fate) : E unit :=
  let! s := st_get in
  if bool_decide (ns ∈ m_eblobs s) then
    st_catch (if ok then purge_keys ns (r_key <$> records (disk s) ns) fs 0 else st_throw library_error) (fun _ => st_ret tt)
  else st_ret tt.

(** ** Facts *)

Lemma stored_keys d ns k : is_Some (stored d ns !! k) -> k ∈ r_key <$> records d ns.
Proof.
  intros [v Hv]. assert ((k, v) ∈ (fun r => (r_key r, r_data r)) <$> filter (fun r => removed r = false) (records d ns)) as H.
  { rewrite records_stored. by apply elem_of_map_to_list. }
  apply list_elem_of_fmap in H as (r & [= -> ->] & [_ Hr]%list_elem_of_filter). by apply list_elem_of_fmap_2.
Qed.

Definition put_disk (ns key : string) (v : J) (s : eblob_storage_t) : D :=
  write_record ns (hashed key) (print_json v) (if bool_decide (ns ∈ m_eblobs s) then disk s else open_file ns (disk s)).

Lemma put_effect ns key v s :
  put ns key v Done Done s = (Ret tt, mk_eblob ({[ns]} ∪ m_eblobs s) (put_disk ns key v s)).
Proof.
  unfold put, put_disk, st_bind, st_get, call, st_modify, st_ret.
  destruct (bool_decide_reflect (ns ∈ m_eblobs s)) as [H|H]; cbn; [|done].
  unfold set_disk. do 2 f_equal. set_solver.
Qed.

Lemma put_stored ns key v s ns' k :
  stored (put_disk ns key v s) ns' !! k = if bool_decide (ns = ns' /\ hashed key = k) then Some (print_json v) else stored (disk s) ns' !! k.
Proof.
  unfold put_disk. rewrite stored_write.
  assert (stored (if bool_decide (ns ∈ m_eblobs s) then disk s else open_file ns (disk s)) ns' = stored (disk s) ns') as ->
    by (by destruct (bool_decide (ns ∈ m_eblobs s)); [|apply stored_open]).
  destruct (bool_decide_reflect (ns = ns')) as [<-|Hn]; [|by rewrite bool_decide_eq_false_2 by naive_solver].
  destruct (decide (hashed key = k)) as [<-|Hk].
  - by rewrite lookup_insert_eq, bool_decide_eq_true_2.
  - by rewrite lookup_insert_ne, bool_decide_eq_false_2 by naive_solver.
Qed.

(** What is seen through an open file *)
Lemma seen ns key v s :
  ns ∈ m_eblobs s -> stored (disk s) ns !! hashed key = Some (print_json v) ->
  exists_ ns key true s = (Ret true, s) /\ get ns key true s = (Ret (Some v), s).
Proof.
  intros Hn Hs. pose proof (print_nonempty v) as N. apply String.eqb_neq in N.
  unfold exists_, get, read, st_bind, st_get, st_gets, st_ret. rewrite !bool_decide_eq_true_2 by done.
  rewrite Hs. cbn. by rewrite N, parse_print.
Qed.

(** What [put] has stored is what [get] gives, and nothing else has changed. *)
Theorem put_get (ns key : string) (v : J) (s : eblob_storage_t) :
  let r := put ns key v Done Done s in
  r.1 = Ret tt /\ get ns key true r.2 = (Ret (Some v), r.2) /\ exists_ ns key true r.2 = (Ret true, r.2) /\
  forall ns' k', (ns', k') <> (ns, key) -> stored (disk r.2) ns' !! hashed k' = stored (disk s) ns' !! hashed k'.
Proof.
  cbv zeta. rewrite put_effect. cbn [fst snd].
  destruct (seen ns key v (mk_eblob ({[ns]} ∪ m_eblobs s) (put_disk ns key v s))) as [H1 H2].
  - simpl. set_solver.
  - simpl. by rewrite put_stored, bool_decide_eq_true_2.
  - split_and!; [done..|]. intros ns' k' Hne. simpl. rewrite put_stored, bool_decide_eq_false_2; [done|].
    intros [-> E%hashed_inj]. congruence.
Qed.

(** A process that has stored nothing in a namespace does not see what is there: nothing
    exists, everything is the empty object, nothing is removed.  The first [put] of any key
    brings the others back. *)
Theorem unopened_is_invisible (ns key key' : string) (v v' : J) (s : eblob_storage_t) (ok : bool) (f : fate) (fs : nat -> fate) :
  ns ∉ m_eblobs s -> stored (disk s) ns !! hashed key = Some (print_json v) -> key' <> key ->
  exists_ ns key ok s = (Ret false, s) /\ get ns key ok s = (Ret None, s) /\
  remove ns key f s = (Ret tt, s) /\ purge ns ok fs s = (Ret tt, s) /\
  let s' := (put ns key' v' Done Done s).2 in
  exists_ ns key true s' = (Ret true, s') /\ get ns key true s' = (Ret (Some v), s').
Proof.
  intros Hn Hs Hk. unfold exists_ at 1, get at 1, remove, purge, st_bind, st_get, st_ret.
  rewrite bool_decide_eq_false_2 by done. do 4 (split; [done|]). cbv zeta. rewrite put_effect. apply seen; simpl; [set_solver|].
  rewrite put_stored, bool_decide_eq_false_2; [done|]. by intros [_ ?%hashed_inj].
Qed.

(** *** [all] *)

Lemma collect_spec ids l root :
  Forall (fun r => removed r = false -> is_Some (parse_json (r_data r))) l ->
  exists more, collect ids l root = Ret (root ++ more) /\
    more.*2 = omap (fun r => parse_json (r_data r)) (filter (fun r => removed r = false) l).
Proof.
  revert root. induction l as [|r l IH]; intros root H; simpl; [exists []; by rewrite app_nil_r|].
  apply Forall_cons in H as [Hr H]. destruct (removed r) eqn:E.
  - rewrite filter_cons_False by (by rewrite E). by apply IH.
  - rewrite filter_cons_True by done. destruct (Hr eq_refl) as [v Hv]. rewrite Hv. simpl. rewrite Hv.
    destruct (IH (root ++ [(ids (length root), v)]) H) as (more & -> & Hm).
    exists ((ids (length root), v) :: more). rewrite <-app_assoc. split; [done|]. cbn. by f_equal.
Qed.

(** [all] lists the values of a namespace, whether its file is open or not; but one value
    that cannot be parsed, like any failure of the library, makes the answer empty. *)
Theorem all_spec (ids : nat -> string) (ns : string) (s : eblob_storage_t) :
  (map_Forall (fun _ data => is_Some (parse_json data)) (stored (disk s) ns) ->
   exists l, all ids ns true s = (Ret l, s) /\ l.*2 ≡ₚ omap parse_json ((map_to_list (stored (disk s) ns)).*2)) /\
  (forall r, r ∈ records (disk s) ns -> removed r = false -> parse_json (r_data r) = None -> all ids ns true s = (Ret [], s)) /\
  all ids ns false s = (Ret [], s).
Proof.
  pose proof (records_stored (disk s) ns) as P. split_and!; [| |done].
  - intros H. destruct (collect_spec ids (records (disk s) ns) []) as (l & E & El).
    { apply Forall_forall. intros r Hr Hl. rewrite map_Forall_to_list, Forall_forall in H.
      apply (H (r_key r, r_data r)). rewrite <-P. by apply (list_elem_of_fmap_2 (fun r => (r_key r, r_data r))), list_elem_of_filter. }
    exists l. unfold all, st_gets. rewrite E. split; [done|]. rewrite El, <-P. clear.
    induction (filter _ (records (disk s) ns)) as [|r l IH]; simpl; [done|]. destruct (parse_json (r_data r)); by rewrite IH.
  - intros r Hr Hl Hp. unfold all, st_gets.
    assert (forall root, exists e, collect ids (records (disk s) ns) root = Throw e) as C; [|by destruct (C []) as [e ->]].
    clear P. induction (records (disk s) ns) as [|r' l IH]; [by apply not_elem_of_nil in Hr|]. intros root. simpl.
    apply elem_of_cons in Hr as [<-|Hr]; [rewrite Hl, Hp; by eexists|].
    destruct (removed r'); [by apply IH|]. destruct (parse_json (r_data r')); [by apply IH|by eexists].
Qed.

(** *** [purge] *)

Lemma purge_keys_done ns keys fs i s :
  (forall i, fs i = Done) ->
  exists s', purge_keys ns keys fs i s = (Ret tt, s') /\ m_eblobs s' = m_eblobs s /\
    forall m k, stored (disk s') m !! k = if bool_decide (ns = m /\ k ∈ keys) then None else stored (disk s) m !! k.
Proof.
  intros Hf. revert i s. induction keys as [|k keys IH]; intros i s; simpl.
  - exists s. split_and!; [done..|]. intros m k. rewrite bool_decide_eq_false_2; [done|]. by intros [_ ?%not_elem_of_nil].
  - unfold st_bind, call. rewrite Hf. cbn. destruct (IH (S i) (set_disk (remove_record ns k) s)) as (s' & E & Em & Es).
    exists s'. split_and!; [done..|]. intros m k'. rewrite Es. simpl. rewrite stored_remove.
    destruct (decide (ns = m)) as [<-|Hn].
    + rewrite (bool_decide_eq_true_2 (ns = ns)) by done. destruct (decide (k = k')) as [<-|Hk].
      * rewrite lookup_delete_eq, (bool_decide_eq_true_2 (ns = ns /\ k ∈ k :: keys)) by (split; [done|by left]).
        by destruct (bool_decide _).
      * rewrite lookup_delete_ne by done. rewrite (bool_decide_ext (ns = ns /\ k' ∈ keys) (ns = ns /\ k' ∈ k :: keys)) by set_solver. done.
    + by rewrite !bool_decide_eq_false_2 by naive_solver.
Qed.

(** A namespace that is purged is empty if it was open and nothing failed; an exception is
    swallowed, and what was not removed before it stays. *)
Theorem purge_empties (ns : string) (s : eblob_storage_t) (fs : nat -> fate) :
  ns ∈ m_eblobs s ->
  (forall ok, (purge ns ok fs s).1 = Ret tt) /\
  ((forall i, fs i = Done) -> stored (disk (purge ns true fs s).2) ns = ∅ /\
     forall m, m <> ns -> stored (disk (purge ns true fs s).2) m = stored (disk s) m).
Proof.
  intros Hn. unfold purge, st_bind, st_get, st_catch. rewrite bool_decide_eq_true_2 by done. split.
  - intros ok. destruct ok; [|done]. by destruct (purge_keys _ _ _ _ s) as [[[]|] ?].
  - intros Hf. destruct (purge_keys_done ns (r_key <$> records (disk s) ns) fs 0 s Hf) as (s' & -> & _ & Es). simpl. split.
    + apply map_empty. intros k. rewrite Es. destruct (bool_decide_reflect (ns = ns /\ k ∈ r_key <$> records (disk s) ns)) as [?|H]; [done|].
      apply eq_None_not_Some. intros Hk. apply H. split; [done|]. by apply stored_keys.
    + intros m Hm. apply map_eq. intros k. rewrite Es, bool_decide_eq_false_2 by naive_solver. done.
Qed.
End storage.

(** *** Instances and examples *)

#[export] Program Instance map_library : EblobLibrary (gmap string (gmap string string)) := {|
  hashed k := k;
  stored d n := default ∅ (d !! n);
  records d n := (fun x => mk_record false x.1 x.2) <$> map_to_list (default ∅ (d !! n));
  open_file _ d := d;
  write_record n k v d := <[n := <[k := v]> (default ∅ (d !! n))]> d;
  remove_record n k d := <[n := delete k (default ∅ (d !! n))]> d
|}.
Next Obligation. done. Qed.
Next Obligation. done. Qed.
Next Obligation.
  intros n k v d m. simpl. destruct (decide (n = m)) as [<-|H]; [by rewrite lookup_insert_eq, bool_decide_eq_true_2|].
  by rewrite lookup_insert_ne, bool_decide_eq_false_2.
Qed.
Next Obligation.
  intros n k d m. simpl. destruct (decide (n = m)) as [<-|H]; [by rewrite lookup_insert_eq, bool_decide_eq_true_2|].
  by rewrite lookup_insert_ne, bool_decide_eq_false_2.
Qed.
Next Obligation.
  intros d n. simpl. generalize (map_to_list (default (∅ : gmap string string) (d !! n))). intros l.
  induction l as [|[k v] l IH]; [reflexivity|]. cbn [fmap list_fmap].
  rewrite filter_cons_True by done. cbn [fmap list_fmap]. by constructor.
Qed.

#[export] Program Instance quoted : Json string := {|
  print_json v := String (Ascii.ascii_of_nat 39) v;
  parse_json s := match s with String _ v => Some v | EmptyString => None end
|}.
Next Obligation. done. Qed.
Next Obligation. done. Qed.

Definition restarted : eblob_storage_t (D := gmap string (gmap string string)) := mk_eblob ∅ {["apps"%string := {["echo"%string := "'1"%string]}]}.

Lemma unopened_is_invisible_witness :
  exists_ "apps" "echo" true restarted = (Ret false, restarted) /\
  (exists_ "apps" "echo" true (put "apps" "other" "2"%string Done Done restarted).2).1 = Ret true.
Proof.
  destruct (unopened_is_invisible "apps" "echo" "other" "1" "2" restarted true Done (fun _ => Done)) as (H & _ & _ & _ & H1 & _);
    [set_solver|reflexivity|discriminate|].
  split; [exact H|]. by rewrite H1.
Defined.

Lemma purge_empties_witness :
  stored (disk (purge "apps" true (fun _ => Done) (put "apps" "other" "2"%string Done Done restarted).2).2) "apps" = ∅.
Proof.
  destruct (purge_empties "apps" (put "apps" "other" "2"%string Done Done restarted).2 (fun _ => Done)) as [_ H];
    [vm_compute; reflexivity|]. by apply H.
Defined.
